(* ===== verification/_CoqProject ===== *)
-Q . S2P
Prelude.v
GoStd.v
Platform.v
RefPlatform.v
Types.v
Models.v
Converter.v
Gorm.v
RefDb.v
Interfaces.v
Storage.v
StorageWrite.v
WellFormed.v
Random.v
Migrations.v
StorageRead.v
StorageInstance.v
MissedData.v
Controller.v
Completeness.v
ControllerProofs.v
ControllerRefinement.v
Background.v
Processor.v
Rows.v
Transformer.v
TransformerProofs.v
TransformerLoop.v
TestData.v
RefTestData.v
TestDataProofs.v
Heavymock.v
HeavymockProofs.v
JetTreeProofs.v
TestRecords.v
TestRows.v
Extractor.v
ExtractorProofs.v
Versions.v
MockPlatform.v
Pipeline.v
Integration.v
Exporter.v
Credentials.v
Connection.v
Api.v
ApiProofs.v
Load.v
Lifecycle.v
Shutdown.v
Logging.v
Metrics.v
Collectors.v
Commands.v
TestDb.v
