(* ===== verification/Prelude.v ===== *)
(** * Block Explorer: a verification library

    The Block Explorer copies the pulses of a ledger platform into a database
    and serves them over HTTP and gRPC.  This library models its own Go code
    (package paths below are under [src/]) and proves what makes each part
    correct.  Definitions keep the names of the Go functions; in a file a
    definition that models a part of a function says which part.

    ** The program

    - The extractor ([etl/extractor]) walks over the pulses of the platform and
      hands each pulse, with all its records, to the transformer.
    - The transformer ([etl/transformer]) turns a platform pulse into one
      canonical jet drop per jet, the states of an object in order of change.
    - The processor ([etl/processor]) stores pulse, jet drop and records, and
      tells the controller which jet of which pulse is stored.
    - The controller ([etl/controller]) marks a pulse complete when its jets cover
      the jet tree, reloads what is missing through the extractor, and advances
      the sequential pulse.
    - The storage ([etl/storage]) is the SQL of all this over gorm; the HTTP API
      ([api]) and the exporter ([etl/exporter]) read through it.
    - The commands ([cmd]) start these parts and stop them when a signal or a lost
      connection asks for it; logging, metrics and profiling
      ([instrumentation], [etl/dbconn]) run beside them.  The migrations
      ([migrations]) create the tables and can fill them with random rows; the
      generators of the tests ([testutils]) make such data for every part.
    - The integration tests ([test], [testutils]) put a mock of the platform, the
      parts above and a database together; the load tests ([load]) attack the HTTP
      API with rows they first read from it.

    ** The files

    - [Prelude]: Go errors and results, machine integers, bytes and strings;
      [GoStd]: what is used of [strings], [strconv], [net/url], [base64].
    - [Platform]: the platform's libraries and messages, third-party code, as the
      parameter [Platform] with [PlatformLaws]; [RefPlatform]: a concrete one.
    - [Types], [Models], [Converter]: [etl/types], [etl/models] with
      [etl/storage/helper.go], [instrumentation/{comparator,converter}].
    - [Gorm]: the tables of [migrations], the text gorm makes of a chain of
      builder calls (conditions are parsed with SQL precedence, since the code
      splits a parenthesis over two calls), and the documented laws of its
      operations, [GormLaws]; a statement may always fail.  [RefDb]: an in-memory
      database that satisfies them.
    - [Interfaces]: [etl/interfaces] as classes.  [StorageLaws] is the contract of
      the storage its clients are verified against.
    - [Storage]: every method of [etl/storage/storage.go]; [StorageWrite],
      [StorageRead]: its theorems; [StorageInstance]: it satisfies [StorageLaws],
      so the theorems about the clients hold of the real storage; [WellFormed]: the
      keys of the schema as an invariant of single writes.
    - [MissedData], [Controller]: [etl/controller]; [Completeness]: the jet tree;
      [ControllerProofs]: the controller as a transition system;
      [ControllerRefinement]: its abstract specification, the progress of pulses;
      [Background]: its goroutines, how the cleaner is started and stopped, and runs
      of its loops.
    - [Processor]: [etl/processor/processor.go]; [Rows]: what the rows are after any
      of its writes and the controller's; [Transformer] and
      [TransformerProofs], [TransformerLoop]: its goroutine; [Extractor] (with [platform_pulse.go]) and
      [ExtractorProofs]; [Pipeline]: extractor, transformer, processor, controller
      and storage composed; [Exporter]; [Credentials]:
      [etl/connection/credentials.go], [Connection]: [grpc_client.go] and
      [etl/dbconn/connection.go]; [Api] and [ApiProofs].
    - [Lifecycle]: the three [main] functions as lists of stages, the plugin of
      [etl/dbconn/plugins] and the watcher of [grpc_client.go]; [Shutdown]: the
      graceful stop against the workers and the plugin; [Commands]: the two that
      migrate, [configuration/gen] and [api/pprof_router.go].
    - [Logging]: [instrumentation/belogger] and [profefe]; [Metrics]:
      [instrumentation/metrics] and the collectors of [etl/storage]; [Collectors]:
      the metrics each package declares and the commands register.
    - [Random]: drawing random data, as the class [Random] and the state monad
      [Gen]; [Migrations]: [migrations]; [TestData] and [TestRows]: the generators
      of [testutils], with [TestDataProofs] and [JetTreeProofs]; [TestRecords]: the
      records spread over pulses; [RefTestData]: what they use of the platform,
      concretely.
    - [Heavymock] and [HeavymockProofs]: [test/heavymock] and the pulse client of
      the tests; [Versions]: the version checks of [testutils/grpc.go] and what the
      extractor sends; [MockPlatform]: the extractor against the mock;
      [Integration]: [test/integration] with [testutils/{betestsetup,
      connectionmanager}]; [TestDb]: [testutils/db.go]; [Load]: [load].

    ** Modelling conventions

    - State is passed explicitly; a Go [(value, error)] is a [result]; a panic is
      [None] of an [option].  A critical section under one mutex is one step.
    - A map is ranged over in an order the runtime chooses: the order is an
      argument, and theorems hold for every order ([orders_ok], [visit_ok]).
    - Concurrency is a step relation: [ControllerProofs.step] interleaves the two
      loops of the controller, the processor's reports and writes of the storage;
      [Processor.pool_step] the goroutines, their unbuffered channel and [Stop];
      [Extractor.worker_step] the single atomic additions of the worker counter;
      [Shutdown.shutdown_step] the stopping command and the workers;
      [TransformerLoop.tl_step] the transformer between its channels;
      [Background.hs_step] the cleaner and the calls that stop it;
      [HeavymockProofs.mock_step] the imports and exports of the mock.
    - What the network, the database, the clock or a client answers is an
      argument: a list of turns or attempts of any length.  A loop that goes on
      for ever runs as long as the list lasts, so no fuel is involved, and
      liveness is stated for lists with enough turns that make progress.
    - Fuel: the condition parser takes three turns per token and one, which
      [parse_complete] shows to be enough; [JetIDToString] takes 256, the range of
      its counter ([JetIDToString_correct]); a generator that loops until it draws
      something suitable takes its number of attempts -- [tries] and [supply] say
      that the source provides, and the generators are proved to return then.
    - Integers are [Z].  Wrap-around is written out ([int32], [int64], [uint32])
      where the code's arithmetic can reach it: the worker counter, record
      numbers, durations, time conversions.

    ** What the theorems show

    - Controller: a pulse becomes complete in the database only if the jets seen
      for it cover the jet tree ([completeness_justified]), which is what
      [pulseIsComplete] decides on prefix-free sets ([pulseIsComplete_spec]);
      sequential pulses are one gapless chain of complete pulses, and the
      controller remembers its last ([sequential_chain]); a pass completes exactly
      the registered pulses whose jets cover the tree, unless the storage refuses
      that update, and reloads the others ([eraseJetDropRegister_spec]); a start loads exactly what is stored
      ([Start_spec]), under keys that differ from the processor's
      ([restart_splits_pulse]).
    - The controller refines the specification in which a pulse becomes known,
      complete when its jets cover the tree, and sequential after its predecessor
      ([controller_refines]); nothing of this is ever taken back
      ([progress_monotone]).
    - Pipeline: what the platform holds for a jet whose records can be sorted is
      stored and answered by the storage, once the workers have got through with
      each drop ([pulse_delivered]), and the next pass completes the pulse or
      requests it again, if the database refuses no update then
      ([pulse_completed]).
    - Missed data: no range twice ([reachable_NoDup]); expired entries are all
      gone after enough passes ([deleteExpired_iterated]); a stopped cleaner deletes
      nothing more, and which calls of [Stop] return is known ([Stop_protocol]).
      Complete pulses in a row are sequenced without a pause
      ([pulseSequence_catches_up]).
    - Processor: order of the three steps, and what is left when one fails
      ([process_spec]); nothing is registered that is not stored
      ([process_register_stored]); every drop has its records in their places, and
      every record its place in a drop ([writes_typed]); the pool loses no task
      before it is stopped ([pool_conserves]), can finish while one worker is free
      ([pool_can_finish]) and locks up when none is ([pool_deadlock]).
    - Transformer: one drop with exactly its records for each jet that can be
      sorted, none for any other ([Transform_spec]);
      sorting permutes ([sortRecords_permutation]) and restores every proper
      chain ([sortRecords_sorts]); the goroutine loses and reorders nothing
      ([transformer_conserves]) and can end after one [Stop] ([transformer_stops]),
      but not always after two ([transformer_second_stop]).
    - Extractor: interruptions cost no record of a pulse that is handed over;
      harmless ones delay it, any other error of the stream gives it up
      ([retrieveRecords_whole]); a range is visited exactly
      ([retrievePulses_visits]), skipped requests are harmless
      ([retrievePulses_exact]); workers are bounded ([workers_bounded]).
    - Storage: the counters of a pulse count its drops, but for a new drop whose
      insert failed for another reason ([SaveJetDropData_counters]), saving is idempotent; every listing returns
      exactly the requested page; the links of a page of pulses are those of a
      declarative specification ([set_real_links_spec]).
    - API: invalid requests are refused before the storage is asked
      ([handlers_validate]); links follow the hashes ([linked_drop_spec]); a
      lifeline is right from the request down to the tables
      ([ObjectLifeline_end_to_end]); search recognises printed identifiers.
    - Exporter: a linked, increasing chain of complete pulses
      ([GetNextPulse_stream]), which a pulse without matching records blocks
      ([GetNextPulse_stalls]).  Credentials: no stale token
      ([GetRequestMetadata_fresh]), and none in the clear unless configured
      ([NewGRPCClientConnection_secure]).
    - Commands: parts are stopped before what they use ([teardown_order]); a
      database lost during start-up hangs the service ([start_up_hangs]); one lost
      later can lock up the graceful stop ([shutdown_deadlock]), which otherwise
      can go through ([shutdown_completes]).  Logging: which configurations are
      accepted ([ParseLogConfig_spec]); the profiling agent cannot be turned off
      ([Profefe_never_stops]).  Metrics: initialised once ([Initialize_once]), under
      names that do not clash ([metrics_registered]).  The router serves the
      profiler and a health check, and nothing else ([router_spec]); the generator of
      configuration files returns exactly when all are written ([main_gen_spec]).
    - Migrations: the schema is the one the queries need, and the rollback takes
      exactly it away ([Migrate_Rollback]); the generated rows form whole chains in
      well-formed tables ([generateData_spec]), and when the generator ends is known
      ([generateData_returns]); the two commands compose, once: the second adds
      exactly the generated rows, and a database with load test data is refused by
      the plain one ([migrations_compose]).
    - Test data: lifelines are histories which the transformer puts back in order
      ([GenerateObjectLifeline_sorts]), for the sizes of
      [GenerateObjectLifeline_returns]; jet trees are full
      ([GenerateJetIDTree_full], [createChildren_spec]).
    - Mock of the platform: no record is lost or handed out twice, whatever the
      interleaving ([mailbox_conserved]); what is imported comes out of the extractor
      ([mock_drained]), as one pulse with the jets and the number of records the
      tests then wait for ([ImportRecordsMultipleJetDrops_arrives],
      [WaitRecordsCount_spec]); a nil record blocks the mock
      ([ImportRecords_nil_hangs]).  A client of an older version is turned away: it
      stops when it asks for a pulse, but not when it reads a stream of records
      ([version_handshake]).
    - Set-up of the tests: what a failed start leaves running ([BE_Start_fails]),
      the life of a test ([suite_life]), what a failed migration leaves behind
      ([SetupDB_spec]).
    - Load tests: the rows are those of the stored pulses and jet drops, and lead
      back to them ([beforeAll_rows]); which answers count as errors ([Do_errors]).

    ** What is not modelled

    gRPC and HTTP transport, reading configuration files, the text of their
    templates, generated code and mocks ([*.pb.go], minimock) and the wrapper of the
    API client in [test/api] are glue around third-party libraries; what docker,
    gormigrate, [net/http] and the load generator do for the code is an argument or
    a class with documented laws.  The JSON of messages is left to its library: a
    response is the value that is encoded.  Constructors that only fill a struct,
    getters and the methods [Refresh] that do nothing have no definition. *)

From stdpp Require Export prelude strings gmap sorting pretty.
From Stdlib Require Export ZArith Ascii.

Declare Scope be_scope.
Delimit Scope be_scope with be.
#[global] Open Scope Z_scope.

(** ** Go errors *)

(** An [error] value of the program.  The code looks at an error in three ways
    only: the text of [Error()], comparison with [gorm.ErrRecordNotFound]
    (through [gorm.IsRecordNotFoundError]) and [err != nil]. *)
Inductive error :=
  | ErrMsg (msg : string)                    (* errors.New, errors.Errorf, fmt.Errorf, library errors *)
  | ErrRecordNotFound                        (* gorm.ErrRecordNotFound *)
  | ErrWrap (cause : error) (msg : string).  (* errors.Wrap(cause, msg) *)

Fixpoint Error (e : error) : string :=
  match e with
  | ErrMsg msg => msg
  | ErrRecordNotFound => "record not found"
  | ErrWrap cause msg => msg +:+ ": " +:+ Error cause
  end.

(** [gorm.IsRecordNotFoundError]: the bare sentinel, a wrapped one is not
    recognised. *)
Definition IsRecordNotFoundError (e : error) : bool :=
  match e with ErrRecordNotFound => true | _ => false end.

(** The pair [(value, error)] a Go function returns, when exactly one of the
    two carries information. *)
Inductive result (A : Type) :=
  | Ok (a : A)
  | Err (e : error).
Arguments Ok {A} a.
Arguments Err {A} e.

#[export] Instance result_ret : MRet result := @Ok.
#[export] Instance result_bind : MBind result :=
  λ A B f r, match r with Ok a => f a | Err e => Err e end.
#[export] Instance result_fmap : FMap result :=
  λ A B f r, match r with Ok a => Ok (f a) | Err e => Err e end.

(** [errors.Wrap(err, msg)] on the error part of a result. *)
Definition wrap_err {A} (msg : string) (r : result A) : result A :=
  match r with Ok a => Ok a | Err e => Err (ErrWrap e msg) end.

Definition is_ok {A} (r : result A) : bool :=
  match r with Ok _ => true | Err _ => false end.

#[export] Instance error_eq_dec : EqDecision error.
Proof. unfold EqDecision, Decision. decide equality; apply String.string_dec. Defined.
#[export] Instance result_eq_dec {A} `{EqDecision A} : EqDecision (result A).
Proof.
  intros [a|a] [b|b]; try (right; congruence);
    destruct (decide (a = b)); (left; congruence) || (right; congruence).
Defined.

Lemma result_bind_Ok {A B} (f : A → result B) (r : result A) (b : B) :
  (r ≫= f) = Ok b ↔ ∃ a, r = Ok a ∧ f a = Ok b.
Proof.
  destruct r; cbn; (split; [try done; eauto | intros (?&?&?); congruence]).
Qed.

Lemma wrap_err_Ok {A} msg (r : result A) a : wrap_err msg r = Ok a ↔ r = Ok a.
Proof. destruct r; cbn; split; congruence. Qed.

(** ** Machine integers *)

(** Signed wrap-around at width [w]. *)
Definition wrap (w z : Z) : Z := (z + 2 ^ (w - 1)) `mod` 2 ^ w - 2 ^ (w - 1).
Abbreviation int32 := (wrap 32).
Abbreviation int64 := (wrap 64).
Definition uint32 (z : Z) : Z := z `mod` 2 ^ 32.

Definition in_int64 (z : Z) : Prop := - 2 ^ 63 ≤ z < 2 ^ 63.
#[export] Instance in_int64_dec z : Decision (in_int64 z).
Proof. unfold in_int64. apply _. Defined.

Lemma wrap_small w z : 0 < w → - 2 ^ (w - 1) ≤ z < 2 ^ (w - 1) → wrap w z = z.
Proof.
  intros Hw Hz. unfold wrap.
  assert (2 ^ w = 2 * 2 ^ (w - 1)).
  { rewrite <- Z.pow_succ_r by lia. f_equal. lia. }
  rewrite Z.mod_small by lia. lia.
Qed.

Lemma int64_small z : in_int64 z → int64 z = z.
Proof. intros Hz. apply wrap_small; [lia | exact Hz]. Qed.

Lemma wrap_range w z : 0 < w → - 2 ^ (w - 1) ≤ wrap w z < 2 ^ (w - 1).
Proof.
  intros Hw. unfold wrap.
  assert (2 ^ w = 2 * 2 ^ (w - 1)).
  { rewrite <- Z.pow_succ_r by lia. f_equal. lia. }
  pose proof (Z.mod_pos_bound (z + 2 ^ (w - 1)) (2 ^ w)). lia.
Qed.

(** ** Byte slices *)

(** A [[]byte]; a nil slice and an empty slice are the same value here, as they
    are for every operation of the program that is modelled. *)
Abbreviation bytes := (list Byte.byte).

#[export] Instance byte_eq_dec : EqDecision Byte.byte := Byte.byte_eq_dec.
#[export] Instance byte_countable : Countable Byte.byte :=
  inj_countable Byte.to_N Byte.of_N Byte.of_to_N.

(** ** Strings as byte sequences *)

(** Every byte of [s] satisfies [P]. *)
Fixpoint all_chars (P : ascii → bool) (s : string) : bool :=
  match s with
  | EmptyString => true
  | String a s' => P a && all_chars P s'
  end.

Lemma str_app_cons a s t : String a s +:+ t = String a (s +:+ t).
Proof. reflexivity. Qed.

Lemma str_app_nil_l s : "" +:+ s = s.
Proof. reflexivity. Qed.

Create Rewrite HintDb str.
#[export] Hint Rewrite str_app_cons str_app_nil_l : str.

(** Simplify, pushing concatenation through constructors ([cbn] alone does not
    unfold it). *)
Ltac str_simpl := cbn; autorewrite with str; cbn.

Lemma all_chars_app P s t : all_chars P (s +:+ t) = all_chars P s && all_chars P t.
Proof. induction s as [|a s IH]; str_simpl; [done|]. by rewrite IH, andb_assoc. Qed.

Lemma all_chars_impl (P Q : ascii → bool) s :
  (∀ a, P a = true → Q a = true) → all_chars P s = true → all_chars Q s = true.
Proof.
  intros HPQ. induction s as [|a s IH]; cbn; [done|].
  rewrite !andb_true_iff. intros [Ha Hs]. eauto.
Qed.

Lemma str_length_app s t : String.length (s +:+ t) = (String.length s + String.length t)%nat.
Proof. induction s as [|a s IH]; str_simpl; [done|]. by rewrite IH. Qed.

Lemma str_app_nil_r s : s +:+ "" = s.
Proof. induction s as [|a s IH]; str_simpl; [done|]. by rewrite IH. Qed.

Lemma str_app_assoc s t u : s +:+ (t +:+ u) = (s +:+ t) +:+ u.
Proof. induction s as [|a s IH]; str_simpl; [done|]. by rewrite IH. Qed.

(** The prefix order on strings. *)
Lemma prefix_spec p s : String.prefix p s = true ↔ ∃ t, s = p +:+ t.
Proof.
  revert s. induction p as [|a p IH]; intros s; str_simpl.
  - split; [intros _; by exists s | by destruct s].
  - destruct s as [|b s]; [split; [done | by intros [t Ht]; rewrite str_app_cons in Ht] |].
    cbn. destruct (ascii_dec a b) as [->|Hne].
    + rewrite IH. split; intros [t Ht]; exists t; rewrite ?str_app_cons in *; congruence.
    + split; [done | intros [t Ht]; rewrite str_app_cons in Ht; congruence].
Qed.

Lemma prefix_refl s : String.prefix s s = true.
Proof. apply prefix_spec. exists "". by rewrite str_app_nil_r. Qed.

Lemma prefix_trans p q s :
  String.prefix p q = true → String.prefix q s = true → String.prefix p s = true.
Proof.
  rewrite !prefix_spec. intros [t ->] [u ->]. exists (t +:+ u). by rewrite str_app_assoc.
Qed.

Lemma prefix_length p s : String.prefix p s = true → (String.length p ≤ String.length s)%nat.
Proof. rewrite prefix_spec. intros [t ->]. rewrite str_length_app. lia. Qed.

Lemma prefix_app_inv p q s t :
  p +:+ s = q +:+ t → (String.length p ≤ String.length q)%nat → String.prefix p q = true.
Proof.
  revert q. induction p as [|a p IH]; intros q; [by destruct q|].
  destruct q as [|b q]; str_simpl; [lia|]. intros [= -> Heq] Hlen.
  cbn. destruct (ascii_dec b b); [|done]. apply IH; [done|lia].
Qed.

(** Two prefixes of one string are comparable. *)
Lemma prefix_comparable p q s :
  String.prefix p s = true → String.prefix q s = true →
  String.prefix p q = true ∨ String.prefix q p = true.
Proof.
  intros [t ->]%prefix_spec [u Heq]%prefix_spec.
  destruct (decide (String.length p ≤ String.length q)%nat).
  - left. by eapply prefix_app_inv.
  - right. eapply prefix_app_inv; [done|lia].
Qed.

Lemma prefix_eq_length p s :
  String.prefix p s = true → String.length p = String.length s → p = s.
Proof.
  rewrite prefix_spec. intros [t ->]. rewrite str_length_app. intros Ht.
  destruct t; cbn in Ht; [by rewrite str_app_nil_r | lia].
Qed.

(** The first [n] bytes of a string. *)
Lemma substring_0_length n s :
  (n ≤ String.length s)%nat → String.length (String.substring 0 n s) = n.
Proof.
  revert n. induction s as [|a s IH]; intros [|n]; cbn; try lia.
  intros Hn. rewrite IH; lia.
Qed.

Lemma substring_0_prefix n s : String.prefix (String.substring 0 n s) s = true.
Proof.
  revert n. induction s as [|a s IH]; intros [|n]; cbn; try done.
  destruct (ascii_dec a a); [apply IH|done].
Qed.

Lemma prefix_substring p s :
  String.prefix p s = true → p = String.substring 0 (String.length p) s.
Proof.
  revert s. induction p as [|a p IH]; intros s; [by destruct s|].
  destruct s as [|b s]; cbn; [done|]. destruct (ascii_dec a b) as [->|]; [|done].
  intros Hp. f_equal. by apply IH.
Qed.

Lemma substring_app_r p s :
  String.substring (String.length p) (String.length s) (p +:+ s) = s.
Proof.
  induction p as [|a p IH]; cbn; [|exact IH].
  rewrite str_app_nil_l. symmetry. apply prefix_substring, prefix_refl.
Qed.

(** A string is its first bytes and the rest. *)
Lemma substring_split n s :
  (n ≤ String.length s)%nat →
  String.substring 0 n s +:+ String.substring n (String.length s - n) s = s.
Proof.
  revert n. induction s as [|a s IH]; intros [|n] Hn; cbn in *; try done; try lia.
  - rewrite str_app_nil_l. f_equal. symmetry. apply prefix_substring, prefix_refl.
  - rewrite str_app_cons. f_equal. apply IH. lia.
Qed.

Lemma all_chars_prefix P p s :
  String.prefix p s = true → all_chars P s = true → all_chars P p = true.
Proof.
  intros [t ->]%prefix_spec. rewrite all_chars_app, andb_true_iff. tauto.
Qed.

(** ** Maps filled from a list *)

Section fill.
Context `{Countable K} {A V : Type} (k : A → K) (v : A → V).

(** [for _, x := range l { m[k(x)] = v(x) }]. *)
Definition fill (l : list A) (m : gmap K V) : gmap K V := foldl (λ m x, <[k x := v x]> m) m l.

Lemma fill_cons x l m : fill (x :: l) m = fill l (<[k x := v x]> m).
Proof. done. Qed.

Lemma fill_other l m i : i ∉ k <$> l → fill l m !! i = m !! i.
Proof.
  revert m. induction l as [|x l IH]; intros m Hi; [done|].
  rewrite fmap_cons, not_elem_of_cons in Hi. rewrite fill_cons, IH by tauto.
  by rewrite lookup_insert_ne by naive_solver.
Qed.

Lemma fill_lookup l m x : NoDup (k <$> l) → x ∈ l → fill l m !! k x = Some (v x).
Proof.
  revert m. induction l as [|y l IH]; intros m Hnd Hx; [by apply elem_of_nil in Hx|].
  rewrite fmap_cons in Hnd. apply NoDup_cons in Hnd as [Hy Hnd]. rewrite fill_cons.
  apply elem_of_cons in Hx as [<-|Hx]; [|by apply IH].
  by rewrite fill_other, lookup_insert_eq.
Qed.

(** Whatever the keys, an entry of the list or an old one is there. *)
Lemma fill_elem l m i y :
  fill l m !! i = Some y → (∃ x, x ∈ l ∧ k x = i ∧ v x = y) ∨ m !! i = Some y.
Proof.
  revert m. induction l as [|x l IH]; intros m Hi; [by right|].
  rewrite fill_cons in Hi. apply IH in Hi as [(z & Hz & ? & ?)|Hi].
  - left. exists z. split; [by right|done].
  - apply lookup_insert_Some in Hi as [[<- <-]|[_ Hi]]; [left|by right].
    exists x. split; [by left|done].
Qed.

Lemma fill_is_Some l m i : i ∈ k <$> l ∨ is_Some (m !! i) → is_Some (fill l m !! i).
Proof.
  revert m. induction l as [|x l IH]; intros m Hi.
  - destruct Hi as [Hi|Hi]; [by apply elem_of_nil in Hi|done].
  - rewrite fill_cons. apply IH. destruct (decide (k x = i)) as [<-|Hne].
    + right. rewrite lookup_insert_eq. by eexists.
    + rewrite fmap_cons, elem_of_cons in Hi. rewrite lookup_insert_ne by done. naive_solver.
Qed.
End fill.

(** ** Automation shared by the files *)

Create HintDb be.
Create Rewrite HintDb be.
#[export] Hint Rewrite @result_bind_Ok @wrap_err_Ok : be.

(** Split conjunctions and existentials, substitute, and simplify equations
    between constructors. *)
Ltac be_simp :=
  repeat first
    [ progress simplify_eq/=
    | progress destruct_and?
    | match goal with H : ∃ _, _ |- _ => destruct H as [? H] end ].

(** Case analysis on every [match]/[if]/[decide] the goal or a hypothesis is
    stuck on. *)
Ltac be_cases := repeat (be_simp; try case_match); be_simp.

(** ** Relations along lists, elementwise *)

Lemma Forall2_impl_l {A B} (P Q : A → B → Prop) (l : list A) (k : list B) :
  Forall2 P l k → (∀ x y, x ∈ l → P x y → Q x y) → Forall2 Q l k.
Proof.
  induction 1 as [|x y l k Hxy _ IH]; intros Himp; constructor; [apply Himp; [by left|done]|].
  apply IH. intros a b Ha. apply Himp. by right.
Qed.

(** ** Filters that keep all or nothing *)

Lemma filter_all {A} (P : A → Prop) `{∀ x, Decision (P x)} (l : list A) :
  (∀ x, x ∈ l → P x) → filter P l = l.
Proof.
  induction l as [|x l IH]; intros Hl; [done|]. rewrite filter_cons_True by (apply Hl; by left).
  f_equal. apply IH. intros y Hy. apply Hl. by right.
Qed.

Lemma filter_none {A} (P : A → Prop) `{∀ x, Decision (P x)} (l : list A) :
  (∀ x, x ∈ l → ¬ P x) → filter P l = [].
Proof.
  induction l as [|x l IH]; intros Hl; [done|]. rewrite filter_cons_False by (apply Hl; by left).
  apply IH. intros y Hy. apply Hl. by right.
Qed.
