(* ===== verification/GoStd.v ===== *)
(** * The parts of the Go standard library the program uses

    Packages [strings], [strconv], [net/url], [encoding/base64], [bytes] and the
    one [regexp] pattern of the program, over Go strings (byte sequences:
    Rocq's [string]) and [[]byte]. *)

From S2P Require Import Prelude.

(** ** Package strings *)

(** [strings.Index(s, sub)]: the first position of [sub] in [s], or -1. *)
Definition Index (s sub : string) : Z :=
  match String.index 0 sub s with Some n => Z.of_nat n | None => -1 end.

(** [strings.Contains(s, sub)]. *)
Definition Contains (s sub : string) : bool := bool_decide (0 ≤ Index s sub).

(** [strings.Split(s, sep)] for a one-byte separator. *)
Fixpoint Split (s : string) (sep : ascii) : list string :=
  match s with
  | EmptyString => [""]
  | String a s' =>
      if decide (a = sep) then "" :: Split s' sep
      else match Split s' sep with
           | w :: ws => String a w :: ws
           | [] => [String a ""]
           end
  end.

(** The UTF-8 encodings of the runes for which [unicode.IsSpace] holds. *)
Definition space_encodings : list string :=
  let bs := fun l => String.string_of_list_ascii (map ascii_of_nat l) in
  map (fun n : nat => bs [n]) [9; 10; 11; 12; 13; 32]%nat
  ++ map bs [[194; 133]; [194; 160]; [225; 154; 128]]%nat
  ++ map (fun n => bs [226; 128; n]%nat) (seq 128 11 ++ [168; 169; 175])%nat
  ++ map bs [[226; 129; 159]; [227; 128; 128]]%nat.

(** What is left of [s] after the space rune it starts with, if any. *)
Definition strip_space_prefix (s : string) : option string :=
  match filter (λ w, String.prefix w s = true) space_encodings with
  | w :: _ => Some (String.substring (String.length w) (String.length s - String.length w) s)
  | [] => None
  end.

Definition strip_space_suffix (s : string) : option string :=
  match filter (λ w, String.prefix (String.rev w) (String.rev s) = true) space_encodings with
  | w :: _ => Some (String.substring 0 (String.length s - String.length w) s)
  | [] => None
  end.

Fixpoint iter_strip (strip : string → option string) (fuel : nat) (s : string) : string :=
  match fuel with
  | O => s
  | S fuel' => match strip s with Some s' => iter_strip strip fuel' s' | None => s end
  end.

(** [strings.TrimSpace(s)]: each strip removes at least one byte, so the length
    of the string is enough fuel. *)
Definition TrimSpace (s : string) : string :=
  let s' := iter_strip strip_space_prefix (String.length s) s in
  iter_strip strip_space_suffix (String.length s') s'.

(** ** Package strconv *)

Definition digit_val (a : ascii) : option Z :=
  let n := Z.of_N (N_of_ascii a) - 48 in
  if decide (0 ≤ n ≤ 9) then Some n else None.

Fixpoint parse_digits (acc : Z) (s : string) : option Z :=
  match s with
  | EmptyString => Some acc
  | String a s' => d ← digit_val a; parse_digits (10 * acc + d) s'
  end.

(** The unsigned number a string of decimal digits denotes (none for the empty
    string). *)
Definition parse_uint (s : string) : option Z :=
  match s with EmptyString => None | _ => parse_digits 0 s end.

(** The optional sign [ParseInt] accepts, and the rest. *)
Definition split_sign (s : string) : bool * string :=
  match s with
  | String "-" t => (true, t)
  | String "+" t => (false, t)
  | _ => (false, s)
  end.

(** [strconv.ParseInt(s, 10, 64)]; a syntax error and a range error are both
    [None], the program never tells them apart. *)
Definition ParseInt (s : string) : option Z :=
  let '(neg, body) := split_sign s in
  n ← parse_uint body;
  let z := if neg : bool then - n else n in
  if decide (in_int64 z) then Some z else None.

(** [strconv.Itoa] and the [%d] verb of [fmt]. *)
Definition FormatInt (z : Z) : string := pretty z.

(** ** Package net/url *)

Definition unhex (a : ascii) : option N :=
  let n := N_of_ascii a in
  if decide (48 ≤ n ≤ 57)%N then Some (n - 48)%N
  else if decide (97 ≤ n ≤ 102)%N then Some (n - 87)%N
  else if decide (65 ≤ n ≤ 70)%N then Some (n - 55)%N
  else None.

(** [url.QueryUnescape(s)]. *)
Fixpoint QueryUnescape (s : string) : option string :=
  match s with
  | EmptyString => Some EmptyString
  | String a s1 =>
      if decide (a = "%"%char) then
        match s1 with
        | String h (String l s2) =>
            hi ← unhex h; lo ← unhex l; t ← QueryUnescape s2;
            Some (String (ascii_of_N (16 * hi + lo)) t)
        | _ => None
        end
      else if decide (a = "+"%char) then String " " <$> QueryUnescape s1
      else String a <$> QueryUnescape s1
  end.

(** ** Package encoding/base64 *)

(** The standard alphabet. *)
Definition base64_char (n : N) : ascii :=
  if decide (n < 26)%N then ascii_of_N (n + 65)
  else if decide (n < 52)%N then ascii_of_N (n + 71)
  else if decide (n < 62)%N then ascii_of_N (n - 4)
  else if decide (n = 62)%N then "+"%char else "/"%char.

(** [base64.StdEncoding.EncodeToString(b)], three bytes at a time, padded with
    ['=']. *)
Fixpoint EncodeToString (b : bytes) : string :=
  match b with
  | [] => EmptyString
  | [x] =>
      let x := Byte.to_N x in
      String (base64_char (x / 4)) (String (base64_char (x mod 4 * 16)) "==")
  | [x; y] =>
      let x := Byte.to_N x in let y := Byte.to_N y in
      String (base64_char (x / 4))
        (String (base64_char (x mod 4 * 16 + y / 16))
           (String (base64_char (y mod 16 * 4)) "="))
  | x :: y :: z :: b' =>
      let x := Byte.to_N x in let y := Byte.to_N y in let z := Byte.to_N z in
      String (base64_char (x / 4))
        (String (base64_char (x mod 4 * 16 + y / 16))
           (String (base64_char (y mod 16 * 4 + z / 64))
              (String (base64_char (z mod 64)) (EncodeToString b'))))
  end%N.

(** ** Lemmas: strings *)

Lemma index_0_Some_0 sub s : String.index 0 sub s = Some 0%nat ↔ String.prefix sub s = true.
Proof.
  destruct s as [|a s]; destruct sub as [|b sub]; cbn; try done.
  destruct (ascii_dec b a) as [->|]; [|split; [|done]].
  - destruct (String.prefix sub s); [done|].
    split; [|done]. by destruct (String.index 0 (String a sub) s).
  - by destruct (String.index 0 (String b sub) s).
Qed.

(** [strings.Index(s, sub) == 0] is the prefix test. *)
Lemma Index_0 s sub : Index s sub = 0 ↔ String.prefix sub s = true.
Proof.
  unfold Index. rewrite <- index_0_Some_0.
  destruct (String.index 0 sub s) as [[|n]|]; split; intros H; try done; lia.
Qed.

Definition not_sep (sep a : ascii) : bool := bool_decide (a ≠ sep).

Lemma Split_nosep s sep : all_chars (not_sep sep) s = true → Split s sep = [s].
Proof.
  induction s as [|a s IH]; cbn; [done|].
  unfold not_sep at 1. rewrite andb_true_iff, bool_decide_eq_true. intros [Ha Hs].
  destruct (decide (a = sep)); [done|]. by rewrite IH.
Qed.

Lemma Split_app s t sep :
  all_chars (not_sep sep) s = true →
  Split (s +:+ String sep t) sep = s :: Split t sep.
Proof.
  induction s as [|a s IH]; str_simpl.
  - intros _. by rewrite decide_True.
  - unfold not_sep at 1. rewrite andb_true_iff, bool_decide_eq_true. intros [Ha Hs].
    destruct (decide (a = sep)); [done|]. by rewrite IH.
Qed.

Lemma Split_ne_nil s sep : Split s sep ≠ [].
Proof. destruct s as [|a s]; cbn; [done|]. case_decide; [done|]. by destruct (Split s sep). Qed.

Lemma Split_1_inv s sep w : Split s sep = [w] → s = w ∧ all_chars (not_sep sep) w = true.
Proof.
  revert w. induction s as [|a s IH]; cbn; intros w.
  - by intros [= <-].
  - case_decide as Ha.
    + intros [= _ Hn]. by destruct (Split_ne_nil s sep).
    + destruct (Split s sep) as [|w' ws] eqn:Hs; [by destruct (Split_ne_nil s sep)|].
      intros [= <- ->]. destruct (IH w') as [-> Hw]; [done|]. split; [done|].
      cbn. unfold not_sep at 1. by rewrite bool_decide_true.
Qed.

(** A string that splits in two is the two parts around one separator. *)
Lemma Split_2_inv s sep w1 w2 :
  Split s sep = [w1; w2] →
  s = w1 +:+ String sep w2 ∧ all_chars (not_sep sep) w1 = true ∧
  all_chars (not_sep sep) w2 = true.
Proof.
  revert w1. induction s as [|a s IH]; cbn; intros w1; [done|].
  case_decide as Ha.
  - intros [= <- Hs]. apply Split_1_inv in Hs as [-> Hw]. by subst.
  - destruct (Split s sep) as [|w' ws] eqn:Hs; [by destruct (Split_ne_nil s sep)|].
    intros [= <- ->]. destruct (IH w') as (-> & Hw1 & Hw2); [done|].
    split_and!; [done| |done]. cbn. unfold not_sep at 1. by rewrite bool_decide_true.
Qed.

(** ** Lemmas: numbers *)

Lemma digit_val_pretty n : (n < 10)%N → digit_val (pretty_N_char n) = Some (Z.of_N n).
Proof.
  intros Hn.
  assert (n ∈ (N.of_nat <$> seq 0 10)) as Hin.
  { apply list_elem_of_fmap. exists (N.to_nat n). rewrite elem_of_seq. lia. }
  revert n Hin Hn. rewrite <- Forall_forall.
  repeat (constructor; [reflexivity|]). constructor.
Qed.

Lemma digit_val_range a d : digit_val a = Some d → 0 ≤ d ≤ 9.
Proof. unfold digit_val. case_decide; [|done]. by intros [= <-]. Qed.

Lemma pretty_N_go_app n s : pretty_N_go n s = pretty_N_go n "" +:+ s.
Proof.
  revert s. induction (N.lt_wf_0 n) as [n _ IH]; intros s.
  destruct (decide (n = 0)%N) as [->|Hn]; [done|].
  rewrite pretty_N_go_step, (pretty_N_go_step n "") by lia.
  assert (n / 10 < n)%N as Hlt by (apply N.div_lt; lia).
  rewrite (IH _ Hlt (String _ s)), (IH _ Hlt (String _ "")).
  by rewrite <- str_app_assoc.
Qed.

Lemma parse_digits_pretty n acc s :
  parse_digits acc (pretty_N_go n s) =
  parse_digits (acc * 10 ^ Z.of_nat (String.length (pretty_N_go n "")) + Z.of_N n) s.
Proof.
  revert acc s. induction (N.lt_wf_0 n) as [n _ IH]; intros acc s.
  destruct (decide (n = 0)%N) as [->|Hn].
  { rewrite !pretty_N_go_0. cbn. f_equal. lia. }
  rewrite pretty_N_go_step, (pretty_N_go_step n "") by lia.
  rewrite IH by (apply N.div_lt; lia).
  rewrite (pretty_N_go_app _ (String _ "")), str_length_app.
  set (k := String.length (pretty_N_go (n / 10) "")). clearbody k. cbn [String.length parse_digits].
  rewrite digit_val_pretty by (apply N.mod_lt; lia). cbn. f_equal.
  replace (Z.of_nat (k + 1)) with (Z.succ (Z.of_nat k)) by lia.
  rewrite Z.pow_succ_r by lia.
  replace (acc * (10 * 10 ^ Z.of_nat k)) with (10 * (acc * 10 ^ Z.of_nat k)) by ring.
  pose proof (N.div_mod n 10). lia.
Qed.

Lemma all_digits_pretty n s :
  all_chars (λ a, bool_decide (is_Some (digit_val a))) s = true →
  all_chars (λ a, bool_decide (is_Some (digit_val a))) (pretty_N_go n s) = true.
Proof.
  revert s. induction (N.lt_wf_0 n) as [n _ IH]; intros s Hs.
  destruct (decide (n = 0)%N) as [->|Hn]; [by rewrite pretty_N_go_0|].
  rewrite pretty_N_go_step by lia. apply IH; [by apply N.div_lt; lia|]. cbn.
  rewrite Hs, digit_val_pretty by (apply N.mod_lt; lia). done.
Qed.

Lemma pretty_pos_split_sign p : split_sign (pretty (N.pos p)) = (false, pretty (N.pos p)).
Proof.
  unfold pretty, pretty_N. case_decide; [done|].
  pose proof (all_digits_pretty (N.pos p) "" eq_refl) as Hd.
  destruct (pretty_N_go (N.pos p) "") as [|a t]; [done|]. cbn in Hd.
  apply andb_true_iff in Hd as [Ha _]. apply bool_decide_eq_true in Ha as [d Ha].
  unfold split_sign. by destruct a as [[] [] [] [] [] [] [] []].
Qed.

Lemma parse_uint_pretty p : parse_uint (pretty (N.pos p)) = Some (Z.pos p).
Proof.
  unfold pretty, pretty_N. case_decide as Hp; [done|].
  pose proof (parse_digits_pretty (N.pos p) 0 "") as Hd. rewrite Z.mul_0_l in Hd.
  unfold parse_uint. by destruct (pretty_N_go (N.pos p) "") eqn:Hg.
Qed.

(** Printing a 64-bit integer and parsing it back gives the integer. *)
Lemma ParseInt_FormatInt z : in_int64 z → ParseInt (FormatInt z) = Some z.
Proof.
  intros Hz. unfold ParseInt, FormatInt. destruct z as [|p|p].
  - reflexivity.
  - change (pretty (Z.pos p)) with (pretty (N.pos p)).
    rewrite pretty_pos_split_sign, parse_uint_pretty. cbn. by rewrite decide_True.
  - change (pretty (Z.neg p)) with ("-" +:+ pretty (N.pos p)).
    rewrite str_app_cons, str_app_nil_l. cbn. rewrite parse_uint_pretty. cbn.
    by rewrite decide_True.
Qed.

Lemma ParseInt_range s z : ParseInt s = Some z → in_int64 z.
Proof.
  unfold ParseInt. destruct (split_sign s) as [neg body].
  destruct (parse_uint body); cbn; [|done]. case_decide; [|done]. by intros [= <-].
Qed.

(** The bytes of a printed number: digits and the minus sign. *)
Definition number_char (a : ascii) : bool :=
  bool_decide (is_Some (digit_val a)) || bool_decide (a = "-"%char).

Lemma FormatInt_chars z : all_chars number_char (FormatInt z) = true.
Proof.
  assert (∀ p, all_chars number_char (pretty (N.pos p)) = true) as Hp.
  { intros p. unfold pretty, pretty_N. case_decide; [done|].
    eapply all_chars_impl, all_digits_pretty; [|done].
    intros a Ha. unfold number_char. by rewrite Ha. }
  destruct z as [|p|p]; [done|apply Hp|].
  change (FormatInt (Z.neg p)) with ("-" +:+ pretty (N.pos p)).
  by rewrite all_chars_app, Hp.
Qed.

(** ** Lemmas: escapes and base64 *)

Definition plain_char (a : ascii) : bool := bool_decide (a ≠ "%"%char ∧ a ≠ "+"%char).

(** Unescaping leaves a string without ['%'] and ['+'] alone. *)
Lemma QueryUnescape_plain s : all_chars plain_char s = true → QueryUnescape s = Some s.
Proof.
  induction s as [|a s IH]; cbn; [done|].
  rewrite andb_true_iff. unfold plain_char at 1. rewrite bool_decide_eq_true.
  intros [[H1 H2] Hs]. rewrite !decide_False by done. by rewrite IH.
Qed.

Lemma base64_char_inj n m :
  (n < 64)%N → (m < 64)%N → base64_char n = base64_char m → n = m.
Proof.
  intros Hn Hm Heq.
  assert (∀ k, (k < 64)%N → k ∈ (N.of_nat <$> seq 0 64)) as Hin.
  { intros k Hk. apply list_elem_of_fmap. exists (N.to_nat k). rewrite elem_of_seq. lia. }
  assert (NoDup (base64_char <$> (N.of_nat <$> seq 0 64))) as Hnd.
  { apply (bool_decide_unpack _). vm_compute. exact I. }
  apply Hin, list_elem_of_lookup in Hn as [i Hi].
  apply Hin, list_elem_of_lookup in Hm as [j Hj].
  assert (i = j) as ->; [|congruence].
  eapply NoDup_lookup; [exact Hnd| |].
  - rewrite list_lookup_fmap, Hi. reflexivity.
  - rewrite list_lookup_fmap, Hj. cbn. by rewrite Heq.
Qed.

Lemma base64_char_pad n : (n < 64)%N → base64_char n ≠ "="%char.
Proof.
  intros Hn. assert (n ∈ (N.of_nat <$> seq 0 64)) as Hin.
  { apply list_elem_of_fmap. exists (N.to_nat n). rewrite elem_of_seq. lia. }
  revert n Hin Hn. rewrite <- Forall_forall.
  repeat (constructor; [by vm_compute|]). constructor.
Qed.

Lemma byte_lt b : (Byte.to_N b < 256)%N.
Proof. pose proof (Byte.to_N_bounded b). lia. Qed.

Lemma byte_to_N_inj x y : Byte.to_N x = Byte.to_N y → x = y.
Proof. intros H. apply (inj Some). by rewrite <- !Byte.of_to_N, H. Qed.

#[local] Ltac Zify.zify_post_hook ::= Z.to_euclidean_division_equations.

Ltac b64_bounds :=
  repeat match goal with
  | b : Byte.byte |- _ =>
      lazymatch goal with
      | H : (Byte.to_N b < 256)%N |- _ => fail
      | _ => pose proof (byte_lt b)
      end
  end.

Lemma radix_inj (k a b a' b' : N) :
  (b < k)%N → (b' < k)%N → (a * k + b)%N = (a' * k + b')%N → a = a' ∧ b = b'.
Proof. intros. assert (a = a') as -> by nia. split; [done|lia]. Qed.

Lemma div_mod_inj (d x y : N) :
  d ≠ 0%N → (x / d)%N = (y / d)%N → (x mod d)%N = (y mod d)%N → x = y.
Proof. intros Hd Hq Hr. rewrite (N.div_mod x d), (N.div_mod y d) by done. by rewrite Hq, Hr. Qed.

(** Distinct byte slices have distinct encodings. *)
#[export] Instance EncodeToString_Inj : Inj (=) (=) EncodeToString.
Proof.
  assert (∀ n b1 b2, (length b1 < n)%nat → EncodeToString b1 = EncodeToString b2 → b1 = b2)
    as Hind; [|intros b1 b2; eapply (Hind (S (length b1))); lia].
  induction n as [|n IH]; [lia|].
  intros [|x1 [|y1 [|z1 b1]]] [|x2 [|y2 [|z2 b2]]] Hlen Heq; cbn in Heq; try done;
    injection Heq; clear Heq; intros;
    repeat match goal with
    | H : base64_char _ = base64_char _ |- _ =>
        apply base64_char_inj in H; [|clear; b64_bounds; lia..]
    | H : base64_char _ = "="%char |- _ => apply base64_char_pad in H; [done|clear; b64_bounds; lia]
    | H : "="%char = base64_char _ |- _ =>
        symmetry in H; apply base64_char_pad in H; [done|clear; b64_bounds; lia]
    end.
  - f_equal. apply byte_to_N_inj, (div_mod_inj 4); [done|done|lia].
  - match goal with H : (_ + _)%N = (_ + _)%N |- _ => apply radix_inj in H as [??]; [|clear; b64_bounds; lia..] end.
    rewrite (byte_to_N_inj x1 x2), (byte_to_N_inj y1 y2); [done| |].
    + apply (div_mod_inj 16); [done|done|lia].
    + by apply (div_mod_inj 4).
  - repeat match goal with
    | H : (_ * _ + _)%N = (_ * _ + _)%N |- _ => apply radix_inj in H as [??]; [|clear; b64_bounds; lia..]
    end.
    rewrite (byte_to_N_inj x1 x2), (byte_to_N_inj y1 y2), (byte_to_N_inj z1 z2);
      [do 3 f_equal; cbn in Hlen; apply IH; [lia|done]| | |].
    + by apply (div_mod_inj 64).
    + by apply (div_mod_inj 16).
    + by apply (div_mod_inj 4).
Qed.
