(* ===== verification/Platform.v ===== *)
(** * What the program uses of the ledger platform's libraries

    The packages [insolar], [insolar/pulse], [genesisrefs] and the protobuf
    messages of [ledger/heavy/exporter] are third-party code: their operations
    are the fields of the class [Platform], a parameter of every definition that
    calls them.  The message structs are written out with the fields the program
    reads. *)

From S2P Require Import Prelude GoStd.

Class Platform := {
  ID : Type;                                  (* insolar.ID *)
  ID_eq_dec :: EqDecision ID;
  ID_Bytes : ID → bytes;                      (* ID.Bytes() *)
  ID_Hash : ID → bytes;                       (* ID.Hash() *)
  ID_Pulse : ID → Z;                          (* ID.Pulse() *)
  NewIDFromBytes : bytes → option ID;         (* insolar.NewIDFromBytes, a nil pointer is None *)
  ID_String : option ID → string;             (* ( *ID).String() *)
  Reference : Type;                           (* insolar.Reference *)
  Ref_Bytes : Reference → bytes;              (* Reference.Bytes() *)
  Ref_GetLocal : Reference → ID;              (* Reference.GetLocal() *)
  Ref_String : Reference → string;            (* Reference.String() *)
  IsObjectReference : Reference → bool;       (* Reference.IsObjectReference() *)
  NewReference : ID → Reference;              (* insolar.NewReference *)
  NewReferenceFromString : string → option Reference; (* insolar.NewReferenceFromString *)
  GenesisRef : string → Reference;            (* genesisrefs.GenesisRef *)
  JetID : Type;                               (* insolar.JetID *)
  JetID_eq_dec :: EqDecision JetID;
  JetID_countable :: Countable JetID;
  Depth : JetID → Z;                          (* JetID.Depth(), a uint8 *)
  Prefix : JetID → bytes;                     (* JetID.Prefix() *)
  JetID_IsValid : JetID → bool;               (* JetID.IsValid() *)
  IsValidAsPulseNumber : Z → bool;            (* pulse.IsValidAsPulseNumber *)
  MinTimePulse : Z;                           (* pulse.MinTimePulse *)
  AsEpoch : Z → Z;                            (* pulse.Number.AsEpoch() *)
}.

Section messages.
Context `{Platform}.

(** [exporter.JetDropContinue]. *)
Record JetDropContinue := mkJetDropContinue {
  jdc_JetID : JetID;
  jdc_Hash : bytes;
  jdc_PrevDropHashes : list bytes;
}.

(** [exporter.FullPulse]; pulse numbers are [uint32]. *)
Record FullPulse := mkFullPulse {
  fp_PulseNumber : Z;
  fp_PrevPulseNumber : Z;
  fp_NextPulseNumber : Z;
  fp_PulseTimestamp : Z;
  fp_Jets : list JetDropContinue;
}.

(** The [Union] of [record.Virtual], each case with the fields the program
    reads; [Virtual_Other] is any other case, nil included. *)
Inductive Virtual :=
  | Virtual_Activate (Image Request : Reference) (Memory : bytes)
  | Virtual_Amend (Image Request : Reference) (PrevState : ID) (Memory : bytes)
  | Virtual_Deactivate (PrevState : ID)
  | Virtual_Result (Object : ID) (Payload : bytes)
  | Virtual_IncomingRequest (Method : string)
  | Virtual_OutgoingRequest
  | Virtual_Other.

(** [exporter.Record], with the fields of its [record.Material] flattened. *)
Record ExporterRecord := mkExporterRecord {
  er_RecordNumber : Z;
  er_ID : ID;
  er_ObjectID : ID;
  er_JetID : JetID;
  er_Virtual : Virtual;
  er_ShouldIterateFrom : option Z;
  er_Raw : result bytes;      (* what Record.Marshal() returns for this record *)
}.
End messages.

(** The error texts of [exporter] and [insolar/pulse] the program looks for. *)
Class ExporterMessages := {
  ErrDeprecatedClientVersion : string;   (* exporter.ErrDeprecatedClientVersion.Error() *)
  RateLimitExceededMsg : string;         (* exporter.RateLimitExceededMsg *)
  ErrNotFinalPulseData : string;         (* exporter.ErrNotFinalPulseData.Error() *)
  ErrNotFound : string;                  (* pulse.ErrNotFound.Error() *)
}.

(** Documented facts about jet identifiers: the depth is a [uint8], at most the
    number of bits of the prefix, and at most 216 (27 bytes of prefix); and the
    first pulse number that stands for a moment. *)
Class PlatformLaws `{Platform} := {
  Depth_range : ∀ id, 0 ≤ Depth id ≤ 216;
  Prefix_length : ∀ id, length (Prefix id) = 27%nat;
  MinTimePulse_value : MinTimePulse = 65536;
}.
