(* ===== verification/RefPlatform.v ===== *)
(** * A concrete platform

    An instance of [Platform] for the witnesses: identifiers and references are
    byte sequences, a jet id is a depth with a prefix, cut and padded to the
    documented bounds.  It shows that the laws of [Platform.v] can be met. *)

From S2P Require Import Prelude GoStd Platform.

(** An identifier of four bytes or more starts with the number of its pulse, a
    shorter one belongs to the first pulse of the examples. *)
Definition pulse_of (b : bytes) : Z :=
  match b with
  | x :: y :: z :: w :: _ =>
      foldl (λ v x, v * 256 + Z.of_N (Byte.to_N x)) 0 [x; y; z; w]
  | _ => 65537
  end.

(** The four bytes of a pulse number. *)
Definition pulse_bytes (n : Z) : bytes :=
  (λ k, default Byte.x00 (Byte.of_N (Z.to_N ((n / 256 ^ k) `mod` 256)))) <$> [3; 2; 1; 0].

#[export] Instance ref_platform : Platform := {|
  ID := bytes;
  ID_eq_dec := _;
  ID_Bytes := id;
  ID_Hash := id;
  ID_Pulse := pulse_of;
  NewIDFromBytes b := match b with [] => None | _ => Some b end;
  ID_String i := match i with Some b => String.string_of_list_byte b | None => "" end;
  Reference := bytes;
  Ref_Bytes := id;
  Ref_GetLocal := id;
  Ref_String := String.string_of_list_byte;
  IsObjectReference r := bool_decide (r ≠ []);
  NewReference := id;
  NewReferenceFromString s :=
    if decide (s = "") then None else Some (String.list_byte_of_string s);
  GenesisRef := String.list_byte_of_string;
  JetID := Z * bytes;
  JetID_eq_dec := _;
  JetID_countable := _;
  Depth j := Z.max 0 (Z.min 216 j.1);
  Prefix j := take 27 (j.2 ++ replicate 27 Byte.x00);
  JetID_IsValid _ := true;
  IsValidAsPulseNumber n := bool_decide (65536 ≤ n);
  MinTimePulse := 65536;
  AsEpoch n := n;
|}.

Definition toy_jet (depth : Z) (prefix : bytes) : JetID := (depth, prefix).

#[export] Instance ref_platform_laws : PlatformLaws.
Proof.
  constructor.
  - intros id. cbn. lia.
  - intros id. cbn -[take replicate]. rewrite length_take, length_app, length_replicate. lia.
  - done.
Qed.

Lemma to_of_byte k : 0 ≤ k < 256 → Z.of_N (Byte.to_N (default Byte.x00 (Byte.of_N (Z.to_N k)))) = k.
Proof.
  intros Hk. destruct (Byte.of_N (Z.to_N k)) as [b|] eqn:Hb; cbn.
  - apply Byte.to_of_N in Hb. lia.
  - apply Byte.of_N_None_iff in Hb. lia.
Qed.

Lemma pulse_of_bytes n rest : 0 ≤ n < 2 ^ 32 → pulse_of (pulse_bytes n ++ rest) = n.
Proof.
  intros Hn. cbn -[Byte.of_N Z.pow Z.to_N Z.of_N]. rewrite !to_of_byte by (apply Z.mod_pos_bound; lia).
  change (256 ^ 3) with 16777216. change (256 ^ 2) with 65536. change (256 ^ 1) with 256.
  change (256 ^ 0) with 1. change (2 ^ 32) with 4294967296 in Hn.
  Z.to_euclidean_division_equations. lia.
Qed.
