(* ===== verification/Types.v ===== *)
(** * Canonical data: [src/etl/types/types.go]

    The structs the transformer hands to the processor.  Field names carry a
    prefix per struct ([tp_] for [types.Pulse], [tr_] for [types.Record], and so
    on), because Rocq projections share one name space. *)

From S2P Require Import Prelude GoStd Platform.

(** [types.Pulse]: also the key of the controller's jet drop register, so it is
    compared as a whole. *)
Record TPulse := mkTPulse {
  tp_PulseNo : Z;
  tp_EpochPulseNo : Z;
  tp_PulseTimestamp : Z;
  tp_NextPulseNumber : Z;
  tp_PrevPulseNumber : Z;
}.

#[export] Instance TPulse_eq_dec : EqDecision TPulse.
Proof. solve_decision. Defined.

#[export] Instance TPulse_countable : Countable TPulse.
Proof.
  refine (inj_countable'
    (λ p, (tp_PulseNo p, tp_EpochPulseNo p, tp_PulseTimestamp p,
           tp_NextPulseNumber p, tp_PrevPulseNumber p))
    (λ '(a, b, c, d, e), mkTPulse a b c d e) _).
  by intros [].
Defined.

(** [types.RecordType] is an [int] with three named values. *)
Abbreviation RecordType := Z.
Definition STATE : RecordType := 0.
Definition REQUEST : RecordType := 1.
Definition RESULT : RecordType := 2.

(** [types.Record]. *)
Record TRecord := mkTRecord {
  tr_Type : RecordType;
  tr_Ref : bytes;
  tr_ObjectReference : bytes;
  tr_PrototypeReference : bytes;
  tr_PrevRecordReference : bytes;
  tr_RecordPayload : bytes;
  tr_Hash : bytes;
  tr_RawData : bytes;
  tr_Order : Z;
}.

#[export] Instance TRecord_eq_dec : EqDecision TRecord.
Proof. solve_decision. Defined.

(** [types.DropStart], [types.DropContinue], [types.MainSection]. *)
Record DropStart := mkDropStart {
  ds_PulseData : TPulse;
  ds_JetDropPrefix : string;
  ds_JetDropPrefixLength : Z;
}.

Record DropContinue := mkDropContinue { dc_PrevDropHash : list bytes }.

Record MainSection := mkMainSection {
  ms_Start : DropStart;
  ms_DropContinue : DropContinue;
  ms_Records : list TRecord;
}.

(** [types.JetDrop]; the [Sections] slice is always built empty and never
    read. *)
Record TJetDrop := mkTJetDrop {
  tjd_MainSection : MainSection;
  tjd_RawData : bytes;
  tjd_Hash : bytes;
}.

(** [types.PlatformPulseData]: a pulse of the platform and its records.  The
    pulse pointer is never nil where the program builds one. *)
Record PlatformPulseData `{Platform} := mkPlatformPulseData {
  ppd_Pulse : FullPulse;
  ppd_Records : list ExporterRecord;
}.
