(* ===== verification/Models.v ===== *)
(** * Database models: [src/etl/models/models.go], [src/etl/storage/helper.go] *)

From S2P Require Import Prelude GoStd.

(** ** Rows *)

(** [models.RecordType] is a string. *)
Definition State : string := "state".
Definition Request : string := "request".
Definition Result : string := "result".

(** [RecordTypeFromTypes]: indexing a three-element slice; [None] is the
    run-time panic of an index out of range. *)
Definition RecordTypeFromTypes (rt : Z) : option string :=
  if decide (rt < 0) then None else ["state"; "request"; "result"] !! Z.to_nat rt.

(** [models.Record]. *)
Record MRecord := mkMRecord {
  r_Reference : bytes;
  r_Type : string;
  r_ObjectReference : bytes;
  r_PrototypeReference : bytes;
  r_Payload : bytes;
  r_PrevRecordReference : bytes;
  r_Hash : bytes;
  r_RawData : bytes;
  r_JetID : string;
  r_PulseNumber : Z;
  r_Order : Z;
  r_Timestamp : Z;
}.

(** [models.JetDrop]. *)
Record JetDrop := mkJetDrop {
  jd_PulseNumber : Z;
  jd_JetID : string;
  jd_FirstPrevHash : bytes;
  jd_SecondPrevHash : bytes;
  jd_Hash : bytes;
  jd_RawData : bytes;
  jd_Timestamp : Z;
  jd_RecordAmount : Z;
}.

(** [models.Pulse]. *)
Record Pulse := mkPulse {
  p_PulseNumber : Z;
  p_PrevPulseNumber : Z;
  p_NextPulseNumber : Z;
  p_IsComplete : bool;
  p_IsSequential : bool;
  p_Timestamp : Z;
  p_JetDropAmount : Z;
  p_RecordAmount : Z;
}.

(** The zero value [models.Pulse{}]. *)
Definition emptyPulse : Pulse := mkPulse 0 0 0 false false 0 0 0.

(** [models.Pulse{PulseNumber: n}]. *)
Definition pulse_of_number (n : Z) : Pulse := mkPulse n 0 0 false false 0 0 0.

#[export] Instance MRecord_eq_dec : EqDecision MRecord.
Proof. solve_decision. Defined.
#[export] Instance JetDrop_eq_dec : EqDecision JetDrop.
Proof. solve_decision. Defined.
#[export] Instance Pulse_eq_dec : EqDecision Pulse.
Proof. solve_decision. Defined.

(** ** Jet tree neighbours *)

(** [s[:len(s)-1]] for a non-empty string. *)
Definition drop_last (s : string) : string := String.substring 0 (String.length s - 1) s.

(** [JetDrop.Siblings]. *)
Definition Siblings (j : JetDrop) : list string :=
  let siblings := [jd_JetID j; jd_JetID j +:+ "0"; jd_JetID j +:+ "1"] in
  if decide (0 < String.length (jd_JetID j))%nat
  then siblings ++ [drop_last (jd_JetID j)]
  else siblings.

(** [storage.GetJetIDParents]: "0010" gives '' 0 00 001 0010. *)
Definition GetJetIDParents (jetID : string) : list string :=
  let parents :=
    (λ i, String.substring 0 (S i) jetID) <$> seq 0 (String.length jetID) in
  [""] ++ parents.

(** ** Jet drop identifiers *)

Record JetDropID := mkJetDropID { jdi_JetID : string; jdi_PulseNumber : Z }.

#[export] Instance JetDropID_eq_dec : EqDecision JetDropID.
Proof. solve_decision. Defined.

Definition NewJetDropID (jetID : string) (pulseNumber : Z) : JetDropID :=
  let tmp := if decide (jetID = "*") then "" else jetID in
  mkJetDropID tmp pulseNumber.

Definition is_bit (a : ascii) : bool := bool_decide (a = "0"%char ∨ a = "1"%char).

(** [jetIDRegexp.MatchString] for [^(\*|([0-1]{1,216}))$]. *)
Definition jetIDRegexp_MatchString (s : string) : bool :=
  bool_decide (s = "*")
  || (bool_decide (1 ≤ String.length s ≤ 216)%nat && all_chars is_bit s).

Definition NewJetDropIDFromString (jetDropID : string) : result JetDropID :=
  let wrong := Err (ErrMsg "wrong jet drop id format") in
  match QueryUnescape jetDropID with
  | None => wrong
  | Some jetDropID =>
      match Split jetDropID ":" with
      | [s0; s1] =>
          if negb (jetIDRegexp_MatchString s0) then wrong
          else match ParseInt s1 with
               | None => wrong
               | Some pulse => Ok (NewJetDropID s0 pulse)
               end
      | _ => wrong
      end
  end.

Definition JetIDToString (j : JetDropID) : string :=
  if decide (jdi_JetID j = "") then "*" else jdi_JetID j.

Definition ToString (j : JetDropID) : string :=
  JetIDToString j +:+ ":" +:+ FormatInt (jdi_PulseNumber j).

(** ** Well-formed identifiers and their text form *)

(** A jet id as the database stores it: empty for the root jet, otherwise at
    most 216 bits. *)
Definition valid_jet_id (s : string) : Prop :=
  all_chars is_bit s = true ∧ (String.length s ≤ 216)%nat.

Definition valid_JetDropID (j : JetDropID) : Prop :=
  valid_jet_id (jdi_JetID j) ∧ in_int64 (jdi_PulseNumber j).

Lemma bits_not_char s c :
  is_bit c = false → all_chars is_bit s = true → all_chars (not_sep c) s = true.
Proof.
  intros Hc. apply all_chars_impl. intros a Ha. unfold not_sep.
  apply bool_decide_eq_true. congruence.
Qed.

Lemma JetIDToString_match j :
  valid_jet_id (jdi_JetID j) → jetIDRegexp_MatchString (JetIDToString j) = true.
Proof.
  intros [Hbits Hlen]. unfold JetIDToString, jetIDRegexp_MatchString.
  case_decide as Hj; [done|]. apply orb_true_iff. right.
  rewrite Hbits, andb_true_r, bool_decide_eq_true.
  destruct (jdi_JetID j); cbn in *; [done|lia].
Qed.

(** The text of the regular expression: the star, or a non-empty jet id. *)
Lemma jetIDRegexp_spec s :
  jetIDRegexp_MatchString s = true ↔ s = "*" ∨ (s ≠ "" ∧ valid_jet_id s).
Proof.
  unfold jetIDRegexp_MatchString, valid_jet_id.
  rewrite orb_true_iff, andb_true_iff, !bool_decide_eq_true.
  split; intros [Hs|Hs]; auto; right.
  - split; [|tauto]. intros ->. cbn in Hs. lia.
  - destruct s; [tauto|]. cbn [String.length] in *. split; [lia|tauto].
Qed.

Lemma NewJetDropID_JetIDToString j :
  all_chars is_bit (jdi_JetID j) = true →
  NewJetDropID (JetIDToString j) (jdi_PulseNumber j) = j.
Proof.
  intros Hb. unfold NewJetDropID, JetIDToString. destruct j as [id pn]. cbn in *.
  destruct (decide (id = "")) as [->|Hid].
  - by rewrite decide_True.
  - rewrite decide_False; [done|]. by intros ->.
Qed.

Definition id_char (a : ascii) : bool :=
  is_bit a || bool_decide (a = "*"%char) || bool_decide (a = ":"%char) || number_char a.

Lemma id_char_plain a : id_char a = true → plain_char a = true.
Proof. by destruct a as [[] [] [] [] [] [] [] []]; vm_compute. Qed.

Lemma number_char_not_colon a : number_char a = true → not_sep ":" a = true.
Proof. by destruct a as [[] [] [] [] [] [] [] []]; vm_compute. Qed.

Lemma JetIDToString_chars j :
  all_chars is_bit (jdi_JetID j) = true →
  all_chars (λ a, is_bit a || bool_decide (a = "*"%char)) (JetIDToString j) = true.
Proof.
  intros Hb. unfold JetIDToString. case_decide; [done|].
  eapply all_chars_impl, Hb. intros a ->. done.
Qed.

Lemma ToString_chars j :
  all_chars is_bit (jdi_JetID j) = true → all_chars id_char (ToString j) = true.
Proof.
  intros Hb. unfold ToString. rewrite !all_chars_app, !andb_true_iff. split_and!.
  - eapply all_chars_impl, JetIDToString_chars, Hb. unfold id_char. intros a ->. done.
  - done.
  - eapply all_chars_impl, FormatInt_chars. unfold id_char. intros a ->.
    by rewrite orb_true_r.
Qed.

Lemma JetIDToString_not_colon j :
  all_chars is_bit (jdi_JetID j) = true →
  all_chars (not_sep ":") (JetIDToString j) = true.
Proof.
  intros Hb. eapply all_chars_impl, JetIDToString_chars, Hb.
  intros a. by destruct a as [[] [] [] [] [] [] [] []]; vm_compute.
Qed.

(** A printed identifier is read back. *)
Lemma parse_ToString j :
  valid_JetDropID j → NewJetDropIDFromString (ToString j) = Ok j.
Proof.
  intros [[Hbits Hlen] Hpn]. unfold NewJetDropIDFromString.
  rewrite QueryUnescape_plain
    by (eapply all_chars_impl, ToString_chars, Hbits; apply id_char_plain).
  unfold ToString. rewrite str_app_cons, str_app_nil_l, Split_app
    by by apply JetIDToString_not_colon.
  rewrite Split_nosep
    by (eapply all_chars_impl, FormatInt_chars; apply number_char_not_colon).
  rewrite JetIDToString_match by done. cbn.
  rewrite ParseInt_FormatInt by done. by rewrite NewJetDropID_JetIDToString.
Qed.

(** C36: an identifier printed by [ToString] is read back by
    [NewJetDropIDFromString] as the same identifier, for every jet id of at most
    216 bits (the root jet, printed as a star, included) and every 64-bit pulse
    number. *)
Theorem JetDropID_roundtrip j :
  valid_JetDropID j → NewJetDropIDFromString (ToString j) = Ok j.
Proof. apply parse_ToString. Qed.

Lemma JetDropID_roundtrip_witness :
  let j := mkJetDropID "0010" 66666 in
  NewJetDropIDFromString (ToString j) = Ok j ∧ ToString j = "0010:66666".
Proof.
  split; [|reflexivity]. apply JetDropID_roundtrip.
  split; [split; [reflexivity | apply (bool_decide_unpack _); vm_compute; exact I] |].
  by split; vm_compute.
Defined.

Lemma NewJetDropID_star_or_bits s0 pn :
  jetIDRegexp_MatchString s0 = true →
  valid_jet_id (jdi_JetID (NewJetDropID s0 pn)) ∧
  JetIDToString (NewJetDropID s0 pn) = s0.
Proof.
  rewrite jetIDRegexp_spec. unfold NewJetDropID, JetIDToString.
  intros [->|[Hne Hv]]; cbn.
  - rewrite decide_True by done. cbn. split; [split; [done|cbn; lia]|done].
  - assert (s0 ≠ "*") by (intros ->; by destruct Hv).
    rewrite !(decide_False (P := s0 = "*")) by done. cbn.
    rewrite decide_False by done. done.
Qed.

(** What [NewJetDropIDFromString] accepts, exactly: the input unescapes to
    the printed jet id, a colon and a decimal 64-bit number, and the jet id is
    well formed; the parsed identifier is that one. *)
Theorem NewJetDropIDFromString_spec s j :
  NewJetDropIDFromString s = Ok j ↔
  valid_JetDropID j ∧
  ∃ num, QueryUnescape s = Some (JetIDToString j +:+ ":" +:+ num) ∧
         all_chars (not_sep ":") num = true ∧
         ParseInt num = Some (jdi_PulseNumber j).
Proof.
  unfold NewJetDropIDFromString. split.
  - intros Hp. destruct (QueryUnescape s) as [u|]; [|done].
    destruct (Split u ":") as [|s0 [|s1 [|]]] eqn:Hs; try done.
    destruct (jetIDRegexp_MatchString s0) eqn:Hm; cbn in Hp; [|done].
    destruct (ParseInt s1) as [pulse|] eqn:Hn; [|done]. injection Hp as <-.
    apply Split_2_inv in Hs as (-> & _ & Hs1).
    destruct (NewJetDropID_star_or_bits s0 pulse Hm) as [Hv Hstr].
    split; [split; [done|by eapply ParseInt_range]|].
    exists s1. by rewrite Hstr.
  - intros [[Hv Hpn] (num & -> & Hnum & Hn)].
    rewrite str_app_cons, str_app_nil_l, Split_app, Split_nosep
      by (done || by apply JetIDToString_not_colon, Hv).
    rewrite JetIDToString_match, Hn by done. cbn.
    rewrite NewJetDropID_JetIDToString by apply Hv. done.
Qed.

(** ** Jet tree lemmas *)

Lemma drop_last_snoc s a : drop_last (s +:+ String a "") = s.
Proof.
  unfold drop_last. rewrite str_length_app. cbn [String.length].
  replace (String.length s + 1 - 1)%nat with (String.length s) by lia.
  symmetry. apply prefix_substring. apply prefix_spec. by eexists.
Qed.

Lemma str_snoc_inv s : (0 < String.length s)%nat → ∃ t a, s = t +:+ String a "".
Proof.
  induction s as [|a s IH]; cbn; [lia|]. intros _.
  destruct s as [|b s]; [by exists "", a|].
  destruct IH as (t & c & ->); [cbn; lia|]. by exists (String a t), c.
Qed.

Lemma str_snoc_inj s t a b : s +:+ String a "" = t +:+ String b "" → s = t.
Proof. intros H. by rewrite <- (drop_last_snoc s a), H, drop_last_snoc. Qed.

(** Two jets are neighbours when they are equal or one is the other with one
    more bit. *)
Definition jet_neighbours (a b : string) : Prop :=
  a = b ∨ (∃ c, is_bit c = true ∧ b = a +:+ String c "")
        ∨ (∃ c, is_bit c = true ∧ a = b +:+ String c "").

Lemma is_bit_cases c : is_bit c = true ↔ c = "0"%char ∨ c = "1"%char.
Proof. unfold is_bit. apply bool_decide_eq_true. Qed.

Lemma is_bit_snoc s c :
  all_chars is_bit (s +:+ String c "") = true → all_chars is_bit s = true ∧ is_bit c = true.
Proof. rewrite all_chars_app. cbn. rewrite andb_true_r, andb_true_iff. done. Qed.

Lemma elem_of_Siblings j s :
  all_chars is_bit (jd_JetID j) = true →
  s ∈ Siblings j ↔ jet_neighbours (jd_JetID j) s.
Proof.
  intros Hb. unfold Siblings, jet_neighbours. setoid_rewrite is_bit_cases.
  case_decide as Hlen.
  - destruct (str_snoc_inv _ Hlen) as (t & c & Hc). rewrite Hc in Hb |- *.
    rewrite drop_last_snoc. apply is_bit_snoc in Hb as [_ Hbc].
    rewrite is_bit_cases in Hbc. set_unfold. split.
    + naive_solver.
    + intros [?|[(x & [->| ->] & ->)|(x & Hx & Heq)]]; [naive_solver..|].
      apply str_snoc_inj in Heq. naive_solver.
  - assert (jd_JetID j = "") as Hj by (destruct (jd_JetID j); [done|cbn in Hlen; lia]).
    rewrite Hj. set_unfold. split; [naive_solver|].
    intros [?|[(x & [->| ->] & ->)|(x & Hx & Heq)]]; [naive_solver..|].
    by destruct s.
Qed.

(** For a jet drop whose id is a bit string, [Siblings] lists exactly the
    jet itself, its two children and its parent; "is a sibling of" is therefore
    symmetric, so a drop that appears among the next drops of a second one has
    that one among its previous candidates. *)
Theorem Siblings_spec j s :
  all_chars is_bit (jd_JetID j) = true →
  s ∈ Siblings j ↔ jet_neighbours (jd_JetID j) s.
Proof. apply elem_of_Siblings. Qed.

Lemma Siblings_spec_witness :
  let j := mkJetDrop 7 "01" [] [] [] [] 0 0 in
  ("0" ∈ Siblings j) ∧ jet_neighbours "01" "0".
Proof.
  assert ("0" ∈ Siblings (mkJetDrop 7 "01" [] [] [] [] 0 0)) as Hin.
  { vm_compute. set_solver. }
  split; [exact Hin|]. by apply (Siblings_spec (mkJetDrop 7 "01" [] [] [] [] 0 0) "0") in Hin.
Defined.

Lemma lookup_GetJetIDParents jetID i p :
  GetJetIDParents jetID !! i = Some p ↔
  (i ≤ String.length jetID)%nat ∧ p = String.substring 0 i jetID.
Proof.
  unfold GetJetIDParents. destruct i as [|i]; simpl.
  - split; [intros [= <-]; split; [lia|by destruct jetID] |].
    intros [_ ->]. by destruct jetID.
  - rewrite list_lookup_fmap, fmap_Some. setoid_rewrite lookup_seq.
    split; [intros (k & [-> Hk] & ->); split; [lia|done]|].
    intros [Hi ->]. exists i. split; [split; [done|lia]|done].
Qed.

Lemma elem_of_GetJetIDParents p jetID :
  p ∈ GetJetIDParents jetID ↔ String.prefix p jetID = true.
Proof.
  rewrite list_elem_of_lookup. setoid_rewrite lookup_GetJetIDParents. split.
  - intros [i [Hi ->]]. apply substring_0_prefix.
  - intros Hp. exists (String.length p). split; [by apply prefix_length|by apply prefix_substring].
Qed.

(** [GetJetIDParents] lists the ancestors of a jet, root first: the [i]-th
    entry is the prefix of length [i], every prefix occurs, and it occurs
    once. *)
Theorem GetJetIDParents_spec jetID :
  (∀ p, p ∈ GetJetIDParents jetID ↔ String.prefix p jetID = true) ∧
  (∀ i p, GetJetIDParents jetID !! i = Some p → String.length p = i) ∧
  length (GetJetIDParents jetID) = S (String.length jetID) ∧
  NoDup (GetJetIDParents jetID).
Proof.
  assert (∀ i p, GetJetIDParents jetID !! i = Some p → String.length p = i) as Hlen.
  { intros i p [Hi ->]%lookup_GetJetIDParents. by apply substring_0_length. }
  split_and!; [|done| |].
  - intros p. apply elem_of_GetJetIDParents.
  - unfold GetJetIDParents. cbn. by rewrite length_fmap, length_seq.
  - apply NoDup_alt. intros i j p Hi Hj. by rewrite <- (Hlen i p Hi), <- (Hlen j p Hj).
Qed.
