(* ===== verification/Converter.v ===== *)
(** * Conversions: [src/instrumentation/converter/platform.go] and
      [src/instrumentation/comparator.go] *)

From S2P Require Import Prelude GoStd Platform RefPlatform Models.

Section converter.
Context `{Platform}.

(** ** Definitions *)

(** One turn of the loop of [JetIDToString]: the text of bit [i] of the prefix
    ([None] is the panic of [prefix[bytePos]] out of range).  The shift count
    [7 - i%8] is never negative. *)
Definition bitString (prefix : bytes) (i : Z) : option string :=
  let bytePos := i / 8 in
  let bitPos := 7 - i `mod` 8 in
  byteValue ← prefix !! Z.to_nat bytePos;
  let bitValue := Z.land (Z.shiftr (Z.of_N (Byte.to_N byteValue)) bitPos) 1 in
  Some (FormatInt bitValue).

(** The loop [for i := uint8(0); i < depth; i++]; [i] is a [uint8], so its
    increment wraps at 256. *)
Fixpoint bit_loop (fuel : nat) (depth : Z) (prefix : bytes) (i : Z) (res : string)
  : option string :=
  if decide (i < depth) then
    match fuel with
    | O => None
    | S fuel' =>
        bs ← bitString prefix i;
        bit_loop fuel' depth prefix ((i + 1) `mod` 256) (res +:+ bs)
    end
  else Some res.

(** [JetIDToString]; a depth is a [uint8], so 256 turns are enough. *)
Definition JetIDToString (id : JetID) : option string :=
  let depth := Depth id in
  let prefix := Prefix id in
  if decide (depth = 0) then Some "" else bit_loop 256 depth prefix 0 "".

(** [NanosecondsInSecond = int64(time.Second / time.Nanosecond)]. *)
Definition NanosecondsInSecond : Z := 1000000000.

(** [SecondsToNanos]; the argument is a [uint32]. *)
Definition SecondsToNanos (seconds : Z) : Z := int64 (seconds * NanosecondsInSecond).

(** [NanosToSeconds]; Go's division truncates. *)
Definition NanosToSeconds (nanoseconds : Z) : Z := Z.quot nanoseconds NanosecondsInSecond.

(** [instrumentation.IsEmpty]: no byte, or only zero bytes. *)
Definition IsEmpty (b : bytes) : bool :=
  let emptyByte := replicate (length b) Byte.x00 in
  bool_decide (b = []) || bool_decide (b = emptyByte).

(** ** Lemmas and properties *)

(** Bit [i] of a byte sequence, most significant bit of each byte first. *)
Definition prefix_bit (prefix : bytes) (i : nat) : bool :=
  match prefix !! Z.to_nat (Z.of_nat i / 8) with
  | Some b => Z.testbit (Z.of_N (Byte.to_N b)) (7 - Z.of_nat i `mod` 8)
  | None => false
  end.

Definition bit_char (b : bool) : ascii := if b then "1"%char else "0"%char.

(** The text of [n] bits, from bit [from] on. *)
Fixpoint bits_text (prefix : bytes) (from n : nat) : string :=
  match n with
  | O => ""
  | S n' => String (bit_char (prefix_bit prefix from)) (bits_text prefix (S from) n')
  end.

Lemma bitString_spec prefix i :
  (i < 8 * length prefix)%nat →
  bitString prefix (Z.of_nat i) = Some (String (bit_char (prefix_bit prefix i)) "").
Proof.
  intros Hi. unfold bitString, prefix_bit.
  destruct (lookup_lt_is_Some_2 prefix (Z.to_nat (Z.of_nat i / 8))) as [b ->].
  { apply Nat2Z.inj_lt. rewrite Z2Nat.id by (apply Z.div_pos; lia).
    apply Z.div_lt_upper_bound; lia. }
  cbn [mbind option_bind]. f_equal.
  pose proof (Z.mod_pos_bound (Z.of_nat i) 8).
  change 1 with (Z.ones 1).
  rewrite Z.land_ones, Z.shiftr_div_pow2, Z.pow_1_r, <- Z.testbit_spec' by lia.
  by destruct (Z.testbit _ _).
Qed.

Lemma bit_loop_spec prefix n fuel i res :
  (n ≤ fuel)%nat → (i + n ≤ 8 * length prefix)%nat → (i + n < 256)%nat →
  bit_loop fuel (Z.of_nat (i + n)) prefix (Z.of_nat i) res
  = Some (res +:+ bits_text prefix i n).
Proof.
  revert fuel i res. induction n as [|n IH]; intros fuel i res Hf Hp Hi.
  - rewrite Nat.add_0_r. destruct fuel; cbn; rewrite decide_False by lia;
      by rewrite str_app_nil_r.
  - destruct fuel as [|fuel]; [lia|]. cbn. rewrite decide_True by lia.
    rewrite bitString_spec by lia. cbn [mbind option_bind].
    rewrite Z.mod_small by lia.
    replace (Z.of_nat i + 1) with (Z.of_nat (S i)) by lia.
    replace (i + S n)%nat with (S i + n)%nat by lia.
    rewrite IH by lia. by rewrite <- str_app_assoc.
Qed.

Lemma bits_text_length prefix from n : String.length (bits_text prefix from n) = n.
Proof. revert from. induction n as [|n IH]; intros from; cbn; [done|]. by rewrite IH. Qed.

Lemma bits_text_bits prefix from n : all_chars is_bit (bits_text prefix from n) = true.
Proof.
  revert from. induction n as [|n IH]; intros from; cbn; [done|].
  rewrite IH, andb_true_r. by destruct (prefix_bit prefix from).
Qed.

Lemma bits_text_inj p q from n :
  bits_text p from n = bits_text q from n →
  ∀ i, (from ≤ i < from + n)%nat → prefix_bit p i = prefix_bit q i.
Proof.
  revert from. induction n as [|n IH]; intros from; cbn; [lia|].
  intros [= Hb Ht] i Hi. destruct (decide (i = from)) as [->|].
  - destruct (prefix_bit p from), (prefix_bit q from); done.
  - apply (IH (S from)); [done|lia].
Qed.

(** [JetIDToString] never runs out of fuel or off the prefix, and returns the
    first [Depth id] bits. *)
Lemma JetIDToString_bits `{!PlatformLaws} id :
  JetIDToString id = Some (bits_text (Prefix id) 0 (Z.to_nat (Depth id))).
Proof.
  pose proof (Depth_range id) as Hd. pose proof (Prefix_length id) as Hl.
  unfold JetIDToString. case_decide as Hz; [by rewrite Hz|].
  pose proof (bit_loop_spec (Prefix id) (Z.to_nat (Depth id)) 256 0 "") as Hloop.
  rewrite Nat.add_0_l, Z2Nat.id in Hloop by lia. apply Hloop; lia.
Qed.

Lemma JetIDToString_valid `{!PlatformLaws} id :
  ∃ s, JetIDToString id = Some s ∧ valid_jet_id s.
Proof.
  pose proof (Depth_range id). eexists. rewrite JetIDToString_bits. split; [done|].
  unfold valid_jet_id. rewrite bits_text_length, bits_text_bits. split; [done|lia].
Qed.

(** [JetIDToString] always terminates without a panic; its text is a jet id
    the API accepts (one bit character per level of depth, so at most 216), and
    two jets have the same text exactly when they have the same depth and agree
    on that many bits of their prefixes. *)
Theorem JetIDToString_correct `{!PlatformLaws} id1 id2 :
  (∃ s, JetIDToString id1 = Some s ∧ valid_jet_id s ∧
        Z.of_nat (String.length s) = Depth id1) ∧
  (JetIDToString id1 = JetIDToString id2 ↔
   Depth id1 = Depth id2 ∧
   ∀ i, Z.of_nat i < Depth id1 → prefix_bit (Prefix id1) i = prefix_bit (Prefix id2) i).
Proof.
  pose proof (Depth_range id1). pose proof (Depth_range id2). split.
  - eexists. rewrite JetIDToString_bits. split; [done|]. unfold valid_jet_id.
    rewrite bits_text_length, bits_text_bits. split; [split; [done|lia]|lia].
  - rewrite !JetIDToString_bits. split.
    + intros [= Ht]. pose proof (f_equal String.length Ht) as Hl.
      rewrite !bits_text_length in Hl. split; [lia|]. rewrite Hl in Ht.
      intros i Hi. by eapply bits_text_inj; [exact Ht|lia].
    + intros [<- Hb]. f_equal.
      cut (∀ n from, (from + n ≤ Z.to_nat (Depth id1))%nat →
             bits_text (Prefix id1) from n = bits_text (Prefix id2) from n);
        [intros Hc; by apply Hc|].
      induction n as [|n IH]; intros from Hn; cbn; [done|].
      rewrite (IH (S from)), Hb by lia. done.
Qed.

(** Seconds and nanoseconds convert back and forth without overflow for
    every [uint32] number of seconds, and rounding to seconds only drops the
    sub-second part. *)
Theorem seconds_nanos_roundtrip s ns :
  0 ≤ s < 2 ^ 32 → 0 ≤ ns < NanosecondsInSecond →
  SecondsToNanos s = s * NanosecondsInSecond ∧
  NanosToSeconds (SecondsToNanos s + ns) = s.
Proof.
  unfold NanosecondsInSecond. intros Hs Hns.
  assert (SecondsToNanos s = s * 1000000000) as ->.
  { apply int64_small. unfold in_int64, NanosecondsInSecond. lia. }
  split; [done|]. unfold NanosToSeconds, NanosecondsInSecond.
  rewrite Z.quot_div_nonneg by lia.
  rewrite Z.div_add_l, Z.div_small by lia. lia.
Qed.
End converter.

Lemma JetIDToString_correct_witness :
  let a := toy_jet 3 [Byte.x50] in
  let b := toy_jet 3 [Byte.x40] in
  JetIDToString a = Some "010" ∧ JetIDToString a = JetIDToString b.
Proof.
  intros a b. split; [vm_compute; reflexivity|].
  apply (JetIDToString_correct a b). split; [reflexivity|].
  intros i Hi. assert (Z.of_nat i < 3) as Hi3 by exact Hi.
  destruct i as [|[|[|i]]]; [reflexivity..|lia].
Defined.

Lemma seconds_nanos_roundtrip_witness :
  NanosToSeconds (SecondsToNanos 4294967295 + 999999999) = 4294967295.
Proof. apply (seconds_nanos_roundtrip 4294967295 999999999); vm_compute; split; congruence. Defined.

Lemma IsEmpty_spec b : IsEmpty b = true ↔ Forall (.= Byte.x00) b.
Proof.
  unfold IsEmpty. rewrite orb_true_iff, !bool_decide_eq_true. split.
  - intros [->|Hb]; [constructor|]. rewrite Hb.
    apply Forall_replicate. done.
  - intros Hb. right. clear -Hb. induction Hb as [|x b Hx Hb IH]; cbn; [done|]. congruence.
Qed.
