(* ===== verification/Gorm.v ===== *)
(** * The database behind [gorm]

    [gorm] and PostgreSQL are third-party code.  This file fixes the vocabulary
    in which the storage layer talks to them -- the tables of the migration, the
    text of the conditions it builds as tokens, a query as the list of builder
    calls -- and the class [Gorm] of operations with the class [GormLaws] of
    their documented behaviour.  Every definition of the storage layer takes a
    [Gorm] as parameter; its theorems take the laws as hypotheses.  [RefDb.v]
    gives a concrete instance. *)

From S2P Require Import Prelude GoStd Models.

(** ** Tables *)

(** The three tables of [src/migrations/migrations.go], by primary key. *)
Record Tables := mkTables {
  t_pulses : gmap Z Pulse;
  t_jet_drops : gmap (Z * string) JetDrop;
  t_records : gmap bytes MRecord;
}.

Definition jd_key (j : JetDrop) : Z * string := (jd_PulseNumber j, jd_JetID j).

Definition set_pulses (m : gmap Z Pulse) (t : Tables) : Tables :=
  mkTables m (t_jet_drops t) (t_records t).
Definition set_jet_drops (m : gmap (Z * string) JetDrop) (t : Tables) : Tables :=
  mkTables (t_pulses t) m (t_records t).
Definition set_records (m : gmap bytes MRecord) (t : Tables) : Tables :=
  mkTables (t_pulses t) (t_jet_drops t) m.

(** Every row is stored under its own primary key. *)
Definition tables_keyed (t : Tables) : Prop :=
  map_Forall (λ k p, k = p_PulseNumber p) (t_pulses t) ∧
  map_Forall (λ k j, k = jd_key j) (t_jet_drops t) ∧
  map_Forall (λ k r, k = r_Reference r) (t_records t).

(** ** Values, columns and rows *)

Inductive sql_val :=
  | VInt (z : Z)
  | VStr (s : string)
  | VBytes (b : bytes)
  | VBool (b : bool).

#[export] Instance sql_val_eq_dec : EqDecision sql_val.
Proof. solve_decision. Defined.

(** A table row: its columns by name, the rows of its table, and the columns of
    its primary key. *)
Class Entity (A : Type) := {
  column : string → option (A → sql_val);
  rows : Tables → list A;
  key_columns : list string;
}.
Arguments key_columns A {_}.

#[export] Instance Pulse_entity : Entity Pulse := {|
  column c :=
    if decide (c = "pulse_number") then Some (λ p, VInt (p_PulseNumber p))
    else if decide (c = "prev_pulse_number") then Some (λ p, VInt (p_PrevPulseNumber p))
    else if decide (c = "next_pulse_number") then Some (λ p, VInt (p_NextPulseNumber p))
    else if decide (c = "is_complete") then Some (λ p, VBool (p_IsComplete p))
    else if decide (c = "is_sequential") then Some (λ p, VBool (p_IsSequential p))
    else if decide (c = "timestamp") then Some (λ p, VInt (p_Timestamp p))
    else None;
  rows t := (map_to_list (t_pulses t)).*2;
  key_columns := ["pulse_number"];
|}.

#[export] Instance JetDrop_entity : Entity JetDrop := {|
  column c :=
    if decide (c = "pulse_number") then Some (λ j, VInt (jd_PulseNumber j))
    else if decide (c = "jet_id") then Some (λ j, VStr (jd_JetID j))
    else if decide (c = "timestamp") then Some (λ j, VInt (jd_Timestamp j))
    else None;
  rows t := (map_to_list (t_jet_drops t)).*2;
  key_columns := ["pulse_number"; "jet_id"];
|}.

#[export] Instance MRecord_entity : Entity MRecord := {|
  column c :=
    if decide (c = "reference") then Some (λ r, VBytes (r_Reference r))
    else if decide (c = "type") then Some (λ r, VStr (r_Type r))
    else if decide (c = "object_reference") then Some (λ r, VBytes (r_ObjectReference r))
    else if decide (c = "jet_id") then Some (λ r, VStr (r_JetID r))
    else if decide (c = "pulse_number") then Some (λ r, VInt (r_PulseNumber r))
    else if decide (c = "order") then Some (λ r, VInt (r_Order r))
    else if decide (c = "timestamp") then Some (λ r, VInt (r_Timestamp r))
    else None;
  rows t := (map_to_list (t_records t)).*2;
  key_columns := ["reference"];
|}.

(** ** Conditions *)

Inductive sql_cmp := CEq | CLt | CLe | CGt | CGe.

Inductive sql_atom :=
  | ACmp (col : string) (op : sql_cmp) (v : sql_val)      (* col op ? *)
  | AIn (col : string) (vs : list sql_val)                (* col in (?) *)
  | ALike (col pattern : string).                         (* col like ? *)

(** The text of a condition, with its [?] filled in. *)
Inductive sql_tok := TOpen | TClose | TAnd | TOr | TAtom (a : sql_atom).
Abbreviation sql_text := (list sql_tok).

Inductive sql_exp :=
  | EAtom (a : sql_atom)
  | EAnd (e1 e2 : sql_exp)
  | EOr (e1 e2 : sql_exp).

(** The order of values of one type; a total preorder over all of them. *)
Definition val_leb (v w : sql_val) : bool :=
  match v, w with
  | VInt a, VInt b => a <=? b
  | VInt _, _ => true
  | VStr _, VInt _ => false
  | VStr a, VStr b => String.leb a b
  | VStr _, _ => true
  | VBytes _, (VInt _ | VStr _) => false
  | VBytes a, VBytes b =>
      String.leb (String.string_of_list_byte a) (String.string_of_list_byte b)
  | VBytes _, VBool _ => true
  | VBool a, VBool b => implb a b
  | VBool _, _ => false
  end.

Definition sat_cmp (op : sql_cmp) (v w : sql_val) : bool :=
  match op with
  | CEq => bool_decide (v = w)
  | CLt => negb (val_leb w v)
  | CLe => val_leb v w
  | CGt => negb (val_leb v w)
  | CGe => val_leb w v
  end.

(** [LIKE]: ['%'] matches any sequence, ['_'] any byte, ['\'] quotes. *)
Fixpoint like (pattern s : string) {struct pattern} : bool :=
  match pattern with
  | EmptyString => bool_decide (s = "")
  | String "%" pattern' =>
      (fix any (s : string) : bool :=
         like pattern' s || match s with EmptyString => false | String _ s' => any s' end) s
  | String "_" pattern' =>
      match s with EmptyString => false | String _ s' => like pattern' s' end
  | String "\" (String c pattern') =>
      match s with
      | EmptyString => false
      | String a s' => bool_decide (a = c) && like pattern' s'
      end
  | String c pattern' =>
      match s with
      | EmptyString => false
      | String a s' => bool_decide (a = c) && like pattern' s'
      end
  end.

Definition sat_atom `{Entity A} (a : sql_atom) (r : A) : bool :=
  match a with
  | ACmp col op v => match column col with Some f => sat_cmp op (f r) v | None => false end
  | AIn col vs => match column col with Some f => bool_decide (f r ∈ vs) | None => false end
  | ALike col pattern =>
      match column col with
      | Some f => match f r with VStr s => like pattern s | _ => false end
      | None => false
      end
  end.

Fixpoint sat_exp `{Entity A} (e : sql_exp) (r : A) : bool :=
  match e with
  | EAtom a => sat_atom a r
  | EAnd e1 e2 => sat_exp e1 r && sat_exp e2 r
  | EOr e1 e2 => sat_exp e1 r || sat_exp e2 r
  end.

(** Precedence of SQL: a disjunction of conjunctions of factors. *)
Inductive level := LOr | LAnd | LFactor.

Fixpoint parse (fuel : nat) (l : level) (ts : sql_text) : option (sql_exp * sql_text) :=
  match fuel with
  | O => None
  | S fuel =>
      match l with
      | LFactor =>
          match ts with
          | TAtom a :: ts => Some (EAtom a, ts)
          | TOpen :: ts =>
              '(e, ts) ← parse fuel LOr ts;
              match ts with TClose :: ts => Some (e, ts) | _ => None end
          | _ => None
          end
      | LAnd =>
          '(e, ts) ← parse fuel LFactor ts;
          match ts with
          | TAnd :: ts => '(e', ts) ← parse fuel LAnd ts; Some (EAnd e e', ts)
          | _ => Some (e, ts)
          end
      | LOr =>
          '(e, ts) ← parse fuel LAnd ts;
          match ts with
          | TOr :: ts => '(e', ts) ← parse fuel LOr ts; Some (EOr e e', ts)
          | _ => Some (e, ts)
          end
      end
  end.

(** The condition a whole text denotes; three turns per token are enough. *)
Definition parse_where (ts : sql_text) : option sql_exp :=
  match parse (S (3 * length ts)) LOr ts with
  | Some (e, []) => Some e
  | _ => None
  end.

(** The rows of [pulses JOIN records ON records.pulse_number =
    pulses.pulse_number], with qualified column names. *)
Definition joined_rows (t : Tables) : list (Pulse * MRecord) :=
  p ← (map_to_list (t_pulses t)).*2;
  r ← (map_to_list (t_records t)).*2;
  if decide (r_PulseNumber r = p_PulseNumber p) then [(p, r)] else [].

#[export] Instance Joined_entity : Entity (Pulse * MRecord) := {|
  column c :=
    if decide (c = "pulses.pulse_number") then Some (λ pr, VInt (p_PulseNumber pr.1))
    else if decide (c = "pulses.prev_pulse_number") then Some (λ pr, VInt (p_PrevPulseNumber pr.1))
    else if decide (c = "pulses.is_complete") then Some (λ pr, VBool (p_IsComplete pr.1))
    else if decide (c = "records.prototype_reference")
         then Some (λ pr, VBytes (r_PrototypeReference pr.2))
    else None;
  rows := joined_rows;
  key_columns := [];
|}.

(** ** Queries *)

(** A chain of builder calls: the conditions given to [Where] and [Or] in call
    order, the [Order] columns (with [true] for [asc]), [Limit] and [Offset]. *)
Record Query := mkQuery {
  q_where : list sql_text;
  q_or : list sql_text;
  q_order : list (string * bool);
  q_limit : option Z;
  q_offset : option Z;
}.

Definition new_query : Query := mkQuery [] [] [] None None.
Definition Where (t : sql_text) (q : Query) : Query :=
  mkQuery (q_where q ++ [t]) (q_or q) (q_order q) (q_limit q) (q_offset q).
Definition Or (t : sql_text) (q : Query) : Query :=
  mkQuery (q_where q) (q_or q ++ [t]) (q_order q) (q_limit q) (q_offset q).
Definition Order (col : string) (asc : bool) (q : Query) : Query :=
  mkQuery (q_where q) (q_or q) (q_order q ++ [(col, asc)]) (q_limit q) (q_offset q).
Definition Limit (n : Z) (q : Query) : Query :=
  mkQuery (q_where q) (q_or q) (q_order q) (Some n) (q_offset q).
Definition Offset (n : Z) (q : Query) : Query :=
  mkQuery (q_where q) (q_or q) (q_order q) (q_limit q) (Some n).

(** How [gorm] puts the conditions together: each in parentheses, the [Where]s
    joined by AND, then the [Or]s. *)
Definition paren (t : sql_text) : sql_text := [TOpen] ++ t ++ [TClose].

Fixpoint join (sep : sql_tok) (ts : list sql_text) : sql_text :=
  match ts with
  | [] => []
  | [t] => t
  | t :: ts => t ++ [sep] ++ join sep ts
  end.

Definition where_text (q : Query) : sql_text :=
  let ands := join TAnd (paren <$> q_where q) in
  let ors := join TOr (paren <$> q_or q) in
  match ands, ors with
  | [], _ => ors
  | _, [] => ands
  | _, _ => ands ++ [TOr] ++ ors
  end.

(** The rows a query selects; [None] when its text is not an expression. *)
Definition where_pred `{Entity A} (q : Query) : option (A → bool) :=
  match where_text q with
  | [] => Some (λ _, true)
  | ts => e ← parse_where ts; Some (sat_exp e)
  end.

(** [ORDER BY]: lexicographic in the given columns. *)
Fixpoint row_leb `{Entity A} (order : list (string * bool)) (r s : A) : bool :=
  match order with
  | [] => true
  | (c, asc) :: order =>
      match column c with
      | Some f =>
          let le := if asc : bool then val_leb else flip val_leb in
          le (f r) (f s) && (negb (le (f s) (f r)) || row_leb order r s)
      | None => row_leb order r s
      end
  end.

Definition row_le `{Entity A} (order : list (string * bool)) (r s : A) : Prop :=
  row_leb order r s = true.

#[export] Instance row_le_dec `{Entity A} order : RelDecision (row_le (A := A) order).
Proof. intros r s. unfold row_le. apply _. Defined.

(** [LIMIT]/[OFFSET]; [gorm] leaves a negative one out. *)
Definition page {A} (limit offset : option Z) (l : list A) : list A :=
  let l := match offset with Some n => drop (Z.to_nat n) l | None => l end in
  match limit with
  | Some n => if decide (0 ≤ n) then take (Z.to_nat n) l else l
  | None => l
  end.

(** What a [SELECT] may return: an arrangement of the selected rows in the
    requested order, cut to the page. *)
Definition select_result `{Entity A} (q : Query) (t : Tables) (l : list A) : Prop :=
  ∃ P sorted,
    where_pred q = Some P ∧
    sorted ≡ₚ filter (λ r, P r = true) (rows t) ∧
    StronglySorted (row_le (q_order q)) sorted ∧
    l = page (q_limit q) (q_offset q) sorted.

Definition selected `{Entity A} (q : Query) (t : Tables) (r : A) : Prop :=
  ∃ P, where_pred q = Some P ∧ P r = true ∧ r ∈ rows t.

(** ** Statements that write *)

(** The columns [ON CONFLICT ... DO UPDATE SET c = EXCLUDED.c] copies from the
    row that was to be inserted. *)
Definition excluded_update (cols : list string) (old new : Pulse) : Pulse := {|
  p_PulseNumber := p_PulseNumber old;
  p_PrevPulseNumber :=
    if decide ("prev_pulse_number" ∈ cols) then p_PrevPulseNumber new else p_PrevPulseNumber old;
  p_NextPulseNumber :=
    if decide ("next_pulse_number" ∈ cols) then p_NextPulseNumber new else p_NextPulseNumber old;
  p_IsComplete := if decide ("is_complete" ∈ cols) then p_IsComplete new else p_IsComplete old;
  p_IsSequential :=
    if decide ("is_sequential" ∈ cols) then p_IsSequential new else p_IsSequential old;
  p_Timestamp := if decide ("timestamp" ∈ cols) then p_Timestamp new else p_Timestamp old;
  p_JetDropAmount :=
    if decide ("jet_drop_amount" ∈ cols) then p_JetDropAmount new else p_JetDropAmount old;
  p_RecordAmount :=
    if decide ("record_amount" ∈ cols) then p_RecordAmount new else p_RecordAmount old;
|}.

(** [Update(models.Pulse{...})] writes the non-zero fields of its argument only;
    the program sets one flag at a time. *)
Definition update_flags (u p : Pulse) : Pulse := {|
  p_PulseNumber := p_PulseNumber p;
  p_PrevPulseNumber := p_PrevPulseNumber p;
  p_NextPulseNumber := p_NextPulseNumber p;
  p_IsComplete := p_IsComplete u || p_IsComplete p;
  p_IsSequential := p_IsSequential u || p_IsSequential p;
  p_Timestamp := p_Timestamp p;
  p_JetDropAmount := p_JetDropAmount p;
  p_RecordAmount := p_RecordAmount p;
|}.

(** [gorm.Expr("c + ?", n)] for the two counters. *)
Definition add_amounts (d_jd d_rec : Z) (p : Pulse) : Pulse := {|
  p_PulseNumber := p_PulseNumber p;
  p_PrevPulseNumber := p_PrevPulseNumber p;
  p_NextPulseNumber := p_NextPulseNumber p;
  p_IsComplete := p_IsComplete p;
  p_IsSequential := p_IsSequential p;
  p_Timestamp := p_Timestamp p;
  p_JetDropAmount := p_JetDropAmount p + d_jd;
  p_RecordAmount := p_RecordAmount p + d_rec;
|}.

(** ** The operations and their laws *)

(** [DB] is a connection together with the database behind it: its committed
    tables, and whatever else decides whether a statement goes through. *)
Class Gorm (DB : Type) := {
  tables : DB → Tables;
  Find : ∀ A `{Entity A}, Query → DB → result (list A);     (* Find(&slice) *)
  FindOne : ∀ A `{Entity A}, Query → DB → result A;         (* Find(&struct) *)
  First : ∀ A `{Entity A}, Query → DB → result A;           (* First(&struct) *)
  Count : ∀ A `{Entity A}, Query → DB → result Z;
  Create_JetDrop : JetDrop → DB → result DB;
  Save_JetDrop : JetDrop → DB → result DB;
  Save_Record : MRecord → DB → result DB;
  Save_Pulse : Pulse → DB → result DB;
  Create_Record : MRecord → DB → result DB;
  Create_Pulse : Pulse → DB → result DB;
  (* Create with the insert option ON CONFLICT (pulse_number) DO UPDATE SET *)
  Create_Pulse_on_conflict : list string → Pulse → DB → result DB;
  (* Model(&Pulse{PulseNumber: n}).UpdateColumns with the two expressions *)
  UpdateColumns_Pulse : Z → Z → Z → DB → result DB;
  (* Model(&Pulse{PulseNumber: n}).Update(u): rows affected, new state *)
  Update_Pulse : Z → Pulse → DB → result (Z * DB);
  Transaction : (DB → result DB) → DB → result DB;
}.
Arguments Find {DB _} A {_}.
Arguments FindOne {DB _} A {_}.
Arguments First {DB _} A {_}.
Arguments Count {DB _} A {_}.

(** Documented behaviour: what a call that succeeds has done, and when "record
    not found" is reported.  A call may always fail for other reasons. *)
Class GormLaws (DB : Type) `{Gorm DB} := {
  Find_Ok : ∀ A `{Entity A} q db l,
    Find A q db = Ok l → select_result q (tables db) l;
  FindOne_Ok : ∀ A `{Entity A} q db r, FindOne A q db = Ok r → selected q (tables db) r;
  FindOne_not_found : ∀ A `{Entity A} q db,
    FindOne A q db = Err ErrRecordNotFound → ∀ r : A, ¬ selected q (tables db) r;
  First_Ok : ∀ A `{Entity A} q db r,
    First A q db = Ok r →
    selected q (tables db) r ∧
    ∀ s, selected q (tables db) s → row_le ((λ c, (c, true)) <$> key_columns A) r s;
  First_not_found : ∀ A `{Entity A} q db,
    First A q db = Err ErrRecordNotFound → ∀ r : A, ¬ selected q (tables db) r;
  Count_Ok : ∀ A `{Entity A} q db n,
    Count A q db = Ok n →
    ∃ P, where_pred q = Some P ∧ n = Z.of_nat (length (filter (λ r : A, P r = true) (rows (tables db))));
  Create_JetDrop_Ok : ∀ j db db',
    Create_JetDrop j db = Ok db' →
    t_jet_drops (tables db) !! jd_key j = None ∧
    is_Some (t_pulses (tables db) !! jd_PulseNumber j) ∧
    tables db' = set_jet_drops (<[jd_key j := j]> (t_jet_drops (tables db))) (tables db);
  Save_JetDrop_Ok : ∀ j db db',
    Save_JetDrop j db = Ok db' →
    is_Some (t_pulses (tables db) !! jd_PulseNumber j) ∧
    tables db' = set_jet_drops (<[jd_key j := j]> (t_jet_drops (tables db))) (tables db);
  Save_Record_Ok : ∀ r db db',
    Save_Record r db = Ok db' →
    is_Some (t_jet_drops (tables db) !! (r_PulseNumber r, r_JetID r)) ∧
    tables db' = set_records (<[r_Reference r := r]> (t_records (tables db))) (tables db);
  Save_Pulse_Ok : ∀ p db db',
    p_PulseNumber p ≠ 0 → Save_Pulse p db = Ok db' →
    tables db' = set_pulses (<[p_PulseNumber p := p]> (t_pulses (tables db))) (tables db);
  Create_Record_Ok : ∀ r db db',
    Create_Record r db = Ok db' →
    t_records (tables db) !! r_Reference r = None ∧
    is_Some (t_jet_drops (tables db) !! (r_PulseNumber r, r_JetID r)) ∧
    tables db' = set_records (<[r_Reference r := r]> (t_records (tables db))) (tables db);
  Create_Pulse_new : ∀ p db db',
    p_PulseNumber p ≠ 0 → Create_Pulse p db = Ok db' →
    t_pulses (tables db) !! p_PulseNumber p = None ∧
    tables db' = set_pulses (<[p_PulseNumber p := p]> (t_pulses (tables db))) (tables db);
  Create_Pulse_Ok : ∀ cols p db db',
    Create_Pulse_on_conflict cols p db = Ok db' →
    tables db' = set_pulses
      (<[p_PulseNumber p :=
           match t_pulses (tables db) !! p_PulseNumber p with
           | None => p
           | Some old => excluded_update cols old p
           end]> (t_pulses (tables db))) (tables db);
  UpdateColumns_Pulse_Ok : ∀ n a b db db',
    n ≠ 0 → UpdateColumns_Pulse n a b db = Ok db' →
    tables db' = set_pulses (alter (add_amounts a b) n (t_pulses (tables db))) (tables db);
  Update_Pulse_Ok : ∀ n u db k db',
    n ≠ 0 → Update_Pulse n u db = Ok (k, db') →
    tables db' = set_pulses (alter (update_flags u) n (t_pulses (tables db))) (tables db) ∧
    k = match t_pulses (tables db) !! n with Some _ => 1 | None => 0 end;
  Transaction_Ok : ∀ f db db',
    Transaction f db = Ok db' → ∃ db1, f db = Ok db1 ∧ tables db' = tables db1;
  Transaction_Err : ∀ f db e, f db = Err e → Transaction f db = Err e;
}.

(** ** Lemmas: the text of conditions *)

(** The grammar [parse] decides. *)
Inductive Derives : level → sql_text → sql_exp → Prop :=
  | D_atom a : Derives LFactor [TAtom a] (EAtom a)
  | D_paren t e : Derives LOr t e → Derives LFactor (paren t) e
  | D_and1 t e : Derives LFactor t e → Derives LAnd t e
  | D_and t1 e1 t2 e2 :
      Derives LFactor t1 e1 → Derives LAnd t2 e2 →
      Derives LAnd (t1 ++ [TAnd] ++ t2) (EAnd e1 e2)
  | D_or1 t e : Derives LAnd t e → Derives LOr t e
  | D_or t1 e1 t2 e2 :
      Derives LAnd t1 e1 → Derives LOr t2 e2 →
      Derives LOr (t1 ++ [TOr] ++ t2) (EOr e1 e2).

(** What may come after an expression of a level without being part of it. *)
Definition follow (l : level) (rest : sql_text) : Prop :=
  match rest with
  | TAnd :: _ => l = LFactor
  | TOr :: _ => l ≠ LOr
  | _ => True
  end.

Definition level_cost (l : level) : nat :=
  match l with LFactor => 0 | LAnd => 1 | LOr => 2 end.

Lemma Derives_nonempty l t e : Derives l t e → (0 < length t)%nat.
Proof. induction 1; cbn in *; rewrite ?length_app; cbn; lia. Qed.

Lemma parse_complete l t e :
  Derives l t e → ∀ fuel rest,
  (3 * length t + level_cost l ≤ fuel + 2)%nat → follow l rest →
  parse fuel l (t ++ rest) = Some (e, rest).
Proof.
  induction 1 as [a|t e Ht IH|t e Ht IH|t1 e1 t2 e2 H1 IH1 H2 IH2|t e Ht IH
                 |t1 e1 t2 e2 H1 IH1 H2 IH2]; intros fuel rest Hfuel Hf;
    repeat match goal with H : Derives _ _ _ |- _ => apply Derives_nonempty in H end;
    unfold paren in *; cbn in Hfuel; rewrite ?length_app in Hfuel; cbn in Hfuel;
    (destruct fuel as [|fuel]; [lia|]); cbn [parse].
  - done.
  - rewrite <- !app_assoc. cbn. rewrite IH by (cbn; lia || done). done.
  - rewrite IH by (cbn; lia || by destruct rest as [|[]]).
    by destruct rest as [|[]].
  - rewrite <- !app_assoc. rewrite IH1 by (cbn; lia || done).
    cbn. rewrite IH2 by (cbn; lia || done). done.
  - rewrite IH by (cbn; lia || by destruct rest as [|[]]).
    by destruct rest as [|[]].
  - rewrite <- !app_assoc. rewrite IH1 by (cbn; lia || done).
    cbn. rewrite IH2 by (cbn; lia || done). done.
Qed.

Lemma parse_where_complete t e : Derives LOr t e → parse_where t = Some e.
Proof.
  intros Hd. unfold parse_where. rewrite <- (app_nil_r t) at 2.
  rewrite (parse_complete _ _ _ Hd) by (cbn; lia || done). done.
Qed.

Lemma derives_atom a : Derives LOr [TAtom a] (EAtom a).
Proof. repeat constructor. Qed.
Lemma derives_and2 a b : Derives LOr [TAtom a; TAnd; TAtom b] (EAnd (EAtom a) (EAtom b)).
Proof. constructor. apply (D_and [TAtom a]); repeat constructor. Qed.
Lemma derives_or2 a b : Derives LOr [TAtom a; TOr; TAtom b] (EOr (EAtom a) (EAtom b)).
Proof. apply (D_or [TAtom a]); repeat constructor. Qed.
#[export] Hint Resolve derives_atom derives_and2 derives_or2 : be.

Lemma derives_join ws es w e :
  Forall2 (Derives LOr) (ws ++ [w]) (es ++ [e]) → length ws = length es →
  ∃ f, Derives LAnd (join TAnd (paren <$> (ws ++ [w]))) f ∧
       ∀ (A : Type) (HA : Entity A) (r : A), sat_exp f r = forallb (λ e, sat_exp e r) (es ++ [e]).
Proof.
  revert es. induction ws as [|w' ws IH]; intros [|e' es] Hall Hlen; try done.
  - cbn. apply Forall2_cons in Hall as [Hd _]. exists e. split.
    + by do 2 constructor.
    + intros. cbn. by rewrite andb_true_r.
  - cbn in Hall, Hlen. apply Forall2_cons in Hall as [Hd Hall].
    destruct (IH es Hall) as (f & Hf & Hsat); [lia|].
    exists (EAnd e' f). split.
    + rewrite <- app_comm_cons, fmap_cons. cbn [join].
      destruct (paren <$> (ws ++ [w])) eqn:Hn; [by destruct ws|].
      apply (D_and (paren w') e'); [apply D_paren, Hd|exact Hf].
    + intros. cbn. by rewrite Hsat.
Qed.

Lemma join_nonempty sep w ws : join sep (paren <$> w :: ws) ≠ [].
Proof. cbn. by destruct (paren <$> ws). Qed.

(** A text that is a conjunction of parenthesised conditions selects the rows
    satisfying all of them. *)
Lemma where_pred_texts `{Entity A} (q : Query) ws es :
  where_text q = join TAnd (paren <$> ws) → Forall2 (Derives LOr) ws es →
  ∃ P : A → bool, where_pred q = Some P ∧ ∀ r, P r = forallb (λ e, sat_exp e r) es.
Proof.
  intros Htext Hall. unfold where_pred. rewrite Htext.
  destruct ws as [|w ws _] using rev_ind.
  { apply Forall2_nil_inv_l in Hall as ->. cbn. by eexists. }
  pose proof Hall as Hall'.
  apply Forall2_app_inv_l in Hall as (es' & es'' & Hes & Hw & ->).
  apply Forall2_cons_inv_l in Hw as (e & es3 & _ & Hnil & ->).
  apply Forall2_nil_inv_l in Hnil as ->.
  destruct (derives_join _ _ _ _ Hall') as (f & Hf & Hsat); [by eapply Forall2_length|].
  pose proof (Derives_nonempty _ _ _ Hf) as Hlen.
  destruct (join TAnd _) eqn:Hj; [cbn in Hlen; lia|]. rewrite <- Hj in Hf |- *.
  rewrite (parse_where_complete _ f) by (by constructor).
  cbn. eexists. split; [done|]. intros r. apply Hsat.
Qed.

Lemma where_pred_ands `{Entity A} (q : Query) es :
  q_or q = [] → Forall2 (Derives LOr) (q_where q) es →
  ∃ P : A → bool, where_pred q = Some P ∧ ∀ r, P r = forallb (λ e, sat_exp e r) es.
Proof.
  intros Hor Hall. apply (where_pred_texts q (q_where q)); [|done].
  unfold where_text. rewrite Hor. by destruct (join TAnd _).
Qed.

(** A condition split over the last [Where] and one [Or], its parenthesis opened
    in the first and closed in the second, is read as one disjunction. *)
Lemma where_pred_split `{Entity A} (q : Query) ws es a ea b eb :
  q_where q = ws ++ [TOpen :: a] → q_or q = [b ++ [TClose]] →
  Forall2 (Derives LOr) ws es → Derives LOr a ea → Derives LOr b eb →
  ∃ P : A → bool, where_pred q = Some P ∧
    ∀ r, P r = forallb (λ e, sat_exp e r) es && (sat_exp ea r || sat_exp eb r).
Proof.
  intros Hw Hor Hall Ha Hb.
  destruct (where_pred_texts q (ws ++ [paren a ++ [TOr] ++ paren b]) (es ++ [EOr ea eb]))
    as (P & HP & Hsat).
  - unfold where_text. rewrite Hw, Hor. clear.
    assert (join TAnd (paren <$> ws ++ [TOpen :: a]) ++ [TOr] ++ paren (b ++ [TClose])
            = join TAnd (paren <$> ws ++ [paren a ++ [TOr] ++ paren b])) as <-.
    { induction ws as [|w ws IH].
      - unfold paren. cbn. rewrite <- !app_assoc. cbn. rewrite <- ?app_assoc. done.
      - rewrite <- !app_comm_cons, !fmap_cons. cbn [join].
        destruct (paren <$> ws ++ [TOpen :: a]) eqn:H1; [by destruct ws|].
        destruct (paren <$> ws ++ [paren a ++ _]) eqn:H2; [by destruct ws|].
        by rewrite <- IH, <- !app_assoc. }
    destruct (join TAnd (paren <$> ws ++ [TOpen :: a])) eqn:Hj; [|done].
    destruct ws; cbn in Hj; [done|]. by destruct (paren <$> ws ++ _).
  - apply Forall2_app; [done|]. constructor; [|done].
    apply D_or; [by do 2 constructor|]. by do 3 constructor.
  - exists P. split; [done|]. intros r. rewrite Hsat, forallb_app. cbn.
    by rewrite andb_true_r.
Qed.

(** ** Lemmas: what a query returns *)

Lemma page_sublist {A} limit offset (l : list A) : page limit offset l `sublist_of` l.
Proof.
  unfold page. assert (∀ n, drop n l `sublist_of` l) as Hd by (intros; apply sublist_drop).
  assert (∀ n (k : list A), take n k `sublist_of` k) as Ht by (intros; apply sublist_take).
  destruct offset, limit; try case_decide; eauto; etrans; eauto.
Qed.

Lemma page_length {A} n offset (l : list A) :
  0 ≤ n → Z.of_nat (length (page (Some n) offset l)) ≤ n.
Proof. intros Hn. unfold page. rewrite decide_True by done. rewrite length_take. lia. Qed.

Lemma StronglySorted_sublist {A} (R : A → A → Prop) l k :
  l `sublist_of` k → StronglySorted R k → StronglySorted R l.
Proof.
  induction 1 as [|x l k Hs IH|x l k Hs IH]; [done| |].
  - inversion_clear 1 as [|? ? Hk Hx]. constructor; [auto|].
    rewrite Forall_forall in Hx |- *. intros y Hy. apply Hx.
    by eapply elem_of_sublist.
  - inversion_clear 1. auto.
Qed.

Lemma selected_pred `{Entity A} q t (P : A → bool) r :
  where_pred q = Some P → selected q t r ↔ P r = true ∧ r ∈ rows t.
Proof. intros HP. unfold selected. naive_solver. Qed.

Lemma select_result_selected `{Entity A} q t (l : list A) r :
  select_result q t l → r ∈ l → selected q t r.
Proof.
  intros (P & sorted & HP & Hperm & _ & ->) Hr.
  apply (selected_pred _ _ _ _ HP).
  apply (list_elem_of_filter (λ r, P r = true)). rewrite <- Hperm.
  eapply elem_of_sublist; [exact Hr|apply page_sublist].
Qed.

Lemma select_result_sorted `{Entity A} q t (l : list A) :
  select_result q t l → StronglySorted (row_le (q_order q)) l.
Proof.
  intros (P & sorted & _ & _ & Hs & ->).
  eapply StronglySorted_sublist; [apply page_sublist|exact Hs].
Qed.

(** Without a limit and an offset nothing selected is left out. *)
Lemma select_result_all `{Entity A} q t (l : list A) r :
  select_result q t l → q_limit q = None → q_offset q = None →
  selected q t r → r ∈ l.
Proof.
  intros (P & sorted & HP & Hperm & _ & ->) Hl Ho Hsel.
  rewrite Hl, Ho. cbn. rewrite Hperm.
  apply list_elem_of_filter, (selected_pred _ _ _ _ HP), Hsel.
Qed.

Lemma elem_of_rows_map {K A} `{Countable K} (m : gmap K A) r :
  r ∈ (map_to_list m).*2 ↔ ∃ k, m !! k = Some r.
Proof.
  rewrite list_elem_of_fmap. split.
  - intros ([k r'] & -> & Hin). exists k. by apply elem_of_map_to_list.
  - intros [k Hk]. exists (k, r). split; [done|]. by apply elem_of_map_to_list.
Qed.

Lemma elem_of_joined t p r :
  (p, r) ∈ joined_rows t ↔
  (∃ k, t_pulses t !! k = Some p) ∧ (∃ k, t_records t !! k = Some r) ∧
  r_PulseNumber r = p_PulseNumber p.
Proof.
  unfold joined_rows. rewrite list_elem_of_bind. setoid_rewrite list_elem_of_bind.
  setoid_rewrite elem_of_rows_map. split.
  - intros (p' & (r' & Hin & Hr) & Hp). case_decide; [|by apply not_elem_of_nil in Hin].
    apply list_elem_of_singleton in Hin. by simplify_eq.
  - intros (Hp & Hr & Heq). exists p. split; [|done]. exists r. split; [|done].
    rewrite decide_True by done. by apply list_elem_of_singleton.
Qed.

(** ** Lemmas: columns by name *)

Create Rewrite HintDb columns.

Lemma Pulse_pulse_number : column (A := Pulse) "pulse_number" = Some (λ r, VInt (p_PulseNumber r)).
Proof. reflexivity. Qed.
Lemma Pulse_prev_pulse_number : column (A := Pulse) "prev_pulse_number" = Some (λ r, VInt (p_PrevPulseNumber r)).
Proof. reflexivity. Qed.
Lemma Pulse_is_complete : column (A := Pulse) "is_complete" = Some (λ r, VBool (p_IsComplete r)).
Proof. reflexivity. Qed.
Lemma Pulse_is_sequential : column (A := Pulse) "is_sequential" = Some (λ r, VBool (p_IsSequential r)).
Proof. reflexivity. Qed.
Lemma Pulse_timestamp : column (A := Pulse) "timestamp" = Some (λ r, VInt (p_Timestamp r)).
Proof. reflexivity. Qed.
Lemma JetDrop_pulse_number : column (A := JetDrop) "pulse_number" = Some (λ r, VInt (jd_PulseNumber r)).
Proof. reflexivity. Qed.
Lemma JetDrop_jet_id : column (A := JetDrop) "jet_id" = Some (λ r, VStr (jd_JetID r)).
Proof. reflexivity. Qed.
Lemma MRecord_reference : column (A := MRecord) "reference" = Some (λ r, VBytes (r_Reference r)).
Proof. reflexivity. Qed.
Lemma MRecord_type : column (A := MRecord) "type" = Some (λ r, VStr (r_Type r)).
Proof. reflexivity. Qed.
Lemma MRecord_object_reference : column (A := MRecord) "object_reference" = Some (λ r, VBytes (r_ObjectReference r)).
Proof. reflexivity. Qed.
Lemma MRecord_jet_id : column (A := MRecord) "jet_id" = Some (λ r, VStr (r_JetID r)).
Proof. reflexivity. Qed.
Lemma MRecord_pulse_number : column (A := MRecord) "pulse_number" = Some (λ r, VInt (r_PulseNumber r)).
Proof. reflexivity. Qed.
Lemma MRecord_order : column (A := MRecord) "order" = Some (λ r, VInt (r_Order r)).
Proof. reflexivity. Qed.
Lemma MRecord_timestamp : column (A := MRecord) "timestamp" = Some (λ r, VInt (r_Timestamp r)).
Proof. reflexivity. Qed.
#[export] Hint Rewrite Pulse_pulse_number Pulse_prev_pulse_number Pulse_is_complete Pulse_is_sequential
  Pulse_timestamp JetDrop_pulse_number JetDrop_jet_id MRecord_reference MRecord_type
  MRecord_object_reference MRecord_jet_id MRecord_pulse_number MRecord_order
  MRecord_timestamp : columns.

(** ** Lemmas: the order of values *)

Lemma val_leb_total v w : val_leb v w = true ∨ val_leb w v = true.
Proof.
  destruct v, w; cbn; auto.
  - rewrite !Z.leb_le. lia.
  - destruct (String.leb_total s s0); auto.
  - apply String.leb_total.
  - by destruct b, b0; auto.
Qed.

Lemma str_leb_trans a b c : String.leb a b = true → String.leb b c = true → String.leb a c = true.
Proof.
  intros H1 H2. apply Is_true_true. eapply (transitivity (R := String.le) (y := b));
    unfold String.le; by apply Is_true_true.
Qed.

Lemma val_leb_trans u v w : val_leb u v = true → val_leb v w = true → val_leb u w = true.
Proof.
  destruct u, v, w; cbn; try done; rewrite ?Z.leb_le; try lia; eauto using str_leb_trans.
  by destruct b, b0, b1.
Qed.

Lemma val_leb_refl v : val_leb v v = true.
Proof. by destruct (val_leb_total v v). Qed.

(** The order by named columns is a total preorder on the rows of an entity. *)
Section row_order.
Context `{Entity A}.

Lemma lex_trans (le : sql_val → sql_val → bool) (b1 b2 b3 : bool) u v w :
  (∀ x y z, le x y = true → le y z = true → le x z = true) →
  (b1 = true → b2 = true → b3 = true) →
  le u v && (negb (le v u) || b1) = true →
  le v w && (negb (le w v) || b2) = true →
  le u w && (negb (le w u) || b3) = true.
Proof.
  intros Htr Hb. rewrite !andb_true_iff, !orb_true_iff, !negb_true_iff.
  intros [H1 H2] [H3 H4]. split; [by eapply Htr|].
  destruct (le w u) eqn:Hwu; [right|by left].
  assert (le v u = true) by (by eapply Htr). assert (le w v = true) by (by eapply Htr).
  destruct H2, H4; try congruence. auto.
Qed.

#[export] Instance row_le_total order : Total (row_le (A := A) order).
Proof.
  intros r s. unfold row_le. induction order as [|[c asc] order IH]; cbn; [auto|].
  destruct (column c) as [f|]; [|done].
  destruct asc; cbn;
    destruct (val_leb_total (f r) (f s)) as [H1|H1]; rewrite H1; cbn;
    destruct (val_leb (f r) (f s)), (val_leb (f s) (f r)); cbn; auto.
Qed.

#[export] Instance row_le_trans order : Transitive (row_le (A := A) order).
Proof.
  intros r s t. unfold row_le. induction order as [|[c asc] order IH]; cbn; [auto|].
  destruct (column c) as [f|]; [|done].
  apply lex_trans; [|exact IH].
  destruct asc; cbn; intros x y z; [apply val_leb_trans|].
  intros H1 H2. by eapply val_leb_trans.
Qed.
End row_order.
