(* ===== verification/RefDb.v ===== *)
(** * A concrete database

    An in-memory instance of [Gorm]: the tables themselves and a switch that
    makes every statement fail with a connection error.  It shows that the laws
    of [Gorm.v] can be met, and it is what the witnesses of the storage, the
    processor, the controller and the API evaluate on. *)

From S2P Require Import Prelude GoStd Models Gorm.

Record RefDB := mkRefDB { ref_tables : Tables; ref_down : bool }.

Definition conn_refused : error := ErrMsg "connection refused".
Definition up (t : Tables) : RefDB := mkRefDB t false.
Definition no_rows : Tables := mkTables ∅ ∅ ∅.

Definition guard_up {A} (db : RefDB) (k : Tables → result A) : result A :=
  if ref_down db then Err conn_refused else k (ref_tables db).

Definition ref_select `{Entity A} (q : Query) (t : Tables) : option (list A) :=
  P ← where_pred q;
  Some (merge_sort (row_le (q_order q))
          (filter (λ r, P r = true) (rows t))).

Definition ref_find A `{Entity A} (q : Query) (db : RefDB) : result (list A) :=
  guard_up db (λ t,
    match ref_select q t with
    | Some l => Ok (page (q_limit q) (q_offset q) l)
    | None => Err (ErrMsg "syntax error")
    end).

Definition ref_one A `{Entity A} (q : Query) (db : RefDB) : result A :=
  guard_up db (λ t,
    match ref_select q t with
    | Some (r :: _) => Ok r
    | Some [] => Err ErrRecordNotFound
    | None => Err (ErrMsg "syntax error")
    end).

Definition ref_first A `{Entity A} (q : Query) (db : RefDB) : result A :=
  ref_one A (mkQuery (q_where q) (q_or q) ((λ c, (c, true)) <$> key_columns A) None None) db.

Definition ref_count A `{Entity A} (q : Query) (db : RefDB) : result Z :=
  guard_up db (λ t,
    match ref_select (A := A) q t with
    | Some l => Ok (Z.of_nat (length l))
    | None => Err (ErrMsg "syntax error")
    end).

Definition dup_key : error := ErrMsg "duplicate key value violates unique constraint".
Definition fk_violation : error := ErrMsg "violates foreign key constraint".
Definition no_pk : error := ErrMsg "missing primary key".

Definition ref_save_jet_drop (j : JetDrop) (db : RefDB) : result RefDB :=
  guard_up db (λ t,
    if decide (is_Some (t_pulses t !! jd_PulseNumber j))
    then Ok (up (set_jet_drops (<[jd_key j := j]> (t_jet_drops t)) t))
    else Err fk_violation).

Definition ref_save_record (r : MRecord) (db : RefDB) : result RefDB :=
  guard_up db (λ t,
    if decide (is_Some (t_jet_drops t !! (r_PulseNumber r, r_JetID r)))
    then Ok (up (set_records (<[r_Reference r := r]> (t_records t)) t))
    else Err fk_violation).

#[export] Instance ref_gorm : Gorm RefDB := {|
  tables := ref_tables;
  Find := ref_find;
  FindOne := ref_one;
  First := ref_first;
  Count := ref_count;
  Create_JetDrop j db :=
    guard_up db (λ t,
      match t_jet_drops t !! jd_key j with
      | Some _ => Err dup_key
      | None => ref_save_jet_drop j db
      end);
  Save_JetDrop := ref_save_jet_drop;
  Save_Record := ref_save_record;
  Save_Pulse p db :=
    guard_up db (λ t, Ok (up (set_pulses (<[p_PulseNumber p := p]> (t_pulses t)) t)));
  Create_Record r db :=
    guard_up db (λ t,
      match t_records t !! r_Reference r with
      | Some _ => Err dup_key
      | None => ref_save_record r db
      end);
  Create_Pulse p db :=
    guard_up db (λ t,
      match t_pulses t !! p_PulseNumber p with
      | Some _ => Err dup_key
      | None => Ok (up (set_pulses (<[p_PulseNumber p := p]> (t_pulses t)) t))
      end);
  Create_Pulse_on_conflict cols p db :=
    guard_up db (λ t,
      Ok (up (set_pulses
        (<[p_PulseNumber p :=
             match t_pulses t !! p_PulseNumber p with
             | None => p
             | Some old => excluded_update cols old p
             end]> (t_pulses t)) t)));
  UpdateColumns_Pulse n a b db :=
    guard_up db (λ t,
      if decide (n = 0) then Err no_pk
      else Ok (up (set_pulses (alter (add_amounts a b) n (t_pulses t)) t)));
  Update_Pulse n u db :=
    guard_up db (λ t,
      if decide (n = 0) then Err no_pk
      else Ok (match t_pulses t !! n with Some _ => 1 | None => 0 end,
               up (set_pulses (alter (update_flags u) n (t_pulses t)) t)));
  Transaction f db := f db;
|}.

(** ** The laws *)


Lemma guard_up_Ok {A} db (k : Tables → result A) a :
  guard_up db k = Ok a ↔ ref_down db = false ∧ k (ref_tables db) = Ok a.
Proof. unfold guard_up. destruct (ref_down db); naive_solver. Qed.

Lemma guard_up_not_found {A} db (k : Tables → result A) :
  guard_up db k = Err ErrRecordNotFound → k (ref_tables db) = Err ErrRecordNotFound.
Proof. unfold guard_up. by destruct (ref_down db). Qed.

Lemma ref_select_spec `{Entity A} (q : Query) t l :
  ref_select q t = Some l →
  ∃ P : A → bool, where_pred q = Some P ∧
    l ≡ₚ filter (λ r, P r = true) (rows t) ∧ StronglySorted (row_le (q_order q)) l.
Proof.
  unfold ref_select. destruct (where_pred q) as [P|]; cbn; [|done]. intros [= <-].
  exists P. split_and!; [done| |].
  - apply merge_sort_Permutation.
  - apply StronglySorted_merge_sort; apply _.
Qed.

Lemma ref_select_selected `{Entity A} (q : Query) t (l : list A) r :
  ref_select q t = Some l → r ∈ l ↔ selected q t r.
Proof.
  intros (P & HP & Hperm & _)%ref_select_spec.
  rewrite (selected_pred _ _ _ _ HP), Hperm. apply (list_elem_of_filter (λ r, P r = true)).
Qed.

Lemma ref_one_Ok `{Entity A} q db (r : A) :
  ref_one A q db = Ok r →
  selected q (ref_tables db) r ∧
  ∀ s, selected q (ref_tables db) s → row_le (q_order q) r s.
Proof.
  unfold ref_one. rewrite guard_up_Ok. intros [_ Hm].
  destruct (ref_select q (ref_tables db)) as [[|r' l]|] eqn:Hs; simplify_eq.
  setoid_rewrite <- (ref_select_selected _ _ _ _ Hs).
  split; [by left|]. apply ref_select_spec in Hs as (P & _ & _ & Hsort).
  inversion_clear Hsort as [|? ? _ Hall]. intros s [->|Hin]%elem_of_cons.
  - by destruct (row_le_total (q_order q) r r).
  - rewrite Forall_forall in Hall. auto.
Qed.

Lemma ref_one_not_found `{Entity A} q db :
  ref_one A q db = Err ErrRecordNotFound → ∀ r : A, ¬ selected q (ref_tables db) r.
Proof.
  unfold ref_one. intros Hm%guard_up_not_found r.
  destruct (ref_select q (ref_tables db)) as [[|r' l]|] eqn:Hs; try done.
  rewrite <- (ref_select_selected _ _ _ _ Hs). apply not_elem_of_nil.
Qed.

#[export] Instance ref_gorm_laws : GormLaws RefDB.
Proof.
  constructor; cbn.
  - intros A ? q db l. unfold ref_find. rewrite guard_up_Ok. intros [_ Hm].
    destruct (ref_select q _) as [l'|] eqn:Hs; simplify_eq.
    apply ref_select_spec in Hs as (P & HP & Hperm & Hsort). by exists P, l'.
  - intros A ? q db r Hr. by apply ref_one_Ok in Hr as [? _].
  - intros A ? q db. apply ref_one_not_found.
  - intros A ? q db r Hr. by apply ref_one_Ok in Hr.
  - intros A ? q db Hr r. by apply (ref_one_not_found _ _ Hr).
  - intros A ? q db n. unfold ref_count. rewrite guard_up_Ok. intros [_ Hm].
    destruct (ref_select q _) as [l'|] eqn:Hs; simplify_eq.
    apply ref_select_spec in Hs as (P & HP & Hperm & _). exists P. by rewrite Hperm.
  - intros j db db'. rewrite guard_up_Ok. intros [Hup Hm].
    destruct (_ !! jd_key j) eqn:Hj; [done|]. unfold ref_save_jet_drop in Hm.
    rewrite guard_up_Ok in Hm. destruct Hm as [_ Hm]. case_decide; simplify_eq. done.
  - intros j db db'. unfold ref_save_jet_drop. rewrite guard_up_Ok. intros [_ Hm].
    case_decide; by simplify_eq.
  - intros r db db'. unfold ref_save_record. rewrite guard_up_Ok. intros [_ Hm].
    case_decide; by simplify_eq.
  - intros p db db' _. rewrite guard_up_Ok. intros [_ Hm]. by simplify_eq.
  - intros r db db'. rewrite guard_up_Ok. intros [_ Hm].
    destruct (_ !! r_Reference r) eqn:Hr; [done|]. unfold ref_save_record in Hm.
    rewrite guard_up_Ok in Hm. destruct Hm as [_ Hm]. case_decide; simplify_eq. done.
  - intros p db db' _. rewrite guard_up_Ok. intros [_ Hm].
    destruct (_ !! p_PulseNumber p) eqn:Hp; [done|]. by simplify_eq.
  - intros cols p db db'. rewrite guard_up_Ok. intros [_ Hm]. by simplify_eq.
  - intros n a b db db' Hn. rewrite guard_up_Ok. intros [_ Hm].
    rewrite decide_False in Hm by done. by simplify_eq.
  - intros n u db k db' Hn. rewrite guard_up_Ok. intros [_ Hm].
    rewrite decide_False in Hm by done. by simplify_eq.
  - intros f db db' Hf. by exists db'.
  - done.
Qed.
