(* ===== verification/Interfaces.v ===== *)
(** * The interfaces between the components: [src/etl/interfaces/interfaces.go]

    One class per Go interface, over the type of the implementation's state.  A
    method that changes the state returns the new one; a method that fails leaves
    it as it was.  [StorageLaws] is what the storage promises to the processor and
    the controller; [StorageInstance.v] discharges it for [Storage.v]. *)

From S2P Require Import Prelude GoStd Platform Types Models Gorm.

(** ** The storage *)

(** [StorageSetter]. *)
Class StorageSetter (DB : Type) := {
  st_SaveJetDropData : JetDrop → list MRecord → Z → DB → result DB;
  st_SavePulse : Pulse → DB → result DB;
  st_CompletePulse : Z → DB → result DB;
  st_SequencePulse : Z → DB → result DB;
}.

(** [StorageFetcher]. *)
Class StorageFetcher (DB : Type) := {
  st_GetIncompletePulses : DB → result (list Pulse);
  st_GetSequentialPulse : DB → result Pulse;
  st_GetPulseByPrev : Pulse → DB → result Pulse;
  st_GetNextSavedPulse : Pulse → bool → DB → result Pulse;
  st_GetJetDrops : Pulse → DB → result (list JetDrop);
}.

(** [StorageExporterFetcher]. *)
Class StorageExporterFetcher (DB : Type) := {
  st_GetNextCompletePulseFilterByPrototypeReference : Z → list bytes → DB → result Pulse;
}.

(** [StorageAPIFetcher]. *)
Class StorageAPIFetcher (DB : Type) := {
  api_GetRecord : bytes → DB → result MRecord;
  api_GetPulse : Z → DB → result Pulse;
  api_GetPulses : option Z → option Z → option Z → option Z → option Z → option Z → option Z →
    bool → Z → Z → DB → result (list Pulse * Z);
  api_GetJetDropsWithParams : Pulse → option JetDropID → Z → Z → DB → result (list JetDrop * Z);
  api_GetJetDropByID : JetDropID → DB → result (JetDrop * list JetDrop * list JetDrop);
  api_GetJetDropsByJetID : string → option Z → option Z → option Z → option Z → Z → bool →
    DB → result (list JetDrop * Z);
  api_GetLifeline : bytes → option string → option Z → option Z → option Z → option Z → Z → Z →
    bool → DB → result (list MRecord * Z);
  api_GetRecordsByJetDrop : JetDropID → option string → option string → Z → Z → DB →
    result (list MRecord * Z);
  api_GetNextSavedPulse : Pulse → bool → DB → result Pulse;
  api_GetJetDrops : Pulse → DB → result (list JetDrop);
}.

(** ** The extractor and the controller, as their clients see them *)

(** [JetDropsExtractor.LoadJetDrops]: the state after the call and the error. *)
Class JetDropsExtractor (EX : Type) := {
  ex_LoadJetDrops : Z → Z → EX → EX * option error;
}.

(** [Controller.SetJetDropData]. *)
Class JetDropRegister (C : Type) := {
  ctl_SetJetDropData : TPulse → string → C → C;
}.

(** ** What the storage promises *)

Definition stored_pulse (t : Tables) (p : Pulse) : Prop := ∃ k, t_pulses t !! k = Some p.
Definition stored_drop (t : Tables) (j : JetDrop) : Prop := ∃ k, t_jet_drops t !! k = Some j.

Definition mark_complete (p : Pulse) : Pulse :=
  mkPulse (p_PulseNumber p) (p_PrevPulseNumber p) (p_NextPulseNumber p) true (p_IsSequential p)
    (p_Timestamp p) (p_JetDropAmount p) (p_RecordAmount p).
Definition mark_sequential (p : Pulse) : Pulse :=
  mkPulse (p_PulseNumber p) (p_PrevPulseNumber p) (p_NextPulseNumber p) (p_IsComplete p) true
    (p_Timestamp p) (p_JetDropAmount p) (p_RecordAmount p).

(** The records table after saving a list of records one by one. *)
Definition put_records (rs : list MRecord) (m : gmap bytes MRecord) : gmap bytes MRecord :=
  foldl (λ m r, <[r_Reference r := r]> m) m rs.

(** A stored pulse refreshed by [SavePulse]. *)
Definition refresh (old new : Pulse) : Pulse :=
  mkPulse (p_PulseNumber old) (p_PrevPulseNumber new) (p_NextPulseNumber new)
    (p_IsComplete old) (p_IsSequential old) (p_Timestamp new)
    (p_JetDropAmount old) (p_RecordAmount old).

Class StorageLaws (DB : Type) `{StorageSetter DB, StorageFetcher DB} := {
  st_tables : DB → Tables;
  st_CompletePulse_Ok : ∀ n db db',
    n ≠ 0 → st_CompletePulse n db = Ok db' →
    ∃ p, t_pulses (st_tables db) !! n = Some p ∧
      st_tables db' = set_pulses (<[n := mark_complete p]> (t_pulses (st_tables db))) (st_tables db);
  st_SequencePulse_Ok : ∀ n db db',
    n ≠ 0 → st_SequencePulse n db = Ok db' →
    ∃ p, t_pulses (st_tables db) !! n = Some p ∧
      st_tables db' = set_pulses (<[n := mark_sequential p]> (t_pulses (st_tables db))) (st_tables db);
  st_SavePulse_Ok : ∀ pulse db db',
    st_SavePulse pulse db = Ok db' →
    st_tables db' = set_pulses
      (<[p_PulseNumber pulse :=
           match t_pulses (st_tables db) !! p_PulseNumber pulse with
           | None => pulse
           | Some old => refresh old pulse
           end]> (t_pulses (st_tables db))) (st_tables db);
  (* the drop and its records are stored; only the counters of the pulse change *)
  st_SaveJetDropData_Ok : ∀ j rs n db db',
    n ≠ 0 → st_SaveJetDropData j rs n db = Ok db' →
    ∃ a b, st_tables db' = mkTables
      (alter (add_amounts a b) n (t_pulses (st_tables db)))
      (<[jd_key j := j]> (t_jet_drops (st_tables db)))
      (put_records rs (t_records (st_tables db)));
  st_GetIncompletePulses_Ok : ∀ db l,
    st_GetIncompletePulses db = Ok l →
    ∀ p, p ∈ l ↔ stored_pulse (st_tables db) p ∧ p_IsComplete p = false;
  st_GetJetDrops_Ok : ∀ pulse db l,
    st_GetJetDrops pulse db = Ok l →
    ∀ j, j ∈ l ↔ stored_drop (st_tables db) j ∧ jd_PulseNumber j = p_PulseNumber pulse;
  st_GetPulseByPrev_Ok : ∀ prev db p,
    st_GetPulseByPrev prev db = Ok p →
    stored_pulse (st_tables db) p ∧ p_PrevPulseNumber p = p_PulseNumber prev;
  st_GetPulseByPrev_not_found : ∀ prev db,
    st_GetPulseByPrev prev db = Err ErrRecordNotFound →
    ∀ p, stored_pulse (st_tables db) p → p_PrevPulseNumber p ≠ p_PulseNumber prev;
  st_GetSequentialPulse_Ok : ∀ db p,
    st_GetSequentialPulse db = Ok p →
    (p = emptyPulse ∧ ∀ q, stored_pulse (st_tables db) q → p_IsSequential q = false) ∨
    (stored_pulse (st_tables db) p ∧ p_IsSequential p = true ∧
     ∀ q, stored_pulse (st_tables db) q → p_IsSequential q = true →
          p_PulseNumber q ≤ p_PulseNumber p);
  st_GetNextSavedPulse_Ok : ∀ from completedOnly db p,
    st_GetNextSavedPulse from completedOnly db = Ok p →
    let ok q := (p_PulseNumber from <? p_PulseNumber q) && implb completedOnly (p_IsComplete q) in
    (p = emptyPulse ∧ ∀ q, stored_pulse (st_tables db) q → ok q = false) ∨
    (stored_pulse (st_tables db) p ∧ ok p = true ∧
     ∀ q, stored_pulse (st_tables db) q → ok q = true → p_PulseNumber p ≤ p_PulseNumber q);
}.
