(* ===== verification/Storage.v ===== *)
(** * The storage layer: [src/etl/storage/storage.go]

    Every method of [Storage], over an arbitrary database with the operations of
    [Gorm].  A method that writes takes the database and returns the new one, or
    the error it returns to its caller (the transaction is rolled back then, so
    the database is the one before the call). *)

From S2P Require Import Prelude GoStd Models Gorm.

(** ** Writing *)

Section writing.
Context `{Gorm DB}.

(** The loop [for _, record := range records { tx.Save(&record) }]. *)
Fixpoint save_records (records : list MRecord) (tx : DB) : result DB :=
  match records with
  | [] => Ok tx
  | record :: records =>
      tx ← wrap_err "error while saving record" (Save_Record record tx);
      save_records records tx
  end.

Definition initJD (jetDrop : JetDrop) (records : list MRecord) (pulseNumber : Z) (db : DB)
  : result DB :=
  Transaction (λ tx,
    tx ← wrap_err "error while saving jetDrop" (Create_JetDrop jetDrop tx);
    tx ← save_records records tx;
    wrap_err "error to update pulse data"
      (UpdateColumns_Pulse pulseNumber 1 (Z.of_nat (length records)) tx)) db.

Definition updateJD (jetDrop : JetDrop) (records : list MRecord) (db : DB) : result DB :=
  Transaction (λ tx,
    tx ← wrap_err "error while saving jetDrop" (Save_JetDrop jetDrop tx);
    save_records records tx) db.

Definition SaveJetDropData (jetDrop : JetDrop) (records : list MRecord) (pulseNumber : Z)
  (db : DB) : result DB :=
  match initJD jetDrop records pulseNumber db with
  | Ok db' => Ok db'
  | Err err =>
      if Contains (Error err) "error while saving jetDrop"
      then updateJD jetDrop records db
      else Err err
  end.

Definition SavePulse (pulse : Pulse) (db : DB) : result DB :=
  wrap_err "error while saving pulse"
    (Create_Pulse_on_conflict ["prev_pulse_number"; "next_pulse_number"; "timestamp"] pulse db).

(** [models.Pulse{IsComplete: true}] and [models.Pulse{IsSequential: true}]. *)
Definition complete_flag : Pulse := mkPulse 0 0 0 true false 0 0 0.
Definition sequential_flag : Pulse := mkPulse 0 0 0 false true 0 0 0.

Definition CompletePulse (pulseNumber : Z) (db : DB) : result DB :=
  Transaction (λ tx,
    '(rowsAffected, tx) ← wrap_err "error while updating pulse completeness"
                            (Update_Pulse pulseNumber complete_flag tx);
    if decide (rowsAffected = 0) then
      Err (ErrMsg ("try to complete not existing pulse with number " +:+ FormatInt pulseNumber))
    else if decide (rowsAffected ≠ 1) then
      Err (ErrMsg ("several rows were affected by update for pulse with number "
                   +:+ FormatInt pulseNumber +:+ " to complete, it was not expected"))
    else Ok tx) db.

Definition SequencePulse (pulseNumber : Z) (db : DB) : result DB :=
  Transaction (λ tx,
    '(rowsAffected, tx) ← wrap_err "error while updating pulse to sequential"
                            (Update_Pulse pulseNumber sequential_flag tx);
    if decide (rowsAffected = 0) then
      Err (ErrMsg ("try to sequence not existing pulse with number " +:+ FormatInt pulseNumber))
    else if decide (rowsAffected ≠ 1) then
      Err (ErrMsg ("several rows were affected by update for pulse with number "
                   +:+ FormatInt pulseNumber +:+ " to sequential, it was not expected"))
    else Ok tx) db.
End writing.

(** ** Conditions *)

Definition cond (col : string) (op : sql_cmp) (v : sql_val) : sql_text := [TAtom (ACmp col op v)].

Definition index_format : error :=
  ErrMsg "query parameter 'index' should have the '<pulse_number>:<order>' format".

(** [int] and [int64] have the same width on the platforms the program is built
    for, so [int(pulseNumber)] and [int(order)] change nothing. *)
Definition CheckIndex (i : string) : result (Z * Z) :=
  match Split i ":" with
  | [i0; i1] =>
      match ParseInt i0 with
      | None => Err index_format
      | Some pulseNumber =>
          match ParseInt i1 with
          | None => Err index_format
          | Some order => Ok (pulseNumber, order)
          end
      end
  | _ => Err index_format
  end.

(** [if p != nil { query = query.Where("col op ?", *p) }]. *)
Definition where_opt (col : string) (op : sql_cmp) (p : option Z) (query : Query) : Query :=
  match p with Some n => Where (cond col op (VInt n)) query | None => query end.

Definition filterByPulse (query : Query) (pulseNumberLt pulseNumberGt : option Z) : Query :=
  let query := where_opt "pulse_number" CGt pulseNumberGt query in
  where_opt "pulse_number" CLt pulseNumberLt query.

Definition filterByPulseNumber (query : Query)
  (pulseNumberLte pulseNumberLt pulseNumberGte pulseNumberGt : option Z) : Query :=
  let query := where_opt "pulse_number" CLe pulseNumberLte query in
  let query := where_opt "pulse_number" CLt pulseNumberLt query in
  let query := where_opt "pulse_number" CGe pulseNumberGte query in
  where_opt "pulse_number" CGt pulseNumberGt query.

(** The condition is given in two pieces, with an opening parenthesis in the
    [Where] and the closing one in the [Or]. *)
Definition filterRecordsByIndex (query : Query) (fromIndex : string) (sortByIndexAsc : bool)
  : result Query :=
  '(pulseNumber, order) ← CheckIndex fromIndex;
  if sortByIndexAsc : bool then
    let query := Where [TOpen; TAtom (ACmp "pulse_number" CGt (VInt pulseNumber))] query in
    Ok (Or [TAtom (ACmp "pulse_number" CEq (VInt pulseNumber)); TAnd;
            TAtom (ACmp "order" CGe (VInt order)); TClose] query)
  else
    let query := Where [TOpen; TAtom (ACmp "pulse_number" CLt (VInt pulseNumber))] query in
    Ok (Or [TAtom (ACmp "pulse_number" CEq (VInt pulseNumber)); TAnd;
            TAtom (ACmp "order" CLe (VInt order)); TClose] query).

Definition filterByTimestamp (query : Query) (timestampLte timestampGte : option Z) : Query :=
  let query := where_opt "timestamp" CGe timestampGte query in
  where_opt "timestamp" CLe timestampLte query.

Definition sortRecordsByDirection (query : Query) (sortByIndexAsc : bool) : Query :=
  if sortByIndexAsc then Order "order" true (Order "pulse_number" true query)
  else Order "order" false (Order "pulse_number" false query).

(** A [[]byte] printed with [%v]: decimal bytes between brackets. *)
Definition FormatBytes (b : bytes) : string :=
  let fix go (b : bytes) : string :=
    match b with
    | [] => ""
    | [x] => FormatInt (Z.of_N (Byte.to_N x))
    | x :: b => FormatInt (Z.of_N (Byte.to_N x)) +:+ " " +:+ go b
    end in
  "[" +:+ go b +:+ "]".

(** ** Reading *)

Section reading.
Context `{Gorm DB}.

Definition GetRecord (ref : bytes) (db : DB) : result MRecord :=
  First MRecord (Where (cond "reference" CEq (VBytes ref)) new_query) db.

Definition getRecords (query : Query) (limit offset : Z) (db : DB) : result (list MRecord * Z) :=
  records ← Find MRecord (Offset offset (Limit limit query)) db;
  total ← Count MRecord query db;
  Ok (records, total).

Definition getPulses (query : Query) (limit offset : Z) (db : DB) : result (list Pulse * Z) :=
  pulses ← Find Pulse (Offset offset (Limit limit query)) db;
  total ← Count Pulse query db;
  Ok (pulses, total).

Definition GetLifeline (objRef : bytes) (fromIndex : option string)
  (pulseNumberLt pulseNumberGt timestampLte timestampGte : option Z) (limit offset : Z)
  (sortByIndexAsc : bool) (db : DB) : result (list MRecord * Z) :=
  let query := Where (cond "object_reference" CEq (VBytes objRef)) new_query in
  let query := Where (cond "type" CEq (VStr State)) query in
  let query := filterByPulse query pulseNumberLt pulseNumberGt in
  let query := filterByTimestamp query timestampLte timestampGte in
  query ← match fromIndex with
          | Some i => filterRecordsByIndex query i sortByIndexAsc
          | None => Ok query
          end;
  let query := sortRecordsByDirection query sortByIndexAsc in
  wrap_err ("error while select records for object " +:+ FormatBytes objRef +:+ " from db")
    (getRecords query limit offset db).

Definition set_next (n : Z) (p : Pulse) : Pulse :=
  mkPulse (p_PulseNumber p) (p_PrevPulseNumber p) n (p_IsComplete p) (p_IsSequential p)
    (p_Timestamp p) (p_JetDropAmount p) (p_RecordAmount p).
Definition set_prev (n : Z) (p : Pulse) : Pulse :=
  mkPulse (p_PulseNumber p) n (p_NextPulseNumber p) (p_IsComplete p) (p_IsSequential p)
    (p_Timestamp p) (p_JetDropAmount p) (p_RecordAmount p).

Definition updateNextPulse (pulse : Pulse) (db : DB) : Pulse :=
  match First Pulse
          (Where (cond "prev_pulse_number" CEq (VInt (p_PulseNumber pulse))) new_query) db with
  | Err _ => set_next (-1) pulse
  | Ok nextPulse => set_next (p_PulseNumber nextPulse) pulse
  end.

Definition updatePrevPulse (pulse : Pulse) (db : DB) : Pulse :=
  match First Pulse
          (Where (cond "pulse_number" CEq (VInt (p_PrevPulseNumber pulse))) new_query) db with
  | Err _ => set_prev (-1) pulse
  | Ok _ => pulse
  end.

Definition GetPulse (pulseNumber : Z) (db : DB) : result Pulse :=
  pulse ← First Pulse (Where (cond "pulse_number" CEq (VInt pulseNumber)) new_query) db;
  let pulse := updateNextPulse pulse db in
  let pulse := updatePrevPulse pulse db in
  Ok pulse.

(** The body of the ascending loop at index [i], [i >= 1]. *)
Definition link_asc_at (i : nat) (pulses : list Pulse) : list Pulse :=
  match pulses !! i, pulses !! (i - 1)%nat with
  | Some pi, Some pj =>
      if decide (p_PrevPulseNumber pi = p_PulseNumber pj)
      then <[(i - 1)%nat := set_next (p_PulseNumber pi) pj]> pulses
      else <[(i - 1)%nat := set_next (-1) pj]> (<[i := set_prev (-1) pi]> pulses)
  | _, _ => pulses
  end.

(** [for i := pulsesLen - 1; i > 0; i--]. *)
Fixpoint link_asc (i : nat) (pulses : list Pulse) : list Pulse :=
  match i with
  | O => pulses
  | S i' => link_asc i' (link_asc_at i pulses)
  end.

(** The body of the descending loop at index [i], [i + 1 < pulsesLen]. *)
Definition link_desc_at (i : nat) (pulses : list Pulse) : list Pulse :=
  match pulses !! i, pulses !! (i + 1)%nat with
  | Some pi, Some pj =>
      if decide (p_PrevPulseNumber pi = p_PulseNumber pj)
      then <[(i + 1)%nat := set_next (p_PulseNumber pi) pj]> pulses
      else <[i := set_prev (-1) pi]> (<[(i + 1)%nat := set_next (-1) pj]> pulses)
  | _, _ => pulses
  end.

(** [for i := 0; i < pulsesLen-1; i++]; [n] turns are left. *)
Fixpoint link_desc (n i : nat) (pulses : list Pulse) : list Pulse :=
  match n with
  | O => pulses
  | S n' => link_desc n' (S i) (link_desc_at i pulses)
  end.

(** [pulses[i] = f(pulses[i])]. *)
Definition update_at (i : nat) (f : Pulse → Pulse) (pulses : list Pulse) : list Pulse :=
  alter f i pulses.

Definition set_real_links (sortByAsc : bool) (pulses : list Pulse) (db : DB) : list Pulse :=
  let pulsesLen := length pulses in
  if sortByAsc : bool then
    let pulses := link_asc (pulsesLen - 1) pulses in
    if decide (0 < pulsesLen)%nat then
      let pulses := update_at 0 (λ p, updatePrevPulse p db) pulses in
      update_at (pulsesLen - 1) (λ p, updateNextPulse p db) pulses
    else pulses
  else
    let pulses := link_desc (pulsesLen - 1) 0 pulses in
    if decide (0 < pulsesLen)%nat then
      let pulses := update_at 0 (λ p, updateNextPulse p db) pulses in
      update_at (pulsesLen - 1) (λ p, updatePrevPulse p db) pulses
    else pulses.

Definition GetPulses (fromPulse timestampLte timestampGte pulseNumberLte pulseNumberLt
  pulseNumberGte pulseNumberGt : option Z) (sortByAsc : bool) (limit offset : Z) (db : DB)
  : result (list Pulse * Z) :=
  let query := filterByTimestamp new_query timestampLte timestampGte in
  let query := filterByPulseNumber query pulseNumberLte pulseNumberLt
                 pulseNumberGte pulseNumberGt in
  let query := Order "pulse_number" sortByAsc query in
  let query := where_opt "pulse_number" CLe fromPulse query in
  '(pulses, total) ← wrap_err "error while select pulses from db"
                       (getPulses query limit offset db);
  Ok (set_real_links sortByAsc pulses db, total).

Definition GetRecordsByJetDrop (jetDropID : JetDropID) (fromIndex recordType : option string)
  (limit offset : Z) (db : DB) : result (list MRecord * Z) :=
  let query := Where (cond "jet_id" CEq (VStr (jdi_JetID jetDropID)))
                 (Where (cond "pulse_number" CEq (VInt (jdi_PulseNumber jetDropID))) new_query) in
  let query := match recordType with
               | Some t => Where (cond "type" CEq (VStr t)) query
               | None => query
               end in
  query ← match fromIndex with
          | Some i => filterRecordsByIndex query i true
          | None => Ok query
          end;
  let query := sortRecordsByDirection query true in
  wrap_err ("error while select records for pulse " +:+ FormatInt (jdi_PulseNumber jetDropID)
            +:+ ", jet " +:+ jdi_JetID jetDropID +:+ " from db")
    (getRecords query limit offset db).

Definition GetIncompletePulses (db : DB) : result (list Pulse) :=
  Find Pulse (Where (cond "is_complete" CEq (VBool false)) new_query) db.

Definition GetPulseByPrev (prevPulse : Pulse) (db : DB) : result Pulse :=
  First Pulse
    (Where (cond "prev_pulse_number" CEq (VInt (p_PulseNumber prevPulse))) new_query) db.

Definition GetSequentialPulse (db : DB) : result Pulse :=
  pulses ← Find Pulse
             (Limit 1 (Order "pulse_number" false
                (Where (cond "is_sequential" CEq (VBool true)) new_query))) db;
  match pulses with
  | [] => Ok emptyPulse
  | pulse :: _ => Ok pulse
  end.

Definition GetNextSavedPulse (fromPulseNumber : Pulse) (completedOnly : bool) (db : DB)
  : result Pulse :=
  let q := Where (cond "pulse_number" CGt (VInt (p_PulseNumber fromPulseNumber))) new_query in
  let q := if completedOnly : bool then Where (cond "is_complete" CEq (VBool true)) q else q in
  pulses ← Find Pulse (Limit 1 (Order "pulse_number" true q)) db;
  match pulses with
  | [] => Ok emptyPulse
  | pulse :: _ => Ok pulse
  end.

Definition GetJetDrops (pulse : Pulse) (db : DB) : result (list JetDrop) :=
  Find JetDrop (Where (cond "pulse_number" CEq (VInt (p_PulseNumber pulse))) new_query) db.

Definition GetJetDropsWithParams (pulse : Pulse) (fromJetDropID : option JetDropID)
  (limit offset : Z) (db : DB) : result (list JetDrop * Z) :=
  let q := Order "jet_id" true
             (Where (cond "pulse_number" CEq (VInt (p_PulseNumber pulse))) new_query) in
  let q := match fromJetDropID with
           | Some id => Where (cond "jet_id" CGe (VStr (jdi_JetID id))) q
           | None => q
           end in
  jetDrops ← Find JetDrop (Offset offset (Limit limit q)) db;
  total ← Count JetDrop q db;
  Ok (jetDrops, total).

(** [pulse_number = ? AND jet_id in (?)]. *)
Definition siblings_query (pulseNumber : Z) (siblings : list string) : Query :=
  Where [TAtom (ACmp "pulse_number" CEq (VInt pulseNumber)); TAnd;
         TAtom (AIn "jet_id" (VStr <$> siblings))] new_query.

(** The drop, its previous drops, its next drops. *)
Definition GetJetDropByID (id : JetDropID) (db : DB)
  : result (JetDrop * list JetDrop * list JetDrop) :=
  jetDrop ← FindOne JetDrop
              (Where [TAtom (ACmp "pulse_number" CEq (VInt (jdi_PulseNumber id))); TAnd;
                      TAtom (ACmp "jet_id" CEq (VStr (jdi_JetID id)))] new_query) db;
  pulse ← First Pulse (Where (cond "pulse_number" CEq (VInt (jdi_PulseNumber id))) new_query) db;
  let pulse := updateNextPulse pulse db in
  let siblings := Siblings jetDrop in
  nextJetDrops ←
    (if decide (p_NextPulseNumber pulse ≠ -1)
     then Find JetDrop (siblings_query (p_NextPulseNumber pulse) siblings) db
     else Ok []);
  prevJetDrops ← Find JetDrop (siblings_query (p_PrevPulseNumber pulse) siblings) db;
  Ok (jetDrop, prevJetDrops, nextJetDrops).

Definition GetJetDropsByJetID (jetID : string)
  (pulseNumberLte pulseNumberLt pulseNumberGte pulseNumberGt : option Z) (limit : Z)
  (sortByPnAsc : bool) (db : DB) : result (list JetDrop * Z) :=
  let q := Where [TAtom (AIn "jet_id" (VStr <$> GetJetIDParents jetID)); TOr;
                  TAtom (ALike "jet_id" (jetID +:+ "%"))] new_query in
  let q := filterByPulseNumber q pulseNumberLte pulseNumberLt pulseNumberGte pulseNumberGt in
  let q := if sortByPnAsc : bool
           then Order "jet_id" false (Order "pulse_number" true q)
           else Order "jet_id" true (Order "pulse_number" false q) in
  jetDrops ← Find JetDrop (Limit limit q) db;
  total ← Count JetDrop q db;
  Ok (jetDrops, total).

(** Both errors are swallowed: the zero pulse, or the pulse as it was read. *)
Definition GetNextCompletePulseFilterByPrototypeReference (prevPulse : Z)
  (prototypes : list bytes) (db : DB) : result Pulse :=
  let q := Where (cond "pulses.prev_pulse_number" CEq (VInt prevPulse)) new_query in
  let q := Where (cond "pulses.is_complete" CEq (VBool true)) q in
  let q := Where [TAtom (AIn "records.prototype_reference" (VBytes <$> prototypes))] q in
  match FindOne (Pulse * MRecord) (Limit (-1) q) db with
  | Err _ => Ok emptyPulse
  | Ok (pulse, _) =>
      (* gorm adds the primary key of its model, which [Find] has filled in *)
      let q := if decide (p_PulseNumber pulse = 0) then q
               else Where (cond "pulses.pulse_number" CEq (VInt (p_PulseNumber pulse))) q in
      match Count (Pulse * MRecord) q db with
      | Err _ => Ok pulse
      | Ok total =>
          Ok (mkPulse (p_PulseNumber pulse) (p_PrevPulseNumber pulse)
                (p_NextPulseNumber pulse) (p_IsComplete pulse) (p_IsSequential pulse)
                (p_Timestamp pulse) (p_JetDropAmount pulse) total)
      end
  end.
End reading.
