(* ===== verification/StorageWrite.v ===== *)
(** * What the writing methods of the storage do

    Theorems about [SaveJetDropData], [SavePulse], [CompletePulse] and
    [SequencePulse] of [Storage.v], over any database that behaves as
    documented ([GormLaws]). *)

From S2P Require Import Prelude GoStd Platform Types Models Gorm RefDb Interfaces Storage.

(** The drops stored for a pulse. *)
Definition drops_of (n : Z) (t : Tables) : gmap (Z * string) JetDrop :=
  filter (λ kj, kj.1.1 = n) (t_jet_drops t).

(** [jet_drop_amount] of every stored pulse counts its stored drops. *)
Definition drop_counters (t : Tables) : Prop :=
  ∀ n p, t_pulses t !! n = Some p → p_JetDropAmount p = Z.of_nat (size (drops_of n t)).

Lemma put_records_union rs m : put_records rs m = put_records rs ∅ ∪ m.
Proof.
  unfold put_records. induction rs as [|r rs IH] using rev_ind.
  - cbn. by rewrite (left_id_L ∅ (∪)).
  - rewrite !foldl_app. cbn. by rewrite IH, insert_union_l.
Qed.

Lemma put_records_twice rs m : put_records rs (put_records rs m) = put_records rs m.
Proof.
  rewrite (put_records_union rs m), (put_records_union rs (_ ∪ m)).
  by rewrite (assoc_L (∪)), (idemp_L (∪)).
Qed.

Lemma drops_of_insert_other j n t m r :
  jd_PulseNumber j ≠ n →
  drops_of n (mkTables m (<[jd_key j := j]> (t_jet_drops t)) r) = drops_of n t.
Proof.
  intros Hn. unfold drops_of. cbn. apply map_filter_insert_not. cbn. intros _. done.
Qed.

Lemma size_drops_insert j t m r :
  size (drops_of (jd_PulseNumber j) (mkTables m (<[jd_key j := j]> (t_jet_drops t)) r)) =
  (match t_jet_drops t !! jd_key j with Some _ => 0 | None => 1 end +
   size (drops_of (jd_PulseNumber j) t))%nat.
Proof.
  unfold drops_of. cbn.
  rewrite map_filter_insert_True by done. destruct (t_jet_drops t !! jd_key j) eqn:Hj.
  - apply map_size_insert_Some. exists j0. by apply map_lookup_filter_Some_2.
  - rewrite map_size_insert_None; [done|]. apply map_lookup_filter_None. by left.
Qed.

Section laws.
Context `{GormLaws DB}.
Implicit Types db : DB.

Lemma save_records_Ok rs db db' :
  save_records rs db = Ok db' →
  tables db' = set_records (put_records rs (t_records (tables db))) (tables db).
Proof.
  revert db. induction rs as [|r rs IH]; intros db Hs; cbn in Hs.
  - simplify_eq. by destruct (tables db').
  - autorewrite with be in Hs. destruct Hs as (db1 & Hr%wrap_err_Ok & Hs).
    apply Save_Record_Ok in Hr as [_ Ht]. rewrite (IH _ Hs), Ht. done.
Qed.

Lemma initJD_Ok j rs n db db' :
  n ≠ 0 → initJD j rs n db = Ok db' →
  t_jet_drops (tables db) !! jd_key j = None ∧
  tables db' = mkTables
    (alter (add_amounts 1 (Z.of_nat (length rs))) n (t_pulses (tables db)))
    (<[jd_key j := j]> (t_jet_drops (tables db)))
    (put_records rs (t_records (tables db))).
Proof.
  intros Hn (db1 & Hi & ->)%Transaction_Ok. autorewrite with be in Hi.
  destruct Hi as (db2 & Hc%wrap_err_Ok & Hi). autorewrite with be in Hi.
  destruct Hi as (db3 & Hs & Hu%wrap_err_Ok).
  apply Create_JetDrop_Ok in Hc as (Hnone & _ & Ht2).
  apply save_records_Ok in Hs. apply UpdateColumns_Pulse_Ok in Hu; [|done].
  split; [done|]. by rewrite Hu, Hs, Ht2.
Qed.

Lemma updateJD_Ok j rs db db' :
  updateJD j rs db = Ok db' →
  tables db' = mkTables (t_pulses (tables db))
    (<[jd_key j := j]> (t_jet_drops (tables db)))
    (put_records rs (t_records (tables db))).
Proof.
  intros (db1 & Hi & ->)%Transaction_Ok. autorewrite with be in Hi.
  destruct Hi as (db2 & Hc%wrap_err_Ok & Hs).
  apply Save_JetDrop_Ok in Hc as (_ & Ht2). apply save_records_Ok in Hs.
  by rewrite Hs, Ht2.
Qed.

Lemma SaveJetDropData_tables j rs n db db' :
  n ≠ 0 → SaveJetDropData j rs n db = Ok db' →
  tables db' = mkTables
    (if is_ok (initJD j rs n db)
     then alter (add_amounts 1 (Z.of_nat (length rs))) n (t_pulses (tables db))
     else t_pulses (tables db))
    (<[jd_key j := j]> (t_jet_drops (tables db)))
    (put_records rs (t_records (tables db))) ∧
  (is_ok (initJD j rs n db) = true → t_jet_drops (tables db) !! jd_key j = None).
Proof.
  intros Hn. unfold SaveJetDropData. destruct (initJD j rs n db) as [db1|err] eqn:Hi.
  - intros [= <-]. by apply initJD_Ok in Hi as [? ->].
  - case_match; [|done]. intros ->%updateJD_Ok. done.
Qed.

(** C8: the counter invariant, and exactly when it breaks.  If [jet_drop_amount]
    counts the stored drops of every pulse, then after a drop has been saved it
    does so again if and only if the insert went through, or the drop was stored
    before (it is saved again, uncounted), or its pulse has no row.  What is left
    is the fault: an insert that fails for another reason on a new drop falls
    through to the update, because only the text of the error is looked at, and
    that stores the drop without counting it. *)
Theorem SaveJetDropData_counters j rs db db' :
  jd_PulseNumber j ≠ 0 → SaveJetDropData j rs (jd_PulseNumber j) db = Ok db' →
  drop_counters (tables db) →
  (drop_counters (tables db') ↔
   is_ok (initJD j rs (jd_PulseNumber j) db) = true ∨
   is_Some (t_jet_drops (tables db) !! jd_key j) ∨
   t_pulses (tables db) !! jd_PulseNumber j = None).
Proof.
  intros Hn Hs Hinv. apply SaveJetDropData_tables in Hs as [Ht Hnew]; [|done]. split.
  - intros Hinv'. destruct (is_ok _) eqn:Hok; [by left|right].
    destruct (t_jet_drops (tables db) !! jd_key j) as [j'|] eqn:Hj; [left; by eexists|right].
    destruct (t_pulses (tables db) !! jd_PulseNumber j) as [p|] eqn:Hp; [exfalso|done].
    specialize (Hinv' (jd_PulseNumber j) p). rewrite Ht in Hinv'. cbn [t_pulses] in Hinv'.
    rewrite size_drops_insert, Hj, (Hinv _ _ Hp) in Hinv'. specialize (Hinv' Hp). lia.
  - intros Hcase n p Hp. rewrite Ht in Hp |- *.
    destruct (decide (jd_PulseNumber j = n)) as [<-|Hne].
    + rewrite size_drops_insert. destruct (is_ok _); cbn in Hp.
      * rewrite Hnew by done. apply lookup_alter_Some in Hp as [(_ & p' & Hp' & ->)|[]]; [|done].
        cbn. rewrite (Hinv _ _ Hp'). lia.
      * destruct Hcase as [|[[j' ->]|Hnone]]; [done|by apply Hinv|congruence].
    + rewrite drops_of_insert_other by done. apply Hinv. cbn in Hp.
      case_match; [|done]. by rewrite lookup_alter_ne in Hp.
Qed.

(** Saving is idempotent: repeating a [SaveJetDropData] that succeeded, in
    the state it left, changes nothing -- neither rows nor counters. *)
Theorem SaveJetDropData_idempotent j rs n db db' db'' :
  n ≠ 0 → SaveJetDropData j rs n db = Ok db' → SaveJetDropData j rs n db' = Ok db'' →
  tables db'' = tables db'.
Proof.
  intros Hn H1 H2. apply SaveJetDropData_tables in H1 as [Ht1 _]; [|done].
  apply SaveJetDropData_tables in H2 as [Ht2 Hnew]; [|done]. rewrite Ht2.
  destruct (is_ok (initJD j rs n db')).
  - specialize (Hnew eq_refl). rewrite Ht1 in Hnew. cbn in Hnew.
    by rewrite lookup_insert_eq in Hnew.
  - rewrite Ht1. cbn. by rewrite insert_insert_eq, put_records_twice.
Qed.

Lemma SavePulse_tables pulse db db' :
  SavePulse pulse db = Ok db' →
  tables db' = set_pulses
    (<[p_PulseNumber pulse :=
         match t_pulses (tables db) !! p_PulseNumber pulse with
         | None => pulse
         | Some old => refresh old pulse
         end]> (t_pulses (tables db))) (tables db).
Proof.
  intros Ht%wrap_err_Ok%Create_Pulse_Ok. exact Ht.
Qed.

(** [SavePulse] inserts a new pulse as it is, and refreshes only the links
    and the timestamp of a stored one: its completeness, its sequentiality and
    its counters survive; no other row of any table changes. *)
Theorem SavePulse_Ok pulse db db' :
  SavePulse pulse db = Ok db' →
  tables db' = set_pulses (t_pulses (tables db')) (tables db) ∧
  (∀ n, n ≠ p_PulseNumber pulse →
     t_pulses (tables db') !! n = t_pulses (tables db) !! n) ∧
  match t_pulses (tables db) !! p_PulseNumber pulse with
  | None => t_pulses (tables db') !! p_PulseNumber pulse = Some pulse
  | Some old =>
      t_pulses (tables db') !! p_PulseNumber pulse = Some (mkPulse
        (p_PulseNumber old) (p_PrevPulseNumber pulse) (p_NextPulseNumber pulse)
        (p_IsComplete old) (p_IsSequential old) (p_Timestamp pulse)
        (p_JetDropAmount old) (p_RecordAmount old))
  end.
Proof.
  intros Ht%SavePulse_tables. rewrite Ht. cbn. split_and!; [done| |].
  - intros n Hn. by rewrite lookup_insert_ne.
  - by destruct (t_pulses (tables db) !! p_PulseNumber pulse); rewrite lookup_insert_eq.
Qed.

(** The common part of [CompletePulse] and [SequencePulse]. *)
Lemma flag_update_Ok msg1 msg2 msg3 flag n db db' :
  n ≠ 0 →
  Transaction (λ tx, '(k, tx) ← wrap_err msg1 (Update_Pulse n flag tx);
    if decide (k = 0) then Err msg2 else if decide (k ≠ 1) then Err msg3 else Ok tx) db = Ok db' →
  is_Some (t_pulses (tables db) !! n) ∧
  tables db' = set_pulses (alter (update_flags flag) n (t_pulses (tables db))) (tables db).
Proof.
  intros Hn (db1 & Hu & ->)%Transaction_Ok. autorewrite with be in Hu.
  destruct Hu as ([k tx] & Hu%wrap_err_Ok & Hk).
  apply Update_Pulse_Ok in Hu as [Ht Hkt]; [|done].
  destruct (decide (k = 0)), (decide (k ≠ 1)); simplify_eq.
  split; [|done]. by destruct (t_pulses (tables db) !! n).
Qed.

Lemma flags_tables n db db' :
  n ≠ 0 →
  (CompletePulse n db = Ok db' →
     ∃ p, t_pulses (tables db) !! n = Some p ∧
       tables db' = set_pulses (<[n := mkPulse (p_PulseNumber p) (p_PrevPulseNumber p)
         (p_NextPulseNumber p) true (p_IsSequential p) (p_Timestamp p) (p_JetDropAmount p)
         (p_RecordAmount p)]> (t_pulses (tables db))) (tables db)) ∧
  (SequencePulse n db = Ok db' →
     ∃ p, t_pulses (tables db) !! n = Some p ∧
       tables db' = set_pulses (<[n := mkPulse (p_PulseNumber p) (p_PrevPulseNumber p)
         (p_NextPulseNumber p) (p_IsComplete p) true (p_Timestamp p) (p_JetDropAmount p)
         (p_RecordAmount p)]> (t_pulses (tables db))) (tables db)).
Proof.
  intros Hn. split; intros [[p Hp] Ht]%flag_update_Ok; try done;
    exists p; split; try done; rewrite Ht; f_equal;
    apply map_eq; intros k; (destruct (decide (n = k)) as [<-|Hk];
      [by rewrite lookup_alter_eq, lookup_insert_eq, Hp
      |by rewrite lookup_alter_ne, lookup_insert_ne]).
Qed.

(** [CompletePulse] and [SequencePulse] succeed only on a stored pulse, set
    its flag and nothing else, and leave every other row as it was. *)
Theorem flags_Ok n db db' :
  n ≠ 0 →
  (CompletePulse n db = Ok db' →
     ∃ p, t_pulses (tables db) !! n = Some p ∧
       tables db' = set_pulses (<[n := mkPulse (p_PulseNumber p) (p_PrevPulseNumber p)
         (p_NextPulseNumber p) true (p_IsSequential p) (p_Timestamp p) (p_JetDropAmount p)
         (p_RecordAmount p)]> (t_pulses (tables db))) (tables db)) ∧
  (SequencePulse n db = Ok db' →
     ∃ p, t_pulses (tables db) !! n = Some p ∧
       tables db' = set_pulses (<[n := mkPulse (p_PulseNumber p) (p_PrevPulseNumber p)
         (p_NextPulseNumber p) (p_IsComplete p) true (p_Timestamp p) (p_JetDropAmount p)
         (p_RecordAmount p)]> (t_pulses (tables db))) (tables db)).
Proof. apply flags_tables. Qed.
End laws.

(** ** The theorems at work on a concrete database *)

Definition ex_pulse : Pulse := mkPulse 10 5 15 false false 100 0 0.
Definition ex_drop : JetDrop := mkJetDrop 10 "01" [] [] [Byte.x07] [] 100 1.
Definition ex_record : MRecord :=
  mkMRecord [Byte.x01] "state" [Byte.x02] [] [] [] [] [] "01" 10 0 100.
Definition ex_db : RefDB := up (mkTables {[10 := ex_pulse]} ∅ ∅).

(** The database after a call, for the witnesses. *)
Definition after (r : result RefDB) : RefDB :=
  match r with Ok db => db | Err _ => up no_rows end.
Definition ex_db1 : RefDB := after (SaveJetDropData ex_drop [ex_record] 10 ex_db).

Lemma ex_save : SaveJetDropData ex_drop [ex_record] 10 ex_db = Ok ex_db1.
Proof. vm_compute. reflexivity. Defined.

Lemma SaveJetDropData_counters_witness : drop_counters (tables ex_db1).
Proof.
  apply (SaveJetDropData_counters ex_drop [ex_record] ex_db ex_db1); [done|exact ex_save| |].
  - intros n p Hp. cbn in Hp. apply lookup_singleton_Some in Hp as [<- <-].
    vm_compute. reflexivity.
  - left. vm_compute. reflexivity.
Defined.

Lemma SaveJetDropData_idempotent_witness :
  tables (after (SaveJetDropData ex_drop [ex_record] 10 ex_db1)) = tables ex_db1.
Proof.
  apply (SaveJetDropData_idempotent ex_drop [ex_record] 10 ex_db); [done|exact ex_save|].
  vm_compute. reflexivity.
Defined.

Lemma SavePulse_Ok_witness :
  t_pulses (tables (after (SavePulse (mkPulse 10 6 16 false false 101 0 0) ex_db))) !! 10
  = Some (mkPulse 10 6 16 false false 101 0 0).
Proof.
  assert (SavePulse (mkPulse 10 6 16 false false 101 0 0) ex_db
          = Ok (after (SavePulse (mkPulse 10 6 16 false false 101 0 0) ex_db))) as Hs
    by (vm_compute; reflexivity).
  apply SavePulse_Ok in Hs as (_ & _ & Hs). exact Hs.
Defined.

Lemma flags_Ok_witness :
  ∃ p, t_pulses (tables ex_db) !! 10 = Some p ∧ p_IsComplete p = false ∧
    t_pulses (tables (after (CompletePulse 10 ex_db))) !! 10
    = Some (mkPulse 10 5 15 true false 100 0 0).
Proof.
  assert (CompletePulse 10 ex_db = Ok (after (CompletePulse 10 ex_db))) as Hs
    by (vm_compute; reflexivity).
  assert (10 ≠ 0) as Hn by lia.
  apply (flags_Ok 10 ex_db _ Hn) in Hs as (p & Hp & Ht).
  exists p. split; [exact Hp|]. assert (p = ex_pulse) as -> by (vm_compute in Hp; injection Hp as <-; reflexivity).
  split; [reflexivity|]. rewrite Ht. vm_compute. reflexivity.
Defined.
