(* ===== verification/WellFormed.v ===== *)
(** * The schema as an invariant

    The migrations declare primary keys and two foreign keys: a jet drop belongs
    to a stored pulse, a record to a stored jet drop.  The lemmas here say that the
    writes of jet drops, records and pulses keep the tables in this shape,
    whatever they are given, and never take a row away; other files use them. *)

From S2P Require Import Prelude GoStd Platform Types Models Gorm RefDb Interfaces Storage StorageWrite.

Record well_formed (t : Tables) : Prop := {
  wf_keyed : tables_keyed t;
  wf_drop_pulse : ∀ k j, t_jet_drops t !! k = Some j → is_Some (t_pulses t !! jd_PulseNumber j);
  wf_record_drop : ∀ k r, t_records t !! k = Some r →
    is_Some (t_jet_drops t !! (r_PulseNumber r, r_JetID r));
}.

(** The primary keys of [t] are still there in [t']. *)
Definition keeps_rows (t t' : Tables) : Prop :=
  dom (t_pulses t) ⊆ dom (t_pulses t') ∧ dom (t_jet_drops t) ⊆ dom (t_jet_drops t') ∧
  dom (t_records t) ⊆ dom (t_records t').

#[export] Instance keeps_rows_preorder : PreOrder keeps_rows.
Proof.
  split; [by intros t; split_and!|].
  intros t1 t2 t3 (? & ? & ?) (? & ? & ?). split_and!; by etrans.
Qed.

(** Well formed, and no row lost. *)
Definition extends (t t' : Tables) : Prop := well_formed t → well_formed t' ∧ keeps_rows t t'.

#[export] Instance extends_preorder : PreOrder extends.
Proof.
  split; [by intros t; split|].
  intros t1 t2 t3 H12 H23 Hwf. destruct (H12 Hwf) as [Hwf2 Hk].
  destruct (H23 Hwf2) as [Hwf3 Hk']. split; [done|by etrans].
Qed.

(** ** Changes of the tables *)

Lemma dom_subseteq_is_Some `{Countable K} {V} (m m' : gmap K V) k :
  dom m ⊆ dom m' → is_Some (m !! k) → is_Some (m' !! k).
Proof. rewrite <- !elem_of_dom. set_solver. Qed.

Lemma extends_pulses m t :
  map_Forall (λ n p, n = p_PulseNumber p) m → dom (t_pulses t) ⊆ dom m →
  extends t (set_pulses m t).
Proof.
  intros Hm Hdom [(Hkp & Hkd & Hkr) Hdp Hrd]. split; [|by split_and!].
  constructor; [by split_and!| |exact Hrd]. cbn. intros k j Hj.
  eapply dom_subseteq_is_Some; [exact Hdom|by eapply Hdp].
Qed.

Lemma extends_insert_pulse n p t :
  p_PulseNumber p = n → extends t (set_pulses (<[n := p]> (t_pulses t)) t).
Proof.
  intros Hp Hwf. apply extends_pulses; [|rewrite dom_insert; set_solver|exact Hwf].
  apply map_Forall_insert_2; [done|]. apply Hwf.
Qed.

Lemma extends_alter_pulse f n t :
  (∀ p, p_PulseNumber (f p) = p_PulseNumber p) →
  extends t (set_pulses (alter f n (t_pulses t)) t).
Proof.
  intros Hf Hwf. apply extends_pulses; [|by rewrite dom_alter|exact Hwf].
  intros k p Hk. apply lookup_alter_Some in Hk as [(<- & p' & Hp' & ->)|[_ Hk]].
  - rewrite Hf. by apply (proj1 (wf_keyed _ Hwf)).
  - by apply (proj1 (wf_keyed _ Hwf)).
Qed.

Lemma extends_insert_drop j t :
  is_Some (t_pulses t !! jd_PulseNumber j) →
  extends t (set_jet_drops (<[jd_key j := j]> (t_jet_drops t)) t).
Proof.
  intros Hp [(Hkp & Hkd & Hkr) Hdp Hrd].
  assert (dom (t_jet_drops t) ⊆ dom (<[jd_key j := j]> (t_jet_drops t))) as Hdom
    by (rewrite dom_insert; set_solver).
  split; [|by split_and!]. constructor.
  - split_and!; [done|by apply map_Forall_insert_2|done].
  - cbn. intros k j' Hj'. apply lookup_insert_Some in Hj' as [[_ <-]|[_ Hj']]; [done|by eapply Hdp].
  - cbn. intros k r Hr. eapply dom_subseteq_is_Some; [exact Hdom|by eapply Hrd].
Qed.

Lemma extends_insert_record r t :
  is_Some (t_jet_drops t !! (r_PulseNumber r, r_JetID r)) →
  extends t (set_records (<[r_Reference r := r]> (t_records t)) t).
Proof.
  intros Hd [(Hkp & Hkd & Hkr) Hdp Hrd]. split.
  - constructor.
    + split_and!; [done|done|by apply map_Forall_insert_2].
    + exact Hdp.
    + cbn. intros k r' Hr'. apply lookup_insert_Some in Hr' as [[_ <-]|[_ Hr']]; [done|by eapply Hrd].
  - split_and!; [done|done|]. cbn. rewrite dom_insert. set_solver.
Qed.

(** ** The writes of the storage *)

Section writes.
Context `{GormLaws DB}.
Implicit Types db : DB.

Lemma save_records_extends rs db db' :
  save_records rs db = Ok db' → extends (tables db) (tables db').
Proof.
  revert db. induction rs as [|r rs IH]; intros db Hs; cbn in Hs; [by simplify_eq|].
  autorewrite with be in Hs. destruct Hs as (db1 & Hr%wrap_err_Ok & Hs).
  etrans; [|by eapply IH]. apply Save_Record_Ok in Hr as [Hd ->]. by apply extends_insert_record.
Qed.

Lemma initJD_extends j rs n db db' :
  n ≠ 0 → initJD j rs n db = Ok db' → extends (tables db) (tables db').
Proof.
  intros Hn (db1 & Hi & ->)%Transaction_Ok. autorewrite with be in Hi.
  destruct Hi as (db2 & Hc%wrap_err_Ok & Hi). autorewrite with be in Hi.
  destruct Hi as (db3 & Hs%save_records_extends & Hu%wrap_err_Ok).
  apply Create_JetDrop_Ok in Hc as (_ & Hp & Ht2). apply UpdateColumns_Pulse_Ok in Hu; [|done].
  transitivity (tables db2); [rewrite Ht2; by apply extends_insert_drop|].
  transitivity (tables db3); [done|]. rewrite Hu. by apply extends_alter_pulse.
Qed.

Lemma updateJD_extends j rs db db' :
  updateJD j rs db = Ok db' → extends (tables db) (tables db').
Proof.
  intros (db1 & Hi & ->)%Transaction_Ok. autorewrite with be in Hi.
  destruct Hi as (db2 & Hc%wrap_err_Ok & Hs%save_records_extends).
  apply Save_JetDrop_Ok in Hc as (Hp & Ht2).
  transitivity (tables db2); [rewrite Ht2; by apply extends_insert_drop|done].
Qed.

Lemma SaveJetDropData_extends j rs n db db' :
  n ≠ 0 → SaveJetDropData j rs n db = Ok db' → extends (tables db) (tables db').
Proof.
  intros Hn. unfold SaveJetDropData. destruct (initJD j rs n db) as [db1|err] eqn:Hi.
  - intros [= <-]. by eapply initJD_extends.
  - case_match; [|done]. apply updateJD_extends.
Qed.

Lemma SavePulse_extends p db db' : SavePulse p db = Ok db' → extends (tables db) (tables db').
Proof.
  intros ->%SavePulse_tables Hwf. apply extends_insert_pulse; [|exact Hwf].
  destruct (t_pulses (tables db) !! p_PulseNumber p) as [old|] eqn:Hold; [|done].
  symmetry. exact (proj1 (wf_keyed _ Hwf) _ _ Hold).
Qed.

End writes.

(** ** The empty tables *)

Lemma no_rows_well_formed : well_formed no_rows.
Proof. constructor; [split_and!; apply map_Forall_empty|..]; intros k x Hx; discriminate Hx. Defined.
