(* ===== verification/Random.v ===== *)
(** * Drawing random data

    The generators of the repository draw from [math/rand], [crypto/rand], the
    clock, and the package [insolar/gen] of the platform.  A source of random
    data is the class [Random]: each draw gives a value and the source after it.
    A generator is a function of the source that may panic. *)

From S2P Require Import Prelude GoStd Platform RefPlatform Converter.

Class Random `{Platform} (G : Type) := {
  Now_Unix : G → Z * G;                    (* time.Now().Unix() *)
  crand_Read : nat → G → result bytes * G; (* crypto/rand: Read into l bytes *)
  rand_Intn : Z → G → Z * G;               (* math/rand: Intn(n) for n > 0 *)
  rand_Int63n : Z → G → Z * G;             (* math/rand: Int63n(n) for n > 0 *)
  uuid_NewV4 : G → bytes * G;              (* uuid.NewV4().Bytes() *)
  gen_ID : G → ID * G;                     (* gen.ID() *)
  gen_IDWithPulse : Z → G → ID * G;        (* gen.IDWithPulse(pn) *)
  gen_JetID : G → JetID * G;               (* gen.JetID() *)
  gen_Reference : G → Reference * G;       (* gen.Reference() *)
  gen_PulseNumber : G → Z * G;             (* gen.PulseNumber() *)
}.

(** Documented facts: the ranges of the numbers, time pulses among them, and the
    pulse of an identifier made for one. *)
Class RandomLaws `{Random G} := {
  Intn_range : ∀ n g, 0 < n → 0 ≤ (rand_Intn n g).1 < n;
  Int63n_range : ∀ n g, 0 < n → 0 ≤ (rand_Int63n n g).1 < n;
  IDWithPulse_pulse : ∀ pn g, MinTimePulse ≤ pn < 2 ^ 30 → ID_Pulse (gen_IDWithPulse pn g).1 = pn;
  PulseNumber_range : ∀ g, MinTimePulse ≤ (gen_PulseNumber g).1 < 2 ^ 30;
}.
Arguments RandomLaws {_} G {_}.

(** ** Generators *)

(** What a generator returns with the source after it; [None] is a panic, or an
    endless loop cut off. *)
Definition Gen (G A : Type) : Type := G → option (A * G).

#[export] Instance Gen_ret {G} : MRet (Gen G) := λ A a g, Some (a, g).
#[export] Instance Gen_bind {G} : MBind (Gen G) :=
  λ A B f m g, match m g with Some (a, g) => f a g | None => None end.

(** One draw, and a value that may panic to compute. *)
Definition draw {G A} (f : G → A * G) : Gen G A := λ g, Some (f g).
Definition must {G A} (o : option A) : Gen G A := λ g, a ← o; Some (a, g).

(** What [m] returns from some source. *)
Definition can_return {G A} (m : Gen G A) (a : A) : Prop := ∃ g g', m g = Some (a, g').

(** From every source [m] returns. *)
Definition returns {G A} (m : Gen G A) : Prop := ∀ g, is_Some (m g).

Section generators.
Context {G : Type}.

Lemma Gen_bind_Some {A B} (m : Gen G A) (f : A → Gen G B) g r :
  (m ≫= f) g = Some r ↔ ∃ a g1, m g = Some (a, g1) ∧ f a g1 = Some r.
Proof.
  unfold mbind, Gen_bind. destruct (m g) as [[a g1]|]; split; try naive_solver.
Qed.

Lemma Gen_ret_Some {A} (a : A) (g : G) b g' : (mret a : Gen G A) g = Some (b, g') ↔ a = b ∧ g = g'.
Proof. unfold mret, Gen_ret. split; [intros [= -> ->]|intros [-> ->]]; done. Qed.

Lemma draw_Some {A} (f : G → A * G) g a g' : draw f g = Some (a, g') ↔ f g = (a, g').
Proof. unfold draw. split; [intros [= ->]|intros ->]; done. Qed.

Lemma must_Some {A} (o : option A) (g : G) a g' : must o g = Some (a, g') ↔ o = Some a ∧ g = g'.
Proof. unfold must. destruct o; cbn; split; [intros [= -> ->]|intros [[= ->] ->]| |intros [? _]]; done. Qed.

(** A generator returns if its first part does and, for what that can return, the
    rest. *)
Lemma returns_bind {A B} (m : Gen G A) (f : A → Gen G B) :
  returns m → (∀ a, can_return m a → returns (f a)) → returns (m ≫= f).
Proof.
  intros Hm Hf g. unfold mbind, Gen_bind. destruct (Hm g) as [[a g1] Ha]. rewrite Ha.
  apply Hf. by exists g, g1.
Qed.

Lemma returns_ret {A} (a : A) : returns (G := G) (mret a).
Proof. intros g. by eexists. Qed.
Lemma returns_draw {A} (f : G → A * G) : returns (draw f).
Proof. intros g. by eexists. Qed.
Lemma returns_must {A} (o : option A) : is_Some o → returns (G := G) (must o).
Proof. intros [a ->] g. by eexists. Qed.
End generators.

Create Rewrite HintDb gen.
Create HintDb gen.
#[export] Hint Rewrite @Gen_bind_Some @Gen_ret_Some @draw_Some @must_Some : gen.
#[export] Hint Resolve returns_ret returns_draw returns_must : gen.

Section numbers.
Context `{RandomLaws G}.

(** [rand.Intn] panics unless its argument is positive. *)
Definition Intn (n : Z) : Gen G Z := if decide (0 < n) then draw (rand_Intn n) else must None.
Definition Int63n (n : Z) : Gen G Z := if decide (0 < n) then draw (rand_Int63n n) else must None.

Lemma Intn_Some n g i g' : Intn n g = Some (i, g') → 0 ≤ i < n.
Proof.
  unfold Intn. case_decide as Hn; [|done]. rewrite draw_Some. intros Hi.
  pose proof (Intn_range n g Hn) as Hr. by rewrite Hi in Hr.
Qed.

Lemma Int63n_Some n g i g' : Int63n n g = Some (i, g') → 0 ≤ i < n.
Proof.
  unfold Int63n. case_decide as Hn; [|done]. rewrite draw_Some. intros Hi.
  pose proof (Int63n_range n g Hn) as Hr. by rewrite Hi in Hr.
Qed.

(** An element of a non-empty slice, chosen as the code does: [s[rand.Intn(len(s))]]. *)
Definition choose {A} (s : list A) : Gen G A :=
  i ← Intn (Z.of_nat (length s)); must (s !! Z.to_nat i).

Lemma choose_Some {A} (s : list A) g a g' : choose s g = Some (a, g') → a ∈ s.
Proof.
  unfold choose. intros (i & g1 & _ & [Ha _]%must_Some)%Gen_bind_Some.
  by eapply list_elem_of_lookup_2.
Qed.

Lemma choose_returns {A} (s : list A) : s ≠ [] → returns (choose s).
Proof.
  intros Hs. destruct s as [|x s]; [done|]. unfold choose. apply returns_bind.
  - unfold Intn. rewrite decide_True by (cbn; lia). auto with gen.
  - intros i (g & g' & Hi%Intn_Some). apply returns_must, lookup_lt_is_Some. lia.
Qed.

Lemma choose_nil {A} g : choose (A := A) [] g = None.
Proof. done. Qed.
End numbers.

(** ** Jet identifiers with a prefix that is not zero *)

(** [binary.BigEndian.Uint64(b)]; [None] is the panic for less than eight bytes. *)
Definition BigEndian_Uint64 (b : bytes) : option Z :=
  if decide (8 ≤ length b)%nat
  then Some (foldl (λ v x, v * 256 + Z.of_N (Byte.to_N x)) 0 (take 8 b))
  else None.

Lemma BigEndian_Prefix `{PlatformLaws} id : is_Some (BigEndian_Uint64 (Prefix id)).
Proof. unfold BigEndian_Uint64. rewrite Prefix_length, decide_True by lia. by eexists. Qed.

(** A generator returns when its loop is given enough turns to find what it waits
    for; [tries f P n g] says that one of the next [n] draws with [f] satisfies [P]. *)
Fixpoint tries {G A} (f : G → A * G) (P : A → Prop) (n : nat) (g : G) : Prop :=
  match n with
  | O => False
  | S n => P (f g).1 ∨ tries f P n (f g).2
  end.

(** ** A concrete source *)

(** Two counters, one for jet identifiers and one for the rest: every draw is made
    of the value of its counter. *)
Definition nonce (n : N) : bytes :=
  default Byte.x00 ∘ Byte.of_N <$> [1 + (n / 256) `mod` 255; n `mod` 256]%N.

Definition next (s : N * N) : N * N := (s.1, s.2 + 1)%N.

#[export] Instance ref_random : Random (N * N) := {|
  Now_Unix s := (1600000000, s);
  crand_Read l s := (Ok (take l (nonce s.2 ++ replicate l Byte.x00)), next s);
  rand_Intn m s := (Z.of_N s.2 `mod` m, next s);
  rand_Int63n m s := (Z.of_N s.2 `mod` m, next s);
  uuid_NewV4 s := (nonce s.2, next s);
  gen_ID s := (nonce s.2, next s);
  gen_IDWithPulse pn s := (pulse_bytes pn ++ nonce s.2, next s);
  gen_JetID s := (toy_jet 16 (nonce s.1), (s.1 + 1, s.2)%N);
  gen_Reference s := (nonce s.2, next s);
  gen_PulseNumber s := (65537 + (Z.of_N s.2) `mod` 1000000, next s);
|}.

#[export] Instance ref_random_laws : RandomLaws (N * N).
Proof.
  constructor.
  1-2: intros m s Hm; cbn; by apply Z.mod_pos_bound.
  - intros pn s Hpn. change (pulse_of (pulse_bytes pn ++ nonce s.2) = pn).
    apply pulse_of_bytes. cbn in Hpn. lia.
  - intros s. cbn -[Z.pow]. pose proof (Z.mod_pos_bound (Z.of_N s.2) 1000000). lia.
Qed.

Lemma nonce_spec n : ∃ x y, nonce n = [x; y] ∧ (0 < Byte.to_N x)%N.
Proof.
  unfold nonce. cbn [fmap list_fmap]. eexists _, _. split; [reflexivity|]. cbn.
  assert ((n / 256) `mod` 255 < 255)%N by by apply N.mod_lt.
  generalize dependent ((n / 256) `mod` 255)%N. intros k Hk.
  destruct (Byte.of_N (1 + k)) as [b|] eqn:Hb; cbn.
  - apply Byte.to_of_N in Hb. lia.
  - apply Byte.of_N_None_iff in Hb. lia.
Qed.

(** Its jet identifiers are never zero. *)
Lemma nonce_not_null s : BigEndian_Uint64 (Prefix (gen_JetID (G := N * N) s).1) ≠ Some 0.
Proof.
  cbn -[nonce BigEndian_Uint64 take replicate]. destruct (nonce_spec s.1) as (x & y & -> & Hx).
  unfold BigEndian_Uint64. rewrite decide_True by (cbn; lia). intros [= Hz]. cbn in Hz. lia.
Qed.
