(* ===== verification/Migrations.v ===== *)
(** * Migrations: [src/migrations/{migrations,generate}.go], [src/cmd/{migrate,loadtest_migrate}]

    The first migration creates the three tables with their keys, indexes and
    foreign keys; the second, of the load test, fills them with random rows.
    gormigrate runs them, gorm and PostgreSQL execute the statements: these are
    third-party code, the parameter [Schemas] with its documented laws, as the
    parameter [Random] is the source of the rows. *)

From S2P Require Import Prelude GoStd Platform RefPlatform Models Converter Gorm RefDb WellFormed Random.

(** ** The statements of the schema *)

(** A field of a struct given to [CreateTable]: its name and the setting
    [primary_key] of its tag. *)
Record field := mkField { f_name : string; f_primary_key : bool }.
Record struct := mkStruct { s_name : string; s_fields : list field }.

(** What a database knows about a table: columns, primary key, names of indexes
    with their columns, and foreign keys as columns, table and columns. *)
Record TableDef := mkTableDef {
  td_columns : list string;
  td_primary_key : list string;
  td_indexes : gmap string (list string);
  td_foreign_keys : list (list string * string * list string);
}.
Abbreviation Schema := (gmap string TableDef).

Definition add_index (name : string) (cols : list string) (t : TableDef) : TableDef :=
  mkTableDef (td_columns t) (td_primary_key t) (<[name := cols]> (td_indexes t)) (td_foreign_keys t).
Definition add_foreign_key (fk : list string * string * list string) (t : TableDef) : TableDef :=
  mkTableDef (td_columns t) (td_primary_key t) (td_indexes t) (td_foreign_keys t ++ [fk]).

(** A migration: its identifier and its two functions. *)
Record Migration (Tx : Type) := mkMigration {
  m_ID : string;
  m_Migrate : Tx → result Tx;
  m_Rollback : Tx → result Tx;
}.
Arguments mkMigration {Tx}.
Arguments m_ID {Tx}.
Arguments m_Migrate {Tx}.
Arguments m_Rollback {Tx}.

(** The operations of gorm on the schema.  gorm names the table of a model and
    the column of a field; the key of [AddForeignKey] and its destination are
    texts that the database reads. *)
Class Schemas (Tx : Type) := {
  schema : Tx → Schema;
  TableName : string → string;
  ColumnName : string → string;
  CreateTable : struct → Tx → result Tx;
  AddIndex : string → string → list string → Tx → result Tx;
  AddForeignKey : string → string → string → string → string → Tx → result Tx;
  DropTableIfExists : list string → Tx → result Tx;
}.

(** The columns a text like [jet_id, pulse_number] lists, and table and columns
    of one like [pulses(pulse_number)]. *)
Definition trim_space (s : string) : string :=
  match s with String " " s => s | _ => s end.
Definition column_list (s : string) : list string := trim_space <$> Split s ",".
Definition destination (s : string) : option (string * list string) :=
  match Split s "(" with
  | [t; rest] => match Split rest ")" with
                 | [cols; EmptyString] => Some (t, column_list cols)
                 | _ => None
                 end
  | _ => None
  end.

(** The columns are those of the primary key, in any order. *)
Definition is_key (cols : list string) (t : TableDef) : Prop :=
  list_to_set cols =@{gset string} list_to_set (td_primary_key t).

Definition has_columns (cols : list string) (t : TableDef) : Prop :=
  Forall (λ c, c ∈ td_columns t) cols.

(** A table of [s] has a foreign key to the table [n]. *)
Definition referenced (n : string) (s : Schema) : Prop :=
  map_Exists (λ _ t, n ∈ (td_foreign_keys t).*1.*2) s.

#[export] Instance is_key_dec cols t : Decision (is_key cols t).
Proof. unfold is_key. apply _. Defined.
#[export] Instance has_columns_dec cols t : Decision (has_columns cols t).
Proof. unfold has_columns. apply _. Defined.
#[export] Instance referenced_dec n s : Decision (referenced n s).
Proof. unfold referenced. apply _. Defined.

(** [DROP TABLE] for one name after the other: refused by the database while
    another table refers to it. *)
Fixpoint drop_tables (names : list string) (s : Schema) : option Schema :=
  match names with
  | [] => Some s
  | n :: names =>
      let s := delete n s in
      if decide (referenced n s) then None else drop_tables names s
  end.

Definition created (column_name : string → string) (s : struct) : TableDef :=
  mkTableDef (column_name ∘ f_name <$> s_fields s)
    (column_name ∘ f_name <$> filter (λ f, f_primary_key f = true) (s_fields s)) ∅ [].

(** gorm's names of the tables and columns of the program. *)
Definition table_names : list (string * string) :=
  [("Pulse", "pulses"); ("JetDrop", "jet_drops"); ("Record", "records")].
Definition column_names : list (string * string) :=
  [("PulseNumber", "pulse_number"); ("PrevPulseNumber", "prev_pulse_number");
   ("NextPulseNumber", "next_pulse_number"); ("IsComplete", "is_complete");
   ("IsSequential", "is_sequential"); ("Timestamp", "timestamp");
   ("JetDropAmount", "jet_drop_amount"); ("RecordAmount", "record_amount"); ("JetID", "jet_id");
   ("FirstPrevHash", "first_prev_hash"); ("SecondPrevHash", "second_prev_hash"); ("Hash", "hash");
   ("RawData", "raw_data"); ("Reference", "reference"); ("Type", "type");
   ("ObjectReference", "object_reference"); ("PrototypeReference", "prototype_reference");
   ("Payload", "payload"); ("PrevRecordReference", "prev_record_reference"); ("Order", "order")].

Class SchemasLaws (Tx : Type) `{Schemas Tx} := {
  TableName_of : Forall (λ n, TableName n.1 = n.2) table_names;
  ColumnName_of : Forall (λ n, ColumnName n.1 = n.2) column_names;
  CreateTable_Ok : ∀ s tx tx', CreateTable s tx = Ok tx' →
    schema tx !! TableName (s_name s) = None ∧
    schema tx' = <[TableName (s_name s) := created ColumnName s]> (schema tx);
  AddIndex_Ok : ∀ model name cols tx tx', AddIndex model name cols tx = Ok tx' →
    (∃ t, schema tx !! TableName model = Some t ∧ has_columns cols t) ∧
    schema tx' = alter (add_index name cols) (TableName model) (schema tx);
  AddForeignKey_Ok : ∀ model field dest on_delete on_update tx tx',
    AddForeignKey model field dest on_delete on_update tx = Ok tx' →
    ∃ n cols, destination dest = Some (n, cols) ∧
      (∃ t, schema tx !! TableName model = Some t ∧ has_columns (column_list field) t) ∧
      (∃ t, schema tx !! n = Some t ∧ is_key cols t) ∧
      schema tx' = alter (add_foreign_key (column_list field, n, cols)) (TableName model) (schema tx);
  DropTableIfExists_Ok : ∀ names tx tx', DropTableIfExists names tx = Ok tx' →
    drop_tables names (schema tx) = Some (schema tx');
}.

(** ** The migrations *)

Definition key (n : string) : field := mkField n true.
Definition col (n : string) : field := mkField n false.

(** The struct types local to the first migration. *)
Definition Pulse_struct : struct := mkStruct "Pulse"
  [key "PulseNumber"; col "PrevPulseNumber"; col "NextPulseNumber"; col "IsComplete";
   col "IsSequential"; col "Timestamp"; col "JetDropAmount"; col "RecordAmount"].
Definition JetDrop_struct : struct := mkStruct "JetDrop"
  [key "PulseNumber"; key "JetID"; col "FirstPrevHash"; col "SecondPrevHash"; col "Hash";
   col "RawData"; col "Timestamp"; col "RecordAmount"].
Definition Record_struct : struct := mkStruct "Record"
  [key "Reference"; col "Type"; col "ObjectReference"; col "PrototypeReference"; col "Payload";
   col "PrevRecordReference"; col "Hash"; col "RawData"; col "JetID"; col "PulseNumber";
   col "Order"; col "Timestamp"].

Section migrations.
Context `{Schemas Tx}.

(** The two functions of the migration [202005180421]. *)
Definition Migrate (tx : Tx) : result Tx :=
  tx ← CreateTable Pulse_struct tx;
  tx ← AddIndex "Pulse" "idx_pulse_prevpulsenumber" ["prev_pulse_number"] tx;
  tx ← CreateTable JetDrop_struct tx;
  tx ← AddIndex "JetDrop" "idx_jetdrop_pulsenumber_jetid" ["pulse_number"; "jet_id"] tx;
  tx ← AddForeignKey "JetDrop" "pulse_number" "pulses(pulse_number)" "CASCADE" "CASCADE" tx;
  tx ← CreateTable Record_struct tx;
  tx ← AddIndex "Record" "idx_record_objectreference_type_pulsenumber_order"
         ["object_reference"; "type"; "pulse_number"; "order"] tx;
  tx ← AddIndex "Record" "idx_record_jetid_pulsenumber_order"
         ["jet_id"; "pulse_number"; "order"] tx;
  AddForeignKey "Record" "jet_id, pulse_number" "jet_drops(jet_id, pulse_number)" "CASCADE"
    "CASCADE" tx.

Definition rollback_tables : list string := ["records"; "jet_drops"; "pulses"].
Definition Rollback (tx : Tx) : result Tx := DropTableIfExists rollback_tables tx.

Definition Migrations : list (Migration Tx) :=
  [mkMigration "202005180421" Migrate Rollback].
End migrations.

(** The schema the first migration means to create. *)
Definition pulses_table : TableDef := mkTableDef
  ["pulse_number"; "prev_pulse_number"; "next_pulse_number"; "is_complete"; "is_sequential";
   "timestamp"; "jet_drop_amount"; "record_amount"]
  ["pulse_number"] {["idx_pulse_prevpulsenumber" := ["prev_pulse_number"]]} [].
Definition jet_drops_table : TableDef := mkTableDef
  ["pulse_number"; "jet_id"; "first_prev_hash"; "second_prev_hash"; "hash"; "raw_data";
   "timestamp"; "record_amount"]
  ["pulse_number"; "jet_id"]
  {["idx_jetdrop_pulsenumber_jetid" := ["pulse_number"; "jet_id"]]}
  [(["pulse_number"], "pulses", ["pulse_number"])].
Definition records_table : TableDef := mkTableDef
  ["reference"; "type"; "object_reference"; "prototype_reference"; "payload";
   "prev_record_reference"; "hash"; "raw_data"; "jet_id"; "pulse_number"; "order"; "timestamp"]
  ["reference"]
  (<["idx_record_jetid_pulsenumber_order" := ["jet_id"; "pulse_number"; "order"]]>
     {["idx_record_objectreference_type_pulsenumber_order"
       := ["object_reference"; "type"; "pulse_number"; "order"]]})
  [(["jet_id"; "pulse_number"], "jet_drops", ["jet_id"; "pulse_number"])].

Definition with_tables (s : Schema) : Schema :=
  <["records" := records_table]> (<["jet_drops" := jet_drops_table]>
    (<["pulses" := pulses_table]> s)).

(** ** The generated rows *)

(** [configuration.TestDB], as far as [generateData] reads it. *)
Record TestDB := mkTestDB { TestPulses : Z; TestJetDrops : Z; TestRecords : Z }.

Section generate.
Context `{Random G}.

Definition generateRandBytesLen (l : nat) : Gen G (result bytes) := draw (crand_Read l).

Definition startPulse : Z := 4000000.

Definition generatePulses (amount : Z) : Gen G (list Pulse) :=
  tNow ← draw Now_Unix;
  mret ((λ i, mkPulse i (i - 1) (i + 1) true true (int64 (tNow + int64 (i * 10))) 0 0)
          <$> seqZ startPulse amount).

(** The loop of [notNullJetID], at most [fuel] turns. *)
Fixpoint notNullJetID (fuel : nat) : Gen G string :=
  match fuel with
  | O => must None
  | S fuel =>
      jetID ← draw gen_JetID;
      id ← must (BigEndian_Uint64 (Prefix jetID));
      if decide (id = 0) then notNullJetID fuel else must (JetIDToString jetID)
  end.

(** The body of the loop of [generateJetDrops] for a turn [i]. *)
Definition generateJetDrop (fuel : nat) (tNow : Z) (pulses : list Pulse) (i : Z)
  : Gen G (result JetDrop) :=
  rawData ← generateRandBytesLen 32;
  match rawData with
  | Err err => mret (Err err)
  | Ok rawData =>
      p ← choose pulses;
      let rPnum := p_PulseNumber p in
      let pn := uint32 rPnum in
      jID ← notNullJetID fuel;
      firstPrev ← draw (gen_IDWithPulse pn);
      secondPrev ← draw (gen_IDWithPulse pn);
      mret (Ok (mkJetDrop rPnum jID (ID_Bytes firstPrev) (ID_Bytes secondPrev) rawData rawData
                  (int64 (tNow + int64 (i * 2))) 100))
  end.

(** The body of the loop of [generateRecords]. *)
Definition generateRecord (tNow : Z) (jDrops : list JetDrop) (i : Z) : Gen G (result MRecord) :=
  rawData ← generateRandBytesLen 32;
  match rawData with
  | Err err => mret (Err err)
  | Ok rawData =>
      jd ← choose jDrops;
      let pn := uint32 (jd_PulseNumber jd) in
      reference ← draw (gen_IDWithPulse pn);
      objectReference ← draw (gen_IDWithPulse pn);
      prototypeReference ← draw (gen_IDWithPulse pn);
      prevRecordReference ← draw (gen_IDWithPulse pn);
      mret (Ok (mkMRecord (ID_Bytes reference) "state" (ID_Bytes objectReference)
                  (ID_Bytes prototypeReference) rawData (ID_Bytes prevRecordReference) rawData
                  rawData (jd_JetID jd) (jd_PulseNumber jd) 0 (int64 (tNow + int64 (i * 2)))))
  end.

(** The loop of both: append what the body makes, return its first error. *)
Fixpoint append_loop {A} (body : Z → Gen G (result A)) (turns : list Z) (acc : list A)
  : Gen G (result (list A)) :=
  match turns with
  | [] => mret (Ok acc)
  | i :: turns =>
      x ← body i;
      match x with
      | Err err => mret (Err err)
      | Ok x => append_loop body turns (acc ++ [x])
      end
  end.

(** [for i := 1; i < amount; i++]. *)
Definition turns (amount : Z) : list Z := seqZ 1 (amount - 1).

Definition generateJetDrops (fuel : nat) (pulses : list Pulse) (amount : Z)
  : Gen G (result (list JetDrop)) :=
  tNow ← draw Now_Unix;
  append_loop (generateJetDrop fuel tNow pulses) (turns amount) [].

Definition generateRecords (jDrops : list JetDrop) (amount : Z) : Gen G (result (list MRecord)) :=
  tNow ← draw Now_Unix;
  append_loop (generateRecord tNow jDrops) (turns amount) [].

Context `{Gorm DB}.

(** [for _, x := range xs { if err := tx.Save(&x).Error; err != nil { return err } }]. *)
Fixpoint save_all {A} (save : A → DB → result DB) (xs : list A) (tx : DB) : result DB :=
  match xs with
  | [] => Ok tx
  | x :: xs => tx ← save x tx; save_all save xs tx
  end.

Definition generateData (fuel : nat) (cfg : TestDB) (tx : DB) : Gen G (result DB) :=
  pulses ← generatePulses (TestPulses cfg);
  match save_all Save_Pulse pulses tx with
  | Err err => mret (Err err)
  | Ok tx =>
      jdrops ← generateJetDrops fuel pulses (TestJetDrops cfg);
      match jdrops with
      | Err err => mret (Err err)
      | Ok jdrops =>
          match save_all Save_JetDrop jdrops tx with
          | Err err => mret (Err err)
          | Ok tx =>
              records ← generateRecords jdrops (TestRecords cfg);
              match records with
              | Err err => mret (Err err)
              | Ok records => mret (save_all Save_Record records tx)
              end
          end
      end
  end.
End generate.

(** The second migration: its functions draw random data, and it never fails
    otherwise than [generateData] does. *)
Definition LoadTestMigrate `{Random G, Gorm DB} (fuel : nat) (cfg : TestDB) (tx : DB)
  : Gen G (result DB) :=
  err ← generateData fuel cfg tx;
  match err with Err err => mret (Err err) | Ok tx => mret (Ok tx) end.

(** ** The schema *)

Section schema.
Context `{SchemasLaws Tx}.

Lemma table_name n t : (n, t) ∈ table_names → TableName n = t.
Proof. intros Hin. pose proof TableName_of as Ht. rewrite Forall_forall in Ht. by apply (Ht (n, t)). Qed.

Lemma pulses_name : TableName "Pulse" = "pulses".
Proof. apply table_name. apply (bool_decide_unpack _). vm_compute. exact I. Qed.
Lemma jet_drops_name : TableName "JetDrop" = "jet_drops".
Proof. apply table_name. apply (bool_decide_unpack _). vm_compute. exact I. Qed.
Lemma records_name : TableName "Record" = "records".
Proof. apply table_name. apply (bool_decide_unpack _). vm_compute. exact I. Qed.

(** gorm names the columns of a struct as a function of its fields. *)
Definition column_name (n : string) : string :=
  default n (list_to_map (M := gmap string string) column_names !! n).

Lemma ColumnName_eq n :
  n ∈ column_names.*1 → ColumnName n = column_name n.
Proof.
  intros Hn. unfold column_name.
  destruct (list_to_map (M := gmap string string) column_names !! n) as [c|] eqn:Hc; cbn.
  - apply elem_of_list_to_map_2 in Hc. pose proof ColumnName_of as Hcol.
    rewrite Forall_forall in Hcol. by apply (Hcol (n, c)).
  - apply not_elem_of_list_to_map_2 in Hc. by destruct Hc.
Qed.

Lemma created_eq s :
  Forall (λ f, f_name f ∈ column_names.*1) (s_fields s) →
  created ColumnName s = created column_name s.
Proof.
  intros Hs. rewrite Forall_forall in Hs.
  assert (∀ l, l ⊆ s_fields s → ColumnName ∘ f_name <$> l = column_name ∘ f_name <$> l) as Hl.
  { intros l Hl. apply list_fmap_ext. intros i f Hf%list_elem_of_lookup_2. by apply ColumnName_eq, Hs, Hl. }
  unfold created. rewrite !Hl; [done| |done]. intros f Hf. by apply list_elem_of_filter in Hf as [_ ?].
Qed.

Lemma created_structs :
  created ColumnName Pulse_struct = created column_name Pulse_struct ∧
  created ColumnName JetDrop_struct = created column_name JetDrop_struct ∧
  created ColumnName Record_struct = created column_name Record_struct.
Proof. split_and!; apply created_eq; apply (bool_decide_unpack _); vm_compute; exact I. Qed.

Lemma Migrate_Ok tx tx' :
  Migrate tx = Ok tx' →
  schema tx' = with_tables (schema tx) ∧
  schema tx !! "pulses" = None ∧ schema tx !! "jet_drops" = None ∧ schema tx !! "records" = None.
Proof.
  destruct created_structs as (Hp & Hj & Hr).
  unfold Migrate. intros Hm.
  apply result_bind_Ok in Hm as (tx1 & [Hn1 H1]%CreateTable_Ok & Hm).
  apply result_bind_Ok in Hm as (tx2 & [_ H2]%AddIndex_Ok & Hm).
  apply result_bind_Ok in Hm as (tx3 & [Hn3 H3]%CreateTable_Ok & Hm).
  apply result_bind_Ok in Hm as (tx4 & [_ H4]%AddIndex_Ok & Hm).
  apply result_bind_Ok in Hm as (tx5 & H5 & Hm).
  apply AddForeignKey_Ok in H5 as (n5 & cols5 & [= <- <-] & _ & _ & H5).
  apply result_bind_Ok in Hm as (tx6 & [Hn6 H6]%CreateTable_Ok & Hm).
  apply result_bind_Ok in Hm as (tx7 & [_ H7]%AddIndex_Ok & Hm).
  apply result_bind_Ok in Hm as (tx8 & [_ H8]%AddIndex_Ok & Hm).
  apply AddForeignKey_Ok in Hm as (n9 & cols9 & [= <- <-] & _ & _ & H9).
  cbn [s_name Pulse_struct JetDrop_struct Record_struct] in *.
  rewrite pulses_name, jet_drops_name, records_name, ?Hp, ?Hj, ?Hr in *.
  rewrite H1, alter_insert_eq in H2. rewrite H2 in Hn3, H3.
  rewrite H3, alter_insert_eq in H4. rewrite H4, alter_insert_eq in H5.
  rewrite H5 in Hn6, H6. rewrite H6, alter_insert_eq in H7. rewrite H7, alter_insert_eq in H8.
  rewrite H8, alter_insert_eq in H9. rewrite H9.
  rewrite lookup_insert_ne in Hn3 by done. rewrite !lookup_insert_ne in Hn6 by done.
  split_and!; [|done..]. unfold with_tables. do 3 f_equal; vm_compute; reflexivity.
Qed.

(** What the queries on rows of type [A] need of their table. *)
Definition serves A `{Entity A} (t : TableDef) : Prop :=
  is_key (key_columns A) t ∧ ∀ c, is_Some (column (A := A) c) → c ∈ td_columns t.

Ltac serve :=
  split; [apply (bool_decide_unpack _); vm_compute; exact I|];
  intros c [f Hc]; cbn in Hc; repeat case_decide; try done; subst; cbn; set_solver.

Lemma tables_serve :
  serves Pulse pulses_table ∧ serves JetDrop jet_drops_table ∧ serves MRecord records_table.
Proof. split_and!; unfold pulses_table, jet_drops_table, records_table; serve. Qed.

Lemma referenced_insert n m t s :
  referenced n (<[m := t]> s) → n ∈ (td_foreign_keys t).*1.*2 ∨ referenced n s.
Proof.
  intros (k & t' & [[_ <-]|[_ Hk]]%lookup_insert_Some & Hn); [by left|right]. by exists k, t'.
Qed.

Lemma drop_with_tables s :
  Forall (λ n, s !! n = None ∧ ¬ referenced n s) rollback_tables →
  drop_tables rollback_tables (with_tables s) = Some s.
Proof.
  unfold rollback_tables. rewrite !Forall_cons. intros ([Hr Hnr] & [Hj Hnj] & [Hp Hnp] & _).
  unfold with_tables, drop_tables.
  rewrite delete_insert_id by (by rewrite !lookup_insert_ne).
  rewrite decide_False by (intros [Hin|[Hin|Hin]%referenced_insert]%referenced_insert; set_solver).
  rewrite delete_insert_id by (by rewrite !lookup_insert_ne).
  rewrite decide_False by (intros [Hin|Hin]%referenced_insert; set_solver).
  rewrite delete_insert_id by done. by rewrite decide_False.
Qed.

(** C38: The schema is the one the queries need, and the rollback takes exactly it
    away.  A first migration that succeeds has added three tables: each has the
    primary key under which the model keeps its rows and every column a query
    names, and the foreign keys refer to primary keys.  If no other table refers
    to the three, then dropping them in the order of the rollback is never refused
    for a foreign key, and a rollback that succeeds leaves the schema as it was
    before the migration. *)
Theorem Migrate_Rollback tx tx1 :
  Migrate tx = Ok tx1 → Forall (λ n, ¬ referenced n (schema tx)) rollback_tables →
  schema tx1 = with_tables (schema tx) ∧
  (serves Pulse pulses_table ∧ serves JetDrop jet_drops_table ∧ serves MRecord records_table) ∧
  drop_tables rollback_tables (schema tx1) = Some (schema tx) ∧
  ∀ tx2, Rollback tx1 = Ok tx2 → schema tx2 = schema tx.
Proof.
  intros (Hs & Hp & Hj & Hr)%Migrate_Ok Href.
  assert (drop_tables rollback_tables (schema tx1) = Some (schema tx)) as Hd.
  { rewrite Hs. apply drop_with_tables. unfold rollback_tables in *. rewrite !Forall_cons in *.
    naive_solver. }
  split_and!; [done|apply tables_serve..|done|].
  intros tx2 Hd2%DropTableIfExists_Ok. congruence.
Qed.
End schema.

(** ** The generated rows *)

Section rows.
Context `{HP : Platform, !PlatformLaws, !Random G, !RandomLaws G, GormLaws DB}.

(** Rows inserted one after the other under their keys; the last one stays. *)
Definition insert_all {K A} `{Countable K} (key : A → K) (l : list A) (m : gmap K A) : gmap K A :=
  foldl (λ m x, <[key x := x]> m) m l.

(** The pulses form an unbroken chain of complete, sequential pulses. *)
Definition pulses_generated (amount : Z) (pulses : list Pulse) : Prop :=
  p_PulseNumber <$> pulses = seqZ startPulse amount ∧
  Forall (λ p, p_PrevPulseNumber p = p_PulseNumber p - 1 ∧
               p_NextPulseNumber p = p_PulseNumber p + 1 ∧
               p_IsComplete p = true ∧ p_IsSequential p = true ∧
               p_JetDropAmount p = 0 ∧ p_RecordAmount p = 0) pulses.

(** A drop of one of the pulses, a record of one of the drops. *)
Definition drop_generated (pulses : list Pulse) (j : JetDrop) : Prop :=
  jd_PulseNumber j ∈ p_PulseNumber <$> pulses ∧ valid_jet_id (jd_JetID j) ∧
  jd_Hash j = jd_RawData j ∧ jd_RecordAmount j = 100.
Definition record_generated (drops : list JetDrop) (r : MRecord) : Prop :=
  (r_PulseNumber r, r_JetID r) ∈ jd_key <$> drops ∧ r_Type r = State ∧ r_Order r = 0 ∧
  r_Hash r = r_RawData r.

Lemma append_loop_Ok {A} (body : Z → Gen G (result A)) turns acc g xs g' :
  append_loop body turns acc g = Some (Ok xs, g') →
  ∃ ys, xs = acc ++ ys ∧ Forall2 (λ i y, can_return (body i) (Ok y)) turns ys.
Proof.
  revert acc g. induction turns as [|i turns IH]; intros acc g.
  - intros [[= <-] <-]%Gen_ret_Some. exists []. by rewrite app_nil_r.
  - intros ([x|err] & g1 & Hx & Hl)%Gen_bind_Some; [|by apply Gen_ret_Some in Hl as [? _]].
    apply IH in Hl as (ys & -> & Hys). exists (x :: ys). rewrite <- (assoc_L (++)).
    split; [done|]. constructor; [|done]. by exists g, g1.
Qed.

Lemma append_loop_rows {A} (body : Z → Gen G (result A)) (P : A → Prop) amount g xs g' :
  (∀ i x, can_return (body i) (Ok x) → P x) →
  append_loop body (turns amount) [] g = Some (Ok xs, g') →
  length xs = Z.to_nat (amount - 1) ∧ Forall P xs.
Proof.
  intros HP' (ys & -> & Hys)%append_loop_Ok. split.
  - apply Forall2_length in Hys. unfold turns in Hys. by rewrite length_seqZ in Hys.
  - eapply Forall2_Forall_r; [exact Hys|]. apply Forall_true. eauto.
Qed.

Lemma notNullJetID_valid fuel jID : can_return (notNullJetID fuel) jID → valid_jet_id jID.
Proof.
  intros (g & g' & Hg). revert g Hg. induction fuel as [|fuel IH]; intros g; [done|].
  intros (id & g1 & _ & (n & g2 & _ & Hj)%Gen_bind_Some)%Gen_bind_Some.
  case_decide; [by eapply IH|]. apply must_Some in Hj as [Hj _].
  destruct (JetIDToString_valid id) as (s & Hs & Hv). congruence.
Qed.

Lemma generateJetDrop_Ok fuel tNow pulses i j :
  can_return (generateJetDrop fuel tNow pulses i) (Ok j) → drop_generated pulses j.
Proof.
  intros (g & g' & ([raw|err] & g1 & _ & Hg)%Gen_bind_Some); [|by apply Gen_ret_Some in Hg as [? _]].
  apply Gen_bind_Some in Hg as (p & g2 & Hp%choose_Some & Hg).
  apply Gen_bind_Some in Hg as (jID & g3 & Hj & Hg).
  apply Gen_bind_Some in Hg as (id1 & g4 & _ & Hg).
  apply Gen_bind_Some in Hg as (id2 & g5 & _ & [[= <-] _]%Gen_ret_Some).
  split_and!; [by apply (list_elem_of_fmap_2 p_PulseNumber)| |done..].
  eapply notNullJetID_valid. by exists g2, g3.
Qed.

Lemma generateRecord_Ok tNow drops i r :
  can_return (generateRecord tNow drops i) (Ok r) → record_generated drops r.
Proof.
  intros (g & g' & ([raw|err] & g1 & _ & Hg)%Gen_bind_Some); [|by apply Gen_ret_Some in Hg as [? _]].
  apply Gen_bind_Some in Hg as (j & g2 & Hj%choose_Some & Hg).
  do 4 apply Gen_bind_Some in Hg as (? & ? & _ & Hg). apply Gen_ret_Some in Hg as [[= <-] _].
  split_and!; [|done..]. cbn. change (jd_PulseNumber j, jd_JetID j) with (jd_key j).
  by apply list_elem_of_fmap_2.
Qed.

Lemma generatePulses_Some amount g pulses g' :
  generatePulses amount g = Some (pulses, g') → pulses_generated amount pulses.
Proof.
  intros (tNow & g1 & _ & [<- _]%Gen_ret_Some)%Gen_bind_Some. split.
  - rewrite <- list_fmap_compose. apply list_fmap_id.
  - apply Forall_fmap, Forall_true. by intros i.
Qed.

(** ** What is stored *)

(** A table is a component of the tables. *)
Definition table_component {B} (get : Tables → B) (set : B → Tables → Tables) : Prop :=
  (∀ b t, get (set b t) = b) ∧ (∀ b c t, set b (set c t) = set b t) ∧ ∀ t, set (get t) t = t.

Lemma save_all_Ok {K A} `{Countable K} (get : Tables → gmap K A) set (key : A → K)
    (save : A → DB → result DB) xs db db' :
  table_component get set →
  (∀ x db db', x ∈ xs → save x db = Ok db' →
     tables db' = set (<[key x := x]> (get (tables db))) (tables db) ∧
     extends (tables db) (tables db')) →
  save_all save xs db = Ok db' →
  tables db' = set (insert_all key xs (get (tables db))) (tables db) ∧
  extends (tables db) (tables db').
Proof.
  intros (Hg & Hs & Hid). revert db. induction xs as [|x xs IH]; intros db Hstep; cbn.
  { intros [= ->]. by rewrite Hid. }
  intros (db1 & Hx & Hsave)%result_bind_Ok. apply Hstep in Hx as [Hx He]; [|by left].
  apply IH in Hsave as [-> He']; [|intros; apply Hstep; [by right|done]].
  split; [by rewrite Hx, Hg, Hs|]. by etrans.
Qed.

Lemma components :
  table_component t_pulses set_pulses ∧ table_component t_jet_drops set_jet_drops ∧
  table_component t_records set_records.
Proof. unfold table_component. split_and!; try done; by intros []. Qed.

Lemma save_pulses_Ok ps db db' :
  Forall (λ p, p_PulseNumber p ≠ 0) ps → save_all Save_Pulse ps db = Ok db' →
  tables db' = set_pulses (insert_all p_PulseNumber ps (t_pulses (tables db))) (tables db) ∧
  extends (tables db) (tables db').
Proof.
  intros Hne. rewrite Forall_forall in Hne. apply save_all_Ok; [apply components|].
  intros p db1 db2 Hp Hsp%Save_Pulse_Ok; [|by apply Hne]. rewrite Hsp.
  split; [done|by apply extends_insert_pulse].
Qed.

Lemma save_drops_Ok js db db' :
  save_all Save_JetDrop js db = Ok db' →
  tables db' = set_jet_drops (insert_all jd_key js (t_jet_drops (tables db))) (tables db) ∧
  extends (tables db) (tables db').
Proof.
  apply save_all_Ok; [apply components|]. intros j db1 db2 _ [Hp ->]%Save_JetDrop_Ok.
  split; [done|by apply extends_insert_drop].
Qed.

Lemma save_rows_Ok rs db db' :
  save_all Save_Record rs db = Ok db' →
  tables db' = set_records (insert_all r_Reference rs (t_records (tables db))) (tables db) ∧
  extends (tables db) (tables db').
Proof.
  apply save_all_Ok; [apply components|]. intros r db1 db2 _ [Hp ->]%Save_Record_Ok.
  split; [done|by apply extends_insert_record].
Qed.

Lemma pulses_generated_nonzero amount ps :
  pulses_generated amount ps → Forall (λ p, p_PulseNumber p ≠ 0) ps.
Proof.
  intros [Hn _]. apply Forall_forall. intros p Hp%(list_elem_of_fmap_2 p_PulseNumber).
  rewrite Hn, elem_of_seqZ in Hp. unfold startPulse in Hp. lia.
Qed.

(** What a run that succeeds has made and saved. *)
Lemma generateData_Ok fuel cfg db g db' g' :
  generateData fuel cfg db g = Some (Ok db', g') →
  ∃ pulses drops records,
    pulses_generated (TestPulses cfg) pulses ∧
    length drops = Z.to_nat (TestJetDrops cfg - 1) ∧ Forall (drop_generated pulses) drops ∧
    length records = Z.to_nat (TestRecords cfg - 1) ∧ Forall (record_generated drops) records ∧
    ∃ db1 db2, save_all Save_Pulse pulses db = Ok db1 ∧ save_all Save_JetDrop drops db1 = Ok db2 ∧
      save_all Save_Record records db2 = Ok db'.
Proof.
  intros (pulses & g1 & Hps%generatePulses_Some & Hg)%Gen_bind_Some.
  destruct (save_all Save_Pulse pulses db) as [db1|e] eqn:Hs1; [|by apply Gen_ret_Some in Hg as [? _]].
  apply Gen_bind_Some in Hg as ([drops|e] & g2 & Hd & Hg); [|by apply Gen_ret_Some in Hg as [? _]].
  apply Gen_bind_Some in Hd as (tNow & g3 & _ & Hd).
  apply (append_loop_rows _ (drop_generated pulses)) in Hd as [Ld Fd];
    [|intros; by eapply generateJetDrop_Ok].
  destruct (save_all Save_JetDrop drops db1) as [db2|e] eqn:Hs2; [|by apply Gen_ret_Some in Hg as [? _]].
  apply Gen_bind_Some in Hg as ([records|e] & g4 & Hr & Hg); [|by apply Gen_ret_Some in Hg as [? _]].
  apply Gen_bind_Some in Hr as (tNow' & g5 & _ & Hr).
  apply (append_loop_rows _ (record_generated drops)) in Hr as [Lr Fr];
    [|intros; by eapply generateRecord_Ok].
  apply Gen_ret_Some in Hg as [Hs3 _].
  exists pulses, drops, records. split_and!; [done..|]. by exists db1, db2.
Qed.

(** The data of the load test.  When [generateData] succeeds on well-formed
    tables, it has stored an unbroken chain of complete pulses, one per
    [TestPulses]; [TestJetDrops - 1] drops, each of one of these pulses, and
    [TestRecords - 1] records, each of one of these drops -- one row less than the
    configuration asks for, since the loops start at one.  No other row has
    changed, none is lost, and the tables are well formed. *)
Theorem generateData_spec fuel cfg db g db' g' :
  generateData fuel cfg db g = Some (Ok db', g') → well_formed (tables db) →
  ∃ pulses drops records,
    pulses_generated (TestPulses cfg) pulses ∧
    length drops = Z.to_nat (TestJetDrops cfg - 1) ∧ Forall (drop_generated pulses) drops ∧
    length records = Z.to_nat (TestRecords cfg - 1) ∧ Forall (record_generated drops) records ∧
    tables db' = mkTables (insert_all p_PulseNumber pulses (t_pulses (tables db)))
                   (insert_all jd_key drops (t_jet_drops (tables db)))
                   (insert_all r_Reference records (t_records (tables db))) ∧
    well_formed (tables db') ∧ keeps_rows (tables db) (tables db').
Proof.
  intros (ps & js & rs & Hps & Lj & Fj & Lr & Fr & db1 & db2 & Hs1 & Hs2 & Hs3)%generateData_Ok Hwf.
  apply save_pulses_Ok in Hs1 as [Hs1 E1]; [|by eapply pulses_generated_nonzero].
  apply save_drops_Ok in Hs2 as [Hs2 E2]. apply save_rows_Ok in Hs3 as [Hs3 E3].
  assert (extends (tables db) (tables db')) as He
    by (transitivity (tables db1); [done|by transitivity (tables db2)]).
  exists ps, js, rs. split_and!; [done..| | |]; try by apply He.
  rewrite Hs3, Hs2, Hs1. by destruct (tables db).
Qed.

(** ** Termination and panics *)

(** The jet identifiers [notNullJetID] waits for. *)
Definition not_null (id : JetID) : Prop := BigEndian_Uint64 (Prefix id) ≠ Some 0.

Lemma notNullJetID_returns fuel : (∀ g, tries gen_JetID not_null fuel g) → returns (notNullJetID fuel).
Proof.
  intros Ht g. specialize (Ht g). revert g Ht. induction fuel as [|fuel IH]; intros g; [done|].
  cbn [tries notNullJetID]. unfold mbind, Gen_bind, draw.
  destruct (gen_JetID g) as [id g1]. cbn. intros Ht.
  destruct (BigEndian_Prefix id) as [n Hn]. unfold must at 1. rewrite Hn. cbn.
  case_decide as Hz.
  - apply IH. destruct Ht as [Hnn|Ht]; [|done]. destruct Hnn. by rewrite Hn, Hz.
  - destruct (JetIDToString_valid id) as (s & Hs & _). unfold must. rewrite Hs. by eexists.
Qed.

Lemma append_loop_returns {A} (body : Z → Gen G (result A)) turns acc :
  (∀ i, i ∈ turns → returns (body i)) → returns (append_loop body turns acc).
Proof.
  revert acc. induction turns as [|i turns IH]; intros acc Hb; cbn; [auto with gen|].
  apply returns_bind; [apply Hb; by left|]. intros [x|err] _; [|auto with gen].
  apply IH. intros; apply Hb. by right.
Qed.

(** The rows asked for have something to belong to. *)
Definition feasible (cfg : TestDB) : Prop :=
  (1 < TestJetDrops cfg → 0 < TestPulses cfg) ∧ (1 < TestRecords cfg → 1 < TestJetDrops cfg).

Lemma generateJetDrop_returns fuel tNow pulses i :
  (∀ g, tries gen_JetID not_null fuel g) → pulses ≠ [] →
  returns (generateJetDrop fuel tNow pulses i).
Proof.
  intros Ht Hne. apply returns_bind; [apply returns_draw|]. intros [raw|err] _; [|auto with gen].
  apply returns_bind; [by apply choose_returns|]. intros p _.
  apply returns_bind; [by apply notNullJetID_returns|]. intros jID _.
  do 2 (apply returns_bind; [auto with gen|]; intros ? _). auto with gen.
Qed.

Lemma generateRecord_returns tNow drops i : drops ≠ [] → returns (generateRecord tNow drops i).
Proof.
  intros Hne. apply returns_bind; [apply returns_draw|]. intros [raw|err] _; [|auto with gen].
  apply returns_bind; [by apply choose_returns|]. intros p _.
  do 4 (apply returns_bind; [auto with gen|]; intros ? _). auto with gen.
Qed.

Lemma elem_of_turns i amount : i ∈ turns amount → 1 < amount.
Proof. unfold turns. rewrite elem_of_seqZ. lia. Qed.

Lemma length_pulses amount ps : pulses_generated amount ps → length ps = Z.to_nat amount.
Proof. intros [Hn _]. by rewrite <- (length_fmap p_PulseNumber), Hn, length_seqZ. Qed.

Lemma generateData_feasible fuel cfg db db' :
  can_return (generateData fuel cfg db) (Ok db') → feasible cfg.
Proof.
  intros (g & g' & (ps & js & rs & Hps & Lj & Fj & Lr & Fr & _)%generateData_Ok). split.
  - intros Hn. destruct js as [|j js]; [cbn in Lj; lia|]. apply Forall_cons in Fj as [[Hj _] _].
    apply length_pulses in Hps. destruct ps; cbn in *; [by apply not_elem_of_nil in Hj|lia].
  - intros Hn. destruct rs as [|r rs]; [cbn in Lr; lia|]. apply Forall_cons in Fr as [[Hr _] _].
    destruct js; cbn in *; [by apply not_elem_of_nil in Hr|lia].
Qed.

Lemma generateJetDrops_Ok fuel pulses amount js :
  can_return (generateJetDrops fuel pulses amount) (Ok js) → length js = Z.to_nat (amount - 1).
Proof.
  intros (g & g' & (tNow & g1 & _ & Hd)%Gen_bind_Some).
  by apply (append_loop_rows _ (drop_generated pulses)) in Hd as [Ld _];
    [|intros; by eapply generateJetDrop_Ok].
Qed.

(** C40: The generator ends.  If every run of [fuel] draws brings a jet identifier
    that is not zero and the rows asked for have something to belong to, then
    [generateData] returns, whatever the database answers; if they have not, it
    never succeeds: choosing from an empty slice panics. *)
Theorem generateData_returns fuel cfg db :
  ((∀ g, tries gen_JetID not_null fuel g) → feasible cfg → returns (generateData fuel cfg db)) ∧
  (¬ feasible cfg → ∀ db', ¬ can_return (generateData fuel cfg db) (Ok db')).
Proof.
  split; [|intros Hnf db' Hr; apply Hnf; by eapply generateData_feasible].
  intros Ht [Hjs Hrs]. apply returns_bind.
  { apply returns_bind; [apply returns_draw|]. intros tNow _. apply returns_ret. }
  intros ps (g & g' & Hps%generatePulses_Some%length_pulses).
  destruct (save_all Save_Pulse ps db) as [db1|err]; [|apply returns_ret]. apply returns_bind.
  { apply returns_bind; [apply returns_draw|]. intros tNow _. apply append_loop_returns.
    intros i Hi%elem_of_turns. apply generateJetDrop_returns; [done|].
    specialize (Hjs Hi). intros ->. cbn in Hps. lia. }
  intros [js|err] Hjs'; [|apply returns_ret]. apply generateJetDrops_Ok in Hjs'.
  destruct (save_all Save_JetDrop js db1) as [db2|err]; [|apply returns_ret]. apply returns_bind.
  { apply returns_bind; [apply returns_draw|]. intros tNow _. apply append_loop_returns.
    intros i Hi%elem_of_turns. apply generateRecord_returns.
    specialize (Hrs Hi). intros ->. cbn in Hjs'. lia. }
  intros [rs|err] _; apply returns_ret.
Qed.
End rows.

(** ** The theorems at work *)

(** A database that keeps its schema only. *)
Definition ref_alter (model : string) (ok : TableDef → Prop) `{∀ t, Decision (ok t)}
  (f : TableDef → TableDef) (s : Schema) : result Schema :=
  match s !! model with
  | Some t => if decide (ok t) then Ok (<[model := f t]> s) else Err (ErrMsg "refused")
  | None => Err (ErrMsg "relation does not exist")
  end.

Definition ref_table_name (n : string) : string :=
  default n (list_to_map (M := gmap string string) table_names !! n).

#[export] Instance ref_schemas : Schemas Schema := {|
  schema s := s;
  TableName := ref_table_name;
  ColumnName := column_name;
  CreateTable st s :=
    if decide (s !! ref_table_name (s_name st) = None)
    then Ok (<[ref_table_name (s_name st) := created column_name st]> s)
    else Err (ErrMsg "relation already exists");
  AddIndex model name cols := ref_alter (ref_table_name model) (has_columns cols) (add_index name cols);
  AddForeignKey model fk dest _ _ s :=
    match destination dest with
    | Some (n, cols) =>
        match s !! n with
        | Some t => if decide (is_key cols t)
                    then ref_alter (ref_table_name model) (has_columns (column_list fk))
                           (add_foreign_key (column_list fk, n, cols)) s
                    else Err (ErrMsg "no unique constraint")
        | None => Err (ErrMsg "relation does not exist")
        end
    | None => Err (ErrMsg "syntax error")
    end;
  DropTableIfExists names s :=
    match drop_tables names s with Some s => Ok s | None => Err (ErrMsg "other objects depend on it") end;
|}.

Lemma ref_alter_Ok model ok `{∀ t, Decision (ok t)} f s s' :
  ref_alter model ok f s = Ok s' →
  (∃ t, s !! model = Some t ∧ ok t) ∧ s' = alter f model s.
Proof.
  unfold ref_alter. destruct (s !! model) as [t|] eqn:Ht; [|done]. case_decide; [|done].
  intros [= <-]. split; [by exists t|]. apply map_eq. intros n.
  destruct (decide (n = model)) as [->|Hn].
  - by rewrite lookup_insert_eq, lookup_alter_eq, Ht.
  - by rewrite lookup_insert_ne, lookup_alter_ne.
Qed.

#[export] Instance ref_schemas_laws : SchemasLaws Schema.
Proof.
  constructor; cbn.
  - apply (bool_decide_unpack _). vm_compute. exact I.
  - apply (bool_decide_unpack _). vm_compute. exact I.
  - intros st s s'. case_decide; [|done]. by intros [= <-].
  - intros model name cols s s'. apply ref_alter_Ok.
  - intros model fk dest _ _ s s'. destruct (destination dest) as [[n cols]|]; [|done].
    destruct (s !! n) as [t|] eqn:Ht; [|done]. case_decide; [|done].
    intros [Hcols Hs]%ref_alter_Ok. exists n, cols. split_and!; [done|done|by exists t|done].
  - intros names s s'. destruct (drop_tables names s); [|done]. by intros [= ->].
Qed.

Lemma Migrate_Rollback_witness :
  Migrate (∅ : Schema) = Ok (with_tables ∅) ∧ drop_tables rollback_tables (with_tables ∅) = Some ∅.
Proof.
  assert (Migrate (∅ : Schema) = Ok (with_tables ∅)) as Hm by (vm_compute; reflexivity).
  split; [exact Hm|]. apply (Migrate_Rollback (∅ : Schema) (with_tables ∅) Hm).
  repeat constructor; intros (k & t & Hk & _); discriminate Hk.
Defined.

(** Two pulses, two drops and two records from the source of zeros. *)
Definition ex_cfg : TestDB := mkTestDB 2 3 3.

Definition ex_sizes (r : option (result RefDB * (N * N))) : option (nat * nat) :=
  match r with
  | Some (Ok db', _) => Some (size (t_jet_drops (tables db')), size (t_records (tables db')))
  | _ => None
  end.

Lemma generateData_spec_witness :
  ∃ db' g', generateData 1 ex_cfg (up no_rows) (0, 0)%N = Some (Ok db', g') ∧
    well_formed (tables db') ∧ ex_sizes (Some (Ok db', g')) = Some (2, 2)%nat.
Proof.
  assert (ex_sizes (generateData 1 ex_cfg (up no_rows) (0, 0)%N) = Some (2, 2)%nat) as Hs
    by (vm_compute; reflexivity).
  destruct (generateData 1 ex_cfg (up no_rows) (0, 0)%N) as [[[db'|err] g']|] eqn:Hg; [|discriminate Hs..].
  exists db', g'. split; [reflexivity|]. split; [|exact Hs].
  destruct (generateData_spec _ _ _ _ _ _ Hg no_rows_well_formed)
    as (? & ? & ? & _ & _ & _ & _ & _ & _ & Hwf & _).
  exact Hwf.
Defined.

Lemma generateData_returns_witness :
  returns (G := N * N) (generateData 1 ex_cfg (up no_rows)) ∧
  ∀ db', ¬ can_return (G := N * N) (generateData 1 (mkTestDB 0 3 3) (up no_rows)) (Ok db').
Proof.
  split.
  - apply (generateData_returns 1 ex_cfg (up no_rows)).
    + intros g. left. apply nonce_not_null.
    + split; intros _; reflexivity.
  - apply (generateData_returns 1 (mkTestDB 0 3 3) (up no_rows)).
    intros [Hf _]. discriminate (Hf eq_refl).
Defined.
