(* ===== verification/StorageRead.v ===== *)
(** * What the reading methods of the storage return

    For each query of [Storage.v]: the rows it selects, as a predicate on the
    rows of the table, their order, and the page of them that is returned, over
    any database that behaves as documented ([GormLaws]). *)

From S2P Require Import Prelude GoStd Platform Types Models Gorm RefDb Interfaces Storage.

(** ** The meaning of a query under construction *)

(** [q] has no [Or] yet and its conditions say [P]. *)
Definition means `{Entity A} (q : Query) (P : A → bool) : Prop :=
  q_or q = [] ∧
  ∃ es, Forall2 (Derives LOr) (q_where q) es ∧ ∀ r, P r = forallb (λ e, sat_exp e r) es.

(** The query selects exactly the rows satisfying [P]. *)
Definition selects `{Entity A} (q : Query) (P : A → bool) : Prop :=
  ∃ P', where_pred q = Some P' ∧ ∀ r, P' r = P r.

(** What a page of a sorted selection is, with the total it comes with. *)
Definition is_page `{Entity A} (R : A → A → Prop) (P : A → bool) (limit offset : option Z)
  (t : Tables) (l : list A) (total : Z) : Prop :=
  ∃ sorted,
    sorted ≡ₚ filter (λ r, P r = true) (rows t) ∧ StronglySorted R sorted ∧
    l = page limit offset sorted ∧ total = Z.of_nat (length sorted).

(** The test of an optional bound. *)
Definition opt_test (test : Z → Z → bool) (bound : option Z) (z : Z) : bool :=
  match bound with Some n => test z n | None => true end.

Definition cmp_test (op : sql_cmp) : Z → Z → bool :=
  match op with CEq => Z.eqb | CLt => Z.ltb | CLe => Z.leb | CGt => Z.gtb | CGe => Z.geb end.

Lemma sat_cmp_int op a b : sat_cmp op (VInt a) (VInt b) = cmp_test op a b.
Proof.
  destruct op; cbn.
  - destruct (Z.eqb_spec a b) as [->|Hn]; [by apply bool_decide_eq_true|].
    apply bool_decide_eq_false. congruence.
  - rewrite Z.ltb_antisym. done.
  - done.
  - by rewrite Z.gtb_ltb, Z.ltb_antisym.
  - by rewrite Z.geb_leb.
Qed.

(** Evaluate the conditions of a query on a row. *)
Ltac sat_simpl :=
  cbn [sat_exp sat_atom]; autorewrite with columns; rewrite ?sat_cmp_int; cbn [cmp_test].

Section queries.
Context `{HE : Entity A}.
Implicit Types (P : A → bool) (q : Query).

Lemma means_new : means new_query (λ _ : A, true).
Proof. split; [done|]. exists []. done. Qed.

Lemma means_ext q P Q : (∀ r, P r = Q r) → means q P → means q Q.
Proof. intros Heq (Ho & es & Hes & HP). split; [done|]. exists es. split; [done|].
  intros r. by rewrite <- Heq. Qed.

Lemma means_Where t e q P :
  Derives LOr t e → means q P → means (Where t q) (λ r, P r && sat_exp e r).
Proof.
  intros Ht (Ho & es & Hes & HP). split; [done|]. exists (es ++ [e]). split.
  - cbn. by apply Forall2_app; [|constructor].
  - intros r. rewrite forallb_app, <- HP. cbn. by rewrite andb_true_r.
Qed.

Lemma means_Order c asc q P : means q P → means (Order c asc q) P.
Proof. done. Qed.

Lemma means_cond col op v q P :
  means q P → means (Where (cond col op v) q) (λ r, P r && sat_atom (ACmp col op v) r).
Proof.
  apply (means_Where [TAtom (ACmp col op v)] (EAtom (ACmp col op v))), derives_atom.
Qed.

Lemma means_where_opt col (f : A → Z) op bound q P :
  column col = Some (λ r, VInt (f r)) → means q P →
  means (where_opt col op bound q) (λ r, P r && opt_test (cmp_test op) bound (f r)).
Proof.
  intros Hc Hq. destruct bound as [n|]; cbn.
  - eapply means_ext, means_cond, Hq. intros r. cbn. by rewrite Hc, sat_cmp_int.
  - eapply means_ext, Hq. intros r. cbn. by rewrite andb_true_r.
Qed.

Lemma means_selects q P : means q P → selects q P.
Proof.
  intros (Ho & es & Hes & HP). destruct (where_pred_ands q es Ho Hes) as (P' & H1 & H2).
  exists P'. split; [done|]. intros r. by rewrite H2, HP.
Qed.

Lemma selects_ext q P Q : (∀ r, P r = Q r) → selects q P → selects q Q.
Proof. intros Heq (P' & H1 & H2). exists P'. split; [done|]. intros r. by rewrite H2. Qed.

Lemma selects_selected q P t r : selects q P → selected q t r ↔ P r = true ∧ r ∈ rows t.
Proof. intros (P' & H1 & H2). by rewrite (selected_pred _ _ _ _ H1), H2. Qed.

(** The condition in two pieces. *)
Lemma selects_split q P a ea b eb :
  means q P → Derives LOr a ea → Derives LOr b eb →
  selects (Or (b ++ [TClose]) (Where (TOpen :: a) q))
    (λ r, P r && (sat_exp ea r || sat_exp eb r)).
Proof.
  intros (Ho & es & Hes & HP) Ha Hb.
  destruct (where_pred_split (Or (b ++ [TClose]) (Where (TOpen :: a) q)) (q_where q) es a ea b eb)
    as (P' & H1 & H2); try done.
  - cbn. by rewrite Ho.
  - exists P'. split; [done|]. intros r. by rewrite H2, HP.
Qed.

Lemma filter_selects P' P (l : list A) :
  (∀ r, P' r = P r) → filter (λ r, P' r = true) l = filter (λ r, P r = true) l.
Proof. intros Heq. apply list_filter_iff. intros r. by rewrite Heq. Qed.

Context `{GormLaws DB}.

Lemma Find_page q P limit offset l total db :
  selects q P → Find A (Offset offset (Limit limit q)) db = Ok l → Count A q db = Ok total →
  is_page (row_le (q_order q)) P (Some limit) (Some offset) (tables db) l total.
Proof.
  intros (P' & H1 & H2) (Q & sorted & HQ & Hperm & Hsort & ->)%Find_Ok
    (Q' & HQ' & ->)%Count_Ok.
  change (where_pred q = Some Q) in HQ. rewrite H1 in HQ, HQ'. simplify_eq.
  rewrite (filter_selects Q P) in Hperm |- * by done.
  exists sorted. split_and!; [done|done|done|]. by rewrite Hperm.
Qed.

Lemma Find_page_limit q P limit l total db :
  selects q P → q_offset q = None →
  Find A (Limit limit q) db = Ok l → Count A q db = Ok total →
  is_page (row_le (q_order q)) P (Some limit) None (tables db) l total.
Proof.
  intros (P' & H1 & H2) Hoff (Q & sorted & HQ & Hperm & Hsort & ->)%Find_Ok
    (Q' & HQ' & ->)%Count_Ok.
  change (where_pred q = Some Q) in HQ. rewrite H1 in HQ, HQ'. simplify_eq.
  rewrite (filter_selects Q P) in Hperm |- * by done. cbn [q_limit q_offset Limit].
  rewrite Hoff. exists sorted. split_and!; [done|done|done|]. by rewrite Hperm.
Qed.

Lemma Find_selects q P l db :
  selects q P → q_limit q = None → q_offset q = None → Find A q db = Ok l →
  l ≡ₚ filter (λ r, P r = true) (rows (tables db)).
Proof.
  intros (P' & H1 & H2) Hl Ho (Q & sorted & HQ & Hperm & _ & ->)%Find_Ok.
  rewrite Hl, Ho. cbn. rewrite H1 in HQ. simplify_eq.
  by rewrite Hperm, (filter_selects Q P).
Qed.
End queries.

(** ** Records: lifelines and jet drops *)

(** The position of a record in the ledger, and its lexicographic order. *)
Definition index (r : MRecord) : Z * Z := (r_PulseNumber r, r_Order r).
Definition index_leb (a b : Z * Z) : bool := (a.1 <? b.1) || ((a.1 =? b.1) && (a.2 <=? b.2)).
Definition directed (asc : bool) (le : Z * Z → Z * Z → bool) : Z * Z → Z * Z → bool :=
  if asc then le else flip le.

(** Records at or after the position [fromIndex] denotes, in the direction of
    reading; none when it denotes no position. *)
Definition from_index (fromIndex : option string) (asc : bool) (r : MRecord) : bool :=
  match fromIndex with
  | None => true
  | Some i => match CheckIndex i with
              | Ok from => directed asc index_leb from (index r)
              | Err _ => false
              end
  end.

Definition in_lifeline objRef fromIndex pulseNumberLt pulseNumberGt timestampLte timestampGte
  (asc : bool) (r : MRecord) : bool :=
  bool_decide (r_ObjectReference r = objRef) && bool_decide (r_Type r = State) &&
  opt_test Z.gtb pulseNumberGt (r_PulseNumber r) && opt_test Z.ltb pulseNumberLt (r_PulseNumber r) &&
  opt_test Z.geb timestampGte (r_Timestamp r) && opt_test Z.leb timestampLte (r_Timestamp r) &&
  from_index fromIndex asc r.

Definition in_jet_drop (id : JetDropID) fromIndex recordType (r : MRecord) : bool :=
  bool_decide (r_PulseNumber r = jdi_PulseNumber id) && bool_decide (r_JetID r = jdi_JetID id) &&
  (match recordType with Some t => bool_decide (r_Type r = t) | None => true end) &&
  from_index fromIndex true r.

Lemma filterRecordsByIndex_selects q (P : MRecord → bool) i asc q' :
  means q P → filterRecordsByIndex q i asc = Ok q' →
  selects q' (λ r, P r && from_index (Some i) asc r).
Proof.
  intros Hq. unfold filterRecordsByIndex. autorewrite with be.
  intros ([pn ord] & Hi & Hq'). cbn. rewrite Hi. destruct asc; simplify_eq.
  - eapply selects_ext, (selects_split q P [TAtom (ACmp "pulse_number" CGt (VInt pn))] _
      [TAtom (ACmp "pulse_number" CEq (VInt pn)); TAnd; TAtom (ACmp "order" CGe (VInt ord))]);
      eauto with be.
    intros r. sat_simpl. unfold directed, index_leb. cbn.
    rewrite Z.gtb_ltb, Z.geb_leb, (Z.eqb_sym pn). done.
  - eapply selects_ext, (selects_split q P [TAtom (ACmp "pulse_number" CLt (VInt pn))] _
      [TAtom (ACmp "pulse_number" CEq (VInt pn)); TAnd; TAtom (ACmp "order" CLe (VInt ord))]);
      eauto with be.
    intros r. sat_simpl. done.
Qed.

(** The two [Order] calls give the ledger order, in the direction asked for. *)
Lemma record_order asc q (r s : MRecord) :
  q_order q = [] →
  row_le (q_order (sortRecordsByDirection q asc)) r s ↔
  directed asc index_leb (index r) (index s) = true.
Proof.
  intros Hq. unfold row_le, sortRecordsByDirection.
  assert (∀ a b c d : Z, (a <=? b) && (negb (b <=? a) || (c <=? d) && (negb (d <=? c) || true))
    = index_leb (a, c) (b, d)) as Hlex.
  { intros. unfold index_leb. cbn. rewrite orb_true_r, andb_true_r.
    destruct (Z.leb_spec a b), (Z.leb_spec b a), (Z.ltb_spec a b), (Z.eqb_spec a b); cbn;
      try lia; done. }
  destruct asc; cbn [q_order Order]; rewrite Hq; cbn [app row_leb];
    autorewrite with columns; cbn [val_leb flip]; by rewrite Hlex.
Qed.

Lemma is_page_ext `{Entity A} (R R' : A → A → Prop) (P Q : A → bool) limit offset t l total :
  (∀ r s, R r s ↔ R' r s) → (∀ r, P r = Q r) →
  is_page R P limit offset t l total → is_page R' Q limit offset t l total.
Proof.
  intros HR HP (sorted & Hperm & Hsort & Hl & Htot). exists sorted.
  rewrite (filter_selects P Q) in Hperm by done. split_and!; try done.
  clear -HR Hsort. induction Hsort as [|r l Hs IH Hr]; constructor; [done|].
  eapply Forall_impl; [exact Hr|]. intros s. apply HR.
Qed.

Definition reading_order (asc : bool) (r s : MRecord) : Prop :=
  directed asc index_leb (index r) (index s) = true.

Lemma is_page_elem `{Entity A} (R : A → A → Prop) (P : A → bool) limit offset t l total r :
  is_page R P limit offset t l total → r ∈ l → r ∈ rows t ∧ P r = true.
Proof.
  intros (sorted & Hperm & _ & -> & _) Hr. eapply elem_of_sublist in Hr; [|apply page_sublist].
  rewrite Hperm in Hr. apply list_elem_of_filter in Hr as [? ?]. done.
Qed.

Lemma bool_decide_val_str s t : bool_decide (VStr s = VStr t) = bool_decide (s = t).
Proof. apply bool_decide_ext. split; congruence. Qed.
Lemma bool_decide_val_bytes s t : bool_decide (VBytes s = VBytes t) = bool_decide (s = t).
Proof. apply bool_decide_ext. split; congruence. Qed.
Lemma bool_decide_val_bool s t : bool_decide (VBool s = VBool t) = Bool.eqb s t.
Proof. by destruct s, t. Qed.

Lemma eqb_true (b : bool) : Bool.eqb b true = b.
Proof. by destruct b. Qed.

Lemma eqb_decide (a b : Z) : (a =? b) = bool_decide (a = b).
Proof. destruct (Z.eqb_spec a b); symmetry; [by apply bool_decide_eq_true|by apply bool_decide_eq_false]. Qed.

(** Step through the construction of a query. *)
Ltac query_means :=
  first [ apply means_new | apply means_where_opt; [reflexivity|]; query_means
        | apply means_Order; query_means
        | eapply means_cond; query_means
        | eapply means_Where; [eauto with be|]; query_means ].

Section record_queries.
Context `{GormLaws DB}.
Implicit Types db : DB.

(** The part shared by the two record listings: an index filter, the sort and
    the page. *)
Lemma record_listing q (P : MRecord → bool) fromIndex asc msg limit offset rs total db :
  means q P → q_order q = [] →
  (q ← match fromIndex with
       | Some i => filterRecordsByIndex q i asc
       | None => Ok q
       end;
   wrap_err msg (getRecords (sortRecordsByDirection q asc) limit offset db)) = Ok (rs, total) →
  is_page (reading_order asc) (λ r, P r && from_index fromIndex asc r) (Some limit) (Some offset)
    (tables db) rs total.
Proof.
  intros Hq Hord. autorewrite with be. intros (q' & Hq' & Hg%wrap_err_Ok).
  unfold getRecords in Hg. autorewrite with be in Hg. destruct Hg as (rs' & Hf & Hg).
  autorewrite with be in Hg. destruct Hg as (total' & Hc & [= -> ->]).
  assert (selects q' (λ r, P r && from_index fromIndex asc r) ∧ q_order q' = []) as [Hs Ho].
  { destruct fromIndex as [i|].
    - split; [by eapply filterRecordsByIndex_selects|].
      unfold filterRecordsByIndex in Hq'. autorewrite with be in Hq'.
      destruct Hq' as ([] & _ & Hq'). by destruct asc; simplify_eq.
    - simplify_eq. split; [|done]. eapply selects_ext, means_selects, Hq.
      intros r. cbn. by rewrite andb_true_r. }
  eapply is_page_ext; [intros r s; by apply (record_order asc q')|done|].
  eapply Find_page; [|exact Hf|exact Hc]. by destruct asc.
Qed.

(** The page a lifeline is. *)
Lemma GetLifeline_page objRef fromIndex pnLt pnGt tsLte tsGte limit offset asc rs total db :
  GetLifeline objRef fromIndex pnLt pnGt tsLte tsGte limit offset asc db = Ok (rs, total) →
  is_page (reading_order asc) (in_lifeline objRef fromIndex pnLt pnGt tsLte tsGte asc)
    (Some limit) (Some offset) (tables db) rs total.
Proof.
  intros Hg. eapply record_listing in Hg; [|unfold filterByPulse, filterByTimestamp; query_means|].
  - eapply is_page_ext; [done| |exact Hg]. intros r. sat_simpl. cbn [sat_cmp].
    by rewrite bool_decide_val_str, bool_decide_val_bytes.
  - unfold filterByPulse, filterByTimestamp. by destruct pnLt, pnGt, tsLte, tsGte.
Qed.

(** A lifeline.  The records returned are the page [limit]/[offset] of the
    states of the object within the pulse and timestamp bounds and from the
    given position on, in ledger order (pulse number, then order within the
    pulse) in the direction asked for; [total] counts the whole selection.  A
    position that is not two numbers is an error and reads nothing. *)
Theorem GetLifeline_spec objRef fromIndex pnLt pnGt tsLte tsGte limit offset asc db :
  (∀ i e, fromIndex = Some i → CheckIndex i = Err e →
     GetLifeline objRef fromIndex pnLt pnGt tsLte tsGte limit offset asc db = Err e) ∧
  (∀ rs total,
     GetLifeline objRef fromIndex pnLt pnGt tsLte tsGte limit offset asc db = Ok (rs, total) →
     is_page (reading_order asc) (in_lifeline objRef fromIndex pnLt pnGt tsLte tsGte asc)
       (Some limit) (Some offset) (tables db) rs total).
Proof.
  split.
  - intros i e -> Hi. unfold GetLifeline, filterRecordsByIndex. by rewrite Hi.
  - intros rs total. apply GetLifeline_page.
Qed.

(** The records of a jet drop: those of its pulse and jet, of the given
    type when one is given, from the given position on, in ledger order, cut to
    the page; [total] counts the whole selection. *)
Theorem GetRecordsByJetDrop_spec id fromIndex recordType limit offset db :
  (∀ i e, fromIndex = Some i → CheckIndex i = Err e →
     GetRecordsByJetDrop id fromIndex recordType limit offset db = Err e) ∧
  (∀ rs total,
     GetRecordsByJetDrop id fromIndex recordType limit offset db = Ok (rs, total) →
     is_page (reading_order true) (in_jet_drop id fromIndex recordType)
       (Some limit) (Some offset) (tables db) rs total).
Proof.
  split.
  - intros i e -> Hi. unfold GetRecordsByJetDrop, filterRecordsByIndex. by rewrite Hi.
  - intros rs total Hg. unfold in_jet_drop. destruct recordType as [t|];
      (eapply record_listing in Hg; [|query_means|done]);
      (eapply is_page_ext; [done| |exact Hg]); intros r; sat_simpl; cbn [sat_cmp];
      by rewrite !bool_decide_val_str, eqb_decide, ?andb_true_r.
Qed.
End record_queries.

(** ** Pulses *)

(** The links of a stored pulse as they are shown to the outside: a pulse number
    that exists and is adjacent, or -1. *)
Definition shown_prev_ok (t : Tables) (p : Pulse) : Prop :=
  p_PrevPulseNumber p = -1 ∨ ∃ q, stored_pulse t q ∧ p_PulseNumber q = p_PrevPulseNumber p.
Definition shown_next_ok (t : Tables) (p : Pulse) : Prop :=
  p_NextPulseNumber p = -1 ∨
  ∃ q, stored_pulse t q ∧ p_PulseNumber q = p_NextPulseNumber p ∧
       p_PrevPulseNumber q = p_PulseNumber p.

Definition pulse_in_bounds timestampLte timestampGte pnLte pnLt pnGte pnGt (fromPulse : option Z)
  (p : Pulse) : bool :=
  opt_test Z.geb timestampGte (p_Timestamp p) && opt_test Z.leb timestampLte (p_Timestamp p) &&
  opt_test Z.leb pnLte (p_PulseNumber p) && opt_test Z.ltb pnLt (p_PulseNumber p) &&
  opt_test Z.geb pnGte (p_PulseNumber p) && opt_test Z.gtb pnGt (p_PulseNumber p) &&
  opt_test Z.leb fromPulse (p_PulseNumber p).

Definition by_number (asc : bool) (p q : Pulse) : Prop :=
  if asc then p_PulseNumber p ≤ p_PulseNumber q else p_PulseNumber q ≤ p_PulseNumber p.

Lemma pulse_order asc p q : row_le [("pulse_number", asc)] p q ↔ by_number asc p q.
Proof.
  unfold row_le, by_number. cbn [row_leb]. autorewrite with columns.
  destruct asc; cbn [val_leb flip]; rewrite orb_true_r, andb_true_r; apply Z.leb_le.
Qed.

Section pulse_queries.
Context `{Gorm DB}.

(** The links of a pulse between its neighbours on a page, [before] and [after]
    in time; at the two ends of the page the database is asked. *)
Definition relink (before : option Pulse) (p : Pulse) (after : option Pulse) (db : DB) : Pulse :=
  let prev := match before with
              | Some b => if decide (p_PrevPulseNumber p = p_PulseNumber b)
                          then p_PrevPulseNumber p else -1
              | None => p_PrevPulseNumber (updatePrevPulse p db)
              end in
  let next := match after with
              | Some a => if decide (p_PrevPulseNumber a = p_PulseNumber p)
                          then p_PulseNumber a else -1
              | None => p_NextPulseNumber (updateNextPulse p db)
              end in
  mkPulse (p_PulseNumber p) prev next (p_IsComplete p) (p_IsSequential p) (p_Timestamp p)
    (p_JetDropAmount p) (p_RecordAmount p).

(** A page, newest pulse first. *)
Fixpoint newest_first (after : option Pulse) (l : list Pulse) (db : DB) : list Pulse :=
  match l with
  | [] => []
  | p :: l => relink (head l) p after db :: newest_first (Some p) l db
  end.

Lemma link_desc_cons n i a l : link_desc n (S i) (a :: l) = a :: link_desc n i l.
Proof.
  revert i l. induction n as [|n IH]; intros i l; [done|]. cbn [link_desc].
  rewrite <- IH. f_equal. unfold link_desc_at. cbn.
  destruct (l !! i), (l !! (i + 1)%nat); [case_decide|..]; done.
Qed.

(** The descending loop, link by link. *)
Fixpoint links_down (a : Pulse) (l : list Pulse) : list Pulse :=
  match l with
  | [] => [a]
  | b :: l =>
      (if decide (p_PrevPulseNumber a = p_PulseNumber b) then a else set_prev (-1) a)
      :: links_down (set_next (if decide (p_PrevPulseNumber a = p_PulseNumber b)
                               then p_PulseNumber a else -1) b) l
  end.

Lemma link_desc_links a l : link_desc (length l) 0 (a :: l) = links_down a l.
Proof.
  revert a. induction l as [|b l IH]; intros a; [done|].
  cbn [length link_desc links_down]. unfold link_desc_at. cbn.
  case_decide; cbn; rewrite link_desc_cons; by rewrite IH.
Qed.

Lemma link_asc_app n l k : (n < length l)%nat → link_asc n (l ++ k) = link_asc n l ++ k.
Proof.
  revert l. induction n as [|n IH]; intros l Hn; [done|]. cbn [link_asc].
  assert (link_asc_at (S n) (l ++ k) = link_asc_at (S n) l ++ k ∧
          length (link_asc_at (S n) l) = length l) as [-> Hlen].
  { unfold link_asc_at. rewrite !lookup_app_l by lia.
    destruct (lookup_lt_is_Some_2 l (S n)) as [x Hx]; [lia|].
    destruct (lookup_lt_is_Some_2 l (S n - 1)) as [y Hy]; [lia|]. rewrite Hx, Hy.
    case_decide; rewrite ?insert_app_l by (rewrite ?length_insert; lia);
      by rewrite ?length_insert. }
  apply IH. lia.
Qed.

(** The ascending loop is the descending one on the reversed page. *)
Lemma link_asc_reverse a l :
  link_asc (length l) (reverse (a :: l)) = reverse (links_down a l).
Proof.
  revert a. induction l as [|b l IH]; intros a; [done|].
  cbn [length link_asc links_down]. rewrite !reverse_cons.
  assert (∀ x y : Pulse, (reverse l ++ [x]) ++ [y] = reverse l ++ [x; y]) as Happ
    by (intros; by rewrite <- app_assoc).
  rewrite Happ. unfold link_asc_at.
  rewrite !lookup_app_r by (rewrite length_reverse; lia).
  replace (S (length l) - length (reverse l))%nat with 1%nat by (rewrite length_reverse; lia).
  replace (S (length l) - 1 - length (reverse l))%nat with 0%nat by (rewrite length_reverse; lia).
  cbn [lookup list_lookup].
  assert (∀ x y : Pulse, reverse (x :: l) ++ [y] = reverse l ++ [x; y]) as Happ'
    by (intros; by rewrite reverse_cons, <- app_assoc).
  case_decide.
  - rewrite insert_app_r_alt by (rewrite length_reverse; lia).
    replace (S (length l) - 1 - length (reverse l))%nat with 0%nat by (rewrite length_reverse; lia).
    cbn. rewrite <- Happ', link_asc_app by (rewrite length_reverse; cbn; lia). by rewrite IH.
  - rewrite !insert_app_r_alt by (rewrite ?length_app, ?length_reverse; cbn; lia).
    replace (S (length l) - 1 - length (reverse l))%nat with 0%nat by (rewrite length_reverse; lia).
    replace (S (length l) - length (reverse l))%nat with 1%nat by (rewrite length_reverse; lia).
    cbn. rewrite <- Happ', link_asc_app by (rewrite length_reverse; cbn; lia). by rewrite IH.
Qed.

Lemma updateNextPulse_eq p db :
  updateNextPulse p db = set_next (p_NextPulseNumber (updateNextPulse p db)) p.
Proof. unfold updateNextPulse. by case_match. Qed.

Lemma updateNextPulse_prev p db :
  p_PrevPulseNumber (updateNextPulse p db) = p_PrevPulseNumber p.
Proof. by rewrite updateNextPulse_eq. Qed.

Lemma updateNextPulse_number p db : p_PulseNumber (updateNextPulse p db) = p_PulseNumber p.
Proof. by rewrite updateNextPulse_eq. Qed.

Lemma updatePrevPulse_eq p db :
  updatePrevPulse p db = set_prev (p_PrevPulseNumber (updatePrevPulse p db)) p.
Proof. unfold updatePrevPulse. case_match; [by destruct p|done]. Qed.

Lemma relink_set_next n before p after db :
  relink before (set_next n p) after db = relink before p after db.
Proof.
  unfold relink, updatePrevPulse, updateNextPulse. cbn.
  by destruct (First Pulse (Where (cond "prev_pulse_number" _ _) _) db),
    (First Pulse (Where (cond "pulse_number" _ _) _) db).
Qed.

Lemma updates_commute p db :
  updatePrevPulse (updateNextPulse p db) db = updateNextPulse (updatePrevPulse p db) db.
Proof.
  unfold updatePrevPulse, updateNextPulse.
  destruct (First Pulse (Where (cond "prev_pulse_number" _ _) _) db) eqn:H1; cbn;
    destruct (First Pulse (Where (cond "pulse_number" _ _) _) db) eqn:H2; cbn; by rewrite ?H1.
Qed.

Lemma newest_first_set_next n a l db :
  newest_first (Some (set_next n a)) l db = newest_first (Some a) l db.
Proof. by destruct l. Qed.

Lemma length_links_down a l : length (links_down a l) = S (length l).
Proof. revert a. induction l as [|b l IH]; intros a; cbn; [done|]. by rewrite IH. Qed.

Lemma links_down_prev_end a l after db :
  update_at (length l) (λ p, updatePrevPulse p db) (links_down a l) =
  set_next (p_NextPulseNumber a) (relink (head l) a after db) :: newest_first (Some a) l db.
Proof.
  revert a after. induction l as [|b l IH]; intros a after; cbn.
  - f_equal. by rewrite updatePrevPulse_eq.
  - unfold update_at in IH. rewrite (IH _ (Some a)), newest_first_set_next.
    f_equal; [unfold relink; cbn; case_decide; by destruct a|]. f_equal.
    by rewrite relink_set_next.
Qed.

Lemma links_down_next_end a l db :
  update_at 0 (λ p, updateNextPulse p db) (links_down a l) =
  links_down (updateNextPulse a db) l.
Proof.
  rewrite (updateNextPulse_eq a). destruct l as [|b l]; cbn.
  - f_equal. apply updateNextPulse_eq.
  - case_decide; cbn; f_equal; unfold updateNextPulse; cbn; by case_match.
Qed.

Lemma links_down_ends a l db :
  update_at (length l) (λ p, updatePrevPulse p db)
    (update_at 0 (λ p, updateNextPulse p db) (links_down a l)) =
  newest_first None (a :: l) db.
Proof.
  rewrite links_down_next_end, (links_down_prev_end _ _ None).
  rewrite (updateNextPulse_eq a), newest_first_set_next, relink_set_next. done.
Qed.

Lemma alter_reverse (f : Pulse → Pulse) i l :
  (i < length l)%nat → alter f i (reverse l) = reverse (alter f (length l - 1 - i)%nat l).
Proof.
  intros Hi. apply list_eq. intros j. destruct (decide (j < length l)%nat).
  - rewrite reverse_lookup by (by rewrite length_alter). rewrite length_alter.
    destruct (decide (i = j)) as [->|Hij].
    + replace (length l - S j)%nat with (length l - 1 - j)%nat by lia.
      rewrite !list_lookup_alter_eq, reverse_lookup by done. do 2 f_equal. lia.
    + rewrite !list_lookup_alter_ne by lia. by rewrite reverse_lookup.
  - rewrite !lookup_ge_None_2; rewrite ?length_alter, ?length_reverse, ?length_alter; lia || done.
Qed.

Lemma set_real_links_newest l db :
  set_real_links false l db = newest_first None l db ∧
  set_real_links true (reverse l) db = reverse (newest_first None l db).
Proof.
  unfold set_real_links. rewrite length_reverse. destruct l as [|a l]; [done|].
  rewrite !(decide_True (P := (0 < length (a :: l))%nat)) by (cbn; lia).
  replace (length (a :: l) - 1)%nat with (length l) by (cbn; lia).
  rewrite link_desc_links, link_asc_reverse. split; [apply links_down_ends|].
  rewrite <- (links_down_ends a l). unfold update_at.
  rewrite alter_reverse by (rewrite length_links_down; lia).
  rewrite alter_reverse by (rewrite length_alter, length_links_down; lia).
  rewrite length_alter, length_links_down.
  replace (S (length l) - 1 - 0)%nat with (length l) by lia.
  replace (S (length l) - 1 - length l)%nat with 0%nat by lia.
  f_equal. destruct l as [|b l].
  - cbn. f_equal. symmetry. apply updates_commute.
  - by destruct (links_down a (b :: l)).
Qed.

(** C21: the two index loops of [GetPulses] compute the same thing, which is
    what they mean to compute: every pulse of the page gets the number of its
    neighbour where the two are linked and -1 where they are not, the ends of
    the page are looked up in the database, and the ascending page is the
    mirror image of the descending one. *)
Theorem set_real_links_spec l db :
  set_real_links false l db = newest_first None l db ∧
  set_real_links true (reverse l) db = reverse (newest_first None l db).
Proof. apply set_real_links_newest. Qed.
End pulse_queries.

Lemma elem_of_pulse_rows t p : p ∈ rows t ↔ stored_pulse t p.
Proof. apply elem_of_rows_map. Qed.

Section pulse_laws.
Context `{GormLaws DB}.
Implicit Types db : DB.

Lemma First_int `{Entity A} col (f : A → Z) n r db :
  column col = Some (λ r, VInt (f r)) →
  First A (Where (cond col CEq (VInt n)) new_query) db = Ok r →
  f r = n ∧ r ∈ rows (tables db).
Proof.
  intros Hc [Hsel _]%First_Ok. apply (selects_selected _ _ _ _
    (means_selects _ _ (means_cond col CEq (VInt n) _ _ means_new))) in Hsel as [Hp Hin].
  split; [|done]. cbn [sat_atom] in Hp. rewrite Hc, sat_cmp_int in Hp. cbn in Hp. lia.
Qed.

Lemma updateNextPulse_ok p db : shown_next_ok (tables db) (updateNextPulse p db).
Proof.
  unfold updateNextPulse, shown_next_ok. case_match eqn:Hf; [right|by left]. cbn.
  apply (First_int _ p_PrevPulseNumber) in Hf as [Hn Hin]; [|reflexivity].
  eexists. by rewrite elem_of_pulse_rows in Hin.
Qed.

Lemma updatePrevPulse_ok p db : shown_prev_ok (tables db) (updatePrevPulse p db).
Proof.
  unfold updatePrevPulse, shown_prev_ok. case_match eqn:Hf; [right|by left].
  apply (First_int _ p_PulseNumber) in Hf as [Hn Hin]; [|reflexivity].
  eexists. by rewrite elem_of_pulse_rows in Hin.
Qed.

Lemma newest_first_ok after l db :
  (∀ p, p ∈ l → stored_pulse (tables db) p) →
  (∀ a, after = Some a → stored_pulse (tables db) a) →
  ∀ p, p ∈ newest_first after l db → shown_prev_ok (tables db) p ∧ shown_next_ok (tables db) p.
Proof.
  revert after. induction l as [|q l IH]; intros after Hl Ha p; [by intros ?%not_elem_of_nil|].
  intros [->|Hp]%elem_of_cons; [|eapply (IH (Some q)); [set_solver|set_solver|exact Hp]].
  pose proof (updatePrevPulse_ok q db) as Hprev. pose proof (updateNextPulse_ok q db) as Hnext.
  unfold relink, shown_prev_ok, shown_next_ok in *. cbn. split.
  - destruct l as [|b l]; cbn; [exact Hprev|].
    case_decide; [right; exists b|by left]. split; [apply Hl; set_solver|done].
  - destruct after as [a|].
    + case_decide; [right; exists a|by left]. auto.
    + unfold updateNextPulse in *. by case_match.
Qed.

(** A page of pulses.  What [GetPulses] returns is the page of the pulses
    within the bounds, by pulse number in the direction asked for, with only
    the links rewritten ([set_real_links]); and every link shown is -1 or leads
    to a stored pulse -- the next link to one that names this pulse as its
    previous.  [total] counts the whole selection. *)
Theorem GetPulses_spec fromPulse tsLte tsGte pnLte pnLt pnGte pnGt asc limit offset ps total db :
  GetPulses fromPulse tsLte tsGte pnLte pnLt pnGte pnGt asc limit offset db = Ok (ps, total) →
  (∃ raw,
     is_page (by_number asc) (pulse_in_bounds tsLte tsGte pnLte pnLt pnGte pnGt fromPulse)
       (Some limit) (Some offset) (tables db) raw total ∧
     ps = set_real_links asc raw db) ∧
  ∀ p, p ∈ ps → shown_prev_ok (tables db) p ∧ shown_next_ok (tables db) p.
Proof.
  unfold GetPulses, getPulses. autorewrite with be.
  intros ([raw total'] & Hg%wrap_err_Ok & [= <- ->]). autorewrite with be in Hg.
  destruct Hg as (raw' & Hf & Hg). autorewrite with be in Hg.
  destruct Hg as (total' & Hc & [= -> ->]).
  assert (is_page (by_number asc)
    (pulse_in_bounds tsLte tsGte pnLte pnLt pnGte pnGt fromPulse)
    (Some limit) (Some offset) (tables db) raw total) as Hpage.
  { eapply Find_page in Hc; [|apply means_selects;
      unfold filterByTimestamp, filterByPulseNumber; query_means|exact Hf].
    eapply is_page_ext; [| |exact Hc].
    - intros r s. rewrite <- (pulse_order asc).
      by destruct tsLte, tsGte, pnLte, pnLt, pnGte, pnGt, fromPulse.
    - done. }
  split; [by exists raw|].
  assert (∀ p, p ∈ raw → stored_pulse (tables db) p) as Hraw.
  { destruct Hpage as (sorted & Hperm & _ & -> & _). intros p Hp.
    eapply elem_of_sublist in Hp; [|apply page_sublist].
    rewrite Hperm, list_elem_of_filter, elem_of_pulse_rows in Hp. tauto. }
  intros p Hp. destruct asc.
  - rewrite <- (reverse_involutive raw), (proj2 (set_real_links_newest (reverse raw) db)) in Hp.
    rewrite elem_of_reverse in Hp. eapply newest_first_ok; [..|exact Hp]; [|done].
    intros q. rewrite elem_of_reverse. apply Hraw.
  - rewrite (proj1 (set_real_links_newest raw db)) in Hp.
    by eapply newest_first_ok; [..|exact Hp].
Qed.

(** The single row of a query with [Order] and [Limit(1)]. *)
Lemma Find_limit_1 q (P : Pulse → bool) asc l db :
  means q P → q_order q = [] → q_offset q = None →
  Find Pulse (Limit 1 (Order "pulse_number" asc q)) db = Ok l →
  match l with
  | [] => ∀ p, stored_pulse (tables db) p → P p = false
  | p :: _ => stored_pulse (tables db) p ∧ P p = true ∧
              ∀ p', stored_pulse (tables db) p' → P p' = true → by_number asc p p'
  end.
Proof.
  intros Hq Hord Hoff Hf. destruct (means_selects _ _ Hq) as (P' & HP' & Heq).
  apply Find_Ok in Hf as (Q & sorted & HQ & Hperm & Hsort & ->).
  change (where_pred q = Some Q) in HQ. rewrite HP' in HQ. simplify_eq.
  cbn in Hsort. rewrite Hord in Hsort. cbn [q_limit q_offset Limit Order]. rewrite Hoff.
  unfold page. rewrite decide_True by lia. cbn [app] in Hsort.
  assert (∀ p, p ∈ sorted ↔ P p = true ∧ stored_pulse (tables db) p) as Hin.
  { intros p. rewrite Hperm, list_elem_of_filter, Heq, <- elem_of_pulse_rows. done. }
  destruct sorted as [|p sorted]; cbn [take Z.to_nat Pos.to_nat Pos.iter_op Nat.add].
  - intros p Hp. destruct (P p) eqn:HPp; [|done].
    by destruct (not_elem_of_nil p (proj2 (Hin p) (conj HPp Hp))).
  - assert (p ∈ p :: sorted) as [HPp Hst]%Hin by left. split_and!; [done..|].
    intros p' Hp' HP. assert (p' ∈ p :: sorted) as [->|Hin']%elem_of_cons by by apply Hin.
    + destruct asc; cbn; lia.
    + inversion_clear Hsort as [|? ? _ Hall]. rewrite Forall_forall in Hall.
      rewrite <- pulse_order. by apply Hall.
Qed.

Lemma GetNextSavedPulse_least from completedOnly p db :
  GetNextSavedPulse from completedOnly db = Ok p →
  let ok q := (p_PulseNumber from <? p_PulseNumber q) && implb completedOnly (p_IsComplete q) in
  (p = emptyPulse ∧ ∀ q, stored_pulse (tables db) q → ok q = false) ∨
  (stored_pulse (tables db) p ∧ ok p = true ∧
   ∀ q, stored_pulse (tables db) q → ok q = true → p_PulseNumber p ≤ p_PulseNumber q).
Proof.
  intros Hg ok. unfold GetNextSavedPulse in Hg. autorewrite with be in Hg.
  destruct Hg as (l & Hf & Hl).
  assert (∃ q, means q ok ∧ q_order q = [] ∧ q_offset q = None ∧
    Find Pulse (Limit 1 (Order "pulse_number" true q)) db = Ok l)
    as (q & Hq & Ho & Hoff & Hf').
  { destruct completedOnly; (eexists; split; [|split; [|split; [|exact Hf]]]; [|done|done]);
      (eapply means_ext; [intros r|query_means]); sat_simpl; unfold ok; cbn [sat_cmp implb];
      rewrite Z.gtb_ltb; [by rewrite bool_decide_val_bool, eqb_true|by rewrite andb_true_r]. }
  apply (Find_limit_1 _ ok) in Hf'; [|done|done|done].
  destruct l; simplify_eq; [by left|right]. tauto.
Qed.

(** [GetNextSavedPulse] returns the least stored pulse (complete one, when
    only those are wanted) above the given number, and the zero pulse exactly
    when there is none. *)
Theorem GetNextSavedPulse_spec from completedOnly p db :
  GetNextSavedPulse from completedOnly db = Ok p →
  let ok q := (p_PulseNumber from <? p_PulseNumber q) && implb completedOnly (p_IsComplete q) in
  (p = emptyPulse ∧ ∀ q, stored_pulse (tables db) q → ok q = false) ∨
  (stored_pulse (tables db) p ∧ ok p = true ∧
   ∀ q, stored_pulse (tables db) q → ok q = true → p_PulseNumber p ≤ p_PulseNumber q).
Proof. apply GetNextSavedPulse_least. Qed.

Lemma GetSequentialPulse_greatest p db :
  GetSequentialPulse db = Ok p →
  (p = emptyPulse ∧ ∀ q, stored_pulse (tables db) q → p_IsSequential q = false) ∨
  (stored_pulse (tables db) p ∧ p_IsSequential p = true ∧
   ∀ q, stored_pulse (tables db) q → p_IsSequential q = true →
        p_PulseNumber q ≤ p_PulseNumber p).
Proof.
  unfold GetSequentialPulse. autorewrite with be. intros (l & Hf & Hl).
  apply (Find_limit_1 _ p_IsSequential) in Hf; [|eapply means_ext; [|query_means]|done|done].
  - destruct l; simplify_eq; [by left|right]. tauto.
  - intros r. sat_simpl. cbn [sat_cmp andb]. by rewrite bool_decide_val_bool, eqb_true.
Qed.

(** [GetSequentialPulse] returns the greatest pulse marked sequential, and
    the zero pulse exactly when there is none. *)
Theorem GetSequentialPulse_spec p db :
  GetSequentialPulse db = Ok p →
  (p = emptyPulse ∧ ∀ q, stored_pulse (tables db) q → p_IsSequential q = false) ∨
  (stored_pulse (tables db) p ∧ p_IsSequential p = true ∧
   ∀ q, stored_pulse (tables db) q → p_IsSequential q = true →
        p_PulseNumber q ≤ p_PulseNumber p).
Proof. apply GetSequentialPulse_greatest. Qed.
End pulse_laws.

(** ** Jet drops *)

Lemma elem_of_drop_rows t j : j ∈ rows t ↔ stored_drop t j.
Proof. apply elem_of_rows_map. Qed.

(** The jets of one branch: one is an ancestor of the other, or they are equal. *)
Definition same_branch (a b : string) : bool := String.prefix a b || String.prefix b a.

Definition in_branch jetID pnLte pnLt pnGte pnGt (j : JetDrop) : bool :=
  same_branch (jd_JetID j) jetID &&
  opt_test Z.leb pnLte (jd_PulseNumber j) && opt_test Z.ltb pnLt (jd_PulseNumber j) &&
  opt_test Z.geb pnGte (jd_PulseNumber j) && opt_test Z.gtb pnGt (jd_PulseNumber j).

(** By pulse in the direction asked for; within a pulse the jets in the opposite
    direction. *)
Definition branch_order (asc : bool) (i j : JetDrop) : Prop :=
  let before p q := (jd_PulseNumber p <? jd_PulseNumber q) = true ∨
    (jd_PulseNumber p = jd_PulseNumber q ∧ String.leb (jd_JetID q) (jd_JetID p) = true) in
  if asc then before i j else before j i.

Lemma like_any s : like "%" s = true.
Proof.
  induction s as [|a s IH]; [done|].
  change (like "%" (String a s)) with (like "" (String a s) || like "%" s). by rewrite IH, orb_true_r.
Qed.

(** The pattern of the branch query matches the jets below a jet: its bits are
    neither wildcards nor quotes. *)
Lemma like_prefix p s :
  all_chars is_bit p = true → like (p +:+ "%") s = String.prefix p s.
Proof.
  revert s. induction p as [|c p IH]; intros s; [intros _; rewrite str_app_nil_l, like_any; by destruct s|].
  cbn [all_chars]. rewrite andb_true_iff. intros [Hc%is_bit_cases Hp]. rewrite str_app_cons.
  destruct s as [|a s]; [by destruct Hc as [-> | ->]|].
  transitivity (bool_decide (a = c) && like (p +:+ "%") s); [by destruct Hc as [-> | ->]|].
  rewrite IH by done. cbn [String.prefix]. destruct (ascii_dec c a) as [->|Hne].
  - by rewrite bool_decide_eq_true_2.
  - by rewrite bool_decide_eq_false_2 by congruence.
Qed.

Lemma in_parents_spec s jetID :
  bool_decide (VStr s ∈ VStr <$> GetJetIDParents jetID) = String.prefix s jetID.
Proof.
  destruct (String.prefix s jetID) eqn:Hp.
  - apply bool_decide_eq_true, list_elem_of_fmap. exists s. split; [done|].
    by apply elem_of_GetJetIDParents.
  - apply bool_decide_eq_false. intros (s' & [= <-] & Hin)%list_elem_of_fmap.
    apply elem_of_GetJetIDParents in Hin. congruence.
Qed.

Lemma lex_iff (a b : Z) (P : Prop) : a ≤ b ∧ (a < b ∨ P) ↔ a < b ∨ (a = b ∧ P).
Proof.
  split.
  - intros [Hle [Hlt|HP]]; [by left|]. destruct (decide (a = b)); [by right|left; lia].
  - intros [Hlt|[-> HP]]; (split; [lia|by auto]).
Qed.

Lemma drop_order (asc : bool) (i j : JetDrop) :
  row_le (if asc then [("pulse_number", true); ("jet_id", false)]
          else [("pulse_number", false); ("jet_id", true)]) i j ↔ branch_order asc i j.
Proof.
  unfold row_le, branch_order.
  destruct asc; cbn [row_leb]; autorewrite with columns; cbn [val_leb flip];
    rewrite orb_true_r, andb_true_r, andb_true_iff, orb_true_iff, negb_true_iff, Z.leb_gt,
      Z.leb_le, Z.ltb_lt; apply lex_iff.
Qed.

(** The drops of one pulse, by jet, from a jet on. *)
Definition in_pulse (n : Z) (from : option JetDropID) (j : JetDrop) : bool :=
  (jd_PulseNumber j =? n) &&
  match from with Some id => String.leb (jdi_JetID id) (jd_JetID j) | None => true end.

Definition by_jet (i j : JetDrop) : Prop := String.leb (jd_JetID i) (jd_JetID j) = true.

Lemma jet_order (i j : JetDrop) : row_le [("jet_id", true)] i j ↔ by_jet i j.
Proof.
  unfold row_le, by_jet. cbn [row_leb]. autorewrite with columns. cbn [val_leb].
  by rewrite orb_true_r, andb_true_r.
Qed.

Section drop_laws.
Context `{GormLaws DB}.
Implicit Types db : DB.

(** The drops of a pulse.  [GetJetDropsWithParams] returns the page of the stored
    drops of this pulse, by jet, from the jet of the given drop on. *)
Theorem GetJetDropsWithParams_spec pulse from limit offset js total db :
  GetJetDropsWithParams pulse from limit offset db = Ok (js, total) →
  is_page by_jet (in_pulse (p_PulseNumber pulse) from) (Some limit) (Some offset) (tables db) js total.
Proof.
  intros Hg. unfold GetJetDropsWithParams in Hg. autorewrite with be in Hg.
  destruct Hg as (js' & Hf & Hg). autorewrite with be in Hg.
  destruct Hg as (total' & Hc & [= -> ->]).
  eapply Find_page in Hc; [| |exact Hf].
  - eapply is_page_ext; [| |exact Hc]; [|done].
    intros i j. rewrite <- jet_order. by destruct from.
  - apply means_selects. clear Hf Hc. unfold in_pulse.
    destruct from as [id|]; (eapply means_ext; [|query_means]); intros j; sat_simpl;
      cbn [sat_cmp andb val_leb]; rewrite ?andb_true_r; done.
Qed.

(** C20: the drops of a branch.  [GetJetDropsByJetID] returns the stored drops
    whose jet is an ancestor or a descendant of the given one, or that jet
    itself, within the pulse bounds: ordered by pulse, and by jet in the
    opposite direction within a pulse, at most [limit] of them; [total] counts
    them all. *)
Theorem GetJetDropsByJetID_spec jetID pnLte pnLt pnGte pnGt limit asc js total db :
  all_chars is_bit jetID = true →
  GetJetDropsByJetID jetID pnLte pnLt pnGte pnGt limit asc db = Ok (js, total) →
  is_page (branch_order asc) (in_branch jetID pnLte pnLt pnGte pnGt) (Some limit) None
    (tables db) js total.
Proof.
  intros Hbits Hg. unfold GetJetDropsByJetID in Hg. autorewrite with be in Hg.
  destruct Hg as (js' & Hf & Hg). autorewrite with be in Hg.
  destruct Hg as (total' & Hc & [= -> ->]).
  eapply Find_page_limit in Hc; [| | |exact Hf].
  - eapply is_page_ext; [| |exact Hc].
    + intros i j. rewrite <- (drop_order asc). by destruct asc, pnLte, pnLt, pnGte, pnGt.
    + done.
  - apply means_selects. clear Hf Hc.
    match goal with |- means (if asc then Order _ _ (Order _ _ ?q) else _) _ =>
      assert (means q (in_branch jetID pnLte pnLt pnGte pnGt)) as Hq
    end; [|by destruct asc].
    unfold filterByPulseNumber. eapply means_ext; [|query_means]. intros j. sat_simpl.
    cbn [andb]. by rewrite in_parents_spec, like_prefix.
  - by destruct asc, pnLte, pnLt, pnGte, pnGt.
Qed.

Lemma siblings_query_spec n j js db :
  all_chars is_bit (jd_JetID j) = true →
  Find JetDrop (siblings_query n (Siblings j)) db = Ok js →
  ∀ d, d ∈ js ↔
    stored_drop (tables db) d ∧ jd_PulseNumber d = n ∧ jet_neighbours (jd_JetID j) (jd_JetID d).
Proof.
  intros Hb Hf d.
  assert (means (siblings_query n (Siblings j)) (λ d, bool_decide (jd_PulseNumber d = n) &&
    bool_decide (jd_JetID d ∈ Siblings j))) as Hq.
  { unfold siblings_query. eapply means_ext; [|query_means]. intros r. sat_simpl.
    rewrite eqb_decide. cbn [andb]. f_equal. apply bool_decide_ext.
    rewrite list_elem_of_fmap. naive_solver. }
  eapply Find_selects in Hf; [|by apply means_selects|done|done].
  rewrite Hf, list_elem_of_filter, elem_of_drop_rows, andb_true_iff, !bool_decide_eq_true.
  rewrite elem_of_Siblings by done. tauto.
Qed.

(** A jet drop with its neighbours.  The drop is the stored one with the
    given identifier; the previous drops are exactly the stored drops of its
    pulse's previous pulse in the same, the parent or a child jet; the next
    drops likewise in a stored pulse that names this one as its previous, and
    none when no such pulse was found. *)
Theorem GetJetDropByID_spec id j prev next db :
  all_chars is_bit (jdi_JetID id) = true →
  GetJetDropByID id db = Ok (j, prev, next) →
  stored_drop (tables db) j ∧ jd_PulseNumber j = jdi_PulseNumber id ∧
  jd_JetID j = jdi_JetID id ∧
  ∃ p, stored_pulse (tables db) p ∧ p_PulseNumber p = jdi_PulseNumber id ∧
    (∀ d, d ∈ prev ↔ stored_drop (tables db) d ∧ jd_PulseNumber d = p_PrevPulseNumber p ∧
                     jet_neighbours (jd_JetID j) (jd_JetID d)) ∧
    (next = [] ∨
     ∃ q, stored_pulse (tables db) q ∧ p_PrevPulseNumber q = jdi_PulseNumber id ∧
       ∀ d, d ∈ next ↔ stored_drop (tables db) d ∧ jd_PulseNumber d = p_PulseNumber q ∧
                       jet_neighbours (jd_JetID j) (jd_JetID d)).
Proof.
  intros Hbits Hg. unfold GetJetDropByID in Hg. autorewrite with be in Hg.
  destruct Hg as (j' & Hj & Hg). autorewrite with be in Hg.
  destruct Hg as (p & Hp & Hg). autorewrite with be in Hg.
  destruct Hg as (next' & Hnext & Hg). autorewrite with be in Hg.
  destruct Hg as (prev' & Hprev & [= -> -> ->]).
  assert (selected (Where [TAtom (ACmp "pulse_number" CEq (VInt (jdi_PulseNumber id))); TAnd;
    TAtom (ACmp "jet_id" CEq (VStr (jdi_JetID id)))] new_query) (tables db) j) as Hsel
    by by eapply FindOne_Ok.
  eapply selects_selected in Hsel; [|apply means_selects; query_means].
  destruct Hsel as [Hsel Hstored]. revert Hsel. sat_simpl. cbn [sat_cmp andb].
  rewrite bool_decide_val_str, eqb_decide, andb_true_iff, !bool_decide_eq_true.
  intros [Hjn Hjj]. rewrite elem_of_drop_rows in Hstored. split_and!; [done..|].
  apply (First_int _ p_PulseNumber) in Hp as [Hpn Hp]; [|reflexivity].
  rewrite elem_of_pulse_rows in Hp. exists p. split_and!; [done..| |].
  - intros d. rewrite updateNextPulse_prev in Hprev.
    apply siblings_query_spec; [by rewrite Hjj|done].
  - case_decide as Hn; [|left; by simplify_eq].
    pose proof (updateNextPulse_ok p db) as [?|(q & Hq & Hqn & Hqp)]; [done|].
    right. exists q. rewrite updateNextPulse_number, Hpn in Hqp. split_and!; [done..|].
    rewrite Hqn. apply siblings_query_spec; [by rewrite Hjj|done].
Qed.
End drop_laws.

(** ** The theorems at work on a concrete database *)

Definition ex_rec (n : Byte.byte) (typ jet : string) (pn order : Z) : MRecord :=
  mkMRecord [n] typ [Byte.x42] [] [] [] [] [] jet pn order (pn * 10).
Definition ex_pulses : list Pulse :=
  [mkPulse 10 5 15 true true 100 1 1; mkPulse 20 10 25 true false 200 2 2;
   mkPulse 30 25 35 false false 300 0 0].
Definition ex_drops : list JetDrop :=
  [mkJetDrop 10 "01" [] [] [] [] 100 1; mkJetDrop 20 "010" [] [] [] [] 200 1;
   mkJetDrop 20 "011" [] [] [] [] 200 1; mkJetDrop 20 "00" [] [] [] [] 200 0].
Definition ex_recs : list MRecord :=
  [ex_rec Byte.x01 "state" "01" 10 0; ex_rec Byte.x02 "state" "010" 20 1;
   ex_rec Byte.x03 "state" "010" 20 0; ex_rec Byte.x04 "request" "011" 20 0].
Definition ex_tables : Tables :=
  mkTables (list_to_map ((λ p, (p_PulseNumber p, p)) <$> ex_pulses))
    (list_to_map ((λ j, (jd_key j, j)) <$> ex_drops))
    (list_to_map ((λ r, (r_Reference r, r)) <$> ex_recs)).

Lemma GetLifeline_spec_witness :
  GetLifeline [Byte.x42] (Some "20:0") None None None None 10 0 true (up ex_tables) =
    Ok ([ex_rec Byte.x03 "state" "010" 20 0; ex_rec Byte.x02 "state" "010" 20 1], 2) ∧
  is_page (reading_order true)
    (in_lifeline [Byte.x42] (Some "20:0") None None None None true) (Some 10) (Some 0) ex_tables
    [ex_rec Byte.x03 "state" "010" 20 0; ex_rec Byte.x02 "state" "010" 20 1] 2.
Proof.
  assert (GetLifeline [Byte.x42] (Some "20:0") None None None None 10 0 true (up ex_tables) =
    Ok ([ex_rec Byte.x03 "state" "010" 20 0; ex_rec Byte.x02 "state" "010" 20 1], 2)) as Hg
    by (vm_compute; reflexivity).
  split; [exact Hg|].
  exact (proj2 (GetLifeline_spec [Byte.x42] (Some "20:0") None None None None 10 0 true
    (up ex_tables)) _ _ Hg).
Defined.

Lemma GetRecordsByJetDrop_spec_witness :
  let id := mkJetDropID "010" 20 in
  GetRecordsByJetDrop id None (Some "state") 1 0 (up ex_tables) =
    Ok ([ex_rec Byte.x03 "state" "010" 20 0], 2) ∧
  is_page (reading_order true) (in_jet_drop id None (Some "state")) (Some 1) (Some 0) ex_tables
    [ex_rec Byte.x03 "state" "010" 20 0] 2.
Proof.
  intros id. assert (GetRecordsByJetDrop id None (Some "state") 1 0 (up ex_tables) =
    Ok ([ex_rec Byte.x03 "state" "010" 20 0], 2)) as Hg by (vm_compute; reflexivity).
  split; [exact Hg|].
  exact (proj2 (GetRecordsByJetDrop_spec id None (Some "state") 1 0 (up ex_tables)) _ _ Hg).
Defined.

(** The page of two: the link 20 -> 25 of the database leads nowhere and is shown
    as -1, the link 20 -> 10 is kept. *)
Lemma GetPulses_spec_witness :
  let ps := [mkPulse 10 (-1) 20 true true 100 1 1; mkPulse 20 10 (-1) true false 200 2 2] in
  GetPulses None None None (Some 20) None None None true 5 0 (up ex_tables) = Ok (ps, 2) ∧
  ∀ p, p ∈ ps → shown_prev_ok ex_tables p ∧ shown_next_ok ex_tables p.
Proof.
  intros ps.
  assert (GetPulses None None None (Some 20) None None None true 5 0 (up ex_tables) = Ok (ps, 2))
    as Hg by (vm_compute; reflexivity).
  split; [exact Hg|].
  exact (proj2 (GetPulses_spec None None None (Some 20) None None None true 5 0 ps 2
    (up ex_tables) Hg)).
Defined.

Lemma GetNextSavedPulse_spec_witness :
  GetNextSavedPulse (pulse_of_number 10) true (up ex_tables)
    = Ok (mkPulse 20 10 25 true false 200 2 2) ∧
  (mkPulse 20 10 25 true false 200 2 2 = emptyPulse ∨
   ∀ q, stored_pulse ex_tables q → (10 <? p_PulseNumber q) && p_IsComplete q = true →
        20 ≤ p_PulseNumber q).
Proof.
  assert (GetNextSavedPulse (pulse_of_number 10) true (up ex_tables)
    = Ok (mkPulse 20 10 25 true false 200 2 2)) as Hg by (vm_compute; reflexivity).
  split; [exact Hg|].
  destruct (GetNextSavedPulse_spec (pulse_of_number 10) true _ (up ex_tables) Hg)
    as [[Hp _]|(_ & _ & Hmin)]; [left; exact Hp|right; exact Hmin].
Defined.

Lemma GetSequentialPulse_spec_witness :
  GetSequentialPulse (up ex_tables) = Ok (mkPulse 10 5 15 true true 100 1 1) ∧
  (mkPulse 10 5 15 true true 100 1 1 = emptyPulse ∨
   ∀ q, stored_pulse ex_tables q → p_IsSequential q = true → p_PulseNumber q ≤ 10).
Proof.
  assert (GetSequentialPulse (up ex_tables) = Ok (mkPulse 10 5 15 true true 100 1 1)) as Hg
    by (vm_compute; reflexivity).
  split; [exact Hg|].
  destruct (GetSequentialPulse_spec _ (up ex_tables) Hg)
    as [[Hp _]|(_ & _ & Hmax)]; [left; exact Hp|right; exact Hmax].
Defined.

Lemma GetJetDropsByJetID_spec_witness :
  let js := [mkJetDrop 10 "01" [] [] [] [] 100 1; mkJetDrop 20 "010" [] [] [] [] 200 1] in
  GetJetDropsByJetID "010" None None None None 5 true (up ex_tables) = Ok (js, 2) ∧
  is_page (branch_order true) (in_branch "010" None None None None) (Some 5) None ex_tables js 2.
Proof.
  intros js.
  assert (GetJetDropsByJetID "010" None None None None 5 true (up ex_tables) = Ok (js, 2)) as Hg
    by (vm_compute; reflexivity).
  split; [exact Hg|].
  exact (GetJetDropsByJetID_spec "010" None None None None 5 true js 2 (up ex_tables)
    eq_refl Hg).
Defined.

Lemma GetJetDropByID_spec_witness :
  let j := mkJetDrop 20 "010" [] [] [] [] 200 1 in
  GetJetDropByID (mkJetDropID "010" 20) (up ex_tables)
    = Ok (j, [mkJetDrop 10 "01" [] [] [] [] 100 1], []) ∧
  jd_PulseNumber j = 20 ∧ stored_drop ex_tables j.
Proof.
  intros j. assert (GetJetDropByID (mkJetDropID "010" 20) (up ex_tables)
    = Ok (j, [mkJetDrop 10 "01" [] [] [] [] 100 1], [])) as Hg by (vm_compute; reflexivity).
  split; [exact Hg|].
  destruct (GetJetDropByID_spec (mkJetDropID "010" 20) j _ _ (up ex_tables) eq_refl Hg)
    as (Hs & Hn & _). split; [exact Hn|exact Hs].
Defined.
