(* ===== verification/StorageInstance.v ===== *)
(** * [Storage.v] implements the storage interfaces

    The methods of [Storage] as instances of the classes of [Interfaces.v], and
    their laws over any database that behaves as documented: a refinement of the
    abstract contract by the SQL of the storage layer. *)

From S2P Require Import Prelude GoStd Platform Types Models Gorm RefDb Interfaces Storage StorageWrite StorageRead.

Section instances.
Context `{Gorm DB}.

#[export] Instance Storage_setter : StorageSetter DB := {|
  st_SaveJetDropData := SaveJetDropData;
  st_SavePulse := SavePulse;
  st_CompletePulse := CompletePulse;
  st_SequencePulse := SequencePulse;
|}.

#[export] Instance Storage_fetcher : StorageFetcher DB := {|
  st_GetIncompletePulses := GetIncompletePulses;
  st_GetSequentialPulse := GetSequentialPulse;
  st_GetPulseByPrev := GetPulseByPrev;
  st_GetNextSavedPulse := GetNextSavedPulse;
  st_GetJetDrops := GetJetDrops;
|}.

#[export] Instance Storage_exporter_fetcher : StorageExporterFetcher DB := {|
  st_GetNextCompletePulseFilterByPrototypeReference :=
    GetNextCompletePulseFilterByPrototypeReference;
|}.

#[export] Instance Storage_api_fetcher : StorageAPIFetcher DB := {|
  api_GetRecord := GetRecord;
  api_GetPulse := GetPulse;
  api_GetPulses := GetPulses;
  api_GetJetDropsWithParams := GetJetDropsWithParams;
  api_GetJetDropByID := GetJetDropByID;
  api_GetJetDropsByJetID := GetJetDropsByJetID;
  api_GetLifeline := GetLifeline;
  api_GetRecordsByJetDrop := GetRecordsByJetDrop;
  api_GetNextSavedPulse := GetNextSavedPulse;
  api_GetJetDrops := GetJetDrops;
|}.

Context `{!GormLaws DB}.

Lemma GetPulseByPrev_query prev :
  means (Where (cond "prev_pulse_number" CEq (VInt (p_PulseNumber prev))) new_query)
    (λ p : Pulse, p_PrevPulseNumber p =? p_PulseNumber prev).
Proof. eapply means_ext; [|query_means]. intros p. sat_simpl. done. Qed.

#[export] Program Instance Storage_laws : StorageLaws DB := {| st_tables := tables |}.
Next Obligation. intros n db db' Hn. by apply flags_tables. Qed.
Next Obligation. intros n db db' Hn. by apply flags_tables. Qed.
Next Obligation. intros pulse db db'. apply SavePulse_tables. Qed.
Next Obligation.
  intros j rs n db db' Hn [Ht _]%SaveJetDropData_tables; [|done].
  destruct (is_ok _); [by do 2 eexists|]. exists 0, 0. rewrite Ht. f_equal.
  symmetry. rewrite <- (map_fmap_id (t_pulses (tables db))) at 2. apply map_eq. intros k.
  rewrite lookup_fmap. destruct (decide (n = k)) as [<-|Hk].
  - rewrite lookup_alter_eq. destruct (_ !! n) as [p|]; cbn; [|done]. f_equal.
    unfold add_amounts. rewrite !Z.add_0_r. by destruct p.
  - rewrite lookup_alter_ne by done. by destruct (_ !! k).
Qed.
Next Obligation.
  intros db l Hf p. eapply Find_selects in Hf; [|apply means_selects; query_means|done|done].
  rewrite Hf, list_elem_of_filter, elem_of_pulse_rows. sat_simpl. cbn [sat_cmp andb].
  rewrite bool_decide_val_bool. destruct (p_IsComplete p); cbn; naive_solver.
Qed.
Next Obligation.
  intros pulse db l Hf j. eapply Find_selects in Hf; [|apply means_selects; query_means|done|done].
  rewrite Hf, list_elem_of_filter, elem_of_drop_rows. sat_simpl. cbn [andb].
  rewrite Z.eqb_eq. tauto.
Qed.
Next Obligation.
  intros prev db p Hf. apply (First_int _ p_PrevPulseNumber) in Hf as [Hn Hp]; [|reflexivity].
  by rewrite elem_of_pulse_rows in Hp.
Qed.
Next Obligation.
  intros prev db Hf p Hp Hn. apply (First_not_found Pulse _ _ Hf p).
  eapply selects_selected; [apply means_selects, GetPulseByPrev_query|].
  rewrite elem_of_pulse_rows, Z.eqb_eq. done.
Qed.
Next Obligation. intros db p. apply GetSequentialPulse_greatest. Qed.
Next Obligation. intros from completedOnly db p. apply GetNextSavedPulse_least. Qed.
End instances.
