(* ===== verification/MissedData.v ===== *)
(** * The pool of reloaded ranges: [src/etl/controller/misseddata.go]

    [MissedDataManager] remembers which ranges of pulses were reloaded, so that a
    range is not requested again before its entry expires.  The mutex makes [Add]
    and [deleteExpired] atomic; times are nanoseconds, and the clock is read where
    the code reads it. *)

From S2P Require Import Prelude.

(** ** Definitions *)

Record missedData := mkMissedData { md_ts : Z; md_fromPulse : Z; md_toPulse : Z }.

#[export] Instance missedData_eq_dec : EqDecision missedData.
Proof. solve_decision. Defined.

(** The zero value [missedData{}]; the zero [time.Time] lies before every time
    that occurs. *)
Definition missedData_zero : missedData := mkMissedData (- 2 ^ 63) 0 0.

Record MissedDataManager := mkMissedDataManager {
  mdm_missedDataPool : list missedData;
  mdm_ttl : Z;
  mdm_cleanPeriod : Z;
}.

Definition NewMissedDataManager (ttl cleanPeriod : Z) : MissedDataManager :=
  mkMissedDataManager [] ttl cleanPeriod.

Definition set_pool (pool : list missedData) (mdm : MissedDataManager) : MissedDataManager :=
  mkMissedDataManager pool (mdm_ttl mdm) (mdm_cleanPeriod mdm).

(** The condition of [Add]'s loop. *)
Definition covers (fromPulse toPulse : Z) (missed : missedData) : bool :=
  (md_fromPulse missed <=? fromPulse) && (md_toPulse missed >=? toPulse).

(** [Add]: [true] when the range is new, and then it is in the pool. *)
Definition Add (now fromPulse toPulse : Z) (mdm : MissedDataManager) : bool * MissedDataManager :=
  if existsb (covers fromPulse toPulse) (mdm_missedDataPool mdm) then (false, mdm)
  else (true, set_pool (mdm_missedDataPool mdm ++ [mkMissedData now fromPulse toPulse]) mdm).

(** [time.Since(ts) > ttl]. *)
Definition isExpired (now : Z) (mdm : MissedDataManager) (ts : Z) : bool := now - ts >? mdm_ttl mdm.

(** One turn of the loop of [deleteExpired].  The loop ranges over the slice as it
    was at the start, so it reads the backing array [arr], which the turns
    before have changed; [len] is the length of the pool now. *)
Definition delete_at (now : Z) (mdm : MissedDataManager) (i : nat)
  (st : list missedData * nat) : list missedData * nat :=
  let '(arr, len) := st in
  match arr !! i, arr !! (len - 1)%nat with
  | Some missed, Some last =>
      if (i <? len)%nat && isExpired now mdm (md_ts missed)
      then (<[(len - 1)%nat := missedData_zero]> (<[i := last]> arr), (len - 1)%nat)
      else (arr, len)
  | _, _ => (arr, len)
  end.

(** The loop, from index [i] on, [n] turns; [now] gives the time of each turn. *)
Fixpoint delete_loop (n : nat) (now : nat → Z) (mdm : MissedDataManager) (i : nat)
  (st : list missedData * nat) : list missedData * nat :=
  match n with
  | O => st
  | S n => delete_loop n now mdm (S i) (delete_at (now i) mdm i st)
  end.

Definition deleteExpired (now : nat → Z) (mdm : MissedDataManager) : MissedDataManager :=
  let pool := mdm_missedDataPool mdm in
  let '(arr, len) := delete_loop (length pool) now mdm 0 (pool, length pool) in
  set_pool (take len arr) mdm.

(** ** Lemmas: one turn on the live part of the array *)

Definition live (st : list missedData * nat) : list missedData := take st.2 st.1.

(** Swapping the last element into place [i] and dropping the last place. *)
Lemma swap_remove (l : list missedData) i x :
  l !! i = Some x → ∀ y, last l = Some y → l ≡ₚ x :: take (length l - 1) (<[i := y]> l).
Proof.
  intros Hi y. destruct l as [|z l _] using rev_ind; [done|].
  rewrite last_snoc. intros [= ->]. rewrite length_app. cbn.
  replace (length l + 1 - 1)%nat with (length l) by lia.
  destruct (decide (i < length l)%nat) as [Hlt|Hge].
  - rewrite lookup_app_l in Hi by done. rewrite insert_app_l by done.
    rewrite take_app_length' by by rewrite length_insert.
    rewrite <- (take_drop_middle l i x Hi) at 1.
    rewrite insert_take_drop by done. solve_Permutation.
  - pose proof (lookup_lt_Some _ _ _ Hi) as Hlen. rewrite length_app in Hlen. cbn in Hlen.
    assert (i = length l) as -> by lia. rewrite list_lookup_middle in Hi by done. simplify_eq.
    rewrite insert_app_r_alt by lia. replace (length l - length l)%nat with 0%nat by lia. cbn.
    rewrite take_app_length. apply Permutation_app_comm.
Qed.

(** A turn leaves the pool alone, or removes one expired entry. *)
Lemma delete_at_live now mdm i st :
  (st.2 ≤ length st.1)%nat →
  let st' := delete_at now mdm i st in
  (st' = st ∧ ∀ x, live st !! i = Some x → isExpired now mdm (md_ts x) = false) ∨
  (length st'.1 = length st.1 ∧ S st'.2 = st.2 ∧
   ∃ x, live st ≡ₚ x :: live st' ∧ isExpired now mdm (md_ts x) = true).
Proof.
  destruct st as [arr len]. unfold live, delete_at. cbn [fst snd]. intros Hlen.
  destruct (arr !! i) as [x|] eqn:Hi; [|left; split; [done|];
    intros y Hy; apply lookup_take_Some in Hy; naive_solver].
  destruct (arr !! (len - 1)%nat) as [y|] eqn:Hy.
  2:{ left. split; [done|]. intros z Hz. pose proof (lookup_lt_Some _ _ _ Hi).
      apply lookup_ge_None in Hy. lia. }
  destruct ((i <? len)%nat && isExpired now mdm (md_ts x)) eqn:Hc.
  - apply andb_true_iff in Hc as [Hil%Nat.ltb_lt Hexp]. right. cbn.
    rewrite !length_insert. split_and!; [done|lia|]. exists x. split; [|done].
    rewrite (swap_remove (take len arr) i x) with (y := y).
    + rewrite length_take, Nat.min_l by lia. rewrite <- take_insert_lt by lia.
      rewrite take_take, Nat.min_l by lia. by rewrite (take_insert_ge (<[i:=y]> arr)) by lia.
    + rewrite lookup_take_lt; done.
    + rewrite last_lookup, length_take, Nat.min_l by lia.
      rewrite lookup_take_lt by lia. by replace (Nat.pred len) with (len - 1)%nat by lia.
  - left. split; [done|]. intros z (Hz & Hil)%lookup_take_Some. simplify_eq.
    apply andb_false_iff in Hc as [Hc%Nat.ltb_ge|]; [lia|done].
Qed.

Lemma delete_loop_live n now mdm i st :
  (st.2 ≤ length st.1)%nat →
  let st' := delete_loop n now mdm i st in
  (st'.2 ≤ length st'.1)%nat ∧
  ∃ removed, live st ≡ₚ live st' ++ removed ∧
    (∀ x, x ∈ removed → ∃ k, (i ≤ k < i + n)%nat ∧ isExpired (now k) mdm (md_ts x) = true) ∧
    (removed = [] → st' = st ∧ ∀ k x, (i ≤ k < i + n)%nat → live st !! k = Some x →
       isExpired (now k) mdm (md_ts x) = false).
Proof.
  revert i st. induction n as [|n IH]; intros i st Hlen; cbn [delete_loop].
  - split; [done|]. exists []. rewrite app_nil_r. split_and!; [done|set_solver|].
    intros _. split; [done|]. lia.
  - pose proof (delete_at_live (now i) mdm i st Hlen) as Hat. cbv zeta in Hat.
    destruct (IH (S i) (delete_at (now i) mdm i st)) as (Hlen' & removed & Hperm & Hexp & Hnil).
    { destruct Hat as [[-> _]|(-> & ? & _)]; [done|lia]. }
    split; [done|]. destruct Hat as [[Hst Hlive]|(_ & Hdec & x & Hx & Hxexp)].
    + exists removed. rewrite Hst in *. split_and!; [done| |].
      * intros x (k & Hk & He)%Hexp. exists k. split; [lia|done].
      * intros (Heq & Hrest)%Hnil. split; [done|]. intros k x Hk Hkx.
        destruct (decide (k = i)) as [->|]; [by apply Hlive|]. apply Hrest; [lia|done].
    + exists (x :: removed). split_and!; [| |done].
      * rewrite Hx, Hperm. by rewrite Permutation_middle.
      * intros z [->|(k & Hk & He)%Hexp]%elem_of_cons; [exists i|exists k]; (split; [lia|done]).
Qed.

Lemma deleteExpired_pool now mdm :
  ∃ removed,
    mdm_missedDataPool mdm ≡ₚ mdm_missedDataPool (deleteExpired now mdm) ++ removed ∧
    (∀ x, x ∈ removed →
       ∃ k, (k < length (mdm_missedDataPool mdm))%nat ∧ isExpired (now k) mdm (md_ts x) = true) ∧
    (removed = [] → ∀ k x, mdm_missedDataPool mdm !! k = Some x →
       isExpired (now k) mdm (md_ts x) = false).
Proof.
  unfold deleteExpired. set (pool := mdm_missedDataPool mdm).
  destruct (delete_loop_live (length pool) now mdm 0 (pool, length pool))
    as (_ & removed & Hperm & Hexp & Hnil); [done|].
  destruct (delete_loop _ _ _ _ _) as [arr len] eqn:Hloop. exists removed.
  unfold live in *. cbn in *. rewrite firstn_all in *. split_and!; [done| |].
  - intros x (k & Hk & He)%Hexp. exists k. split; [lia|done].
  - intros (_ & Hrest)%Hnil k x Hk. apply Hrest; [|done]. apply lookup_lt_Some in Hk. lia.
Qed.

Section expired.
Context (t : Z) (mdm : MissedDataManager).
Implicit Types l : list missedData.

Lemma no_expired l :
  filter (λ x, isExpired t mdm (md_ts x) = true) l = [] ↔
  ∀ x, x ∈ l → isExpired t mdm (md_ts x) = false.
Proof.
  split.
  - intros Hf x Hx. apply not_true_is_false. intros He.
    eapply (not_elem_of_nil x). rewrite <- Hf. by apply list_elem_of_filter.
  - intros Hall. apply elem_of_nil_inv. intros x [He Hx]%list_elem_of_filter.
    rewrite Hall in He by done. done.
Qed.

Lemma filter_none_expired l :
  filter (λ x, isExpired t mdm (md_ts x) = true) l = [] →
  filter (λ x, isExpired t mdm (md_ts x) = false) l = l.
Proof.
  rewrite no_expired. induction l as [|x l IH]; [done|]. intros Hall.
  rewrite filter_cons_True by (apply Hall; left). f_equal. apply IH. intros y Hy. apply Hall. by right.
Qed.

Lemma filter_all_expired l :
  (∀ x, x ∈ l → isExpired t mdm (md_ts x) = true) →
  filter (λ x, isExpired t mdm (md_ts x) = false) l = [].
Proof.
  intros Hall. apply elem_of_nil_inv. intros x [He Hx]%list_elem_of_filter.
  rewrite Hall in He by done. done.
Qed.
End expired.

(** ** Properties *)

(** Every range occurs once in the pool. *)
Definition ranges (mdm : MissedDataManager) : list (Z * Z) :=
  (λ m, (md_fromPulse m, md_toPulse m)) <$> mdm_missedDataPool mdm.

(** The managers that the two operations reach from a new one. *)
Inductive reachable (ttl cleanPeriod : Z) : MissedDataManager → Prop :=
  | reach_new : reachable ttl cleanPeriod (NewMissedDataManager ttl cleanPeriod)
  | reach_Add now from to mdm :
      reachable ttl cleanPeriod mdm → reachable ttl cleanPeriod (Add now from to mdm).2
  | reach_delete now mdm :
      reachable ttl cleanPeriod mdm → reachable ttl cleanPeriod (deleteExpired now mdm).

Lemma covers_refl x : covers (md_fromPulse x) (md_toPulse x) x = true.
Proof. unfold covers. rewrite andb_true_iff, Z.geb_leb, !Z.leb_le. lia. Qed.

Lemma deleteExpired_ttl now mdm : mdm_ttl (deleteExpired now mdm) = mdm_ttl mdm.
Proof. unfold deleteExpired. by destruct (delete_loop _ _ _ _ _). Qed.

(** [Add] refuses a range exactly when one entry of the pool covers it, and
    then changes nothing; an accepted range is entered, and from then on [Add]
    refuses it and every part of it. *)
Theorem Add_spec now from to mdm :
  ((Add now from to mdm).1 = false ↔
     ∃ m, m ∈ mdm_missedDataPool mdm ∧ md_fromPulse m ≤ from ∧ to ≤ md_toPulse m) ∧
  ((Add now from to mdm).1 = false → (Add now from to mdm).2 = mdm) ∧
  (∀ now' from' to', from ≤ from' → to' ≤ to →
     (Add now' from' to' (Add now from to mdm).2).1 = false).
Proof.
  assert (∀ pool f t, existsb (covers f t) pool = true ↔
    ∃ m, m ∈ pool ∧ md_fromPulse m ≤ f ∧ t ≤ md_toPulse m) as Hcov.
  { intros pool f t. rewrite existsb_exists. unfold covers. setoid_rewrite list_elem_of_In.
    setoid_rewrite andb_true_iff. setoid_rewrite Z.geb_leb. by setoid_rewrite Z.leb_le. }
  assert (∀ pool f t, existsb (covers f t) pool = true →
    (Add now f t (set_pool pool mdm)).1 = false) as Hfalse.
  { intros pool f t Hp. unfold Add. cbn. by rewrite Hp. }
  unfold Add at 1 2 3 5. rewrite <- Hcov. destruct (existsb _ _) eqn:Hx; cbn.
  - split_and!; [done|done|]. intros now' f' t' Hf Ht. unfold Add.
    destruct (proj1 (Hcov _ _ _) Hx) as (m & Hm & H1 & H2).
    rewrite (proj2 (Hcov (mdm_missedDataPool mdm) f' t')); [done|].
    exists m. split_and!; [done|lia|lia].
  - split_and!; [done|done|]. intros now' f' t' Hf Ht. unfold Add. cbn.
    rewrite (proj2 (Hcov (mdm_missedDataPool mdm ++ [_]) f' t')); [done|].
    exists (mkMissedData now from to). split_and!; [set_solver|cbn; lia|cbn; lia].
Qed.

(** Whatever the sequence of operations, the pool never holds a range
    twice, so every range is reloaded at most once per life of its entry. *)
Theorem reachable_NoDup ttl cleanPeriod mdm :
  reachable ttl cleanPeriod mdm → NoDup (ranges mdm).
Proof.
  unfold ranges. induction 1 as [|now from to mdm _ IH|now mdm _ IH]; [constructor| |].
  - unfold Add. destruct (existsb _ _) eqn:Hx; [done|]. cbn. rewrite fmap_app.
    apply NoDup_app. split_and!; [done| |cbn; apply NoDup_singleton].
    cbn. intros x (m & -> & Hm)%list_elem_of_fmap Heq%list_elem_of_singleton.
    assert (existsb (covers from to) (mdm_missedDataPool mdm) = true); [|congruence].
    apply existsb_exists. exists m. split; [by apply list_elem_of_In|].
    injection Heq as <- <-. apply covers_refl.
  - destruct (deleteExpired_pool now mdm) as (removed & Hperm & _). rewrite Hperm in IH.
    rewrite fmap_app in IH. by apply NoDup_app in IH as [? _].
Qed.

(** One [deleteExpired].  Nothing appears in the pool; every entry that
    disappears was expired when a turn of the loop looked; and if the pass removes
    nothing then no entry was expired at its turn -- the index loop with its
    moving elements never skips the first expired one. *)
Theorem deleteExpired_spec now mdm :
  ∃ removed,
    mdm_missedDataPool mdm ≡ₚ mdm_missedDataPool (deleteExpired now mdm) ++ removed ∧
    (∀ x, x ∈ removed →
       ∃ k, (k < length (mdm_missedDataPool mdm))%nat ∧ isExpired (now k) mdm (md_ts x) = true) ∧
    (removed = [] → ∀ k x, mdm_missedDataPool mdm !! k = Some x →
       isExpired (now k) mdm (md_ts x) = false).
Proof. apply deleteExpired_pool. Qed.

(** The cleaning terminates in a clean pool: at a fixed time, as many passes
    as the pool has entries leave exactly the entries that are not expired (one
    pass may leave an expired entry that it moved into a place already visited). *)
Theorem deleteExpired_iterated t mdm :
  mdm_missedDataPool (Nat.iter (length (mdm_missedDataPool mdm)) (deleteExpired (λ _, t)) mdm)
  ≡ₚ filter (λ x, isExpired t mdm (md_ts x) = false) (mdm_missedDataPool mdm).
Proof.
  cut (∀ n m, mdm_ttl m = mdm_ttl mdm →
    (length (filter (λ x, isExpired t mdm (md_ts x) = true) (mdm_missedDataPool m)) ≤ n)%nat →
    mdm_missedDataPool (Nat.iter n (deleteExpired (λ _, t)) m)
    ≡ₚ filter (λ x, isExpired t mdm (md_ts x) = false) (mdm_missedDataPool m)).
  { intros Hn. apply Hn; [done|apply length_filter]. }
  induction n as [|n IH]; intros m Httl Hlen.
  { cbn. rewrite filter_none_expired; [done|]. apply length_zero_iff_nil. lia. }
  rewrite Nat.iter_succ_r.
  destruct (deleteExpired_pool (λ _, t) m) as (removed & Hperm & Hexp & Hnil).
  unfold isExpired in Hexp, Hnil. rewrite Httl in Hexp, Hnil.
  rewrite IH; [| |].
  - rewrite Hperm, filter_app, (filter_all_expired t mdm removed), app_nil_r; [done|].
    intros x (k & _ & He)%Hexp. done.
  - by rewrite deleteExpired_ttl.
  - rewrite Hperm, filter_app, length_app in Hlen. destruct removed as [|x removed].
    + rewrite (proj2 (no_expired t mdm _)); [cbn; lia|].
      intros x Hx. rewrite app_nil_r in Hperm. rewrite <- Hperm in Hx.
      apply list_elem_of_lookup in Hx as [k Hk]. by eapply Hnil.
    + rewrite filter_cons_True in Hlen; [cbn in Hlen; lia|].
      by destruct (Hexp x) as (k & _ & He); [left|].
Qed.

Definition ex_mdm : MissedDataManager :=
  mkMissedDataManager [mkMissedData 100 5 10; mkMissedData 5 10 20; mkMissedData 7 20 30] 20 5.

Lemma Add_spec_witness :
  (Add 110 6 9 ex_mdm).1 = false ∧ (Add 111 25 30 (Add 110 25 40 ex_mdm).2).1 = false.
Proof.
  split.
  - apply (proj2 (proj1 (Add_spec 110 6 9 ex_mdm))). exists (mkMissedData 100 5 10).
    split; [left|]. cbn. lia.
  - apply (proj2 (proj2 (Add_spec 110 25 40 ex_mdm))); lia.
Defined.

Lemma reachable_NoDup_witness :
  let mdm := (Add 2 5 10 (Add 1 5 10 (NewMissedDataManager 20 5)).2).2 in
  NoDup (ranges mdm) ∧ ranges mdm = [(5, 10)].
Proof.
  intros mdm. split; [|reflexivity]. apply (reachable_NoDup 20 5). repeat constructor.
Defined.

(** The pass at time 110 removes the second entry and moves the third, expired
    as well, into its place, which is not visited again. *)
Lemma deleteExpired_spec_witness :
  mdm_missedDataPool (deleteExpired (λ _, 110) ex_mdm) = [mkMissedData 100 5 10; mkMissedData 7 20 30] ∧
  ∃ removed, mdm_missedDataPool ex_mdm
    ≡ₚ mdm_missedDataPool (deleteExpired (λ _, 110) ex_mdm) ++ removed.
Proof.
  split; [reflexivity|].
  destruct (deleteExpired_spec (λ _, 110) ex_mdm) as (removed & Hperm & _).
  exists removed. exact Hperm.
Defined.
