(* ===== verification/Controller.v ===== *)
(** * The controller: [src/etl/controller/{controller,pulsemaintainer}.go]

    The controller keeps the jet drops seen for every pulse that is not complete,
    marks a pulse complete when its jets cover the jet tree, asks the extractor
    to reload what is missing, and advances the sequential pulse.  Each mutex
    section is one step here; a map is ranged over in an order the runtime
    chooses, so an order is an argument wherever the code ranges over a map. *)

From S2P Require Import Prelude GoStd Platform Types Models Gorm Interfaces MissedData.

(** ** State *)

(** [configuration.Controller], in seconds. *)
Record ControllerConfig := mkControllerConfig {
  cfg_PulsePeriod : Z;
  cfg_ReloadPeriod : Z;
  cfg_ReloadCleanPeriod : Z;
  cfg_SequentialPeriod : Z;
}.

Record Controller := mkController {
  c_cfg : ControllerConfig;
  c_jetDropRegister : gmap TPulse (gset string);
  c_missedDataManager : MissedDataManager;
  c_sequentialPulse : Pulse;
  c_incompletePulseCounter : Z;
  c_platformVersion : Z;
}.

Definition set_register (r : gmap TPulse (gset string)) (c : Controller) : Controller :=
  mkController (c_cfg c) r (c_missedDataManager c) (c_sequentialPulse c)
    (c_incompletePulseCounter c) (c_platformVersion c).
Definition set_manager (m : MissedDataManager) (c : Controller) : Controller :=
  mkController (c_cfg c) (c_jetDropRegister c) m (c_sequentialPulse c)
    (c_incompletePulseCounter c) (c_platformVersion c).
Definition set_sequential (p : Pulse) (c : Controller) : Controller :=
  mkController (c_cfg c) (c_jetDropRegister c) (c_missedDataManager c) p
    (c_incompletePulseCounter c) (c_platformVersion c).
Definition set_counter (n : Z) (c : Controller) : Controller :=
  mkController (c_cfg c) (c_jetDropRegister c) (c_missedDataManager c) (c_sequentialPulse c)
    n (c_platformVersion c).

(** [time.Second], in nanoseconds. *)
Definition Second : Z := 1000000000.

Definition NewController (cfg : ControllerConfig) (pv : Z) : Controller :=
  mkController cfg ∅
    (NewMissedDataManager (int64 (Second * cfg_ReloadPeriod cfg))
       (int64 (Second * cfg_ReloadCleanPeriod cfg)))
    emptyPulse 0 pv.

(** The controller with the two components it works on. *)
Record World (DB EX : Type) := mkWorld { w_c : Controller; w_db : DB; w_ex : EX }.
Arguments mkWorld {DB EX}.
Arguments w_c {DB EX}.
Arguments w_db {DB EX}.
Arguments w_ex {DB EX}.

Definition with_c {DB EX} (c : Controller) (w : World DB EX) : World DB EX :=
  mkWorld c (w_db w) (w_ex w).

(** ** The register *)

Definition SetJetDropData (pulse : TPulse) (jetID : string) (c : Controller) : Controller :=
  let drops := match c_jetDropRegister c !! pulse with Some d => d | None => ∅ end in
  set_register (<[pulse := {[jetID]} ∪ drops]> (c_jetDropRegister c)) c.

#[export] Instance Controller_register : JetDropRegister Controller := {|
  ctl_SetJetDropData := SetJetDropData;
|}.

(** ** Completeness of a pulse *)

(** [invertLastSymbol]; the slice expression panics on the empty string. *)
Definition invertLastSymbol (s : string) : option string :=
  if decide (s = "") then None
  else
    let last := String.substring (String.length s - 1) 1 s in
    let invertedSymbol := if decide (last = "1") then "0" else "1" in
    Some (drop_last s +:+ invertedSymbol).

(** [strings.Index(jetID2, s) == 0] for some [jetID2] of the map. *)
Definition starts_with (d : gset string) (s : string) : bool :=
  existsb (λ jetID2, bool_decide (Index jetID2 s = 0)) (elements d).

(** The loop labelled [Main], over the jets in the order [o]; [None] is a panic. *)
Fixpoint siblings_loop (d : gset string) (o : list string) : option bool :=
  match o with
  | [] => Some true
  | jetID :: o =>
      jetIDInvertedLast ← invertLastSymbol jetID;
      if decide (jetIDInvertedLast ∈ d) then siblings_loop d o
      else if starts_with d jetIDInvertedLast then siblings_loop d o
      else Some false
  end.

(** [for i := len(jetID) - 1; i >= 1; i--], from [i] down, with the cache. *)
Fixpoint parents_loop (d : gset string) (jetID : string) (i : nat) (checked : gset string)
  : option (bool * gset string) :=
  match i with
  | O => Some (true, checked)
  | S i' =>
      jetIDParentInverted ← invertLastSymbol (String.substring 0 i jetID);
      if decide (jetIDParentInverted ∈ checked) then parents_loop d jetID i' checked
      else if starts_with d jetIDParentInverted
      then parents_loop d jetID i' ({[jetIDParentInverted]} ∪ checked)
      else Some (false, checked)
  end.

(** The second loop over the jets, in the order [o]. *)
Fixpoint ancestors_loop (d : gset string) (o : list string) (checked : gset string)
  : option bool :=
  match o with
  | [] => Some true
  | jetID :: o =>
      '(found, checked) ← parents_loop d jetID (String.length jetID - 1) checked;
      if found : bool then ancestors_loop d o checked else Some false
  end.

(** [pulseIsComplete]; [o1] and [o2] are the orders of the two loops. *)
Definition pulseIsComplete (o1 o2 : list string) (d : gset string) : option bool :=
  if decide (size d = 0%nat) then Some false
  else if decide (size d = 1%nat ∧ "" ∈ d) then Some true
  else
    ok ← siblings_loop d o1;
    if ok : bool then ancestors_loop d o2 ∅ else Some false.

(** ** The two loops of the controller *)

Section maintainer.
Context `{Platform, StorageSetter DB, StorageFetcher DB, JetDropsExtractor EX}.
#[local] Abbreviation W := (World DB EX).

(** [reloadData]; an error of the extractor is only logged. *)
Definition reloadData (now fromPulseNumber toPulseNumber : Z) (w : W) : W :=
  let fromPulseNumber := if decide (fromPulseNumber = 0) then MinTimePulse - 1
                         else fromPulseNumber in
  let '(added, mdm) := Add now fromPulseNumber toPulseNumber (c_missedDataManager (w_c w)) in
  if added : bool
  then mkWorld (set_manager mdm (w_c w)) (w_db w)
         (fst (ex_LoadJetDrops fromPulseNumber toPulseNumber (w_ex w)))
  else w.

(** One turn over the copy of the register: the pulse, the time at which it is
    looked at, and the orders [pulseIsComplete] takes. *)
Record Visit := mkVisit { v_pulse : TPulse; v_now : Z; v_o1 : list string; v_o2 : list string }.

(** The body of the loop of [eraseJetDropRegister]; [d] are the jets of the copy. *)
Definition visit_pulse (v : Visit) (d : gset string) (w : W) : option W :=
  let p := v_pulse v in
  complete ← pulseIsComplete (v_o1 v) (v_o2 v) d;
  if complete : bool then
    match st_CompletePulse (tp_PulseNo p) (w_db w) with
    | Err _ => Some w
    | Ok db =>
        Some (mkWorld (set_register (delete p (c_jetDropRegister (w_c w))) (w_c w)) db (w_ex w))
    end
  else if decide (c_platformVersion (w_c w) ≠ 1)
       then Some (reloadData (v_now v) (tp_PrevPulseNumber p) (tp_PulseNo p) w)
       else Some w.

(** [cleanJetDropRegister]. *)
Definition cleanJetDropRegister (c : Controller) : Controller :=
  set_register
    (filter (λ pd, ¬ p_PulseNumber (c_sequentialPulse c) > tp_PulseNo pd.1) (c_jetDropRegister c))
    c.

(** The end of [eraseJetDropRegister]. *)
Definition count_incomplete (c : Controller) : Controller :=
  if decide (c_platformVersion c = 1) then
    let c := if decide (c_incompletePulseCounter c = 1000)
             then set_counter 0 (cleanJetDropRegister c) else c in
    set_counter (c_incompletePulseCounter c + 1) c
  else c.

Fixpoint visit_all (copy : gmap TPulse (gset string)) (visits : list Visit) (w : W) : option W :=
  match visits with
  | [] => Some w
  | v :: visits =>
      d ← copy !! v_pulse v;
      w ← visit_pulse v d w;
      visit_all copy visits w
  end.

(** [eraseJetDropRegister]: the visits go over a copy of the register, in the
    order the runtime chooses. *)
Definition eraseJetDropRegister (visits : list Visit) (w : W) : option W :=
  w ← visit_all (c_jetDropRegister (w_c w)) visits w;
  Some (with_c (count_incomplete (w_c w)) w).

(** One turn of [pulseSequence] under its lock: the world after it and the time
    to wait before the next one. *)
Definition pulseSequence_turn (now : Z) (w : W) : W * Z :=
  let waitTime := cfg_SequentialPeriod (c_cfg (w_c w)) in
  let found := st_GetPulseByPrev (c_sequentialPulse (w_c w)) (w_db w) in
  match found with
  | Err ErrRecordNotFound | Ok _ =>
      let nextSequential := match found with Ok p => p | Err _ => emptyPulse end in
      if p_IsComplete nextSequential then
        match st_SequencePulse (p_PulseNumber nextSequential) (w_db w) with
        | Err _ => (w, waitTime)
        | Ok db => (mkWorld (set_sequential nextSequential (w_c w)) db (w_ex w), 0)
        end
      else
        let completed := bool_decide (c_platformVersion (w_c w) = 1) in
        let next := st_GetNextSavedPulse (c_sequentialPulse (w_c w)) completed (w_db w) in
        match next with
        | Err ErrRecordNotFound | Ok _ =>
            let toPulse := match next with Ok p => p | Err _ => emptyPulse end in
            if decide (toPulse = emptyPulse) then (w, waitTime)
            else (reloadData now (p_PulseNumber (c_sequentialPulse (w_c w)))
                    (p_PrevPulseNumber toPulse) w, waitTime)
        | Err _ => (w, waitTime)
        end
  | Err _ => (w, waitTime)
  end.

(** ** Starting *)

(** The key [setIncompletePulses] makes for a stored pulse. *)
Definition stored_key (p : Pulse) : TPulse :=
  mkTPulse (p_PulseNumber p) 0 0 (p_NextPulseNumber p) (p_PrevPulseNumber p).

Fixpoint load_incomplete (pulses : list Pulse) (db : DB) (c : Controller)
  : Controller * option error :=
  match pulses with
  | [] => (c, None)
  | p :: pulses =>
      let key := stored_key p in
      let c := set_register (<[key := ∅]> (c_jetDropRegister c)) c in
      match st_GetJetDrops p db with
      | Err err =>
          (c, Some (ErrWrap err ("can't get jetDrops for pulse " +:+ FormatInt (p_PulseNumber p)
                                 +:+ " from storage")))
      | Ok jetDrops =>
          load_incomplete pulses db
            (foldl (λ c jd, SetJetDropData key (jd_JetID jd) c) c jetDrops)
      end
  end.

Definition setIncompletePulses (db : DB) (c : Controller) : Controller * option error :=
  match st_GetIncompletePulses db with
  | Err err => (c, Some (ErrWrap err "can't get not complete pulses from storage"))
  | Ok pulses => load_incomplete pulses db c
  end.

Definition setSeqPulse (db : DB) (c : Controller) : Controller * option error :=
  match st_GetSequentialPulse db with
  | Err err => (set_sequential emptyPulse c, Some (ErrWrap err "can't get sequential pulse from storage"))
  | Ok p =>
      let c := set_sequential p c in
      (if decide (c_sequentialPulse c = emptyPulse)
       then set_sequential (pulse_of_number 0) c else c, None)
  end.

(** [Start], up to the point where the goroutines are started. *)
Definition Start (db : DB) (c : Controller) : Controller * option error :=
  match setIncompletePulses db c with
  | (c, Some err) => (c, Some err)
  | (c, None) => setSeqPulse db c
  end.
End maintainer.
