(* ===== verification/Completeness.v ===== *)
(** * When a pulse is complete

    Theorems about [pulseIsComplete]: it never depends on the order in which the
    runtime ranges over its map, and it answers whether the jets it is given
    cover the whole jet tree. *)

From S2P Require Import Prelude GoStd Platform Types Models Gorm Interfaces MissedData Controller.

(** ** The jet tree *)

(** [p] is a node of the tree spanned by the jets: an ancestor of one of them. *)
Definition node (d : gset string) (p : string) : Prop := ∃ j, j ∈ d ∧ String.prefix p j = true.

Definition bit_set (d : gset string) : Prop := ∀ j, j ∈ d → all_chars is_bit j = true.

(** No jet of the set is inside another one: the leaves of a jet tree. *)
Definition prefix_free (d : gset string) : Prop :=
  ∀ a b, a ∈ d → b ∈ d → String.prefix a b = true → a = b.

(** Every object, whose address is a long enough bit string, falls into one of
    the jets. *)
Definition covers_tree (d : gset string) : Prop :=
  ∀ s, all_chars is_bit s = true → (∀ j, j ∈ d → (String.length j ≤ String.length s)%nat) →
       ∃ j, j ∈ d ∧ String.prefix j s = true.

Definition flip_bit (c : ascii) : ascii := if decide (c = "1"%char) then "0"%char else "1"%char.

Abbreviation snoc p c := (p +:+ String c "").

Lemma flip_bit_bit c : is_bit (flip_bit c) = true.
Proof. unfold flip_bit. by case_decide. Qed.

Lemma flip_bit_other b c : is_bit b = true → is_bit c = true → b = c ∨ b = flip_bit c.
Proof. rewrite !is_bit_cases. unfold flip_bit. intros [-> | ->] [-> | ->]; auto. Qed.

Lemma flip_bit_ne c : flip_bit c ≠ c.
Proof. unfold flip_bit. case_decide; congruence. Qed.

(** ** Lemmas: strings *)

Lemma substring_last p c : String.substring (String.length p) 1 (snoc p c) = String c "".
Proof. induction p as [|a p IH]; [done|]. rewrite str_app_cons. cbn. exact IH. Qed.

Lemma snoc_not_empty p c : snoc p c ≠ "".
Proof. by destruct p. Qed.

Lemma length_snoc p c : String.length (snoc p c) = S (String.length p).
Proof. rewrite str_length_app. cbn. lia. Qed.

Lemma invertLastSymbol_snoc p c :
  invertLastSymbol (snoc p c) = Some (snoc p (flip_bit c)).
Proof.
  unfold invertLastSymbol. rewrite decide_False by apply snoc_not_empty.
  rewrite length_snoc. replace (S (String.length p) - 1)%nat with (String.length p) by lia.
  rewrite substring_last, drop_last_snoc. unfold flip_bit.
  destruct (decide (c = "1"%char)) as [->|Hc]; [done|].
  rewrite decide_False; [done|]. by intros [= ->].
Qed.

(** The prefixes of positive length, as the loop of the code cuts them. *)
Lemma substring_snoc i s :
  (i < String.length s)%nat → ∃ c, String.substring 0 (S i) s = snoc (String.substring 0 i s) c.
Proof.
  intros Hi. destruct (str_snoc_inv (String.substring 0 (S i) s)) as (t & c & Ht).
  { rewrite substring_0_length; lia. }
  exists c. rewrite Ht. f_equal.
  pose proof (f_equal String.length Ht) as Hl. rewrite substring_0_length, length_snoc in Hl by lia.
  assert (String.prefix t s = true) as Hp.
  { eapply prefix_trans; [|apply (substring_0_prefix (S i))]. rewrite Ht. apply prefix_spec. by eexists. }
  rewrite (prefix_substring _ _ Hp). f_equal. lia.
Qed.

Lemma prefix_snoc p c s :
  String.prefix (snoc p c) s = true →
  snoc p c = String.substring 0 (S (String.length p)) s ∧ (String.length p < String.length s)%nat.
Proof.
  intros Hp. split.
  - rewrite <- (length_snoc p c). by apply prefix_substring.
  - apply prefix_length in Hp. rewrite length_snoc in Hp. lia.
Qed.

Lemma starts_with_node d p : starts_with d p = true ↔ node d p.
Proof.
  unfold starts_with, node. rewrite existsb_exists. setoid_rewrite <- list_elem_of_In.
  setoid_rewrite elem_of_elements. setoid_rewrite bool_decide_eq_true.
  by setoid_rewrite Index_0.
Qed.

(** ** Lemmas: the loops *)

(** What the loops test for a jet at depth [i]. *)
Definition opposite (d : gset string) (jetID : string) (i : nat) : Prop :=
  ∀ x, invertLastSymbol (String.substring 0 i jetID) = Some x → node d x.

Lemma substring_0_all s : String.substring 0 (String.length s) s = s.
Proof. symmetry. apply prefix_substring, prefix_refl. Qed.

Lemma invert_prefix i s :
  (i < String.length s)%nat → is_Some (invertLastSymbol (String.substring 0 (S i) s)).
Proof.
  intros Hi. destruct (substring_snoc i s Hi) as [c ->]. rewrite invertLastSymbol_snoc. by eexists.
Qed.

Lemma siblings_loop_spec d o :
  (∀ j, j ∈ o → j ≠ "") →
  ∃ b, siblings_loop d o = Some b ∧ (b = true ↔ ∀ j, j ∈ o → opposite d j (String.length j)).
Proof.
  induction o as [|j o IH]; intros Hne; cbn [siblings_loop].
  - exists true. split; [done|]. split; [set_solver|done].
  - destruct IH as (b & -> & Hb); [set_solver|].
    destruct (str_snoc_inv j) as (p & c & ->).
    { destruct j; [|cbn; lia]. by destruct (Hne ""); [left|]. }
    rewrite invertLastSymbol_snoc. cbn.
    assert (opposite d (snoc p c) (String.length (snoc p c)) ↔ node d (snoc p (flip_bit c))) as Hopp.
    { unfold opposite. rewrite substring_0_all, invertLastSymbol_snoc. naive_solver. }
    destruct (decide (snoc p (flip_bit c) ∈ d)) as [Hin|Hnin].
    + exists b. split; [done|]. rewrite Hb. split; [|set_solver].
      intros Hall x [->|Hx]%elem_of_cons; [|auto]. apply Hopp.
      exists (snoc p (flip_bit c)). split; [done|apply prefix_refl].
    + destruct (starts_with d _) eqn:Hs; [apply starts_with_node in Hs; exists b|exists false];
        (split; [done|]).
      * rewrite Hb. split; [|set_solver]. intros Hall x [->|Hx]%elem_of_cons; [by apply Hopp|auto].
      * split; [done|]. intros Hall. apply not_true_iff_false in Hs. destruct Hs.
        apply starts_with_node, (proj1 Hopp), Hall. by left.
Qed.

Definition all_nodes (d checked : gset string) : Prop := ∀ x, x ∈ checked → node d x.

Lemma parents_loop_spec d jetID i checked :
  (i ≤ String.length jetID)%nat → all_nodes d checked →
  ∃ b checked', parents_loop d jetID i checked = Some (b, checked') ∧ all_nodes d checked' ∧
    (b = true ↔ ∀ k, (1 ≤ k ≤ i)%nat → opposite d jetID k).
Proof.
  revert checked. induction i as [|i IH]; intros checked Hi Hch; cbn [parents_loop].
  - exists true, checked. split_and!; [done|done|]. split; [lia|done].
  - destruct (invert_prefix i jetID) as [x Hx]; [lia|]. rewrite Hx. cbn.
    assert (opposite d jetID (S i) ↔ node d x) as Hopp by (unfold opposite; rewrite Hx; naive_solver).
    assert (∀ checked, all_nodes d checked → node d x →
      ∃ b checked', parents_loop d jetID i checked = Some (b, checked') ∧ all_nodes d checked' ∧
        (b = true ↔ ∀ k, (1 ≤ k ≤ S i)%nat → opposite d jetID k)) as Hstep.
    { intros ch Hc Hn. destruct (IH ch) as (b & ch' & Heq & Hc' & Hb); [lia|done|].
      exists b, ch'. split_and!; [done|done|]. rewrite Hb. split; intros Hall k Hk.
      - destruct (decide (k = S i)) as [->|]; [by apply Hopp|apply Hall; lia].
      - apply Hall. lia. }
    case_decide as Hin; [by apply Hstep; auto|].
    destruct (starts_with d x) eqn:Hs.
    + apply starts_with_node in Hs. apply Hstep; [|done].
      intros y [->%elem_of_singleton|Hy]%elem_of_union; auto.
    + exists false, checked. split_and!; [done|done|]. split; [done|]. intros Hall.
      apply not_true_iff_false in Hs. destruct Hs. apply starts_with_node, (proj1 Hopp), Hall. lia.
Qed.

Lemma ancestors_loop_spec d o checked :
  all_nodes d checked →
  ∃ b, ancestors_loop d o checked = Some b ∧
    (b = true ↔ ∀ j k, j ∈ o → (1 ≤ k ≤ String.length j - 1)%nat → opposite d j k).
Proof.
  revert checked. induction o as [|j o IH]; intros checked Hch; cbn [ancestors_loop].
  - exists true. split; [done|]. split; [set_solver|done].
  - destruct (parents_loop_spec d j (String.length j - 1) checked) as (b & ch & -> & Hch' & Hb);
      [lia|done|]. cbn. destruct b.
    + destruct (IH ch Hch') as (b & -> & Hb'). exists b. split; [done|]. rewrite Hb'.
      split; [|set_solver]. intros Hall x k [->|Hx]%elem_of_cons; [by apply Hb|by apply Hall].
    + exists false. split; [done|]. split; [done|]. intros Hall. apply Hb. intros k Hk.
      apply Hall; [by left|done].
Qed.

(** Closed under opposites: with a node its other half is a node, too. *)
Definition closed (d : gset string) : Prop :=
  ∀ p c, node d (snoc p c) → node d (snoc p (flip_bit c)).

Lemma opposites_closed d :
  (∀ j k, j ∈ d → (1 ≤ k ≤ String.length j)%nat → opposite d j k) ↔ closed d.
Proof.
  unfold closed. split.
  - intros Hall p c (j & Hj & Hp). apply prefix_snoc in Hp as [Hp Hlen].
    apply (Hall j (S (String.length p))); [done|lia|].
    rewrite <- Hp. apply invertLastSymbol_snoc.
  - intros Hcl j k Hj Hk x Hx. destruct k as [|k]; [lia|].
    destruct (substring_snoc k j) as [c Hc]; [lia|]. rewrite Hc, invertLastSymbol_snoc in Hx.
    simplify_eq. apply Hcl. exists j. split; [done|]. rewrite <- Hc. apply substring_0_prefix.
Qed.

Lemma pulseIsComplete_closed o1 o2 d :
  o1 ≡ₚ elements d → o2 ≡ₚ elements d → d ≠ ∅ → "" ∉ d →
  ∃ b, pulseIsComplete o1 o2 d = Some b ∧ (b = true ↔ closed d).
Proof.
  intros Ho1 Ho2 Hne Hroot. unfold pulseIsComplete.
  rewrite decide_False by by rewrite size_empty_iff, leibniz_equiv_iff.
  rewrite decide_False by by intros [_ ?].
  assert (∀ j, j ∈ o1 ↔ j ∈ d) as H1 by (intros; by rewrite Ho1, elem_of_elements).
  assert (∀ j, j ∈ o2 ↔ j ∈ d) as H2 by (intros; by rewrite Ho2, elem_of_elements).
  setoid_rewrite <- opposites_closed.
  destruct (siblings_loop_spec d o1) as (b & -> & Hb); [intros j Hj%H1 ->; done|]. cbn.
  destruct b.
  - destruct (ancestors_loop_spec d o2 ∅) as (b & -> & Hb'); [by intros x ?%not_elem_of_empty|].
    exists b. split; [done|]. rewrite Hb'. split.
    + intros Hall j k Hj Hk. destruct (decide (k = String.length j)) as [->|].
      * apply Hb; [done|by apply H1].
      * apply Hall; [by apply H2|lia].
    + intros Hall j k Hj%H2 Hk. apply Hall; [done|lia].
  - exists false. split; [done|]. split; [done|]. intros Hall. apply Hb.
    intros j Hj%H1. apply Hall; [done|]. split; [|done].
    destruct j; [done|cbn; lia].
Qed.

(** ** Closed sets and the tree *)

Fixpoint bits_pad (n : nat) : string :=
  match n with O => "" | S n => String "0" (bits_pad n) end.

Lemma bits_pad_bits n : all_chars is_bit (bits_pad n) = true.
Proof. by induction n. Qed.
Lemma bits_pad_length n : String.length (bits_pad n) = n.
Proof. induction n; cbn; congruence. Qed.

Lemma max_list_elem_of_le (x : nat) l : x ∈ l → (x ≤ max_list l)%nat.
Proof. induction 1; cbn; lia. Qed.

Lemma closed_walk d s n :
  d ≠ ∅ → bit_set d → closed d → all_chars is_bit s = true → (n ≤ String.length s)%nat →
  (∃ j, j ∈ d ∧ String.prefix j s = true) ∨ node d (String.substring 0 n s).
Proof.
  intros Hne Hbits Hcl Hs. induction n as [|n IH]; intros Hn.
  - right. apply set_choose_L in Hne as [j Hj]. exists j. split; [done|].
    destruct s, j; done.
  - destruct IH as [?|(j & Hj & Hp)]; [lia|by left|].
    destruct (substring_snoc n s) as [c Hc]; [lia|].
    destruct (decide (String.length j = n)) as [Hl|Hl].
    { left. exists j. split; [done|].
      rewrite <- (prefix_eq_length _ _ Hp) by (rewrite substring_0_length; lia).
      apply substring_0_prefix. }
    right. rewrite Hc. pose proof (prefix_length _ _ Hp) as Hlen.
    rewrite substring_0_length in Hlen by lia.
    destruct (substring_snoc n j) as [b Hb]; [lia|].
    assert (String.substring 0 n j = String.substring 0 n s) as Heq.
    { rewrite (prefix_substring _ _ Hp), substring_0_length by lia. done. }
    rewrite Heq in Hb.
    assert (node d (snoc (String.substring 0 n s) b)) as Hnode.
    { exists j. split; [done|]. rewrite <- Hb. apply substring_0_prefix. }
    assert (is_bit b = true) as Hbb.
    { eapply is_bit_snoc. rewrite <- Hb. eapply all_chars_prefix; [apply substring_0_prefix|auto]. }
    assert (is_bit c = true) as Hcb.
    { eapply is_bit_snoc. rewrite <- Hc. by eapply all_chars_prefix; [apply substring_0_prefix|]. }
    destruct (flip_bit_other c b Hcb Hbb) as [-> | ->]; [done|]. by apply Hcl.
Qed.

Lemma closed_covers d : d ≠ ∅ → bit_set d → closed d → covers_tree d.
Proof.
  intros Hne Hbits Hcl s Hs Hlong.
  destruct (closed_walk d s (String.length s) Hne Hbits Hcl Hs) as [?|(j & Hj & Hp)]; [done|done|].
  rewrite substring_0_all in Hp. exists j. split; [done|].
  rewrite (prefix_eq_length s j Hp); [apply prefix_refl|].
  apply prefix_length in Hp. specialize (Hlong j Hj). lia.
Qed.

Lemma covers_closed d : bit_set d → prefix_free d → covers_tree d → closed d.
Proof.
  intros Hbits Hpf Hcov p c (j & Hj & Hp).
  (* a long address in the other half *)
  set (n := max_list (String.length <$> elements d)).
  set (s := snoc p (flip_bit c) +:+ bits_pad n).
  destruct (Hcov s) as (k & Hk & Hks).
  { unfold s. rewrite !all_chars_app, bits_pad_bits, andb_true_r. cbn.
    rewrite flip_bit_bit, !andb_true_r. pose proof (Hbits j Hj) as Hb.
    eapply all_chars_prefix in Hb; [|exact Hp]. rewrite all_chars_app in Hb.
    apply andb_true_iff in Hb as [? _]. done. }
  { intros x Hx. unfold s. rewrite str_length_app, bits_pad_length.
    enough (String.length x ≤ n)%nat by lia. apply max_list_elem_of_le.
    apply list_elem_of_fmap. exists x. by rewrite elem_of_elements. }
  exists k. split; [done|].
  assert (String.prefix (snoc p (flip_bit c)) s = true) as Hps
    by (apply prefix_spec; by eexists).
  destruct (prefix_comparable _ _ _ Hps Hks) as [?|Hkp]; [done|].
  destruct (decide (String.length k ≤ String.length p)%nat) as [Hl|Hl].
  - assert (String.prefix k p = true) as Hkp'.
    { apply prefix_spec in Hkp as [t Ht]. by eapply prefix_app_inv. }
    assert (String.prefix p j = true) as Hpj
      by (eapply prefix_trans; [|exact Hp]; apply prefix_spec; by eexists).
    assert (k = j) as -> by (apply Hpf; [done|done|by eapply prefix_trans]).
    apply prefix_length in Hp. rewrite length_snoc in Hp. lia.
  - rewrite (prefix_eq_length _ _ Hkp); [apply prefix_refl|].
    apply prefix_length in Hkp. rewrite length_snoc in *. lia.
Qed.

Lemma complete_covers o1 o2 d :
  o1 ≡ₚ elements d → o2 ≡ₚ elements d → bit_set d →
  pulseIsComplete o1 o2 d = Some true → covers_tree d.
Proof.
  intros Ho1 Ho2 Hbits Hc. destruct (decide (d = ∅)) as [->|Hne]; [done|].
  destruct (decide ("" ∈ d)) as [Hroot|Hroot].
  - intros s _ _. exists "". split; [done|by destruct s].
  - destruct (pulseIsComplete_closed o1 o2 d) as (b & Hb & Hcl); try done.
    rewrite Hb in Hc. simplify_eq. apply closed_covers; [done|done|]. by apply Hcl.
Qed.

(** ** Properties *)

Lemma complete_iff_covers o1 o2 d :
  o1 ≡ₚ elements d → o2 ≡ₚ elements d → bit_set d → prefix_free d →
  ∃ b, pulseIsComplete o1 o2 d = Some b ∧ (b = true ↔ covers_tree d).
Proof.
  intros Ho1 Ho2 Hbits Hpf. destruct (decide (d = ∅)) as [->|Hne].
  { exists false. split; [done|]. split; [done|]. intros Hcov.
    destruct (Hcov "") as (j & Hj & _); set_solver. }
  destruct (decide ("" ∈ d)) as [Hroot|Hroot].
  - assert (d = {[""]}) as ->.
    { apply set_eq. intros j. split; [|set_solver]. intros Hj.
      apply elem_of_singleton. symmetry. apply Hpf; [done|done|by destruct j]. }
    exists true. split; [done|]. split; [|done]. intros _ s _ _. exists "".
    split; [set_solver|by destruct s].
  - destruct (pulseIsComplete_closed o1 o2 d) as (b & -> & Hb); try done.
    exists b. split; [done|]. rewrite Hb. split.
    + by apply closed_covers.
    + by apply covers_closed.
Qed.

Lemma complete_total o1 o2 d :
  o1 ≡ₚ elements d → o2 ≡ₚ elements d → bit_set d → prefix_free d →
  is_Some (pulseIsComplete o1 o2 d).
Proof. intros. by destruct (complete_iff_covers o1 o2 d) as (b & -> & _). Qed.

(** C5: on the jets of one pulse -- bit strings of which none lies inside another
    -- [pulseIsComplete] does not panic and answers [true] exactly when the jets
    cover the whole tree, in whatever order the runtime ranges over the map and
    whatever the cache of the second loop holds. *)
Theorem pulseIsComplete_spec o1 o2 d :
  o1 ≡ₚ elements d → o2 ≡ₚ elements d → bit_set d → prefix_free d →
  ∃ b, pulseIsComplete o1 o2 d = Some b ∧ (b = true ↔ covers_tree d).
Proof. apply complete_iff_covers. Qed.

(** [pulseIsComplete] is never wrong about completeness: if it answers [true]
    for any set of bit strings, nested jets included, the jets cover the tree. *)
Theorem pulseIsComplete_sound o1 o2 d :
  o1 ≡ₚ elements d → o2 ≡ₚ elements d → bit_set d →
  pulseIsComplete o1 o2 d = Some true → covers_tree d.
Proof. apply complete_covers. Qed.

Definition ex_jets : gset string := {["00"; "01"; "1"]}.

Lemma ex_jets_ok : bit_set ex_jets ∧ prefix_free ex_jets.
Proof.
  split.
  - intros j Hj. unfold ex_jets in Hj. set_unfold. by destruct Hj as [[-> | ->] | ->].
  - intros a b Ha Hb. unfold ex_jets in *. set_unfold.
    by destruct Ha as [[-> | ->] | ->], Hb as [[-> | ->] | ->].
Defined.

Lemma pulseIsComplete_spec_witness :
  pulseIsComplete (elements ex_jets) (elements ex_jets) ex_jets = Some true ∧ covers_tree ex_jets.
Proof.
  assert (pulseIsComplete (elements ex_jets) (elements ex_jets) ex_jets = Some true) as Hc
    by (vm_compute; reflexivity).
  split; [exact Hc|].
  destruct (pulseIsComplete_spec (elements ex_jets) (elements ex_jets) ex_jets) as (b & Hb & Hcov);
    [done|done|apply ex_jets_ok|apply ex_jets_ok|].
  apply Hcov. rewrite Hb in Hc. injection Hc as ->. reflexivity.
Defined.

Lemma pulseIsComplete_sound_witness : covers_tree ex_jets.
Proof.
  apply (pulseIsComplete_sound (elements ex_jets) (elements ex_jets));
    [done|done|apply ex_jets_ok|vm_compute; reflexivity].
Defined.

(** A set that holds the root jet together with another one makes the code
    index before the start of a string: the panic depends on the range order. *)
Example pulseIsComplete_panics :
  pulseIsComplete [""; "0"] [""; "0"] {[""; "0"]} = None.
Proof. reflexivity. Qed.
