(* ===== verification/ControllerProofs.v ===== *)
(** * What the controller guarantees

    The controller runs two goroutines beside the processor's calls of
    [SetJetDropData] and its writes to the database.  [step] is one atomic action
    of any of them, so a run is any interleaving; the theorems are invariants of
    every run from a started controller, and functional statements about a whole
    pass of [eraseJetDropRegister] and about [Start]. *)

From S2P Require Import Prelude GoStd Platform RefPlatform Types Models Gorm RefDb Interfaces Storage StorageInstance MissedData Controller Completeness.

Section controller.
Context `{Platform, StorageLaws DB, JetDropsExtractor EX}.
#[local] Abbreviation W := (World DB EX).
Implicit Types (c : Controller) (w : W) (db : DB).

Abbreviation reg w := (c_jetDropRegister (w_c w)).

(** ** One visit *)

(** A visit takes its orders from the jets it looks at. *)
Definition visit_ok (v : Visit) (d : gset string) : Prop :=
  v_o1 v ≡ₚ elements d ∧ v_o2 v ≡ₚ elements d.

Lemma reloadData_frame now from to w :
  w_db (reloadData now from to w) = w_db w ∧ reg (reloadData now from to w) = reg w ∧
  c_sequentialPulse (w_c (reloadData now from to w)) = c_sequentialPulse (w_c w) ∧
  c_platformVersion (w_c (reloadData now from to w)) = c_platformVersion (w_c w).
Proof. unfold reloadData. destruct (Add _ _ _ _) as [[] ?]; cbn; done. Qed.

(** What a visit does, in three cases. *)
Lemma visit_pulse_cases v d w w' :
  visit_pulse v d w = Some w' →
  (pulseIsComplete (v_o1 v) (v_o2 v) d = Some true ∧
     ((∃ e, st_CompletePulse (tp_PulseNo (v_pulse v)) (w_db w) = Err e ∧ w' = w) ∨
      ∃ db', st_CompletePulse (tp_PulseNo (v_pulse v)) (w_db w) = Ok db' ∧
        w' = mkWorld (set_register (delete (v_pulse v) (reg w)) (w_c w)) db' (w_ex w))) ∨
  (pulseIsComplete (v_o1 v) (v_o2 v) d = Some false ∧
     w' = if decide (c_platformVersion (w_c w) ≠ 1)
          then reloadData (v_now v) (tp_PrevPulseNumber (v_pulse v)) (tp_PulseNo (v_pulse v)) w
          else w).
Proof.
  unfold visit_pulse. destruct (pulseIsComplete _ _ _) as [[]|]; cbn; [| |done].
  - destruct (st_CompletePulse _ _) as [db'|e] eqn:Hc; intros [= <-]; left; (split; [done|]).
    + right. by exists db'.
    + left. by exists e.
  - intros Hv. right. split; [done|]. by case_decide; simplify_eq.
Qed.

Lemma visit_pulse_total v d w :
  visit_ok v d → bit_set d → prefix_free d → is_Some (visit_pulse v d w).
Proof.
  intros [Ho1 Ho2] Hb Hp. unfold visit_pulse.
  destruct (complete_total (v_o1 v) (v_o2 v) d) as [[] ->]; try done; cbn;
    repeat case_match; by eexists.
Qed.

(** ** The system and its steps *)

(** The controller's world, the copy the maintainer works through, and the jets
    ever reported for each pulse. *)
Record Sys := mkSys {
  s_w : W;
  s_copy : gmap TPulse (gset string);
  s_seen : gmap TPulse (gset string);
}.

Definition see (p : TPulse) (jetID : string) (seen : gmap TPulse (gset string))
  : gmap TPulse (gset string) :=
  <[p := {[jetID]} ∪ default ∅ (seen !! p)]> seen.

Definition set_db (db : DB) (w : W) : W := mkWorld (w_c w) db (w_ex w).

Inductive step : Sys → Sys → Prop :=
  (* the processor reports a drop *)
  | step_set p jetID s :
      all_chars is_bit jetID = true → tp_PulseNo p ≠ 0 →
      step s (mkSys (with_c (SetJetDropData p jetID (w_c (s_w s))) (s_w s))
                (s_copy s) (see p jetID (s_seen s)))
  (* pulseMaintainer starts a pass, visits a pulse, ends the pass *)
  | step_copy s : step s (mkSys (s_w s) (reg (s_w s)) (s_seen s))
  | step_visit v d s w :
      s_copy s !! v_pulse v = Some d → visit_ok v d → visit_pulse v d (s_w s) = Some w →
      step s (mkSys w (delete (v_pulse v) (s_copy s)) (s_seen s))
  | step_end s :
      step s (mkSys (with_c (count_incomplete (w_c (s_w s))) (s_w s)) (s_copy s) (s_seen s))
  (* pulseSequence takes a turn *)
  | step_sequence now s :
      step s (mkSys (pulseSequence_turn now (s_w s)).1 (s_copy s) (s_seen s))
  (* the processor writes: pulses as the platform sends them, drops, records *)
  | step_save_pulse p s db :
      p_IsComplete p = false → p_IsSequential p = false → p_PulseNumber p ≠ 0 →
      (∀ old, t_pulses (st_tables (w_db (s_w s))) !! p_PulseNumber p = Some old →
              p_PrevPulseNumber old = p_PrevPulseNumber p) →
      st_SavePulse p (w_db (s_w s)) = Ok db →
      step s (mkSys (set_db db (s_w s)) (s_copy s) (s_seen s))
  | step_save_drop j rs n s db :
      n ≠ 0 → st_SaveJetDropData j rs n (w_db (s_w s)) = Ok db →
      step s (mkSys (set_db db (s_w s)) (s_copy s) (s_seen s)).

(** ** Invariants *)

(** The jets of [r] were all reported. *)
Definition reported (seen r : gmap TPulse (gset string)) : Prop :=
  ∀ p d, r !! p = Some d →
    tp_PulseNo p ≠ 0 ∧ bit_set d ∧ ∃ d', seen !! p = Some d' ∧ d ⊆ d'.

(** A pulse that is complete in the database was so from the start, or the jets
    reported for it cover the tree. *)
Definition justified (complete0 : Z → Prop) (seen : gmap TPulse (gset string)) (t : Tables)
  : Prop :=
  ∀ n p, t_pulses t !! n = Some p → p_IsComplete p = true →
    complete0 n ∨ ∃ k d, seen !! k = Some d ∧ tp_PulseNo k = n ∧ covers_tree d.

Definition sequential_pulse (t : Tables) (n : Z) : Prop :=
  ∃ p, t_pulses t !! n = Some p ∧ p_IsSequential p = true.

(** The sequential pulses are complete and form a chain that starts at 0. *)
Definition chain (t : Tables) : Prop :=
  ∀ n p, t_pulses t !! n = Some p →
    n ≠ 0 ∧ p_PulseNumber p = n ∧
    (p_IsSequential p = true →
       p_IsComplete p = true ∧
       (p_PrevPulseNumber p = 0 ∨ sequential_pulse t (p_PrevPulseNumber p))).

Definition at_chain_end (t : Tables) (c : Controller) : Prop :=
  p_PulseNumber (c_sequentialPulse c) = 0 ∨ sequential_pulse t (p_PulseNumber (c_sequentialPulse c)).

Record Inv (complete0 : Z → Prop) (s : Sys) : Prop := {
  inv_reg : reported (s_seen s) (reg (s_w s));
  inv_copy : reported (s_seen s) (s_copy s);
  inv_justified : justified complete0 (s_seen s) (st_tables (w_db (s_w s)));
  inv_chain : chain (st_tables (w_db (s_w s)));
  inv_end : at_chain_end (st_tables (w_db (s_w s))) (w_c (s_w s));
}.

(** ** Lemmas: the parts of the invariant *)

Lemma covers_tree_mono (d d' : gset string) : d ⊆ d' → covers_tree d → covers_tree d'.
Proof.
  intros Hsub Hcov x Hx Hlong. destruct (Hcov x Hx) as (j & Hj & Hp); [set_solver|].
  exists j. split; [set_solver|done].
Qed.

Lemma see_lookup p jetID seen k d :
  seen !! k = Some d → ∃ d', see p jetID seen !! k = Some d' ∧ d ⊆ d'.
Proof.
  intros Hk. unfold see. destruct (decide (p = k)) as [->|Hne].
  - rewrite lookup_insert_eq, Hk. eexists. split; [done|]. cbn. set_solver.
  - rewrite lookup_insert_ne by done. by exists d.
Qed.

Lemma reported_see p jetID seen r :
  reported seen r → reported (see p jetID seen) r.
Proof.
  intros Hr k d Hk. destruct (Hr k d Hk) as (Hn & Hb & d1 & Hd1 & Hsub).
  destruct (see_lookup p jetID _ _ _ Hd1) as (d2 & Hd2 & Hsub2).
  split_and!; [done|done|]. exists d2. split; [done|set_solver].
Qed.

Lemma reported_set p jetID seen c :
  all_chars is_bit jetID = true → tp_PulseNo p ≠ 0 →
  reported seen (c_jetDropRegister c) →
  reported (see p jetID seen) (c_jetDropRegister (SetJetDropData p jetID c)).
Proof.
  intros Hbits Hn Hr k d Hk. unfold SetJetDropData in Hk. cbn in Hk.
  destruct (decide (p = k)) as [->|Hne].
  - rewrite lookup_insert_eq in Hk. injection Hk as <-.
    assert (∃ d', default ∅ (seen !! k) = d' ∧
      (match c_jetDropRegister c !! k with Some d => d | None => ∅ end) ⊆ d' ∧
      bit_set (match c_jetDropRegister c !! k with Some d => d | None => ∅ end))
      as (d' & Hd' & Hsub & Hb).
    { destruct (c_jetDropRegister c !! k) as [d|] eqn:Hd.
      - destruct (Hr k d Hd) as (_ & Hb & d' & -> & Hsub). by exists d'.
      - eexists. split; [done|]. split; [set_solver|]. by intros j ?%not_elem_of_empty. }
    split_and!; [done| |].
    + intros j [->%elem_of_singleton|Hj]%elem_of_union; [done|by apply Hb].
    + unfold see. rewrite lookup_insert_eq, Hd'. eexists. split; [done|set_solver].
  - rewrite lookup_insert_ne in Hk by done. by eapply reported_see.
Qed.

Lemma reported_sub seen r r' :
  r' ⊆ r → reported seen r → reported seen r'.
Proof. intros Hsub Hr k d Hk. apply Hr. by eapply lookup_weaken. Qed.

Lemma justified_see complete0 p jetID seen t :
  justified complete0 seen t → justified complete0 (see p jetID seen) t.
Proof.
  intros Hj n q Hq Hc. destruct (Hj n q Hq Hc) as [?|(k & d & Hk & Hn & Hcov)]; [by left|right].
  destruct (see_lookup p jetID _ _ _ Hk) as (d' & Hk' & Hsub).
  exists k, d'. split_and!; [done|done|]. by eapply covers_tree_mono.
Qed.

(** A row of the pulses table is replaced. *)
Lemma justified_insert complete0 seen t n q :
  justified complete0 seen t →
  (p_IsComplete q = true →
     (∃ p, t_pulses t !! n = Some p ∧ p_IsComplete p = true) ∨
     ∃ k d, seen !! k = Some d ∧ tp_PulseNo k = n ∧ covers_tree d) →
  justified complete0 seen (set_pulses (<[n := q]> (t_pulses t)) t).
Proof.
  intros Hj Hq m p Hp Hc. cbn in Hp. apply lookup_insert_Some in Hp as [[<- <-]|[_ Hp]].
  - destruct (Hq Hc) as [(p & Hp & Hpc)|?]; [by eapply Hj|by right].
  - by eapply Hj.
Qed.

Lemma chain_insert t n q :
  chain t → n ≠ 0 → p_PulseNumber q = n →
  (∀ p, t_pulses t !! n = Some p → p_IsSequential p = true → p_IsSequential q = true) →
  (p_IsSequential q = true →
     p_IsComplete q = true ∧ (p_PrevPulseNumber q = 0 ∨ sequential_pulse t (p_PrevPulseNumber q))) →
  let t' := set_pulses (<[n := q]> (t_pulses t)) t in
  chain t' ∧ ∀ m, sequential_pulse t m → sequential_pulse t' m.
Proof.
  intros Hch Hn Hqn Hkeep Hq t'.
  assert (∀ m, sequential_pulse t m → sequential_pulse t' m) as Hmono.
  { intros m (p & Hp & Hs). unfold sequential_pulse, t'. cbn.
    destruct (decide (n = m)) as [->|Hne].
    - exists q. rewrite lookup_insert_eq. eauto.
    - exists p. by rewrite lookup_insert_ne. }
  split; [|done]. intros m p Hp. cbn in Hp.
  apply lookup_insert_Some in Hp as [[<- <-]|[_ Hp]].
  - split_and!; [done|done|]. intros [? [?|?]]%Hq; auto.
  - destruct (Hch m p Hp) as (Hm1 & Hm2 & Hm3). split_and!; [done|done|].
    intros [? [?|?]]%Hm3; auto.
Qed.

Lemma at_chain_end_mono t t' c :
  (∀ m, sequential_pulse t m → sequential_pulse t' m) → at_chain_end t c → at_chain_end t' c.
Proof. intros Hm [?|?]; [by left|right; auto]. Qed.

(** The rows of the pulses table that a write of the storage leaves behind. *)
Lemma set_pulses_same t : set_pulses (t_pulses t) t = t.
Proof. by destruct t. Qed.

Lemma alter_cases (f : Pulse → Pulse) n (m : gmap Z Pulse) :
  alter f n m = match m !! n with Some p => <[n := f p]> m | None => m end.
Proof.
  apply map_eq. intros k. destruct (m !! n) as [p|] eqn:Hn; destruct (decide (n = k)) as [->|Hk];
    rewrite ?lookup_alter_eq, ?lookup_alter_ne, ?lookup_insert_eq, ?lookup_insert_ne by done;
    by rewrite ?Hn.
Qed.

(** ** The invariant is preserved *)

(** The invariant's clauses about the database, for a database write. *)
Definition db_inv (complete0 : Z → Prop) (seen : gmap TPulse (gset string)) (t : Tables)
  (c : Controller) : Prop :=
  justified complete0 seen t ∧ chain t ∧ at_chain_end t c.

Lemma db_inv_insert complete0 seen t c n q :
  db_inv complete0 seen t c → n ≠ 0 → p_PulseNumber q = n →
  (∀ p, t_pulses t !! n = Some p → p_IsSequential p = true → p_IsSequential q = true) →
  (p_IsSequential q = true →
     p_IsComplete q = true ∧ (p_PrevPulseNumber q = 0 ∨ sequential_pulse t (p_PrevPulseNumber q))) →
  (p_IsComplete q = true →
     (∃ p, t_pulses t !! n = Some p ∧ p_IsComplete p = true) ∨
     ∃ k d, seen !! k = Some d ∧ tp_PulseNo k = n ∧ covers_tree d) →
  db_inv complete0 seen (set_pulses (<[n := q]> (t_pulses t)) t) c.
Proof.
  intros (Hj & Hch & He) Hn Hqn Hkeep Hq Hc.
  destruct (chain_insert t n q) as [Hch' Hmono]; try done.
  split_and!; [by apply justified_insert|done|by eapply at_chain_end_mono].
Qed.

Lemma db_inv_complete complete0 seen w db key d :
  db_inv complete0 seen (st_tables (w_db w)) (w_c w) →
  tp_PulseNo key ≠ 0 → seen !! key = Some d → covers_tree d →
  st_CompletePulse (tp_PulseNo key) (w_db w) = Ok db →
  db_inv complete0 seen (st_tables db) (w_c w).
Proof.
  intros Hinv Hn Hd Hcov Hst. apply st_CompletePulse_Ok in Hst as (p & Hp & ->); [|done].
  pose proof Hinv as (_ & Hch & _). destruct (Hch _ _ Hp) as (_ & Hpn & Hseq).
  apply db_inv_insert; try done.
  - intros p' Hp' Hs. by simplify_eq.
  - intros Hs%Hseq. split; [done|]. tauto.
  - intros _. right. by exists key, d.
Qed.

Lemma db_inv_sequence complete0 seen w db next :
  db_inv complete0 seen (st_tables (w_db w)) (w_c w) →
  st_GetPulseByPrev (c_sequentialPulse (w_c w)) (w_db w) = Ok next →
  p_IsComplete next = true →
  st_SequencePulse (p_PulseNumber next) (w_db w) = Ok db →
  db_inv complete0 seen (st_tables db) (set_sequential next (w_c w)).
Proof.
  intros Hinv Hnext Hcomp Hst. pose proof Hinv as (Hj & Hch & He).
  apply st_GetPulseByPrev_Ok in Hnext as [[k Hk] Hprev].
  destruct (Hch _ _ Hk) as (Hn & Hpn & _). rewrite Hpn in Hst.
  apply st_SequencePulse_Ok in Hst as (p & Hp & ->); [|done]. subst k.
  assert (p = next) as -> by congruence.
  assert (db_inv complete0 seen
    (set_pulses (<[p_PulseNumber next := mark_sequential next]> (t_pulses (st_tables (w_db w))))
       (st_tables (w_db w))) (w_c w)) as (Hj' & Hch' & _).
  { apply db_inv_insert; try done.
    - intros _. split; [done|]. cbn. rewrite Hprev. destruct He as [->|?]; auto.
    - intros _. left. by exists next. }
  split_and!; [done|done|]. right. exists (mark_sequential next). cbn.
  by rewrite lookup_insert_eq.
Qed.

Lemma db_inv_save_pulse complete0 seen w db p :
  db_inv complete0 seen (st_tables (w_db w)) (w_c w) →
  p_IsComplete p = false → p_IsSequential p = false → p_PulseNumber p ≠ 0 →
  (∀ old, t_pulses (st_tables (w_db w)) !! p_PulseNumber p = Some old →
          p_PrevPulseNumber old = p_PrevPulseNumber p) →
  st_SavePulse p (w_db w) = Ok db →
  db_inv complete0 seen (st_tables db) (w_c w).
Proof.
  intros Hinv Hc Hs Hn Hprev Hst. apply st_SavePulse_Ok in Hst as ->.
  pose proof Hinv as (_ & Hch & _).
  destruct (t_pulses (st_tables (w_db w)) !! p_PulseNumber p) as [old|] eqn:Hold.
  - destruct (Hch _ _ Hold) as (_ & Hon & Hseq). apply db_inv_insert; try done.
    + intros p' Hp' Hs'. by simplify_eq.
    + cbn. intros Hso. rewrite <- (Hprev old) by done. auto.
    + cbn. intros Hco. left. by exists old.
  - apply db_inv_insert; try done; rewrite ?Hold, ?Hc, ?Hs; done.
Qed.

Lemma db_inv_save_drop complete0 seen w db j rs n :
  db_inv complete0 seen (st_tables (w_db w)) (w_c w) → n ≠ 0 →
  st_SaveJetDropData j rs n (w_db w) = Ok db →
  db_inv complete0 seen (st_tables db) (w_c w).
Proof.
  intros Hinv Hn Hst. apply st_SaveJetDropData_Ok in Hst as (a & b & ->); [|done].
  rewrite alter_cases.
  destruct (t_pulses (st_tables (w_db w)) !! n) as [p|] eqn:Hp; [|exact Hinv].
  pose proof Hinv as (_ & Hch & _). destruct (Hch _ _ Hp) as (_ & Hpn & Hseq).
  apply (db_inv_insert complete0 seen (st_tables (w_db w)) (w_c w) n (add_amounts a b p)); try done.
  - intros p' Hp' Hs'. by simplify_eq.
  - intros Hc. left. by exists p.
Qed.

Lemma pulseSequence_turn_cases now w :
  let w' := (pulseSequence_turn now w).1 in
  (w_db w' = w_db w ∧ reg w' = reg w ∧ c_sequentialPulse (w_c w') = c_sequentialPulse (w_c w)) ∨
  ∃ next db, st_GetPulseByPrev (c_sequentialPulse (w_c w)) (w_db w) = Ok next ∧
    p_IsComplete next = true ∧ st_SequencePulse (p_PulseNumber next) (w_db w) = Ok db ∧
    w' = mkWorld (set_sequential next (w_c w)) db (w_ex w).
Proof.
  unfold pulseSequence_turn.
  assert (∀ completed,
    let w' := (match st_GetNextSavedPulse (c_sequentialPulse (w_c w)) completed (w_db w) with
     | Err ErrRecordNotFound | Ok _ =>
         let toPulse := match st_GetNextSavedPulse (c_sequentialPulse (w_c w)) completed (w_db w)
                        with Ok p => p | Err _ => emptyPulse end in
         if decide (toPulse = emptyPulse) then (w, cfg_SequentialPeriod (c_cfg (w_c w)))
         else (reloadData now (p_PulseNumber (c_sequentialPulse (w_c w)))
                 (p_PrevPulseNumber toPulse) w, cfg_SequentialPeriod (c_cfg (w_c w)))
     | Err _ => (w, cfg_SequentialPeriod (c_cfg (w_c w)))
     end).1 in
    w_db w' = w_db w ∧ reg w' = reg w ∧ c_sequentialPulse (w_c w') = c_sequentialPulse (w_c w))
    as Hreload.
  { intros completed. destruct (st_GetNextSavedPulse _ _ _) as [p|[]]; cbn; try done.
    case_decide; cbn; [done|].
    destruct (reloadData_frame now (p_PulseNumber (c_sequentialPulse (w_c w)))
      (p_PrevPulseNumber p) w) as (? & ? & ? & ?); done. }
  destruct (st_GetPulseByPrev _ _) as [next|[]] eqn:Hnext; try (by left); [|by left; apply Hreload].
  destruct (p_IsComplete next) eqn:Hc; [|left; apply Hreload].
  destruct (st_SequencePulse _ _) as [db|] eqn:Hs; [right|by left]. by exists next, db.
Qed.

Lemma Inv_db complete0 s :
  Inv complete0 s ↔
  reported (s_seen s) (reg (s_w s)) ∧ reported (s_seen s) (s_copy s) ∧
  db_inv complete0 (s_seen s) (st_tables (w_db (s_w s))) (w_c (s_w s)).
Proof.
  split.
  - intros []. unfold db_inv. tauto.
  - intros (? & ? & ? & ? & ?). by constructor.
Qed.

Lemma step_Inv complete0 s s' : Inv complete0 s → step s s' → Inv complete0 s'.
Proof.
  rewrite !Inv_db. intros (Hreg & Hcopy & Hdb) Hstep.
  destruct Hstep as [p jetID s Hb Hn|s|v d s w Hd [Ho1 Ho2] Hv|s|now s|p s db Hc Hsq Hn Hprev Hst
                    |j rs n s db Hn Hst]; cbn.
  - split_and!; [by apply reported_set|by apply reported_see|].
    destruct Hdb as (Hj & Hch & He). split_and!; [by apply justified_see|done|exact He].
  - done.
  - destruct (Hcopy _ _ Hd) as (Hn & Hbits & d' & Hd' & Hsub).
    assert (reported (s_seen s) (delete (v_pulse v) (s_copy s))) as Hcopy'
      by (eapply reported_sub; [apply delete_subseteq|done]).
    apply visit_pulse_cases in Hv as
      [(Hcomp & [(e & _ & ->)|(db' & Hst & ->)])|(_ & ->)]; [done| |].
    + split_and!; [eapply reported_sub; [apply delete_subseteq|done]|done|].
      change (db_inv complete0 (s_seen s) (st_tables db') (w_c (s_w s))).
      eapply db_inv_complete; [done|done|done| |done].
      eapply covers_tree_mono; [exact Hsub|]. by eapply (complete_covers (v_o1 v) (v_o2 v)).
    + case_decide; [|done]. destruct (reloadData_frame (v_now v) (tp_PrevPulseNumber (v_pulse v))
        (tp_PulseNo (v_pulse v)) (s_w s)) as (Hf1 & Hf2 & Hf3 & _).
      rewrite Hf1, Hf2. split_and!; [done|done|]. unfold db_inv, at_chain_end. by rewrite Hf3.
  - assert (c_jetDropRegister (count_incomplete (w_c (s_w s))) ⊆ reg (s_w s) ∧
            c_sequentialPulse (count_incomplete (w_c (s_w s))) = c_sequentialPulse (w_c (s_w s)))
      as [Hsub Hseq].
    { unfold count_incomplete. repeat case_decide; cbn; try done. split; [|done].
      apply map_filter_subseteq. }
    split_and!; [by eapply reported_sub|done|]. unfold db_inv, at_chain_end. by rewrite Hseq.
  - destruct (pulseSequence_turn_cases now (s_w s)) as [(Hf1 & Hf2 & Hf3)|(next & db & Hg & Hc & Hst & ->)].
    + rewrite Hf1, Hf2. split_and!; [done|done|]. unfold db_inv, at_chain_end. by rewrite Hf3.
    + split_and!; [done|done|]. by eapply db_inv_sequence.
  - split_and!; [done|done|]. by eapply db_inv_save_pulse.
  - split_and!; [done|done|]. by eapply db_inv_save_drop.
Qed.

(** ** Starting *)

Lemma set_all_jets key jds c d :
  c_jetDropRegister c !! key = Some d →
  let c' := foldl (λ c jd, SetJetDropData key (jd_JetID jd) c) c jds in
  c_jetDropRegister c' !! key = Some (list_to_set (jd_JetID <$> jds) ∪ d) ∧
  (∀ k, k ≠ key → c_jetDropRegister c' !! k = c_jetDropRegister c !! k) ∧
  c_sequentialPulse c' = c_sequentialPulse c.
Proof.
  revert c d. induction jds as [|jd jds IH]; intros c d Hd; cbn.
  - split_and!; [|done|done]. rewrite Hd. f_equal. set_solver.
  - destruct (IH (SetJetDropData key (jd_JetID jd) c) ({[jd_JetID jd]} ∪ d)) as (Ha & Hb & Hc).
    { unfold SetJetDropData. cbn. by rewrite lookup_insert_eq, Hd. }
    split_and!; [| |by rewrite Hc].
    + rewrite Ha. f_equal. set_solver.
    + intros k Hk. rewrite Hb by done. unfold SetJetDropData. cbn.
      by rewrite lookup_insert_ne.
Qed.

(** The jets of the drops stored for a pulse. *)
Definition stored_jets (t : Tables) (n : Z) (d : gset string) : Prop :=
  ∀ j, j ∈ d ↔ ∃ jd, stored_drop t jd ∧ jd_PulseNumber jd = n ∧ jd_JetID jd = j.

Lemma load_incomplete_spec ps db c c' :
  load_incomplete ps db c = (c', None) →
  c_sequentialPulse c' = c_sequentialPulse c ∧
  ∀ k, (∃ p d, p ∈ ps ∧ k = stored_key p ∧ c_jetDropRegister c' !! k = Some d ∧
               stored_jets (st_tables db) (p_PulseNumber p) d) ∨
       ((∀ p, p ∈ ps → k ≠ stored_key p) ∧ c_jetDropRegister c' !! k = c_jetDropRegister c !! k).
Proof.
  revert c. induction ps as [|p ps IH]; intros c Hl; cbn in Hl.
  { simplify_eq. split; [done|]. intros k. right. split; [|done]. by intros p ?%not_elem_of_nil. }
  destruct (st_GetJetDrops p db) as [jds|] eqn:Hjds; [|done].
  apply IH in Hl as [Hseq Hreg].
  destruct (set_all_jets (stored_key p) jds
    (set_register (<[stored_key p := ∅]> (c_jetDropRegister c)) c) ∅) as (Ha & Hb & Hc).
  { cbn. by rewrite lookup_insert_eq. }
  split; [by rewrite Hseq, Hc|]. intros k.
  destruct (Hreg k) as [(q & d & Hq & Hk & Hd & Hjets)|[Hnone Hk]].
  - left. exists q, d. split_and!; [by right|done|done|done].
  - rewrite Hk. destruct (decide (k = stored_key p)) as [->|Hne].
    + left. exists p, (list_to_set (jd_JetID <$> jds) ∪ ∅). split_and!; [by left|done|done|].
      intros j. rewrite elem_of_union, elem_of_list_to_set, list_elem_of_fmap.
      setoid_rewrite (st_GetJetDrops_Ok _ _ _ Hjds). set_solver.
    + right. split; [by intros q [->|?]%elem_of_cons; [|apply Hnone]|].
      rewrite Hb by done. cbn. by rewrite lookup_insert_ne.
Qed.

Lemma Start_register cfg pv db c :
  Start db (NewController cfg pv) = (c, None) →
  (∀ k d, c_jetDropRegister c !! k = Some d →
     ∃ p, stored_pulse (st_tables db) p ∧ p_IsComplete p = false ∧ k = stored_key p ∧
          stored_jets (st_tables db) (p_PulseNumber p) d) ∧
  (∀ p, stored_pulse (st_tables db) p → p_IsComplete p = false →
     is_Some (c_jetDropRegister c !! stored_key p)) ∧
  (c_sequentialPulse c = emptyPulse ∧
     (∀ p, stored_pulse (st_tables db) p → p_IsSequential p = false) ∨
   stored_pulse (st_tables db) (c_sequentialPulse c) ∧
     p_IsSequential (c_sequentialPulse c) = true ∧
     ∀ p, stored_pulse (st_tables db) p → p_IsSequential p = true →
          p_PulseNumber p ≤ p_PulseNumber (c_sequentialPulse c)).
Proof.
  unfold Start, setIncompletePulses. destruct (st_GetIncompletePulses db) as [ps|] eqn:Hps; [|done].
  destruct (load_incomplete ps db _) as [c1 [err|]] eqn:Hload; [done|].
  apply load_incomplete_spec in Hload as [Hseq Hreg].
  pose proof (st_GetIncompletePulses_Ok _ _ Hps) as Hin.
  unfold setSeqPulse. destruct (st_GetSequentialPulse db) as [q|] eqn:Hq; [|done]. cbn.
  intros Hc. assert (c_jetDropRegister c = c_jetDropRegister c1 ∧
    c_sequentialPulse c = q) as [Hr Hs].
  { injection Hc as <-. case_decide; [subst q|]; done. }
  rewrite Hr, Hs. split_and!.
  - intros k d Hd. destruct (Hreg k) as [(p & d' & Hp & -> & Hd' & Hjets)|[_ Hk]].
    + simplify_eq. apply Hin in Hp as [? ?]. exists p. done.
    + cbn in Hk. by rewrite Hk, lookup_empty in Hd.
  - intros p Hp Hinc. destruct (Hreg (stored_key p)) as [(q' & d & _ & _ & Hd & _)|[Hno _]].
    + by exists d.
    + by destruct (Hno p (proj2 (Hin p) (conj Hp Hinc))).
  - by apply st_GetSequentialPulse_Ok.
Qed.

(** ** Runs *)

Definition bits_stored (t : Tables) : Prop :=
  ∀ jd, stored_drop t jd → all_chars is_bit (jd_JetID jd) = true.

(** A controller just started on a database. *)
Definition started (s : Sys) : Prop :=
  ∃ cfg pv db c ex,
    chain (st_tables db) ∧ bits_stored (st_tables db) ∧
    Start db (NewController cfg pv) = (c, None) ∧
    s = mkSys (mkWorld c db ex) ∅ (c_jetDropRegister c).

Definition complete_in (t : Tables) (n : Z) : Prop :=
  ∃ p, t_pulses t !! n = Some p ∧ p_IsComplete p = true.

Lemma started_Inv s : started s → Inv (complete_in (st_tables (w_db (s_w s)))) s.
Proof.
  intros (cfg & pv & db & c & ex & Hch & Hbits & Hst & ->).
  apply Start_register in Hst as (Hreg & _ & Hseq).
  assert (reported (c_jetDropRegister c) (c_jetDropRegister c)) as Hrep.
  { intros k d Hk. destruct (Hreg k d Hk) as (p & [n Hp] & _ & -> & Hjets).
    destruct (Hch _ _ Hp) as (Hn & Hpn & _). split_and!.
    - cbn. congruence.
    - intros j (jd & Hjd & _ & <-)%Hjets. by apply Hbits.
    - by exists d. }
  constructor; cbn.
  - done.
  - by intros k d; rewrite lookup_empty.
  - intros n p Hp Hc. left. by exists p.
  - done.
  - unfold at_chain_end. destruct Hseq as [[-> _]|([n Hp] & Hs & _)]; [by left|right].
    destruct (Hch _ _ Hp) as (_ & Hpn & _). exists (c_sequentialPulse c). by rewrite Hpn.
Qed.

Lemma reachable_Inv s0 s :
  started s0 → rtc step s0 s → Inv (complete_in (st_tables (w_db (s_w s0)))) s.
Proof.
  intros Hs0%started_Inv Hrun. revert Hs0. generalize (complete_in (st_tables (w_db (s_w s0)))).
  intros complete0 Hs0. induction Hrun as [|s1 s2 s3 Hstep _ IH]; [done|].
  by eapply IH, step_Inv.
Qed.

(** ** The chain of the sequential pulses *)

(** The pulses [ns] are stored, each after the one before it, the first after [from]. *)
Fixpoint chained (t : Tables) (from : Z) (ns : list Z) : Prop :=
  match ns with
  | [] => True
  | n :: ns => (∃ p, t_pulses t !! n = Some p ∧ p_PrevPulseNumber p = from) ∧ chained t n ns
  end.

(** [ns] are the sequential pulses, all of them and each once, in one chain from 0. *)
Record whole_chain (t : Tables) (ns : list Z) : Prop := {
  wc_nodup : NoDup ns;
  wc_all : ∀ n, n ∈ ns ↔ sequential_pulse t n;
  wc_chained : chained t 0 ns;
}.

Definition chain_end (ns : list Z) : Z := default 0 (last ns).

Lemma last_default_elem (from : Z) ns : default from (last ns) ∈ from :: ns.
Proof.
  destruct (last ns) as [x|] eqn:Hl; [right; by apply last_Some_elem_of|left].
Qed.

Lemma chained_prev t from ns n p :
  chained t from ns → NoDup (from :: ns) → n ∈ ns → t_pulses t !! n = Some p →
  p_PrevPulseNumber p ≠ default from (last ns).
Proof.
  revert from. induction ns as [|m ns IH]; intros from Hl Hnd Hn Hp; [by apply elem_of_nil in Hn|].
  destruct Hl as [(q & Hq & Hprev) Hl]. apply NoDup_cons in Hnd as [Hfrom Hnd].
  assert (default from (last (m :: ns)) = default m (last ns)) as Hlast
    by (rewrite last_cons; by destruct (last ns)).
  rewrite Hlast. apply elem_of_cons in Hn as [->|Hn].
  - simplify_eq. intros Heq. apply Hfrom. rewrite Heq. apply last_default_elem.
  - by apply IH.
Qed.

Lemma chained_insert t from ns n q :
  chained t from ns →
  (∀ p, t_pulses t !! n = Some p → p_PrevPulseNumber q = p_PrevPulseNumber p) →
  chained (set_pulses (<[n := q]> (t_pulses t)) t) from ns.
Proof.
  intros Hl Hq. revert from Hl. induction ns as [|m ns IH]; intros from Hl; [done|].
  destruct Hl as [(p & Hp & Hprev) Hl]. split; [|by apply IH]. cbn.
  destruct (decide (n = m)) as [->|Hne].
  - exists q. rewrite lookup_insert_eq. split; [done|]. by rewrite (Hq p).
  - exists p. by rewrite lookup_insert_ne.
Qed.

Lemma chained_snoc t from ns n p :
  chained t from ns → t_pulses t !! n = Some p → p_PrevPulseNumber p = default from (last ns) →
  chained t from (ns ++ [n]).
Proof.
  revert from. induction ns as [|m ns IH]; intros from Hl Hp Hprev; cbn [app chained].
  - split; [by exists p|done].
  - destruct Hl as [Hm Hl]. split; [done|]. apply IH; [done|done|].
    rewrite Hprev, last_cons. by destruct (last ns).
Qed.

Lemma sequential_insert t n q m :
  sequential_pulse (set_pulses (<[n := q]> (t_pulses t)) t) m ↔
  (m = n ∧ p_IsSequential q = true) ∨ (m ≠ n ∧ sequential_pulse t m).
Proof.
  unfold sequential_pulse. cbn. split.
  - intros (p & Hp & Hs). apply lookup_insert_Some in Hp as [[<- <-]|[Hne Hp]]; eauto.
  - intros [[-> Hs]|[Hne (p & Hp & Hs)]].
    + exists q. by rewrite lookup_insert_eq.
    + exists p. by rewrite lookup_insert_ne.
Qed.

(** The chain is about the pulses only. *)
Lemma whole_chain_pulses t t' ns :
  t_pulses t' = t_pulses t → whole_chain t ns → whole_chain t' ns.
Proof.
  intros Ht [Hnd Hall Hl]. constructor; [done| |].
  - intros n. rewrite Hall. unfold sequential_pulse. by rewrite Ht.
  - clear Hnd Hall. revert Hl. generalize 0.
    induction ns as [|n ns IH]; intros from Hl; [done|].
    cbn [chained]. rewrite Ht. destruct Hl as [? ?]. split; [done|by apply IH].
Qed.

(** A write that keeps the links and the marks keeps the chain. *)
Lemma whole_chain_insert t ns n q :
  whole_chain t ns →
  (∀ p, t_pulses t !! n = Some p →
     p_PrevPulseNumber q = p_PrevPulseNumber p ∧ p_IsSequential q = p_IsSequential p) →
  (t_pulses t !! n = None → p_IsSequential q = false) →
  whole_chain (set_pulses (<[n := q]> (t_pulses t)) t) ns.
Proof.
  intros [Hnd Hall Hl] Hkeep Hnew. constructor; [done| |].
  - intros m. rewrite Hall, sequential_insert. split.
    + intros (p & Hp & Hs). destruct (decide (m = n)) as [->|]; [left|right; split; [done|by exists p]].
      split; [done|]. by rewrite (proj2 (Hkeep p Hp)).
    + intros [[-> Hs]|[_ Hm]]; [|done]. destruct (t_pulses t !! n) as [p|] eqn:Hp.
      * exists p. split; [done|]. by rewrite <- (proj2 (Hkeep p eq_refl)).
      * by rewrite Hnew in Hs.
  - apply chained_insert; [done|]. intros p Hp. by apply Hkeep.
Qed.

(** Marking the pulse after the end makes it the end. *)
Lemma whole_chain_mark t ns n p :
  whole_chain t ns → chain t → t_pulses t !! n = Some p → p_PrevPulseNumber p = chain_end ns →
  whole_chain (set_pulses (<[n := mark_sequential p]> (t_pulses t)) t) (ns ++ [n]).
Proof.
  intros [Hnd Hall Hl] Hch Hp Hprev.
  assert (NoDup (0 :: ns)) as Hnd0.
  { apply NoDup_cons. split; [|done]. intros (q & Hq & _)%Hall. by destruct (Hch _ _ Hq). }
  assert (n ∉ ns) as Hn by (intros Hn; by apply (chained_prev _ _ _ _ _ Hl Hnd0 Hn Hp)).
  constructor.
  - apply NoDup_app. split_and!; [done| |apply NoDup_singleton].
    intros x Hx ->%list_elem_of_singleton. done.
  - intros m. rewrite elem_of_app, list_elem_of_singleton, Hall, sequential_insert. cbn. split.
    + intros [Hm| ->]; [|by left]. destruct (decide (m = n)) as [->|]; [by left|by right].
    + intros [[-> _]|[_ ?]]; [by right|by left].
  - apply (chained_snoc _ _ _ _ (mark_sequential p)); [| |exact Hprev].
    + apply chained_insert; [done|]. intros q Hq. by simplify_eq.
    + cbn. apply lookup_insert_eq.
Qed.

(** The chain ends at the pulse the controller remembers. *)
Definition remembered (s : Sys) (ns : list Z) : Prop :=
  whole_chain (st_tables (w_db (s_w s))) ns ∧
  chain_end ns = p_PulseNumber (c_sequentialPulse (w_c (s_w s))).

Lemma remembered_frame s s' ns :
  remembered s ns → t_pulses (st_tables (w_db (s_w s'))) = t_pulses (st_tables (w_db (s_w s))) →
  c_sequentialPulse (w_c (s_w s')) = c_sequentialPulse (w_c (s_w s)) → remembered s' ns.
Proof.
  intros [Hwc He] Ht Hc. split; [by eapply whole_chain_pulses|by rewrite Hc].
Qed.

Lemma visit_remembered v d s w ns :
  remembered s ns → tp_PulseNo (v_pulse v) ≠ 0 → visit_pulse v d (s_w s) = Some w →
  remembered (mkSys w (delete (v_pulse v) (s_copy s)) (s_seen s)) ns.
Proof.
  intros Hrem Hn [(_ & [(e & _ & ->)|(db & Hst & ->)])|(_ & ->)]%visit_pulse_cases; [done| |].
  - apply st_CompletePulse_Ok in Hst as (p & Hp & Ht); [|done].
    destruct Hrem as [Hwc He]. split; [|exact He]. cbn. rewrite Ht.
    apply whole_chain_insert; [done| |by rewrite Hp]. intros q Hq. by simplify_eq.
  - case_decide; [|done]. destruct (reloadData_frame (v_now v) (tp_PrevPulseNumber (v_pulse v))
      (tp_PulseNo (v_pulse v)) (s_w s)) as (Hf1 & _ & Hf3 & _).
    eapply remembered_frame; [done|cbn; by rewrite Hf1|exact Hf3].
Qed.

Lemma sequence_remembered now s ns :
  chain (st_tables (w_db (s_w s))) → remembered s ns →
  ∃ ns', remembered (mkSys (pulseSequence_turn now (s_w s)).1 (s_copy s) (s_seen s)) ns'.
Proof.
  intros Hch Hrem.
  destruct (pulseSequence_turn_cases now (s_w s)) as [(Hf1 & _ & Hf3)|(next & db & Hg & Hc & Hst & ->)].
  - exists ns. eapply remembered_frame; [done|cbn; by rewrite Hf1|exact Hf3].
  - apply st_GetPulseByPrev_Ok in Hg as [[k Hk] Hprev].
    destruct (Hch _ _ Hk) as (Hn & Hpn & _). rewrite Hpn in Hst.
    apply st_SequencePulse_Ok in Hst as (p & Hp & Ht); [|done]. subst k.
    assert (p = next) as -> by congruence.
    destruct Hrem as [Hwc He]. exists (ns ++ [p_PulseNumber next]). split; cbn.
    + rewrite Ht. apply whole_chain_mark; [done|done|done|]. by rewrite He.
    + unfold chain_end. by rewrite last_snoc.
Qed.

Lemma step_remembered complete0 s s' ns :
  Inv complete0 s → remembered s ns → step s s' → ∃ ns', remembered s' ns'.
Proof.
  intros Hinv Hrem Hstep. pose proof (inv_chain _ _ Hinv) as Hch.
  pose proof (inv_copy _ _ Hinv) as Hcopy.
  destruct Hstep as [p jetID s Hb Hn|s|v d s w Hd _ Hv|s|now s|p s db Hc Hsq Hn Hprev Hst
                    |j rs n s db Hn Hst].
  - by exists ns.
  - by exists ns.
  - exists ns. destruct (Hcopy _ _ Hd) as (Hn & _). by eapply visit_remembered.
  - exists ns. eapply remembered_frame; [done|done|]. cbn. unfold count_incomplete.
    by repeat case_decide.
  - by eapply sequence_remembered.
  - exists ns. apply st_SavePulse_Ok in Hst as Ht. destruct Hrem as [Hwc He]. split; [|exact He].
    cbn. rewrite Ht. apply whole_chain_insert; [done| |].
    + intros old Hold. rewrite Hold. cbn. split; [symmetry; by apply Hprev|done].
    + intros Hnone. by rewrite Hnone.
  - exists ns. apply st_SaveJetDropData_Ok in Hst as (a & b & Ht); [|done].
    destruct Hrem as [Hwc He]. split; [|exact He]. cbn.
    destruct (t_pulses (st_tables (w_db (s_w s))) !! n) as [p|] eqn:Hp.
    + apply (whole_chain_pulses (set_pulses (<[n := add_amounts a b p]>
        (t_pulses (st_tables (w_db (s_w s))))) (st_tables (w_db (s_w s))))).
      * by rewrite Ht, alter_cases, Hp.
      * apply whole_chain_insert; [done| |by rewrite Hp]. intros q Hq. by simplify_eq.
    + eapply whole_chain_pulses; [|exact Hwc]. by rewrite Ht, alter_cases, Hp.
Qed.

(** What a database has to hold for [Start] to find the end of its chain. *)
Definition resumable (t : Tables) : Prop :=
  ∃ ns, whole_chain t ns ∧ ∀ n, sequential_pulse t n → n ≤ chain_end ns.

Lemma started_remembered s :
  started s → resumable (st_tables (w_db (s_w s))) → ∃ ns, remembered s ns.
Proof.
  intros (cfg & pv & db & c & ex & Hch & _ & Hst & ->) (ns & Hwc & Hmax). exists ns. split; [done|].
  apply Start_register in Hst as (_ & _ & Hseq). cbn in *.
  pose proof Hwc as [_ Hall _]. unfold chain_end in *.
  destruct Hseq as [[-> Hnone]|([n Hp] & Hs & Hgreat)].
  - destruct (last ns) as [x|] eqn:Hl; [|done].
    destruct (proj1 (Hall x) (last_Some_elem_of _ _ Hl)) as (p & Hp & Hs).
    rewrite Hnone in Hs; [done|by exists x].
  - destruct (Hch _ _ Hp) as (_ & Hpn & _).
    assert (sequential_pulse (st_tables db) n) as Hn by by exists (c_sequentialPulse c).
    assert (last ns ≠ None) as [x Hl]%not_eq_None_Some.
    { intros ->%last_None. by apply Hall, elem_of_nil in Hn. }
    specialize (Hmax n Hn). rewrite Hl in *. cbn in *.
    destruct (proj1 (Hall x) (last_Some_elem_of _ _ Hl)) as (p & Hp' & Hs').
    destruct (Hch _ _ Hp') as (_ & Hpx & _).
    specialize (Hgreat p (ex_intro _ x Hp') Hs'). lia.
Qed.

Lemma reachable_remembered s0 s :
  started s0 → resumable (st_tables (w_db (s_w s0))) → rtc step s0 s → ∃ ns, remembered s ns.
Proof.
  intros Hs0 Hres Hrun. destruct (started_remembered _ Hs0 Hres) as [ns Hns].
  apply started_Inv in Hs0. revert ns Hns Hs0.
  generalize (complete_in (st_tables (w_db (s_w s0)))). clear Hres.
  intros complete0. induction Hrun as [|s1 s2 s3 Hstep _ IH]; intros ns Hns Hinv; [by exists ns|].
  destruct (step_remembered _ _ _ _ Hinv Hns Hstep) as [ns' Hns'].
  eapply IH; [exact Hns'|by eapply step_Inv].
Qed.

(** With pulses later than the ones before them the end is the greatest. *)
Lemma chained_end t from ns :
  (∀ n p, t_pulses t !! n = Some p → p_PrevPulseNumber p < n) → chained t from ns →
  ∀ n, n ∈ from :: ns → n ≤ default from (last ns).
Proof.
  intros Hlt. revert from. induction ns as [|m ns IH]; intros from Hl n Hn.
  - apply list_elem_of_singleton in Hn as ->. done.
  - destruct Hl as [(p & Hp & Hprev) Hl]. specialize (Hlt _ _ Hp).
    assert (default from (last (m :: ns)) = default m (last ns)) as ->
      by (rewrite last_cons; by destruct (last ns)).
    apply elem_of_cons in Hn as [->|Hn]; [|by apply IH].
    specialize (IH m Hl m). rewrite elem_of_cons in IH. specialize (IH (or_introl eq_refl)). lia.
Qed.

Lemma whole_chain_resumable t ns :
  whole_chain t ns → (∀ n p, t_pulses t !! n = Some p → p_PrevPulseNumber p < n) → resumable t.
Proof.
  intros Hwc Hlt. exists ns. split; [done|]. intros n Hn%(wc_all _ _ Hwc).
  apply (chained_end t 0 ns Hlt (wc_chained _ _ Hwc)). by right.
Qed.

(** ** A whole pass *)

(** The range is in the pool of reloaded ranges, so the extractor was asked for
    it and is not asked again. *)
Definition requested (from to : Z) (w : W) : Prop :=
  existsb (MissedData.covers (if decide (from = 0) then MinTimePulse - 1 else from) to)
    (mdm_missedDataPool (c_missedDataManager (w_c w))) = true.

Lemma reloadData_requested now from to w : requested from to (reloadData now from to w).
Proof.
  unfold requested, reloadData, Add.
  destruct (existsb _ (mdm_missedDataPool (c_missedDataManager (w_c w)))) eqn:He; cbn;
    [exact He|]. rewrite existsb_app. cbn.
  unfold MissedData.covers at 2. cbn. rewrite Z.geb_leb, !Z.leb_refl. by rewrite orb_true_r.
Qed.

Lemma reloadData_keeps now from to from' to' w :
  requested from' to' w → requested from' to' (reloadData now from to w).
Proof.
  unfold requested, reloadData, Add. intros Hr.
  destruct (existsb (MissedData.covers _ to) (mdm_missedDataPool (c_missedDataManager (w_c w))));
    cbn; [exact Hr|]. by rewrite existsb_app, Hr.
Qed.

(** What never goes back during a pass. *)
Definition pass_le (w w' : W) : Prop :=
  c_sequentialPulse (w_c w') = c_sequentialPulse (w_c w) ∧
  c_platformVersion (w_c w') = c_platformVersion (w_c w) ∧
  (∀ n, complete_in (st_tables (w_db w)) n → complete_in (st_tables (w_db w')) n) ∧
  (∀ from to, requested from to w → requested from to w').

#[export] Instance pass_le_preorder : PreOrder pass_le.
Proof.
  split; [by intros w; split_and!|].
  intros w1 w2 w3 (? & ? & ? & ?) (? & ? & ? & ?). split_and!; [congruence|congruence|auto..].
Qed.

(** A refusal of the storage at the moment of the visit of [k]: the database is
    the one the visits before it have left. *)
Definition refused (copy : gmap TPulse (gset string)) (visits : list Visit) w (k : TPulse) : Prop :=
  ∃ pre v post w1 e, visits = pre ++ v :: post ∧ v_pulse v = k ∧
    visit_all copy pre w = Some w1 ∧ st_CompletePulse (tp_PulseNo k) (w_db w1) = Err e.

Lemma refused_cons copy v visits d w w1 k :
  copy !! v_pulse v = Some d → visit_pulse v d w = Some w1 →
  refused copy visits w1 k → refused copy (v :: visits) w k.
Proof.
  intros Hd Hv (pre & v' & post & w2 & e & -> & Hk & Hall & He).
  exists (v :: pre), v', post, w2, e. split_and!; [done|done| |done]. cbn [visit_all].
  rewrite Hd. cbn. by rewrite Hv.
Qed.

(** The three outcomes for a pulse [k] with jets [d]; [no] is a refusal. *)
Definition outcome (no : Prop) (k : TPulse) (d : gset string) (w w' : W) : Prop :=
  (¬ covers_tree d ∧ reg w' !! k = reg w !! k ∧
     (c_platformVersion (w_c w) ≠ 1 → requested (tp_PrevPulseNumber k) (tp_PulseNo k) w')) ∨
  (covers_tree d ∧ reg w' !! k = None ∧ complete_in (st_tables (w_db w')) (tp_PulseNo k)) ∨
  (covers_tree d ∧ reg w' !! k = reg w !! k ∧ no).

(** *** Nothing else is done *)

(** The only change of the tables: pulses whose jets cover the tree are marked. *)
Definition marked_only (copy : gmap TPulse (gset string)) (t t' : Tables) : Prop :=
  t_jet_drops t' = t_jet_drops t ∧ t_records t' = t_records t ∧
  ∀ n, t_pulses t' !! n = t_pulses t !! n ∨
    ∃ p k d, t_pulses t !! n = Some p ∧ t_pulses t' !! n = Some (mark_complete p) ∧
      copy !! k = Some d ∧ covers_tree d ∧ tp_PulseNo k = n.

(** The ranges the extractor was asked for, and the extractor after that. *)
Definition pool_ranges w : list (Z * Z) :=
  (λ m, (md_fromPulse m, md_toPulse m)) <$> mdm_missedDataPool (c_missedDataManager (w_c w)).
Definition ask (ex : EX) (ranges : list (Z * Z)) : EX :=
  foldl (λ ex r, (ex_LoadJetDrops r.1 r.2 ex).1) ex ranges.
Definition range_of (k : TPulse) : Z * Z :=
  (if decide (tp_PrevPulseNumber k = 0) then MinTimePulse - 1 else tp_PrevPulseNumber k,
   tp_PulseNo k).

(** The extractor is asked for ranges of pulses whose jets do not cover the tree,
    and for each range that is new in the pool just once. *)
Definition asked_only (copy : gmap TPulse (gset string)) w w' : Prop :=
  ∃ ranges, w_ex w' = ask (w_ex w) ranges ∧ pool_ranges w' = pool_ranges w ++ ranges ∧
    ∀ r, r ∈ ranges → c_platformVersion (w_c w) ≠ 1 ∧
      ∃ k d, copy !! k = Some d ∧ ¬ covers_tree d ∧ r = range_of k.

Definition only copy w w' : Prop :=
  c_platformVersion (w_c w') = c_platformVersion (w_c w) ∧
  marked_only copy (st_tables (w_db w)) (st_tables (w_db w')) ∧ asked_only copy w w'.

#[export] Instance only_preorder copy : PreOrder (only copy).
Proof.
  split.
  - intros w. split; [done|]. split; [split_and!; [done|done|by left]|].
    exists []. split_and!; [done|by rewrite app_nil_r|]. by intros r ?%elem_of_nil.
  - intros w1 w2 w3 (Hpv1 & (Hd1 & Hr1 & Hp1) & rs1 & He1 & Hpool1 & Ha1)
      (Hpv2 & (Hd2 & Hr2 & Hp2) & rs2 & He2 & Hpool2 & Ha2).
    split; [congruence|]. split; [split_and!; [congruence|congruence|]|].
    + intros n. destruct (Hp1 n) as [H1n|(p & k & d & H1n & H2n & Hk & Hcov & Hkn)],
        (Hp2 n) as [H3n|(p' & k' & d' & H3n & H4n & Hk' & Hcov' & Hkn')].
      * left. congruence.
      * right. exists p', k', d'. split_and!; [congruence|done..].
      * right. exists p, k, d. split_and!; [done|congruence|done..].
      * right. exists p, k, d. split_and!; [done| |done..]. rewrite H4n. f_equal. by simplify_eq.
    + exists (rs1 ++ rs2). split_and!.
      * rewrite He2, He1. unfold ask. by rewrite foldl_app.
      * by rewrite Hpool2, Hpool1, app_assoc.
      * intros r [Hr|Hr]%elem_of_app; [by apply Ha1|]. rewrite <- Hpv1. by apply Ha2.
Qed.

Lemma reloadData_only copy now k d w :
  copy !! k = Some d → ¬ covers_tree d → c_platformVersion (w_c w) ≠ 1 →
  only copy w (reloadData now (tp_PrevPulseNumber k) (tp_PulseNo k) w).
Proof.
  intros Hk Hcov Hpv.
  destruct (reloadData_frame now (tp_PrevPulseNumber k) (tp_PulseNo k) w) as (Hdb & _ & _ & Hv).
  split; [done|]. split; [rewrite Hdb; split_and!; [done|done|by left]|].
  unfold asked_only, pool_ranges, reloadData, Add. fold (range_of k).1.
  destruct (existsb _ _); cbn.
  - exists []. split_and!; [done|by rewrite app_nil_r|]. by intros r ?%elem_of_nil.
  - exists [range_of k]. rewrite fmap_app. split_and!; [done|done|].
    intros r ->%list_elem_of_singleton. split; [done|]. by exists k, d.
Qed.

Lemma CompletePulse_only copy k d w r db :
  copy !! k = Some d → covers_tree d → tp_PulseNo k ≠ 0 →
  st_CompletePulse (tp_PulseNo k) (w_db w) = Ok db →
  only copy w (mkWorld (set_register r (w_c w)) db (w_ex w)).
Proof.
  intros Hk Hcov Hn (p & Hp & Ht)%st_CompletePulse_Ok; [|done].
  split; [done|]. split.
  - cbn. rewrite Ht. split_and!; [done|done|]. intros n. cbn.
    destruct (decide (tp_PulseNo k = n)) as [<-|Hne]; [right|left; by rewrite lookup_insert_ne].
    exists p, k, d. by rewrite lookup_insert_eq.
  - exists []. split_and!; [done|by rewrite app_nil_r|]. by intros x ?%elem_of_nil.
Qed.

(** What a schedule has to be: one visit per pulse of the copy. *)
Definition schedulable (copy : gmap TPulse (gset string)) (v : Visit) : Prop :=
  ∃ d, copy !! v_pulse v = Some d ∧ visit_ok v d ∧ bit_set d ∧ prefix_free d ∧
       tp_PulseNo (v_pulse v) ≠ 0.

Lemma visit_pulse_spec copy v d w :
  copy !! v_pulse v = Some d →
  visit_ok v d → bit_set d → prefix_free d → tp_PulseNo (v_pulse v) ≠ 0 →
  ∃ w', visit_pulse v d w = Some w' ∧ pass_le w w' ∧ only copy w w' ∧
    (∀ k, k ≠ v_pulse v → reg w' !! k = reg w !! k) ∧
    outcome (∃ e, st_CompletePulse (tp_PulseNo (v_pulse v)) (w_db w) = Err e) (v_pulse v) d w w'.
Proof.
  intros Hd Hok Hb Hp Hn. pose proof Hok as [Ho1 Ho2].
  destruct (visit_pulse_total v d w Hok Hb Hp) as [w' Hv]. exists w'. split; [done|].
  destruct (complete_iff_covers _ _ d Ho1 Ho2 Hb Hp) as (b & Hc & Hcov).
  apply visit_pulse_cases in Hv as
    [(Hcomp & [(e & He & ->)|(db' & Hst & ->)])|(Hcomp & ->)]; rewrite Hc in Hcomp; simplify_eq.
  - split_and!; [done|done|done|]. right. right. split_and!; [by apply Hcov|done|by eexists].
  - pose proof (CompletePulse_only copy _ d w (delete (v_pulse v) (reg w)) db' Hd
      (proj1 Hcov eq_refl) Hn Hst) as Honly.
    apply st_CompletePulse_Ok in Hst as (p & Hpl & Ht); [|done].
    assert (complete_in (st_tables db') (tp_PulseNo (v_pulse v))) as Hcin.
    { exists (mark_complete p). rewrite Ht. cbn. by rewrite lookup_insert_eq. }
    split_and!; [split_and!; try done|done| |].
    + intros n (q & Hq & Hqc). cbn. destruct (decide (n = tp_PulseNo (v_pulse v))) as [->|Hne]; [done|].
      exists q. rewrite Ht. cbn. by rewrite lookup_insert_ne.
    + intros k Hk. cbn. by rewrite lookup_delete_ne.
    + right. left. split_and!; [by apply Hcov|cbn; apply lookup_delete_eq|done].
  - assert (¬ covers_tree d) as Hnc by (intros Hx%Hcov; done).
    case_decide as Hpv.
    + pose proof (reloadData_only copy (v_now v) _ d w Hd Hnc Hpv) as Honly.
      destruct (reloadData_frame (v_now v) (tp_PrevPulseNumber (v_pulse v))
        (tp_PulseNo (v_pulse v)) w) as (Hf1 & Hf2 & Hf3 & Hf4).
      split_and!; [split_and!; [done|done|by rewrite Hf1|intros; by apply reloadData_keeps]|done| |].
      * intros k _. by rewrite Hf2.
      * left. rewrite Hf2. split_and!; [done|done|]. intros _. apply reloadData_requested.
    + split_and!; [done|done|done|]. left. by split_and!.
Qed.

Lemma visit_all_spec copy visits w :
  NoDup (v_pulse <$> visits) → Forall (schedulable copy) visits →
  ∃ w', visit_all copy visits w = Some w' ∧ pass_le w w' ∧ only copy w w' ∧
    (∀ k, k ∉ v_pulse <$> visits → reg w' !! k = reg w !! k) ∧
    (∀ k d, k ∈ v_pulse <$> visits → copy !! k = Some d →
       outcome (refused copy visits w k) k d w w').
Proof.
  revert w. induction visits as [|v visits IH]; intros w Hnd Hall; cbn [visit_all fmap list_fmap].
  { exists w. split_and!; [done|done|done|done|]. by intros k d ?%not_elem_of_nil. }
  apply Forall_cons in Hall as [(d & Hd & Hok & Hb & Hp & Hn) Hall].
  rewrite fmap_cons in Hnd. apply NoDup_cons in Hnd as [Hnin Hnd]. rewrite Hd. cbn.
  destruct (visit_pulse_spec copy v d w Hd Hok Hb Hp Hn) as (w1 & Hv1 & Hle1 & Honly1 & Hother1 & Hout1).
  rewrite Hv1. cbn.
  destruct (IH w1 Hnd Hall) as (w2 & -> & Hle2 & Honly2 & Hother2 & Hout2).
  exists w2. split_and!; [done|by etrans|by etrans| |].
  - intros k [Hk1 Hk2]%not_elem_of_cons. by rewrite Hother2, Hother1.
  - intros k d' [->|Hk]%elem_of_cons Hd'.
    + simplify_eq. pose proof Hle2 as (_ & _ & Hc & Hr). unfold outcome in *.
      rewrite Hother2 by done.
      destruct Hout1 as [(? & ? & ?)|[(? & ? & ?)|(? & ? & e & ?)]];
        [left; by auto|right; left; by auto|right; right].
      split_and!; [done|done|]. by exists [], v, visits, w, e.
    + assert (k ≠ v_pulse v) as Hne by (intros ->; done).
      pose proof Hle1 as (_ & Hpv & _). specialize (Hout2 k d' Hk Hd').
      unfold outcome in *. rewrite <- Hother1, <- Hpv by done.
      destruct Hout2 as [?|[?|(? & ? & ?)]]; [by left|right; by left|right; right].
      split_and!; [done|done|]. by eapply refused_cons.
Qed.

(** The counter of version 1 is no request. *)
Lemma asked_only_count copy w w' :
  asked_only copy w w' → asked_only copy w (with_c (count_incomplete (w_c w')) w').
Proof.
  intros (rs & He & Hp & Hr). exists rs. split_and!; [done| |done]. rewrite <- Hp.
  unfold pool_ranges, count_incomplete. cbn. by repeat case_decide.
Qed.

(** ** Properties *)

(** C1: no pulse is marked complete too early.  In every run from a started
    controller -- drops reported, passes of the maintainer over a copy of the
    register, turns of the sequence loop and writes of the processor in any
    interleaving -- a pulse that is complete in the database was complete at the
    start, or the jets reported for it cover the whole jet tree. *)
Theorem completeness_justified s0 s n p :
  started s0 → rtc step s0 s →
  t_pulses (st_tables (w_db (s_w s))) !! n = Some p → p_IsComplete p = true →
  complete_in (st_tables (w_db (s_w s0))) n ∨
  ∃ k d, s_seen s !! k = Some d ∧ tp_PulseNo k = n ∧ covers_tree d.
Proof.
  intros Hst Hrun Hp Hc. eapply reachable_Inv in Hrun; [|done].
  by eapply (inv_justified _ _ Hrun).
Qed.

(** C2: the sequential pulses are one gapless chain of complete pulses that ends
    at the pulse the controller remembers.  In every run from a controller
    started on a database that holds such a chain with its greatest pulse last
    (an empty one does), the pulses marked sequential are at every moment exactly
    some [ns], without repetition: the first is the pulse after 0, each other the
    one after its predecessor in [ns], all are complete, and the last, 0 when
    there is none, is the number of [sequentialPulse].  When stored pulses are
    later than the ones before them a restart finds this chain again. *)
Theorem sequential_chain s0 s :
  started s0 → resumable (st_tables (w_db (s_w s0))) → rtc step s0 s →
  let t := st_tables (w_db (s_w s)) in
  ∃ ns, NoDup ns ∧ (∀ n, n ∈ ns ↔ sequential_pulse t n) ∧ chained t 0 ns ∧
    (∀ n, n ∈ ns → complete_in t n) ∧
    default 0 (last ns) = p_PulseNumber (c_sequentialPulse (w_c (s_w s))) ∧
    ((∀ n p, t_pulses t !! n = Some p → p_PrevPulseNumber p < n) → resumable t).
Proof.
  intros Hst Hres Hrun t. destruct (reachable_remembered _ _ Hst Hres Hrun) as (ns & Hwc & He).
  eapply reachable_Inv in Hrun; [|done]. exists ns. pose proof Hwc as [Hnd Hall Hl].
  split_and!; [done|done|done| |exact He|by eapply whole_chain_resumable].
  intros n (p & Hp & Hs)%Hall. exists p. split; [done|].
  by apply (inv_chain _ _ Hrun n p Hp).
Qed.

(** C28: what a pass does.  [eraseJetDropRegister], visiting every pulse of the
    register once in any order, does not panic when the jets of each pulse are
    the leaves of a tree, and then every registered pulse has one of these
    outcomes: its jets do not cover the tree -- it stays registered, and unless
    the platform is version 1 its range is requested again; they do -- it is
    marked complete in the database and leaves the register; or they do, and the
    storage, on the database the visits before have left, refused this update:
    the pulse stays.  Only the periodic cleaning of version 1 may drop a pulse
    besides, and only one below the sequential pulse.  Nothing else happens: no
    drop or record changes, only registered pulses whose jets cover the tree are
    marked, and the extractor is asked exactly for the ranges added to the pool,
    all of them of registered pulses whose jets do not cover the tree. *)
Theorem eraseJetDropRegister_spec visits w :
  NoDup (v_pulse <$> visits) → Forall (schedulable (reg w)) visits →
  (∀ k, is_Some (reg w !! k) → k ∈ v_pulse <$> visits) →
  ∃ w', eraseJetDropRegister visits w = Some w' ∧
    (∀ k d, reg w !! k = Some d →
       outcome (refused (reg w) visits w k) k d w w' ∨
       (c_platformVersion (w_c w) = 1 ∧ reg w' !! k = None ∧
        tp_PulseNo k < p_PulseNumber (c_sequentialPulse (w_c w)))) ∧
    marked_only (reg w) (st_tables (w_db w)) (st_tables (w_db w')) ∧ asked_only (reg w) w w'.
Proof.
  intros Hnd Hall Hevery. unfold eraseJetDropRegister.
  destruct (visit_all_spec (reg w) visits w Hnd Hall) as (w' & -> & Hle & (_ & Hm & Ha) & _ & Hout). cbn.
  eexists. split; [done|]. split; [|split; [exact Hm|by apply asked_only_count]].
  intros k d Hk. specialize (Hout k d (Hevery k (mk_is_Some _ _ Hk)) Hk).
  pose proof Hle as (Hseq & Hpv & _). unfold outcome in *. cbn.
  unfold requested, count_incomplete. rewrite <- Hseq, <- Hpv in *.
  destruct (decide (c_platformVersion (w_c w') = 1)) as [H1v|]; [|by left].
  destruct (decide (c_incompletePulseCounter (w_c w') = 1000)); [|by left]. cbn.
  destruct (decide (p_PulseNumber (c_sequentialPulse (w_c w')) > tp_PulseNo k)).
  - right. split_and!; [done| |lia]. apply map_lookup_filter_None. right. cbn. naive_solver.
  - assert (∀ x : option (gset string), reg w' !! k = x →
      filter (λ pd, ¬ p_PulseNumber (c_sequentialPulse (w_c w')) > tp_PulseNo pd.1) (reg w') !! k = x)
      as Hsame.
    { intros [x|] Hx; [by apply map_lookup_filter_Some|]. apply map_lookup_filter_None. by left. }
    left. rewrite (Hsame _ eq_refl). exact Hout.
Qed.

(** What [Start] rebuilds.  After a restart the register has exactly one
    entry per stored incomplete pulse, holding the jets of its stored drops, and
    the sequential pulse is the greatest one marked in the database. *)
Theorem Start_spec cfg pv db c :
  Start db (NewController cfg pv) = (c, None) →
  (∀ k d, c_jetDropRegister c !! k = Some d →
     ∃ p, stored_pulse (st_tables db) p ∧ p_IsComplete p = false ∧ k = stored_key p ∧
          stored_jets (st_tables db) (p_PulseNumber p) d) ∧
  (∀ p, stored_pulse (st_tables db) p → p_IsComplete p = false →
     is_Some (c_jetDropRegister c !! stored_key p)) ∧
  (c_sequentialPulse c = emptyPulse ∧
     (∀ p, stored_pulse (st_tables db) p → p_IsSequential p = false) ∨
   stored_pulse (st_tables db) (c_sequentialPulse c) ∧
     p_IsSequential (c_sequentialPulse c) = true ∧
     ∀ p, stored_pulse (st_tables db) p → p_IsSequential p = true →
          p_PulseNumber p ≤ p_PulseNumber (c_sequentialPulse c)).
Proof. apply Start_register. Qed.

(** C31: a limit of the restart.  The keys [Start] makes carry no epoch and no
    timestamp, those of the processor do, so a drop processed after a restart
    never reaches the entry made for its pulse: that entry keeps the jets it was
    loaded with, and the pulse is registered twice. *)
Theorem restart_splits_pulse cfg pv db c p k jetID d :
  Start db (NewController cfg pv) = (c, None) →
  stored_pulse (st_tables db) p → p_IsComplete p = false →
  tp_PulseNo k = p_PulseNumber p → tp_EpochPulseNo k ≠ 0 →
  c_jetDropRegister c !! stored_key p = Some d →
  let c' := SetJetDropData k jetID c in
  c_jetDropRegister c' !! stored_key p = Some d ∧ c_jetDropRegister c' !! k = Some {[jetID]}.
Proof.
  intros Hst Hp Hinc Hkn Hep Hd c'. apply Start_register in Hst as (Hreg & _).
  assert (k ≠ stored_key p) as Hne by (intros ->; done).
  assert (c_jetDropRegister c !! k = None) as Hk.
  { destruct (c_jetDropRegister c !! k) as [x|] eqn:Hx; [|done].
    destruct (Hreg k x Hx) as (q & _ & _ & -> & _). done. }
  unfold c', SetJetDropData. cbn. rewrite Hk, lookup_insert_ne, lookup_insert_eq by done.
  split; [done|]. f_equal. set_solver.
Qed.
End controller.

(** ** The theorems at work on a concrete system *)

(** An extractor that only notes what it was asked for. *)
#[export] Instance log_extractor : JetDropsExtractor (list (Z * Z)) := {|
  ex_LoadJetDrops from to log := (log ++ [(from, to)], None);
|}.

Definition cfg0 : ControllerConfig := mkControllerConfig 10 1200 1 1.
Definition or_db (r : result RefDB) (db : RefDB) : RefDB :=
  match r with Ok db' => db' | Err _ => db end.

(** A run on an empty database: a pulse is saved, its two drops are reported, a
    pass of the maintainer completes it, the sequence loop marks it. *)
Definition pulse1 : Pulse := mkPulse 70000 0 70010 false false 5 0 0.
Definition key1 : TPulse := mkTPulse 70000 70000 5 70010 0.
Definition visit1 : Visit := mkVisit key1 0 (elements ({["0"; "1"]} : gset string))
  (elements ({["0"; "1"]} : gset string)).

Definition run0 : Sys :=
  mkSys (mkWorld (Start (up no_rows) (NewController cfg0 2)).1 (up no_rows) ([] : list (Z * Z))) ∅ ∅.
Definition run1 : Sys :=
  mkSys (set_db (or_db (st_SavePulse pulse1 (up no_rows)) (up no_rows)) (s_w run0)) ∅ ∅.
Definition run2 : Sys :=
  mkSys (with_c (SetJetDropData key1 "0" (w_c (s_w run1))) (s_w run1)) ∅ (see key1 "0" ∅).
Definition run3 : Sys :=
  mkSys (with_c (SetJetDropData key1 "1" (w_c (s_w run2))) (s_w run2)) ∅
    (see key1 "1" (see key1 "0" ∅)).
Definition run4 : Sys :=
  mkSys (s_w run3) (c_jetDropRegister (w_c (s_w run3))) (s_seen run3).
Definition run5 : Sys :=
  mkSys (default (s_w run4) (visit_pulse visit1 {["0"; "1"]} (s_w run4)))
    (delete key1 (s_copy run4)) (s_seen run4).
Definition run6 : Sys :=
  mkSys (pulseSequence_turn 0 (s_w run5)).1 (s_copy run5) (s_seen run5).

Lemma run0_started : started run0.
Proof.
  exists cfg0, 2, (up no_rows), (Start (up no_rows) (NewController cfg0 2)).1, [].
  split_and!.
  - intros n p Hp. by vm_compute in Hp.
  - intros jd [k Hk]. by vm_compute in Hk.
  - vm_compute. reflexivity.
  - vm_compute. reflexivity.
Defined.

Lemma run0_run6 : rtc step run0 run6.
Proof.
  eapply (rtc_l _ _ run1).
  { apply (step_save_pulse pulse1 run0); [done|done|done| |vm_compute; reflexivity].
    intros old Hold. by vm_compute in Hold. }
  eapply (rtc_l _ _ run2); [by apply (step_set key1 "0" run1)|].
  eapply (rtc_l _ _ run3); [by apply (step_set key1 "1" run2)|].
  eapply (rtc_l _ _ run4); [apply (step_copy run3)|].
  eapply (rtc_l _ _ run5).
  { apply (step_visit visit1 {["0"; "1"]} run4); [vm_compute; reflexivity|by split|].
    vm_compute. reflexivity. }
  eapply (rtc_l _ _ run6); [apply (step_sequence 0 run5)|]. apply rtc_refl.
Defined.

Definition pulse1_done : Pulse := mkPulse 70000 0 70010 true true 5 0 0.

Lemma run6_pulse : t_pulses (st_tables (w_db (s_w run6))) !! 70000 = Some pulse1_done.
Proof. vm_compute. reflexivity. Defined.

Lemma completeness_justified_witness :
  complete_in (st_tables (w_db (s_w run0))) 70000 ∨
  ∃ k d, s_seen run6 !! k = Some d ∧ tp_PulseNo k = 70000 ∧ covers_tree d.
Proof.
  apply (completeness_justified run0 run6 70000 pulse1_done);
    [exact run0_started|exact run0_run6|exact run6_pulse|reflexivity].
Defined.

Lemma sequential_chain_witness :
  ∃ ns, (∀ n, n ∈ ns ↔ sequential_pulse (st_tables (w_db (s_w run6))) n) ∧ 70000 ∈ ns ∧
    default 0 (last ns) = p_PulseNumber (c_sequentialPulse (w_c (s_w run6))).
Proof.
  destruct (sequential_chain run0 run6 run0_started) as (ns & _ & Hall & _ & _ & He & _).
  - exists []. split; [|intros n (p & Hp & _); by vm_compute in Hp].
    constructor; [apply NoDup_nil_2| |done]. intros n. split; [by intros ?%elem_of_nil|].
    intros (p & Hp & _). by vm_compute in Hp.
  - exact run0_run6.
  - exists ns. split_and!; [exact Hall| |exact He]. apply Hall.
    exists pulse1_done. split; [exact run6_pulse|reflexivity].
Defined.

Lemma jets01_ok : bit_set {["0"; "1"]} ∧ prefix_free {["0"; "1"]}.
Proof.
  split.
  - intros j Hj. set_unfold. by destruct Hj as [-> | ->].
  - intros a b Ha Hb. set_unfold. by destruct Ha as [-> | ->], Hb as [-> | ->].
Defined.

Lemma eraseJetDropRegister_spec_witness :
  ∃ w', eraseJetDropRegister [visit1] (s_w run3) = Some w' ∧
    complete_in (st_tables (w_db w')) 70000 ∧ c_jetDropRegister (w_c w') !! key1 = None.
Proof.
  assert (c_jetDropRegister (w_c (s_w run3)) = {[key1 := {["0"; "1"]}]}) as Hreg
    by (vm_compute; reflexivity).
  destruct (eraseJetDropRegister_spec [visit1] (s_w run3)) as (w' & Hw & Hout & _).
  - apply NoDup_singleton.
  - constructor; [|constructor]. exists {["0"; "1"]}. rewrite Hreg.
    split_and!; [by apply lookup_singleton_eq|by split|apply jets01_ok|apply jets01_ok|done].
  - intros k [d Hk]. rewrite Hreg in Hk. apply lookup_singleton_Some in Hk as [<- _]. by left.
  - exists w'. split; [exact Hw|].
    destruct (Hout key1 {["0"; "1"]}) as [[(Hn & _)|[(_ & Hr & Hc)|(_ & _ & Hno)]]|(Hv & _)].
    + rewrite Hreg. by apply lookup_singleton_eq.
    + exfalso. apply Hn.
      apply (complete_covers (v_o1 visit1) (v_o2 visit1));
        [reflexivity|reflexivity|apply jets01_ok|vm_compute; reflexivity].
    + split; [exact Hc|exact Hr].
    + exfalso. destruct Hno as (pre & v & post & w1 & e & Hvs & _ & Hw1 & He).
      destruct pre as [|v' pre]; [|by destruct pre].
      cbn in Hw1. injection Hw1 as <-. vm_compute in He. discriminate He.
    + exfalso. vm_compute in Hv. discriminate Hv.
Defined.

(** A database with an incomplete pulse and one of its drops, and a restart. *)
Definition restart_db : RefDB :=
  up (mkTables {[70000 := pulse1]} {[(70000, "0") := mkJetDrop 70000 "0" [] [] [] [] 5 0]} ∅).
Definition restarted : Controller := (Start restart_db (NewController cfg0 2)).1.

Lemma restart_start : Start restart_db (NewController cfg0 2) = (restarted, None).
Proof. vm_compute. reflexivity. Defined.

Lemma Start_spec_witness :
  ∃ d, c_jetDropRegister restarted !! stored_key pulse1 = Some d.
Proof.
  destruct (Start_spec cfg0 2 restart_db restarted restart_start) as (_ & Hall & _).
  apply Hall; [|reflexivity]. exists 70000. vm_compute. reflexivity.
Defined.

Lemma restart_splits_pulse_witness :
  let c' := SetJetDropData key1 "1" restarted in
  c_jetDropRegister c' !! stored_key pulse1 = Some {["0"]} ∧
  c_jetDropRegister c' !! key1 = Some {["1"]}.
Proof.
  apply (restart_splits_pulse cfg0 2 restart_db restarted pulse1 key1 "1" {["0"]});
    [exact restart_start| |done|done|done|vm_compute; reflexivity].
  exists 70000. vm_compute. reflexivity.
Defined.
