(* ===== verification/ControllerRefinement.v ===== *)
(** * The controller refines a specification of progress

    What a reader of the database may rely on, without registers, copies, pools
    and time: pulses become known, jets are reported for them, a known pulse may
    become complete when the jets reported cover the jet tree, and the sequential
    pulse may advance to a complete pulse that follows it.  Nothing is ever
    undone.  Every run of the transition system of [ControllerProofs.v] is, step
    by step, a run of this specification. *)

From S2P Require Import Prelude GoStd Platform RefPlatform Types Models Gorm RefDb Interfaces Storage StorageInstance MissedData Controller Completeness ControllerProofs.

(** ** The specification *)

(** What is known of a pulse. *)
Record Status := mkStatus {
  ps_prev : Z;
  ps_complete : bool;
  ps_sequential : bool;
}.

Record Progress := mkProgress {
  pg_reported : gmap TPulse (gset string);
  pg_pulses : gmap Z Status;
  pg_end : Z;
}.

Inductive progress : Progress → Progress → Prop :=
  | pg_report p jetID g :
      progress g (mkProgress (see p jetID (pg_reported g)) (pg_pulses g) (pg_end g))
  | pg_learn n prev g :
      pg_pulses g !! n = None →
      progress g (mkProgress (pg_reported g) (<[n := mkStatus prev false false]> (pg_pulses g))
                    (pg_end g))
  | pg_complete k d s g :
      pg_reported g !! k = Some d → covers_tree d →
      pg_pulses g !! tp_PulseNo k = Some s →
      progress g (mkProgress (pg_reported g)
        (<[tp_PulseNo k := mkStatus (ps_prev s) true (ps_sequential s)]> (pg_pulses g)) (pg_end g))
  | pg_advance n s g :
      pg_pulses g !! n = Some s → ps_complete s = true → ps_prev s = pg_end g →
      progress g (mkProgress (pg_reported g)
        (<[n := mkStatus (ps_prev s) true true]> (pg_pulses g)) n).

(** What is never taken back. *)
Definition progress_le (g g' : Progress) : Prop :=
  (∀ k d, pg_reported g !! k = Some d → ∃ d', pg_reported g' !! k = Some d' ∧ d ⊆ d') ∧
  (∀ n s, pg_pulses g !! n = Some s → ∃ s', pg_pulses g' !! n = Some s' ∧
     ps_prev s' = ps_prev s ∧ (ps_complete s = true → ps_complete s' = true) ∧
     (ps_sequential s = true → ps_sequential s' = true)).

#[export] Instance progress_le_preorder : PreOrder progress_le.
Proof.
  split.
  - intros g. split; [by intros k d Hk; exists d|by intros n s Hs; exists s].
  - intros g1 g2 g3 [Ha Hb] [Ha' Hb']. split.
    + intros k d (d2 & (d3 & ? & ?)%Ha' & ?)%Ha. exists d3. split; [done|set_solver].
    + intros n s (s2 & (s3 & ? & ? & ? & ?)%Hb' & ? & ? & ?)%Hb. exists s3.
      split_and!; [done|congruence|auto..].
Qed.

Lemma pulses_le_insert (m : gmap Z Status) n s0 :
  (∀ s, m !! n = Some s → ps_prev s0 = ps_prev s ∧
     (ps_complete s = true → ps_complete s0 = true) ∧
     (ps_sequential s = true → ps_sequential s0 = true)) →
  ∀ k s, m !! k = Some s → ∃ s', <[n := s0]> m !! k = Some s' ∧
     ps_prev s' = ps_prev s ∧ (ps_complete s = true → ps_complete s' = true) ∧
     (ps_sequential s = true → ps_sequential s' = true).
Proof.
  intros Hn k s Hk. destruct (decide (n = k)) as [->|Hne].
  - exists s0. rewrite lookup_insert_eq. split; [done|by apply Hn].
  - exists s. by rewrite lookup_insert_ne.
Qed.

Lemma progress_grows g g' : progress g g' → progress_le g g'.
Proof.
  intros Hp. destruct Hp as [p j g|n prev g Hn|k d s g Hd Hcov Hs|n s g Hs Hc Hprev]; split; cbn;
    try (by intros k' d' Hk'; exists d');
    try (by intros n' s' Hs'; exists s').
  - intros k d Hk. by apply see_lookup.
  - apply pulses_le_insert. congruence.
  - apply pulses_le_insert. intros s' Hs'. by simplify_eq.
  - apply pulses_le_insert. intros s' Hs'. by simplify_eq.
Qed.

Lemma progress_rtc_grows g g' : rtc progress g g' → progress_le g g'.
Proof. induction 1 as [|g1 g2 g3 Hstep%progress_grows _ IH]; [done|by etrans]. Qed.

(** ** The abstraction of the controller's system *)

Definition status_of (p : Pulse) : Status :=
  mkStatus (p_PrevPulseNumber p) (p_IsComplete p) (p_IsSequential p).

Section refinement.
Context `{Platform, StorageLaws DB, JetDropsExtractor EX}.
Implicit Types s : Sys (DB := DB) (EX := EX).

Definition abstract s : Progress :=
  mkProgress (s_seen s) (status_of <$> t_pulses (st_tables (w_db (s_w s))))
    (p_PulseNumber (c_sequentialPulse (w_c (s_w s)))).

(** Zero or one step of the specification. *)
Definition follows (g g' : Progress) : Prop := g' = g ∨ progress g g'.

Lemma follows_complete s w key d db :
  s_seen s !! key = Some d → covers_tree d → tp_PulseNo key ≠ 0 →
  st_CompletePulse (tp_PulseNo key) (w_db (s_w s)) = Ok db →
  w_db w = db → c_sequentialPulse (w_c w) = c_sequentialPulse (w_c (s_w s)) →
  ∀ copy, follows (abstract s) (abstract (mkSys w copy (s_seen s))).
Proof.
  intros Hd Hcov Hn Hst Hdb Hseq copy. right. unfold abstract. cbn. rewrite Hdb, Hseq.
  apply st_CompletePulse_Ok in Hst as (p & Hp & ->); [|done]. cbn.
  rewrite fmap_insert. apply (pg_complete key d (status_of p) (abstract s)); [done|done|].
  cbn. by rewrite lookup_fmap, Hp.
Qed.

Lemma follows_advance s next db copy :
  chain (st_tables (w_db (s_w s))) →
  st_GetPulseByPrev (c_sequentialPulse (w_c (s_w s))) (w_db (s_w s)) = Ok next →
  p_IsComplete next = true → st_SequencePulse (p_PulseNumber next) (w_db (s_w s)) = Ok db →
  follows (abstract s)
    (abstract (mkSys (mkWorld (set_sequential next (w_c (s_w s))) db (w_ex (s_w s))) copy (s_seen s))).
Proof.
  intros Hch Hnext Hc Hst. right. unfold abstract. cbn.
  apply st_GetPulseByPrev_Ok in Hnext as [[k Hk] Hprev].
  destruct (Hch _ _ Hk) as (Hn & Hpn & _). rewrite Hpn in Hst |- *.
  apply st_SequencePulse_Ok in Hst as (p & Hp & ->); [|done]. subst k.
  assert (p = next) as -> by congruence. cbn.
  rewrite fmap_insert. change (status_of (mark_sequential next))
    with (mkStatus (p_PrevPulseNumber next) (p_IsComplete next) true). rewrite Hc.
  apply (pg_advance (p_PulseNumber next) (status_of next) (abstract s)); cbn; [|done|done].
  by rewrite lookup_fmap, Hp.
Qed.

(** A write that keeps the status of every stored pulse. *)
Lemma follows_same_status s db :
  status_of <$> t_pulses (st_tables db) = status_of <$> t_pulses (st_tables (w_db (s_w s))) →
  follows (abstract s) (abstract (mkSys (set_db db (s_w s)) (s_copy s) (s_seen s))).
Proof. intros Hs. left. unfold abstract. cbn. by rewrite Hs. Qed.

Lemma follows_save_pulse s p db :
  p_IsComplete p = false → p_IsSequential p = false →
  (∀ old, t_pulses (st_tables (w_db (s_w s))) !! p_PulseNumber p = Some old →
          p_PrevPulseNumber old = p_PrevPulseNumber p) →
  st_SavePulse p (w_db (s_w s)) = Ok db →
  follows (abstract s) (abstract (mkSys (set_db db (s_w s)) (s_copy s) (s_seen s))).
Proof.
  intros Hc Hs Hprev Hst%st_SavePulse_Ok.
  destruct (t_pulses (st_tables (w_db (s_w s))) !! p_PulseNumber p) as [old|] eqn:Hold.
  - apply follows_same_status. rewrite Hst. cbn. rewrite fmap_insert.
    apply insert_id. rewrite lookup_fmap, Hold. cbn. unfold status_of, refresh. cbn.
    by rewrite (Hprev old).
  - right. unfold abstract. cbn. rewrite Hst. cbn. rewrite fmap_insert.
    replace (status_of p) with (mkStatus (p_PrevPulseNumber p) false false)
      by (unfold status_of; by rewrite Hc, Hs).
    apply (pg_learn _ _ (abstract s)). cbn. by rewrite lookup_fmap, Hold.
Qed.

Lemma follows_save_drop s j rs n db :
  n ≠ 0 → st_SaveJetDropData j rs n (w_db (s_w s)) = Ok db →
  follows (abstract s) (abstract (mkSys (set_db db (s_w s)) (s_copy s) (s_seen s))).
Proof.
  intros Hn Hst. apply st_SaveJetDropData_Ok in Hst as (a & b & Ht); [|done].
  apply follows_same_status. rewrite Ht. cbn. apply map_eq. intros k. rewrite !lookup_fmap.
  destruct (decide (n = k)) as [->|Hk]; [|by rewrite lookup_alter_ne].
  rewrite lookup_alter_eq. by destruct (_ !! k).
Qed.

(** The simulation. *)
Lemma step_follows complete0 s s' :
  Inv complete0 s → step s s' → follows (abstract s) (abstract s').
Proof.
  intros HI Hstep. pose proof (inv_copy _ _ HI) as Hcopy. pose proof (inv_chain _ _ HI) as Hch.
  destruct Hstep as [p jetID s Hb Hn|s|v d s w Hd [Ho1 Ho2] Hv|s|now s|p s db Hc Hsq Hn Hprev Hst
                    |j rs n s db Hn Hst].
  - right. apply (pg_report p jetID (abstract s)).
  - by left.
  - destruct (Hcopy _ _ Hd) as (Hn & Hbits & d' & Hd' & Hsub).
    apply visit_pulse_cases in Hv as [(Hcomp & [(e & _ & ->)|(db' & Hst & ->)])|(_ & ->)].
    + by left.
    + eapply follows_complete; try done. eapply covers_tree_mono; [exact Hsub|].
      by eapply (complete_covers (v_o1 v) (v_o2 v)).
    + left. case_decide; [|done]. unfold abstract. cbn.
      destruct (reloadData_frame (v_now v) (tp_PrevPulseNumber (v_pulse v))
        (tp_PulseNo (v_pulse v)) (s_w s)) as (-> & _ & -> & _). done.
  - left. unfold abstract. cbn. f_equal. unfold count_incomplete. by repeat case_decide.
  - destruct (pulseSequence_turn_cases now (s_w s))
      as [(Hf1 & _ & Hf3)|(next & db & Hg & Hc & Hst & ->)].
    + left. unfold abstract. cbn. by rewrite Hf1, Hf3.
    + by apply follows_advance.
  - by eapply follows_save_pulse.
  - by eapply follows_save_drop.
Qed.

Lemma runs_follow complete0 s s' :
  Inv complete0 s → rtc step s s' → rtc progress (abstract s) (abstract s').
Proof.
  intros HI Hrun. revert HI. induction Hrun as [|s1 s2 s3 Hstep _ IH]; intros HI; [done|].
  pose proof (step_Inv _ _ _ HI Hstep) as HI2.
  destruct (step_follows _ _ _ HI Hstep) as [Heq|Hp].
  - rewrite <- Heq. by apply IH.
  - eapply rtc_l; [exact Hp|by apply IH].
Qed.

(** C3: The controller implements the specification.  Every run of the two
    loops, the processor's reports and the writes of the storage, in any
    interleaving, is a run of [progress] on what the database and the controller
    show: a pulse is learnt once with its previous pulse, becomes complete only
    when it is known and the jets reported for it cover the jet tree, and becomes
    sequential only when it is complete and follows the pulse where the chain
    ends. *)
Theorem controller_refines s0 s :
  started s0 → rtc step s0 s → rtc progress (abstract s0) (abstract s).
Proof. intros Hs0%started_Inv Hrun. by eapply runs_follow. Qed.

(** Nothing is undone.  Between any two moments of a run, a pulse stays known
    with the same previous pulse, a complete pulse stays complete, a sequential
    one stays sequential, and no reported jet is forgotten. *)
Theorem progress_monotone s0 s1 s2 :
  started s0 → rtc step s0 s1 → rtc step s1 s2 →
  (∀ n p, t_pulses (st_tables (w_db (s_w s1))) !! n = Some p →
     ∃ p', t_pulses (st_tables (w_db (s_w s2))) !! n = Some p' ∧
       p_PrevPulseNumber p' = p_PrevPulseNumber p ∧
       (p_IsComplete p = true → p_IsComplete p' = true) ∧
       (p_IsSequential p = true → p_IsSequential p' = true)) ∧
  (∀ k d, s_seen s1 !! k = Some d → ∃ d', s_seen s2 !! k = Some d' ∧ d ⊆ d').
Proof.
  intros Hs0 Hrun1 Hrun2.
  destruct (progress_rtc_grows _ _ (runs_follow _ _ _ (reachable_Inv _ _ Hs0 Hrun1) Hrun2))
    as [Hrep Hpul]. split; [|exact Hrep].
  intros n p Hp. destruct (Hpul n (status_of p)) as (s' & Hs' & Hle).
  { cbn. by rewrite lookup_fmap, Hp. }
  cbn in Hs'. rewrite lookup_fmap in Hs'.
  apply fmap_Some in Hs' as (p' & Hp' & ->). by exists p'.
Qed.
End refinement.

(** ** The theorems at work *)

Lemma controller_refines_witness :
  ∃ g, rtc progress (abstract run0) g ∧ pg_end g = 70000 ∧
    pg_pulses g !! 70000 = Some (mkStatus 0 true true).
Proof.
  exists (abstract run6). split; [apply (controller_refines run0 run6 run0_started run0_run6)|].
  split; vm_compute; reflexivity.
Defined.

Lemma progress_monotone_witness :
  ∃ p', t_pulses (st_tables (w_db (s_w run6))) !! 70000 = Some p' ∧ p_PrevPulseNumber p' = 0.
Proof.
  destruct (progress_monotone run0 run6 run6 run0_started run0_run6 (rtc_refl _ _)) as [Hp _].
  destruct (Hp 70000 pulse1_done run6_pulse) as (p' & Hp' & Hprev & _).
  exists p'. split; [exact Hp'|exact Hprev].
Defined.
