(* ===== verification/Background.v ===== *)
(** * The goroutines of the controller: [src/etl/controller]

    [MissedDataManager.Start] and [Stop] meet on one unbuffered channel; the steps
    here are the meetings.  [pulseMaintainer] and [pulseSequence] repeat the turns
    of [Controller.v] with pauses between them until their context is done. *)

From S2P Require Import Prelude GoStd Platform RefPlatform Types Models Gorm RefDb Interfaces Storage StorageInstance MissedData Controller Completeness ControllerProofs.

(** ** Starting and stopping the cleaner: [misseddata.go] *)

(** A goroutine of [Start]: in its loop, sending its confirmation, ended. *)
Inductive goroutine := Looping | Confirming | Finished.
(** A call of [Stop]: sending, receiving, returned. *)
Inductive caller := Asking | Awaiting | Returned.
#[export] Instance goroutine_eq_dec : EqDecision goroutine.
Proof. solve_decision. Defined.
#[export] Instance caller_eq_dec : EqDecision caller.
Proof. solve_decision. Defined.

(** The goroutines started so far, the calls of [Stop] so far, and the pool. *)
Record Handshake := mkHandshake {
  hs_loops : list goroutine;
  hs_stops : list caller;
  hs_mdm : MissedDataManager;
}.

Definition new_handshake (mdm : MissedDataManager) : Handshake := mkHandshake [] [] mdm.

(** [Start]: [NewTicker] panics for a period that is not positive ([None]). *)
Definition MissedDataManager_Start (h : Handshake) : option Handshake :=
  if decide (0 < mdm_cleanPeriod (hs_mdm h))
  then Some (mkHandshake (hs_loops h ++ [Looping]) (hs_stops h) (hs_mdm h))
  else None.

(** A call of [Stop] begins. *)
Definition MissedDataManager_Stop (h : Handshake) : Handshake :=
  mkHandshake (hs_loops h) (hs_stops h ++ [Asking]) (hs_mdm h).

(** [Controller.Stop] calls [cancelFunc], which is nil before [Start] ([None]), and
    then stops the cleaner; it does not wait for the two loops. *)
Definition Controller_Stop (cancelFunc : bool) (h : Handshake) : option Handshake :=
  if cancelFunc then Some (MissedDataManager_Stop h) else None.

(** A value passes over [stopped]: whoever sends meets whoever receives. *)
Inductive meeting : Handshake → Handshake → Prop :=
  | ask_loop ls ss m i j :
      ls !! i = Some Looping → ss !! j = Some Asking →
      meeting (mkHandshake ls ss m) (mkHandshake (<[i := Confirming]> ls) (<[j := Awaiting]> ss) m)
  | ask_stop ls ss m j k :
      ss !! j = Some Asking → ss !! k = Some Awaiting →
      meeting (mkHandshake ls ss m) (mkHandshake ls (<[k := Returned]> (<[j := Awaiting]> ss)) m)
  | confirm_stop ls ss m i k :
      ls !! i = Some Confirming → ss !! k = Some Awaiting →
      meeting (mkHandshake ls ss m) (mkHandshake (<[i := Finished]> ls) (<[k := Returned]> ss) m)
  | confirm_loop ls ss m i i' :
      ls !! i = Some Confirming → ls !! i' = Some Looping →
      meeting (mkHandshake ls ss m) (mkHandshake (<[i' := Confirming]> (<[i := Finished]> ls)) ss m).

(** A goroutine in its loop deletes what has expired. *)
Inductive cleaning : Handshake → Handshake → Prop :=
  | tick ls ss m i now :
      ls !! i = Some Looping →
      cleaning (mkHandshake ls ss m) (mkHandshake ls ss (deleteExpired now m)).

Inductive hs_step : Handshake → Handshake → Prop :=
  | hs_Start h h' : MissedDataManager_Start h = Some h' → hs_step h h'
  | hs_Stop h : hs_step h (MissedDataManager_Stop h)
  | hs_Add h now from to :
      hs_step h (mkHandshake (hs_loops h) (hs_stops h) (Add now from to (hs_mdm h)).2)
  | hs_meeting h h' : meeting h h' → hs_step h h'
  | hs_cleaning h h' : cleaning h h' → hs_step h h'.

(** ** The loops: [pulsemaintainer.go] *)

Section loops.
Context `{Platform, StorageSetter DB, StorageFetcher DB, JetDropsExtractor EX}.
#[local] Abbreviation W := (World DB EX).

(** The turns before the context is done: the pauses before them, and the world. *)
Fixpoint pulseMaintainer (turns : list (list Visit)) (w : W) : option (list Z * W) :=
  match turns with
  | [] => Some ([], w)
  | visits :: turns =>
      let pause := int64 (Second * cfg_PulsePeriod (c_cfg (w_c w))) in
      w ← eraseJetDropRegister visits w;
      '(pauses, w) ← pulseMaintainer turns w;
      Some (pause :: pauses, w)
  end.

(** [waitTime] is the time to wait, in seconds, before the first turn; the one
    before the next turn is returned last. *)
Fixpoint pulseSequence_loop (turns : list Z) (waitTime : Z) (w : W) : list Z * W * Z :=
  match turns with
  | [] => ([], w, waitTime)
  | now :: turns =>
      let pause := int64 (Second * waitTime) in
      let '(w, waitTime) := pulseSequence_turn now w in
      let '(pauses, w, waitTime) := pulseSequence_loop turns waitTime w in
      (pause :: pauses, w, waitTime)
  end.
Definition pulseSequence (turns : list Z) (w : W) : list Z * W * Z :=
  pulseSequence_loop turns (cfg_SequentialPeriod (c_cfg (w_c w))) w.
End loops.

(** ** Theorems: the handshake *)

Definition occ {A} `{EqDecision A} (x : A) (l : list A) : nat := length (filter (.= x) l).

Lemma occ_app {A} `{EqDecision A} (x : A) l k : occ x (l ++ k) = (occ x l + occ x k)%nat.
Proof. unfold occ. by rewrite filter_app, length_app. Qed.

Lemma occ_insert {A} `{EqDecision A} (x y z : A) (l : list A) i :
  l !! i = Some y →
  (occ x (<[i := z]> l) + (if decide (y = x) then 1 else 0) =
   occ x l + (if decide (z = x) then 1 else 0))%nat.
Proof.
  intros Hi. rewrite insert_take_drop by by eapply lookup_lt_Some.
  rewrite <- (take_drop_middle l i y Hi) at 3. rewrite !occ_app.
  unfold occ at 2 4. rewrite !filter_cons. repeat case_decide; cbn; unfold occ; lia.
Qed.

Lemma occ_zero {A} `{EqDecision A} (x : A) (l : list A) : occ x l = 0%nat ↔ x ∉ l.
Proof.
  unfold occ. rewrite length_zero_iff_nil. split.
  - intros Hnil Hx. assert (x ∈ filter (.= x) l) as Hin by by apply list_elem_of_filter.
    rewrite Hnil in Hin. by apply elem_of_nil in Hin.
  - intros Hx. apply filter_none. intros y Hy ->. done.
Qed.

Lemma occ_pos {A} `{EqDecision A} (x : A) (l : list A) i : l !! i = Some x → (0 < occ x l)%nat.
Proof.
  intros Hi. destruct (occ x l) eqn:Hc; [|lia]. apply occ_zero in Hc.
  destruct Hc. by eapply list_elem_of_lookup_2.
Qed.

(** As many calls wait for a confirmation as goroutines are about to send one, and
    once a call was heard, a goroutine has left its loop. *)
Definition hs_ok (h : Handshake) : Prop :=
  occ Confirming (hs_loops h) = occ Awaiting (hs_stops h) ∧
  (occ Awaiting (hs_stops h) + occ Returned (hs_stops h) =
   0 ∨ 0 < occ Confirming (hs_loops h) + occ Finished (hs_loops h))%nat.

Ltac counts :=
  repeat match goal with
  | E : context [decide (?a = ?a)] |- _ => rewrite (decide_True (P := a = a)) in E by reflexivity
  | E : context [decide (?a = ?b)] |- _ => rewrite (decide_False (P := a = b)) in E by discriminate
  end; lia.

Lemma insert_two {A} (l : list A) i k x y :
  l !! i = Some x → l !! k = Some y → i ≠ k → ∀ z, <[i := z]> l !! k = Some y.
Proof. intros _ Hk Hne z. by rewrite list_lookup_insert_ne. Qed.

Lemma meeting_ok h h' : hs_ok h → meeting h h' → hs_ok h'.
Proof.
  unfold hs_ok. intros [Heq Hor] Hm.
  destruct Hm as [ls ss m i j Hi Hj|ls ss m j k Hj Hk|ls ss m i k Hi Hk|ls ss m i i' Hi Hi'];
    cbn [hs_loops hs_stops] in *.
  - pose proof (occ_insert Confirming _ Confirming _ _ Hi) as H1.
    pose proof (occ_insert Finished _ Confirming _ _ Hi) as H2.
    pose proof (occ_insert Awaiting _ Awaiting _ _ Hj) as H3.
    pose proof (occ_insert Returned _ Awaiting _ _ Hj) as H4.
    counts.
  - assert (j ≠ k) as Hne by congruence.
    pose proof (insert_two _ _ _ _ _ Hj Hk Hne Awaiting) as Hk'.
    pose proof (occ_insert Awaiting _ Awaiting _ _ Hj) as H1.
    pose proof (occ_insert Returned _ Awaiting _ _ Hj) as H2.
    pose proof (occ_insert Awaiting _ Returned _ _ Hk') as H3.
    pose proof (occ_insert Returned _ Returned _ _ Hk') as H4.
    pose proof (occ_pos _ _ _ Hk). counts.
  - pose proof (occ_insert Confirming _ Finished _ _ Hi) as H1.
    pose proof (occ_insert Finished _ Finished _ _ Hi) as H2.
    pose proof (occ_insert Awaiting _ Returned _ _ Hk) as H3.
    pose proof (occ_insert Returned _ Returned _ _ Hk) as H4.
    counts.
  - assert (i ≠ i') as Hne by congruence.
    pose proof (insert_two _ _ _ _ _ Hi Hi' Hne Finished) as Hi2.
    pose proof (occ_insert Confirming _ Finished _ _ Hi) as H1.
    pose proof (occ_insert Finished _ Finished _ _ Hi) as H2.
    pose proof (occ_insert Confirming _ Confirming _ _ Hi2) as H3.
    pose proof (occ_insert Finished _ Confirming _ _ Hi2) as H4.
    counts.
Qed.

Lemma hs_step_ok h h' : hs_ok h → hs_step h h' → hs_ok h'.
Proof.
  intros Hok Hs. destruct Hs as [h h' Hstart|h|h now from to|h h' Hm|h h' Hc].
  - unfold MissedDataManager_Start in Hstart. case_decide; [|done]. injection Hstart as <-.
    unfold hs_ok in *. cbn [hs_loops hs_stops]. rewrite !occ_app.
    change (occ Confirming [Looping]) with 0%nat. change (occ Finished [Looping]) with 0%nat. lia.
  - unfold hs_ok in *. cbn [MissedDataManager_Stop hs_loops hs_stops]. rewrite !occ_app.
    change (occ Awaiting [Asking]) with 0%nat. change (occ Returned [Asking]) with 0%nat. lia.
  - exact Hok.
  - by eapply meeting_ok.
  - by destruct Hc.
Qed.

Definition hs_reachable (h : Handshake) : Prop := ∃ mdm, rtc hs_step (new_handshake mdm) h.

Lemma hs_reachable_ok h : hs_reachable h → hs_ok h.
Proof.
  intros (mdm & Hr). apply (rtc_ind_r (R := hs_step) hs_ok (new_handshake mdm)); [|by intros; eapply hs_step_ok|done].
  split; [done|by left].
Qed.

(** Every meeting brings somebody on. *)
Definition progress (h : Handshake) : nat :=
  2 * occ Looping (hs_loops h) + occ Confirming (hs_loops h) +
  (2 * occ Asking (hs_stops h) + occ Awaiting (hs_stops h)).

Lemma meeting_progress h h' : meeting h h' → (progress h' < progress h)%nat.
Proof.
  intros Hm. unfold progress.
  destruct Hm as [ls ss m i j Hi Hj|ls ss m j k Hj Hk|ls ss m i k Hi Hk|ls ss m i i' Hi Hi'];
    cbn [hs_loops hs_stops].
  - pose proof (occ_insert Looping _ Confirming _ _ Hi).
    pose proof (occ_insert Confirming _ Confirming _ _ Hi).
    pose proof (occ_insert Asking _ Awaiting _ _ Hj).
    pose proof (occ_insert Awaiting _ Awaiting _ _ Hj). counts.
  - assert (j ≠ k) as Hne by congruence.
    pose proof (insert_two _ _ _ _ _ Hj Hk Hne Awaiting) as Hk'.
    pose proof (occ_insert Asking _ Awaiting _ _ Hj).
    pose proof (occ_insert Awaiting _ Awaiting _ _ Hj).
    pose proof (occ_insert Asking _ Returned _ _ Hk').
    pose proof (occ_insert Awaiting _ Returned _ _ Hk'). counts.
  - pose proof (occ_insert Looping _ Finished _ _ Hi).
    pose proof (occ_insert Confirming _ Finished _ _ Hi).
    pose proof (occ_insert Asking _ Returned _ _ Hk).
    pose proof (occ_insert Awaiting _ Returned _ _ Hk). counts.
  - assert (i ≠ i') as Hne by congruence.
    pose proof (insert_two _ _ _ _ _ Hi Hi' Hne Finished) as Hi2.
    pose proof (occ_insert Looping _ Finished _ _ Hi).
    pose proof (occ_insert Confirming _ Finished _ _ Hi).
    pose proof (occ_insert Looping _ Confirming _ _ Hi2).
    pose proof (occ_insert Confirming _ Confirming _ _ Hi2). counts.
Qed.

(** Meetings come to an end. *)
Lemma meeting_wf : well_founded (flip meeting).
Proof.
  enough (∀ n h, (progress h < n)%nat → Acc (flip meeting) h) as Hacc by (intros h; by eapply (Hacc (S (progress h))), Nat.lt_succ_diag_r).
  induction n as [|n IH]; intros h Hn; [lia|]. constructor. intros h' Hm%meeting_progress. apply IH. lia.
Qed.

Definition settled (h : Handshake) : Prop := ∀ h', ¬ meeting h h'.

Lemma lookup_of_elem {A} (x : A) (l : list A) : x ∈ l → ∃ i, l !! i = Some x.
Proof. apply list_elem_of_lookup_1. Qed.

Lemma settled_waiting h :
  hs_ok h → settled h → (Awaiting ∉ hs_stops h) ∧ (Confirming ∉ hs_loops h) ∧
  (Asking ∈ hs_stops h → Forall (.= Finished) (hs_loops h)).
Proof.
  intros [Heq _] Hset. destruct h as [ls ss m]. cbn [hs_loops hs_stops] in *.
  assert (Awaiting ∉ ss) as Haw.
  { intros Ha. destruct (lookup_of_elem _ _ Ha) as [k Hk].
    pose proof (occ_pos _ _ _ Hk).
    assert (Confirming ∈ ls) as Hc by (destruct (decide (Confirming ∈ ls)) as [|Hn%occ_zero]; [done|lia]).
    destruct (lookup_of_elem _ _ Hc) as [i Hi]. by eapply Hset, confirm_stop. }
  assert (Confirming ∉ ls) as Hcf by (apply occ_zero; apply occ_zero in Haw; lia).
  split_and!; [done|done|]. intros Ha. destruct (lookup_of_elem _ _ Ha) as [j Hj].
  apply Forall_forall. intros [] Hg; [|done|done]. destruct (lookup_of_elem _ _ Hg) as [i Hi].
  exfalso. by eapply Hset, ask_loop.
Qed.

(** A goroutine that is alone ends by answering a call. *)
Definition answered (h : Handshake) : Prop :=
  (length (hs_loops h) ≤ 1 → occ Finished (hs_loops h) ≤ occ Returned (hs_stops h))%nat.

Lemma meeting_answered h h' : answered h → meeting h h' → answered h'.
Proof.
  unfold answered. intros Ha Hm.
  destruct Hm as [ls ss m i j Hi Hj|ls ss m j k Hj Hk|ls ss m i k Hi Hk|ls ss m i i' Hi Hi'];
    cbn [hs_loops hs_stops] in *; rewrite ?length_insert; intros Hlen; [specialize (Ha Hlen)..|].
  - pose proof (occ_insert Finished _ Confirming _ _ Hi).
    pose proof (occ_insert Returned _ Awaiting _ _ Hj). counts.
  - assert (j ≠ k) as Hne by congruence.
    pose proof (insert_two _ _ _ _ _ Hj Hk Hne Awaiting) as Hk'.
    pose proof (occ_insert Returned _ Awaiting _ _ Hj).
    pose proof (occ_insert Returned _ Returned _ _ Hk'). counts.
  - pose proof (occ_insert Finished _ Finished _ _ Hi).
    pose proof (occ_insert Returned _ Returned _ _ Hk). counts.
  - assert (i ≠ i') as Hne by congruence.
    apply lookup_lt_Some in Hi, Hi'. lia.
Qed.

Lemma hs_step_answered h h' : answered h → hs_step h h' → answered h'.
Proof.
  intros Ha Hs. destruct Hs as [h h' Hstart|h|h now from to|h h' Hm|h h' Hc].
  - unfold MissedDataManager_Start in Hstart. case_decide; [|done]. injection Hstart as <-.
    unfold answered in *. cbn [hs_loops hs_stops]. rewrite occ_app, length_app.
    change (occ Finished [Looping]) with 0%nat. cbn. lia.
  - unfold answered in *. cbn [MissedDataManager_Stop hs_loops hs_stops]. rewrite occ_app. lia.
  - exact Ha.
  - by eapply meeting_answered.
  - by destruct Hc.
Qed.

Lemma hs_reachable_answered h : hs_reachable h → answered h.
Proof.
  intros (mdm & Hr).
  apply (rtc_ind_r (R := hs_step) answered (new_handshake mdm)); [|by intros; eapply hs_step_answered|done].
  intros _. apply Nat.le_0_l.
Qed.

(** When the only goroutine is gone and nobody waits for a confirmation, a call
    that asks goes on asking, unless the cleaner is started again. *)
Definition deaf (j : nat) (h : Handshake) : Prop :=
  (2 ≤ length (hs_loops h))%nat ∨
  hs_loops h = [Finished] ∧ (Awaiting ∉ hs_stops h) ∧ hs_stops h !! j = Some Asking.

Lemma hs_step_deaf j h h' : deaf j h → hs_step h h' → deaf j h'.
Proof.
  intros Hd Hs. destruct Hs as [h h' Hstart|h|h now from to|h h' Hm|h h' Hc].
  - left. unfold MissedDataManager_Start in Hstart. case_decide; [|done]. injection Hstart as <-.
    cbn [hs_loops]. rewrite length_app. cbn. destruct Hd as [?|(-> & _)]; [lia|done].
  - destruct Hd as [?|(Hl & Ha & Hj)]; [by left|right]. split_and!; [done| |].
    + cbn. rewrite not_elem_of_app, list_elem_of_singleton. done.
    + cbn. by apply lookup_app_l_Some.
  - exact Hd.
  - destruct Hd as [Hlen|(Hl & Ha & Hj)].
    + left. destruct Hm; cbn [hs_loops] in *; by rewrite ?length_insert.
    + exfalso. destruct Hm as [ls ss m i k Hi Hk|ls ss m i k Hi Hk|ls ss m i k Hi Hk|ls ss m i i' Hi Hi'];
        cbn [hs_loops hs_stops] in *; subst; try (by destruct i);
        apply Ha; by eapply list_elem_of_lookup_2.
  - by destruct Hc.
Qed.

Lemma hs_deaf j h h' : deaf j h → rtc hs_step h h' → deaf j h'.
Proof. intros Hd Hr. induction Hr as [|h1 h2 h3 Hs _ IH]; [done|]. by eapply IH, hs_step_deaf. Qed.

(** C30: A cleaner that was started once.  After any call of [Stop] has returned
    nothing is deleted any more, and its goroutine is gone once no call waits for
    it.  The meetings come to an end; if there are calls then, the goroutine is
    gone and has answered at least one; and each call has returned, or nobody has
    received its signal (it may have been made before or after the goroutine
    ended), and then nobody ever does, unless the cleaner is started again. *)
Theorem Stop_protocol h g :
  hs_reachable h → hs_loops h = [g] →
  (Returned ∈ hs_stops h → (∀ h', ¬ cleaning h h') ∧ (Awaiting ∉ hs_stops h → g = Finished)) ∧
  (settled h → hs_stops h ≠ [] →
     g = Finished ∧ Returned ∈ hs_stops h ∧
     ∀ j c, hs_stops h !! j = Some c →
       c = Returned ∨
       c = Asking ∧ ∀ h', rtc hs_step h h' → length (hs_loops h') = 1%nat →
         hs_stops h' !! j = Some Asking) ∧
  well_founded (flip meeting).
Proof.
  intros Hreach Hg. pose proof (hs_reachable_ok _ Hreach) as Hr.
  pose proof (hs_reachable_answered _ Hreach) as Hans. split; [|split].
  - intros Hret. destruct (lookup_of_elem _ _ Hret) as [k Hk]. pose proof (occ_pos _ _ _ Hk) as Hpos.
    destruct Hr as [Heq Hor]. rewrite Hg in *.
    assert (g ≠ Looping) as Hnl by (intros ->; change (occ Confirming [Looping]) with 0%nat in *;
      change (occ Finished [Looping]) with 0%nat in *; lia).
    split.
    + intros h' Hc. destruct Hc as [ls ss m i now Hi]. cbn [hs_loops] in Hg. rewrite Hg in Hi.
      destruct i; [|done]. by injection Hi.
    + intros Haw%occ_zero. destruct g; [done| |done].
      change (occ Confirming [Confirming]) with 1%nat in Heq. lia.
  - intros Hset Hne. destruct (settled_waiting _ Hr Hset) as (Haw & Hcf & Hfin). rewrite Hg in Hcf, Hfin.
    assert (g = Finished) as ->.
    { destruct g; [|by destruct Hcf; left|done].
      destruct Hr as [_ Hor]. rewrite Hg in Hor. change (occ Confirming [Looping]) with 0%nat in Hor.
      change (occ Finished [Looping]) with 0%nat in Hor.
      destruct (hs_stops h) as [|[] ss] eqn:Hs; [done| | |].
      - assert (Forall (.= Finished) [Looping]) as Hf by (apply Hfin; left).
        by apply Forall_cons in Hf as [? _].
      - destruct Haw. left.
      - pose proof (occ_pos Returned (Returned :: ss) 0%nat eq_refl). lia. }
    split_and!; [done| |].
    + unfold answered in Hans. rewrite Hg in Hans. change (occ Finished [Finished]) with 1%nat in Hans.
      destruct (decide (Returned ∈ hs_stops h)) as [|Hn%occ_zero]; [done|]. cbn in Hans. lia.
    + intros j [] Hj; [right|destruct Haw; by eapply list_elem_of_lookup_2|by left].
      split; [done|]. intros h' Hrun Hlen.
      destruct (hs_deaf j h h') as [?|(_ & _ & ?)]; [by right|done|lia|done].
  - apply meeting_wf.
Qed.

(** ** Theorems: catching up *)

Section catch_up.
Context `{Platform, StorageLaws DB, JetDropsExtractor EX}.
#[local] Abbreviation W := (World DB EX).

(** A database that answers. *)
Context (answers : DB → Prop).
Context (answers_by_prev : ∀ db prev, answers db →
  (∃ p, st_GetPulseByPrev prev db = Ok p) ∨ st_GetPulseByPrev prev db = Err ErrRecordNotFound).
Context (answers_sequence : ∀ db n, answers db → n ≠ 0 → is_Some (t_pulses (st_tables db) !! n) →
  ∃ db', st_SequencePulse n db = Ok db' ∧ answers db').

(** The pulses [ps], each complete and the only one after the one before. *)
Fixpoint linked (t : Tables) (n : Z) (ps : list Pulse) : Prop :=
  match ps with
  | [] => True
  | p :: ps =>
      0 ≤ n < p_PulseNumber p ∧ p_IsComplete p = true ∧ t_pulses t !! p_PulseNumber p = Some p ∧
      (∀ k q, t_pulses t !! k = Some q → p_PrevPulseNumber q = n ↔ k = p_PulseNumber p) ∧
      linked t (p_PulseNumber p) ps
  end.

Lemma linked_sequenced t n ps m p :
  linked t n ps → m ≤ n → t_pulses t !! m = Some p →
  linked (set_pulses (<[m := mark_sequential p]> (t_pulses t)) t) n ps.
Proof.
  revert n. induction ps as [|q ps IH]; intros n Hl Hm Hp; [done|].
  destruct Hl as (Hn & Hc & Hq & Hu & Hl). cbn [linked set_pulses t_pulses]. split_and!; try lia; try done.
  - by rewrite lookup_insert_ne by lia.
  - intros k x. destruct (decide (m = k)) as [<-|Hk].
    + rewrite lookup_insert_eq. intros [= <-]. exact (Hu m p Hp).
    + rewrite lookup_insert_ne by done. apply Hu.
  - apply IH; [done|lia|done].
Qed.

(** The last of them, or the pulse before them. *)
Definition last_number (n : Z) (ps : list Pulse) : Z := default n (p_PulseNumber <$> last ps).

Lemma sequence_turn now (w : W) p ps :
  answers (w_db w) →
  linked (st_tables (w_db w)) (p_PulseNumber (c_sequentialPulse (w_c w))) (p :: ps) →
  ∃ db, pulseSequence_turn now w = (mkWorld (set_sequential p (w_c w)) db (w_ex w), 0) ∧ answers db ∧
    st_tables db = set_pulses (<[p_PulseNumber p := mark_sequential p]> (t_pulses (st_tables (w_db w))))
                     (st_tables (w_db w)).
Proof.
  intros Ha (Hn & Hc & Hp & Hu & _). unfold pulseSequence_turn.
  assert (st_GetPulseByPrev (c_sequentialPulse (w_c w)) (w_db w) = Ok p) as Hnext.
  { destruct (answers_by_prev (w_db w) (c_sequentialPulse (w_c w)) Ha) as [[q Hq]|Hnf].
    - rewrite Hq. apply st_GetPulseByPrev_Ok in Hq as [[k Hk] Hprev].
      apply (Hu _ _ Hk) in Hprev as ->. by simplify_eq.
    - exfalso. apply (st_GetPulseByPrev_not_found _ _ Hnf p); [by eexists|]. by apply (Hu _ _ Hp). }
  rewrite Hnext, Hc.
  destruct (answers_sequence (w_db w) (p_PulseNumber p) Ha) as (db & Hs & Hdb); [lia|by eexists|].
  rewrite Hs. exists db. split_and!; [done|done|].
  apply st_SequencePulse_Ok in Hs as (q & Hq & ->); [|lia]. by simplify_eq.
Qed.

(** C7: As long as complete pulses follow each other, every turn sequences one, and
    there is no pause before the next turn. *)
Theorem pulseSequence_catches_up turns ps (w : W) :
  answers (w_db w) → length turns = length ps → ps ≠ [] →
  linked (st_tables (w_db w)) (p_PulseNumber (c_sequentialPulse (w_c w))) ps →
  ∃ w', pulseSequence turns w =
      (int64 (Second * cfg_SequentialPeriod (c_cfg (w_c w))) :: replicate (pred (length ps)) 0, w', 0) ∧
    p_PulseNumber (c_sequentialPulse (w_c w')) =
      last_number (p_PulseNumber (c_sequentialPulse (w_c w))) ps ∧
    ∀ p, p ∈ ps → t_pulses (st_tables (w_db w')) !! p_PulseNumber p = Some (mark_sequential p).
Proof.
  unfold pulseSequence. generalize (cfg_SequentialPeriod (c_cfg (w_c w))). intros waitTime.
  enough (∀ ps turns waitTime w, answers (w_db w) → length turns = length ps → ps ≠ [] →
    linked (st_tables (w_db w)) (p_PulseNumber (c_sequentialPulse (w_c w))) ps →
    ∃ w', pulseSequence_loop turns waitTime w =
        (int64 (Second * waitTime) :: replicate (pred (length ps)) 0, w', 0) ∧
      p_PulseNumber (c_sequentialPulse (w_c w')) =
        last_number (p_PulseNumber (c_sequentialPulse (w_c w))) ps ∧
      (∀ k q, k ≤ p_PulseNumber (c_sequentialPulse (w_c w)) →
         t_pulses (st_tables (w_db w)) !! k = Some q → t_pulses (st_tables (w_db w')) !! k = Some q) ∧
      ∀ p, p ∈ ps → t_pulses (st_tables (w_db w')) !! p_PulseNumber p = Some (mark_sequential p)) as Hgen.
  { intros Ha Hlen Hne Hl. destruct (Hgen ps turns waitTime w Ha Hlen Hne Hl) as (w' & ? & ? & _ & ?).
    by exists w'. }
  clear -answers_by_prev answers_sequence. induction ps as [|p ps IH]; intros [|now turns] waitTime w Ha Hlen Hne Hl; try done.
  destruct (sequence_turn now w p ps Ha Hl) as (db & Hturn & Hdb & Ht).
  destruct Hl as (Hn & _ & Hp & _ & Hl). cbn [pulseSequence_loop]. rewrite Hturn.
  set (w1 := mkWorld (set_sequential p (w_c w)) db (w_ex w)).
  assert (linked (st_tables db) (p_PulseNumber p) ps) as Hl1.
  { rewrite Ht. by apply linked_sequenced. }
  assert (∀ k q, k ≤ p_PulseNumber (c_sequentialPulse (w_c w)) →
    t_pulses (st_tables (w_db w)) !! k = Some q → t_pulses (st_tables db) !! k = Some q) as Hold.
  { intros k q Hk Hq. rewrite Ht. cbn. by rewrite lookup_insert_ne by lia. }
  assert (t_pulses (st_tables db) !! p_PulseNumber p = Some (mark_sequential p)) as Hnew.
  { rewrite Ht. cbn. by rewrite lookup_insert_eq. }
  destruct (decide (ps = [])) as [->|Hps].
  { destruct turns; [|done]. cbn. exists w1. split_and!; [done|done|done|].
    by intros q ->%list_elem_of_singleton. }
  destruct (IH turns 0 w1 Hdb ltac:(by injection Hlen) Hps Hl1) as (w' & Hrun & Hlast & Hkeep & Hall).
  exists w'. rewrite Hrun. split_and!.
  - f_equal. f_equal. destruct ps as [|q ps]; [done|]. cbn. done.
  - rewrite Hlast. unfold last_number. destruct ps as [|q ps]; [done|].
    rewrite last_cons_cons. cbn [c_sequentialPulse]. by destruct (last (q :: ps)) eqn:Hls; [|by apply last_None in Hls].
  - intros k q Hk Hq. apply Hkeep; [cbn; lia|by apply Hold].
  - intros q [->|Hq]%elem_of_cons; [|by apply Hall]. apply Hkeep; [cbn; lia|done].
Qed.
End catch_up.

(** ** The theorems at work *)

Definition ref_answers (db : RefDB) : Prop := ref_down db = false.

Lemma ref_answers_by_prev (db : RefDB) prev :
  ref_answers db →
  (∃ p, st_GetPulseByPrev prev db = Ok p) ∨ st_GetPulseByPrev prev db = Err ErrRecordNotFound.
Proof.
  intros Hup. cbn [st_GetPulseByPrev Storage_fetcher]. unfold GetPulseByPrev. cbn [First ref_gorm].
  unfold ref_first, ref_one, guard_up. rewrite Hup.
  destruct (ref_select _ _) as [[|p l]|] eqn:Hs; [by right|left; by eexists|]. discriminate Hs.
Defined.

Lemma ref_answers_sequence (db : RefDB) n :
  ref_answers db → n ≠ 0 → is_Some (t_pulses (st_tables db) !! n) →
  ∃ db', st_SequencePulse n db = Ok db' ∧ ref_answers db'.
Proof.
  intros Hup Hn [p Hp]. destruct db as [t down]. unfold ref_answers in Hup. cbn in Hup. subst down.
  cbn in Hp. cbn [st_SequencePulse Storage_setter]. unfold SequencePulse.
  cbn [Transaction ref_gorm Update_Pulse guard_up ref_down ref_tables].
  unfold guard_up. cbn [ref_down ref_tables].
  rewrite (decide_False (P := n = 0)) by done. rewrite Hp. cbn. by eexists.
Defined.

(** Two complete pulses after nothing. *)
Definition caught_up : list Pulse :=
  [mkPulse 65537 0 65547 true false 0 0 0; mkPulse 65547 65537 65557 true false 0 0 0].
Definition behind : World RefDB (list (Z * Z)) :=
  mkWorld (set_sequential (pulse_of_number 0) (NewController cfg0 2))
    (up (mkTables {[65537 := mkPulse 65537 0 65547 true false 0 0 0;
                    65547 := mkPulse 65547 65537 65557 true false 0 0 0]} ∅ ∅)) [].

Lemma pulseSequence_catches_up_witness :
  ∃ w', pulseSequence [0; 1] behind = ([1000000000; 0], w', 0) ∧
        p_PulseNumber (c_sequentialPulse (w_c w')) = 65547.
Proof.
  destruct (pulseSequence_catches_up ref_answers ref_answers_by_prev ref_answers_sequence
    [0; 1] caught_up behind) as (w' & Hrun & Hlast & _).
  - reflexivity.
  - reflexivity.
  - discriminate.
  - assert (∀ n m, 0 ≤ n → bool_decide (n < m) = true → 0 ≤ n < m) as Hlt
      by (intros n m Hn Hb; apply bool_decide_eq_true in Hb; lia).
    assert (∀ k q, t_pulses (st_tables (w_db behind)) !! k = Some q →
      k = 65537 ∧ p_PrevPulseNumber q = 0 ∨ k = 65547 ∧ p_PrevPulseNumber q = 65537) as Hrows.
    { intros k q Hq. cbn in Hq. apply lookup_insert_Some in Hq as [[<- <-]|[_ Hq]]; [by left|].
      apply lookup_singleton_Some in Hq as [<- <-]. by right. }
    cbn [linked caught_up]. split_and!; try done.
    + intros k q Hq. apply Hrows in Hq. cbn. lia.
    + intros k q Hq. apply Hrows in Hq. cbn. lia.
  - exists w'. split; [exact Hrun|exact Hlast].
Defined.

(** A cleaner that runs and a call of [Stop] that begins. *)
Definition stopping : Handshake :=
  mkHandshake [Finished] [Returned] (NewMissedDataManager 5 1).
Lemma stopping_reachable : hs_reachable stopping.
Proof.
  exists (NewMissedDataManager 5 1).
  eapply rtc_l; [apply hs_Start; reflexivity|].
  eapply rtc_l; [apply hs_Stop|]. cbn [MissedDataManager_Stop hs_loops hs_stops hs_mdm app].
  eapply rtc_l; [apply hs_meeting; by apply (ask_loop _ _ _ 0 0)|].
  eapply rtc_l; [apply hs_meeting; by apply (confirm_stop _ _ _ 0 0)|].
  apply rtc_refl.
Defined.

Lemma Stop_protocol_witness :
  Returned ∈ hs_stops stopping ∧ ∀ h', ¬ cleaning stopping h'.
Proof.
  destruct (Stop_protocol stopping Finished stopping_reachable eq_refl) as [Hsafe _].
  split; [left|]. apply Hsafe. left.
Defined.

(** A cleaner that was started twice is not stopped by one call: the other
    goroutine goes on deleting. *)
Example started_twice :
  let h := mkHandshake [Finished; Looping] [Returned] (NewMissedDataManager 5 1) in
  hs_reachable h ∧ ∃ h', cleaning h h'.
Proof.
  cbn zeta. split; [|eexists; by apply (tick _ _ _ 1 (λ _, 0))].
  exists (NewMissedDataManager 5 1).
  eapply rtc_l; [apply hs_Start; reflexivity|]. eapply rtc_l; [apply hs_Start; reflexivity|].
  eapply rtc_l; [apply hs_Stop|]. cbn [MissedDataManager_Stop hs_loops hs_stops hs_mdm app].
  eapply rtc_l; [apply hs_meeting; by apply (ask_loop _ _ _ 0 0)|].
  eapply rtc_l; [apply hs_meeting; by apply (confirm_stop _ _ _ 0 0)|].
  apply rtc_refl.
Qed.
