(* ===== verification/Processor.v ===== *)
(** * The processor: [src/etl/processor/processor.go]

    [process] turns one canonical jet drop into rows, saves them and reports the
    drop to the controller.  [Start] runs it in a pool of workers fed by one
    dispatcher over an unbuffered channel; a worker whose drop failed puts the
    drop back into that channel.  The pool is a transition system: one step is
    one channel operation, one lock operation or one whole [process]. *)

From S2P Require Import Prelude GoStd Platform RefPlatform Types Models Gorm RefDb Interfaces Storage StorageInstance MissedData Controller.

(** ** One drop *)

(** [fmt] with [%t] and, for a pulse, with [%+v]. *)
Definition FormatBool (b : bool) : string := if b then "true" else "false".
Definition FormatPulse (p : Pulse) : string :=
  "{PulseNumber:" +:+ FormatInt (p_PulseNumber p)
  +:+ " PrevPulseNumber:" +:+ FormatInt (p_PrevPulseNumber p)
  +:+ " NextPulseNumber:" +:+ FormatInt (p_NextPulseNumber p)
  +:+ " IsComplete:" +:+ FormatBool (p_IsComplete p)
  +:+ " IsSequential:" +:+ FormatBool (p_IsSequential p)
  +:+ " Timestamp:" +:+ FormatInt (p_Timestamp p)
  +:+ " JetDropAmount:" +:+ FormatInt (p_JetDropAmount p)
  +:+ " RecordAmount:" +:+ FormatInt (p_RecordAmount p) +:+ "}".

(** The literal [models.Pulse{...}] of [process]. *)
Definition model_pulse (pd : TPulse) : Pulse :=
  mkPulse (tp_PulseNo pd) (tp_PrevPulseNumber pd) (tp_NextPulseNumber pd) false false
    (tp_PulseTimestamp pd) 0 0.

(** The previous hashes and the literal [models.JetDrop{...}]; a missing hash is
    the nil slice. *)
Definition model_jet_drop (jd : TJetDrop) : JetDrop :=
  let ms := tjd_MainSection jd in
  let pd := ds_PulseData (ms_Start ms) in
  let prev := dc_PrevDropHash (ms_DropContinue ms) in
  let firstPrevHash := default [] (prev !! 0%nat) in
  let secondPrevHash := default [] (prev !! 1%nat) in
  mkJetDrop (tp_PulseNo pd) (ds_JetDropPrefix (ms_Start ms)) firstPrevHash secondPrevHash
    (tjd_Hash jd) (tjd_RawData jd) (tp_PulseTimestamp pd) (Z.of_nat (length (ms_Records ms))).

(** The literal [models.Record{...}] at index [i]; [None] is the panic of
    [RecordTypeFromTypes]. *)
Definition model_record (mjd : JetDrop) (i : nat) (r : TRecord) : option MRecord :=
  type ← RecordTypeFromTypes (tr_Type r);
  Some (mkMRecord (tr_Ref r) type (tr_ObjectReference r) (tr_PrototypeReference r)
    (tr_RecordPayload r) (tr_PrevRecordReference r) (tr_Hash r) (tr_RawData r)
    (jd_JetID mjd) (jd_PulseNumber mjd) (Z.of_nat i) (jd_Timestamp mjd)).

(** The loop over [ms.Records], from index [i] on. *)
Fixpoint model_records (mjd : JetDrop) (i : nat) (rs : list TRecord) : option (list MRecord) :=
  match rs with
  | [] => Some []
  | r :: rs =>
      mr ← model_record mjd i r;
      mrs ← model_records mjd (S i) rs;
      Some (mr :: mrs)
  end.

Section process.
Context `{StorageSetter DB, JetDropRegister C}.

(** [process]: the state after it, and the error it returns; [None] is a panic.
    The first write stays when the second one fails. *)
Definition process (jd : TJetDrop) (st : DB * C) : option ((DB * C) * option error) :=
  let '(db, c) := st in
  let ms := tjd_MainSection jd in
  let pd := ds_PulseData (ms_Start ms) in
  let mp := model_pulse pd in
  match st_SavePulse mp db with
  | Err err =>
      Some (st, Some (ErrMsg ("cannot save pulse data: " +:+ Error err +:+ ". pulse = "
                              +:+ FormatPulse mp)))
  | Ok db =>
      let mjd := model_jet_drop jd in
      mrs ← model_records mjd 0 (ms_Records ms);
      match st_SaveJetDropData mjd mrs (p_PulseNumber mp) db with
      | Err err =>
          Some ((db, c), Some (ErrMsg ("cannot save jetDrop data: " +:+ Error err
            +:+ ". jetDrop:{jetID: " +:+ jd_JetID mjd +:+ ", pulseNumber: "
            +:+ FormatInt (jd_PulseNumber mjd) +:+ "}, record amount = "
            +:+ FormatInt (Z.of_nat (length mrs)))))
      | Ok db => Some ((db, ctl_SetJetDropData pd (jd_JetID mjd) c), None)
      end
  end.
End process.

(** ** The pool *)

(** What a worker goroutine is doing: waiting on the channel, processing,
    sending a failed drop back, or returned. *)
Inductive worker :=
  | Idle
  | Working (jd : TJetDrop)
  | Retrying (jd : TJetDrop)
  | Exited.

(** What the dispatcher goroutine is doing: waiting for [jdC], waiting for the
    lock with a drop, sending it to a worker while it holds the lock, waiting for
    the lock because [jdC] was closed, or returned. *)
Inductive dispatcher :=
  | Receiving
  | Locking (jd : TJetDrop)
  | Sending (jd : TJetDrop)
  | Closing
  | Returned.

(** The pool: the drops that [jdC] will deliver and whether it is closed after
    them, the dispatcher, the workers, [active], the drops processed and those
    thrown away because the processor was stopped.  [taskC] is closed exactly
    when [active] is false; the lock is held exactly while the dispatcher is
    sending. *)
Record Pool := mkPool {
  pl_input : list TJetDrop;
  pl_closed : bool;
  pl_dispatcher : dispatcher;
  pl_workers : list worker;
  pl_active : bool;
  pl_done : list TJetDrop;
  pl_dropped : list TJetDrop;
}.

(** [NewProcessor] and [Start]: at least one worker. *)
Definition NewPool (workers : Z) (input : list TJetDrop) (closed : bool) : Pool :=
  let workers := if decide (workers < 1) then 1 else workers in
  mkPool input closed Receiving (replicate (Z.to_nat workers) Idle) true [] [].

Definition set_workers (ws : list worker) (s : Pool) : Pool :=
  mkPool (pl_input s) (pl_closed s) (pl_dispatcher s) ws (pl_active s) (pl_done s) (pl_dropped s).
Definition set_dispatcher (d : dispatcher) (s : Pool) : Pool :=
  mkPool (pl_input s) (pl_closed s) d (pl_workers s) (pl_active s) (pl_done s) (pl_dropped s).
Definition set_active (b : bool) (s : Pool) : Pool :=
  mkPool (pl_input s) (pl_closed s) (pl_dispatcher s) (pl_workers s) b (pl_done s) (pl_dropped s).

Definition lock_free (s : Pool) : Prop := ∀ jd, pl_dispatcher s ≠ Sending jd.

(** One action; [None] is the panic of a send on a closed channel.  Whether a
    [process] fails is up to the storage. *)
Inductive pool_step : Pool → option Pool → Prop :=
  | ps_receive jd input s :
      pl_dispatcher s = Receiving → pl_input s = jd :: input →
      pool_step s (Some (mkPool input (pl_closed s) (Locking jd) (pl_workers s) (pl_active s)
        (pl_done s) (pl_dropped s)))
  | ps_lock jd s :
      pl_dispatcher s = Locking jd → pl_active s = true →
      pool_step s (Some (set_dispatcher (Sending jd) s))
  | ps_drop jd s :
      pl_dispatcher s = Locking jd → pl_active s = false →
      pool_step s (Some (mkPool (pl_input s) (pl_closed s) Receiving (pl_workers s) (pl_active s)
        (pl_done s) (pl_dropped s ++ [jd])))
  | ps_send jd i s :
      pl_dispatcher s = Sending jd → pl_workers s !! i = Some Idle →
      pool_step s (Some (set_dispatcher Receiving
        (set_workers (<[i := Working jd]> (pl_workers s)) s)))
  | ps_input_closed s :
      pl_dispatcher s = Receiving → pl_input s = [] → pl_closed s = true →
      pool_step s (Some (set_dispatcher Closing s))
  | ps_close s :
      pl_dispatcher s = Closing →
      pool_step s (Some (set_dispatcher Returned (set_active false s)))
  | ps_success jd i s :
      pl_workers s !! i = Some (Working jd) →
      pool_step s (Some (mkPool (pl_input s) (pl_closed s) (pl_dispatcher s)
        (<[i := Idle]> (pl_workers s)) (pl_active s) (pl_done s ++ [jd]) (pl_dropped s)))
  | ps_failure jd i s :
      pl_workers s !! i = Some (Working jd) →
      pool_step s (Some (set_workers (<[i := Retrying jd]> (pl_workers s)) s))
  | ps_retry jd i k s :
      pl_active s = true → i ≠ k →
      pl_workers s !! i = Some (Retrying jd) → pl_workers s !! k = Some Idle →
      pool_step s (Some (set_workers (<[k := Working jd]> (<[i := Idle]> (pl_workers s))) s))
  | ps_retry_closed jd i s :
      pl_active s = false → pl_workers s !! i = Some (Retrying jd) →
      pool_step s None
  | ps_exit i s :
      pl_active s = false → pl_workers s !! i = Some Idle →
      pool_step s (Some (set_workers (<[i := Exited]> (pl_workers s)) s))
  | ps_stop s :
      lock_free s → pool_step s (Some (set_active false s)).

(** ** Lemmas: rows *)

Lemma model_records_lookup mjd i rs mrs :
  model_records mjd i rs = Some mrs →
  length mrs = length rs ∧
  ∀ k r, rs !! k = Some r → ∃ mr, mrs !! k = Some mr ∧ model_record mjd (i + k) r = Some mr.
Proof.
  revert i mrs. induction rs as [|r rs IH]; intros i mrs Hm; cbn in Hm.
  { simplify_eq. split; [done|]. intros k r. by rewrite lookup_nil. }
  destruct (model_record mjd i r) as [mr|] eqn:Hr; [|done]. cbn in Hm.
  destruct (model_records mjd (S i) rs) as [mrs'|] eqn:Hrs; [|done]. cbn in Hm. simplify_eq.
  destruct (IH _ _ Hrs) as [Hlen Hall]. split; [cbn; lia|].
  intros [|k] x Hx; cbn in Hx.
  - simplify_eq. exists mr. by rewrite Nat.add_0_r.
  - destruct (Hall k x Hx) as (mr' & Hk & Hmr). exists mr'. split; [done|].
    by replace (i + S k)%nat with (S i + k)%nat by lia.
Qed.

(** The types the transformer produces. *)
Definition typed (r : TRecord) : Prop := 0 ≤ tr_Type r ≤ 2.

Lemma model_record_typed mjd i r : typed r → is_Some (model_record mjd i r).
Proof.
  intros Ht. unfold typed in Ht. unfold model_record, RecordTypeFromTypes.
  assert (tr_Type r = 0 ∨ tr_Type r = 1 ∨ tr_Type r = 2) as [-> |[-> | ->]] by lia; by eexists.
Qed.

Lemma model_records_typed mjd i rs : Forall typed rs → is_Some (model_records mjd i rs).
Proof.
  intros Hall. revert i. induction Hall as [|r rs Hr _ IH]; intros i; cbn; [by eexists|].
  destruct (model_record_typed mjd i r Hr) as [mr ->], (IH (S i)) as [mrs ->]. by eexists.
Qed.

(** ** Properties of [process] *)

Section process_laws.
Context `{Platform, StorageLaws DB}.

Definition pulse_data (jd : TJetDrop) : TPulse := ds_PulseData (ms_Start (tjd_MainSection jd)).
Definition jet_prefix (jd : TJetDrop) : string := ds_JetDropPrefix (ms_Start (tjd_MainSection jd)).

Lemma process_total `{JetDropRegister C} jd db (c : C) :
  Forall typed (ms_Records (tjd_MainSection jd)) → is_Some (process jd (db, c)).
Proof.
  intros Hty. unfold process. destruct (st_SavePulse _ db) as [db1|]; [|by eexists].
  destruct (model_records_typed (model_jet_drop jd) 0 _ Hty) as [mrs ->]. cbn.
  destruct (st_SaveJetDropData _ _ _ db1); by eexists.
Qed.

Lemma process_failed `{JetDropRegister C} jd db (c : C) st err :
  process jd (db, c) = Some (st, Some err) → st.2 = c.
Proof.
  unfold process. destruct (st_SavePulse _ db) as [db1|]; [|by intros [= <- _]].
  destruct (model_records _ _ _) as [mrs|]; cbn; [|done].
  destruct (st_SaveJetDropData _ _ _ db1); [done|by intros [= <- _]].
Qed.

(** The tables after the two writes. *)
Definition processed (jd : TJetDrop) (mrs : list MRecord) (a b : Z) (t : Tables) : Tables :=
  mkTables
    (<[tp_PulseNo (pulse_data jd) := add_amounts a b
        match t_pulses t !! tp_PulseNo (pulse_data jd) with
        | None => model_pulse (pulse_data jd)
        | Some old => refresh old (model_pulse (pulse_data jd))
        end]> (t_pulses t))
    (<[(tp_PulseNo (pulse_data jd), jet_prefix jd) := model_jet_drop jd]> (t_jet_drops t))
    (put_records mrs (t_records t)).

Lemma process_done `{JetDropRegister C} jd db (c : C) st :
  tp_PulseNo (pulse_data jd) ≠ 0 → process jd (db, c) = Some (st, None) →
  st.2 = ctl_SetJetDropData (pulse_data jd) (jet_prefix jd) c ∧
  ∃ mrs a b, model_records (model_jet_drop jd) 0 (ms_Records (tjd_MainSection jd)) = Some mrs ∧
    st_tables st.1 = processed jd mrs a b (st_tables db).
Proof.
  intros Hn. unfold process. fold (pulse_data jd).
  destruct (st_SavePulse _ db) as [db1|] eqn:Hsp; [|done].
  destruct (model_records _ _ _) as [mrs|] eqn:Hmrs; cbn; [|done].
  destruct (st_SaveJetDropData _ _ _ db1) as [db2|] eqn:Hsd; [|done]. intros [= <-]. cbn.
  split; [done|]. apply st_SaveJetDropData_Ok in Hsd as (a & b & Ht2); [|done].
  apply st_SavePulse_Ok in Hsp. exists mrs, a, b. split; [done|].
  unfold processed. rewrite Ht2, Hsp. cbn. f_equal. by rewrite alter_insert_eq.
Qed.

(** The tables after [SavePulse] alone. *)
Definition pulse_saved (jd : TJetDrop) (t : Tables) : Tables :=
  set_pulses
    (<[tp_PulseNo (pulse_data jd) :=
        match t_pulses t !! tp_PulseNo (pulse_data jd) with
        | None => model_pulse (pulse_data jd)
        | Some old => refresh old (model_pulse (pulse_data jd))
        end]> (t_pulses t)) t.

(** A failed attempt has written the pulse at most. *)
Lemma process_failed_tables `{JetDropRegister C} jd db (c : C) st err :
  process jd (db, c) = Some (st, Some err) →
  st_tables st.1 = st_tables db ∨ st_tables st.1 = pulse_saved jd (st_tables db).
Proof.
  unfold process. destruct (st_SavePulse _ db) as [db1|] eqn:Hsp; [|intros [= <- _]; by left].
  destruct (model_records _ _ _) as [mrs|]; cbn; [|done].
  destruct (st_SaveJetDropData _ _ _ db1); [done|]. intros [= <- _]. right. cbn.
  by apply st_SavePulse_Ok in Hsp as ->.
Qed.

(** The rows of the records of [jd], each at its position. *)
Definition rows_for (jd : TJetDrop) (mrs : list MRecord) : Prop :=
  length mrs = length (ms_Records (tjd_MainSection jd)) ∧
  ∀ k r, ms_Records (tjd_MainSection jd) !! k = Some r →
    ∃ type, RecordTypeFromTypes (tr_Type r) = Some type ∧
      mrs !! k = Some (mkMRecord (tr_Ref r) type (tr_ObjectReference r) (tr_PrototypeReference r)
        (tr_RecordPayload r) (tr_PrevRecordReference r) (tr_Hash r) (tr_RawData r)
        (jet_prefix jd) (tp_PulseNo (pulse_data jd)) (Z.of_nat k)
        (tp_PulseTimestamp (pulse_data jd))).

Lemma model_records_rows jd mrs :
  model_records (model_jet_drop jd) 0 (ms_Records (tjd_MainSection jd)) = Some mrs →
  rows_for jd mrs.
Proof.
  intros [Hlen Hall]%model_records_lookup. split; [done|].
  intros k r (mr & Hk & Hmr)%Hall. unfold model_record in Hmr.
  destruct (RecordTypeFromTypes _) as [type|]; cbn in Hmr; [|done]. simplify_eq.
  by exists type.
Qed.

(** C17: [process] makes its three steps in order and stops at the first error.
    On records with one of the three types it does not panic, and there are three
    cases.  [SavePulse] fails: nothing has changed and its error is returned.
    [SavePulse] succeeds and [SaveJetDropData], called on the database after it
    with the drop and one row per record, fails: the pulse is stored (keeping its
    flags and counters if it was there) and nothing else, the controller has not
    heard of the drop, and that error is returned.  Both succeed: pulse, drop and
    rows are stored, the controller has been told, and there is no error. *)
Theorem process_spec `{JetDropRegister C} jd db (c : C) :
  let n := tp_PulseNo (pulse_data jd) in
  n ≠ 0 → Forall typed (ms_Records (tjd_MainSection jd)) →
  ∃ db' c' err, process jd (db, c) = Some ((db', c'), err) ∧
    ((∃ e m, st_SavePulse (model_pulse (pulse_data jd)) db = Err e ∧
        err = Some (ErrMsg ("cannot save pulse data: " +:+ Error e +:+ m)) ∧ db' = db ∧ c' = c) ∨
     ∃ db1 mrs, st_SavePulse (model_pulse (pulse_data jd)) db = Ok db1 ∧ rows_for jd mrs ∧
       ((∃ e m, st_SaveJetDropData (model_jet_drop jd) mrs n db1 = Err e ∧
           err = Some (ErrMsg ("cannot save jetDrop data: " +:+ Error e +:+ m)) ∧
           db' = db1 ∧ c' = c ∧ st_tables db' = pulse_saved jd (st_tables db)) ∨
        (st_SaveJetDropData (model_jet_drop jd) mrs n db1 = Ok db' ∧ err = None ∧
           c' = ctl_SetJetDropData (pulse_data jd) (jet_prefix jd) c ∧
           ∃ a b, st_tables db' = processed jd mrs a b (st_tables db)))).
Proof.
  intros n Hn Hty. destruct (process_total jd db c Hty) as [[[db' c'] err] Hp].
  exists db', c', err. split; [done|]. pose proof Hp as Hp0.
  unfold process in Hp. fold (pulse_data jd) in Hp.
  destruct (st_SavePulse _ db) as [db1|e] eqn:Hsp; [right|left].
  2:{ simplify_eq. exists e. by eexists. }
  destruct (model_records _ _ _) as [mrs|] eqn:Hmrs; [|done]. cbn [mbind option_bind] in Hp.
  exists db1, mrs. split_and!; [done|by apply model_records_rows|].
  destruct (st_SaveJetDropData _ _ _ db1) as [db2|e] eqn:Hsd; [right|left]; simplify_eq.
  - apply process_done in Hp0 as (_ & mrs' & a & b & Hmrs' & Ht); [|done]. simplify_eq.
    split_and!; [done|done|done|by exists a, b].
  - exists e. eexists. split_and!; [done|done|done|done|].
    by apply st_SavePulse_Ok in Hsp as ->.
Qed.

(** Every drop of the register is in the database. *)
Definition register_stored (st : DB * Controller) : Prop :=
  ∀ k d jetID, c_jetDropRegister st.2 !! k = Some d → jetID ∈ d →
    is_Some (t_jet_drops (st_tables st.1) !! (tp_PulseNo k, jetID)).

(** The controller only ever knows drops that are stored: whatever [process]
    returns, and whichever of its two writes went through, every drop registered
    afterwards is in the database. *)
Theorem process_register_stored jd st st' err :
  tp_PulseNo (pulse_data jd) ≠ 0 →
  process jd st = Some (st', err) → register_stored st → register_stored st'.
Proof.
  destruct st as [db c]. intros Hn Hp Hst. unfold process in Hp. fold (pulse_data jd) in Hp.
  destruct (st_SavePulse _ db) as [db1|e1] eqn:Hsp; [|by simplify_eq].
  apply st_SavePulse_Ok in Hsp.
  assert (register_stored (db1, c)) as Hst1.
  { intros k d j Hk Hj. cbn. rewrite Hsp. by eapply Hst. }
  destruct (model_records _ _ _) as [mrs|]; [|done]. cbn in Hp.
  destruct (st_SaveJetDropData _ _ _ db1) as [db2|e2] eqn:Hsd; simplify_eq; [|done].
  apply st_SaveJetDropData_Ok in Hsd as (a & b & Ht2); [|done].
  intros k d j Hk Hj. cbn. rewrite Ht2. cbn. unfold jd_key.
  destruct (decide ((tp_PulseNo k, j) = (tp_PulseNo (pulse_data jd), jet_prefix jd))) as [->|Hne].
  { rewrite lookup_insert_eq. by eexists. }
  rewrite lookup_insert_ne by done. unfold SetJetDropData in Hk. cbn in Hk.
  destruct (decide (pulse_data jd = k)) as [<-|Hkne].
  - rewrite lookup_insert_eq in Hk. simplify_eq.
    apply elem_of_union in Hj as [->%elem_of_singleton|Hj]; [done|].
    destruct (c_jetDropRegister c !! pulse_data jd) as [d|] eqn:Hd; [|set_solver].
    by apply (Hst1 (pulse_data jd) d j).
  - rewrite lookup_insert_ne in Hk by done. by apply (Hst1 k d j).
Qed.
End process_laws.

(** ** The pool: lemmas *)

Definition pool_next (s s' : Pool) : Prop := pool_step s (Some s').

Definition worker_task (w : worker) : option TJetDrop :=
  match w with Working jd | Retrying jd => Some jd | Idle | Exited => None end.
Definition dispatcher_task (d : dispatcher) : list TJetDrop :=
  match d with Locking jd | Sending jd => [jd] | _ => [] end.

(** The drops that are somewhere between [jdC] and the database. *)
Definition outstanding (s : Pool) : list TJetDrop :=
  pl_input s ++ dispatcher_task (pl_dispatcher s) ++ omap worker_task (pl_workers s).

Lemma omap_insert {A B} (f : A → option B) l i (x y : A) :
  l !! i = Some x →
  option_list (f x) ++ omap f (<[i := y]> l) ≡ₚ option_list (f y) ++ omap f l.
Proof.
  revert i. induction l as [|z l IH]; intros [|i] Hi; cbn in Hi; simplify_eq; cbn.
  - destruct (f x), (f y); cbn; done || apply Permutation_swap.
  - specialize (IH i Hi). destruct (f z) as [b|]; [|done].
    rewrite <- !Permutation_middle. by f_equiv.
Qed.

(** Conservation: no step makes or loses a drop. *)
Lemma pool_step_conserves s s' :
  pool_next s s' →
  outstanding s' ++ pl_done s' ++ pl_dropped s' ≡ₚ outstanding s ++ pl_done s ++ pl_dropped s.
Proof.
  unfold outstanding. inversion_clear 1 as
    [jd input s0 Hd Hi|jd s0 Hd Ha|jd s0 Hd Ha|jd i s0 Hd Hw|s0 Hd Hi Hc|s0 Hd|jd i s0 Hw|jd i s0 Hw
    |jd i k s0 Ha Hik Hw Hk|jd i s0 Ha Hw|i s0 Ha Hw|s0 Hf]; cbn; try done;
    rewrite ?Hd, ?Hi; cbn; try pose proof (omap_insert worker_task _ _ _ Idle Hw) as Hp1;
    try pose proof (omap_insert worker_task _ _ _ (Working jd) Hw) as Hp2;
    try pose proof (omap_insert worker_task _ _ _ (Retrying jd) Hw) as Hp3;
    try pose proof (omap_insert worker_task _ _ _ Exited Hw) as Hp4; cbn in *.
  all: try solve_Permutation.
  - rewrite Hp2. solve_Permutation.
  - rewrite <- Hp1. solve_Permutation.
  - apply Permutation_cons_inv in Hp3. by rewrite Hp3.
  - pose proof (omap_insert worker_task (<[i := Idle]> (pl_workers s)) k Idle (Working jd)) as Hp5.
    rewrite list_lookup_insert_ne in Hp5 by done. specialize (Hp5 Hk). cbn in Hp5.
    by rewrite Hp5, Hp1.
  - by rewrite Hp4.
Qed.

(** ** The pool: properties *)

(** Nothing is thrown away before a stop, and only an open channel is sent on. *)
Definition pool_open (s : Pool) : Prop :=
  (pl_active s = true → pl_dropped s = []) ∧
  ∀ jd, pl_dispatcher s = Sending jd → pl_active s = true.

Lemma pool_step_open s s' : pool_open s → pool_next s s' → pool_open s'.
Proof.
  intros [Hdr Hsend]. inversion_clear 1 as
    [jd input s0 Hd Hi|jd s0 Hd Ha|jd s0 Hd Ha|jd i s0 Hd Hw|s0 Hd Hi Hc|s0 Hd|jd i s0 Hw|jd i s0 Hw
    |jd i k s0 Ha Hik Hw Hk|jd i s0 Ha Hw|i s0 Ha Hw|s0 Hf]; split; cbn; try done.
  - intros Ha'. congruence.
  - intros jd Hjd. by destruct (Hf jd).
Qed.

(** C29: no drop is lost or duplicated.  In every run of the pool the drops still
    to come, in the hands of the dispatcher or of a worker, processed, and
    dropped because of a stop are together exactly the drops of the input, each
    as often as it came; as long as the pool is active none is dropped, and the
    dispatcher hands a drop over only while the channel to the workers is open. *)
Theorem pool_conserves workers input closed s :
  rtc pool_next (NewPool workers input closed) s →
  outstanding s ++ pl_done s ++ pl_dropped s ≡ₚ input ∧
  (pl_active s = true → outstanding s ++ pl_done s ≡ₚ input ∧ pl_dropped s = []) ∧
  (∀ jd, pl_dispatcher s = Sending jd → pl_active s = true).
Proof.
  intros Hrun.
  assert (outstanding s ++ pl_done s ++ pl_dropped s ≡ₚ input) as Hall.
  { transitivity (outstanding (NewPool workers input closed) ++ [] ++ []).
    - change (outstanding s ++ pl_done s ++ pl_dropped s ≡ₚ
        outstanding (NewPool workers input closed) ++ pl_done (NewPool workers input closed)
        ++ pl_dropped (NewPool workers input closed)).
      induction Hrun as [|s1 s2 s3 Hs _ IH]; [done|]. rewrite IH. by apply pool_step_conserves.
    - unfold outstanding, NewPool. cbn. rewrite !app_nil_r.
      assert (∀ n, omap worker_task (replicate n Idle) = []) as -> by (induction n; cbn; auto).
      by rewrite app_nil_r. }
  assert (pool_open s) as [Hdr Hsend].
  { assert (pool_open (NewPool workers input closed)) as Hopen by by split.
    clear Hall. induction Hrun as [|s1 s2 s3 Hs _ IH]; [done|]. apply IH. by eapply pool_step_open. }
  split_and!; [done| |done]. intros Ha. specialize (Hdr Ha). split; [|done].
  rewrite <- Hall, Hdr. by rewrite app_nil_r.
Qed.

Definition all_retrying (s : Pool) : Prop := Forall (λ w, ∃ jd, w = Retrying jd) (pl_workers s).

Lemma all_retrying_lookup s i w :
  all_retrying s → pl_workers s !! i = Some w → ∃ jd, w = Retrying jd.
Proof. intros Hall Hw. unfold all_retrying in Hall. rewrite Forall_lookup in Hall. eauto. Qed.

(** Once every worker wants to put its drop back, no worker ever receives. *)
Lemma all_retrying_step s s' :
  all_retrying s → pool_next s s' → all_retrying s' ∧ pl_done s' = pl_done s.
Proof.
  intros Hall. inversion_clear 1 as
    [jd input s0 Hd Hi|jd s0 Hd Ha|jd s0 Hd Ha|jd i s0 Hd Hw|s0 Hd Hi Hc|s0 Hd|jd i s0 Hw|jd i s0 Hw
    |jd i k s0 Ha Hik Hw Hk|jd i s0 Ha Hw|i s0 Ha Hw|s0 Hf]; try done;
    try (by destruct (all_retrying_lookup _ _ _ Hall Hw)).
  by destruct (all_retrying_lookup _ _ _ Hall Hk).
Qed.

(** One drop is received, sent to an idle worker, and fails. *)
Lemma pool_fail_one jd input closed ws idle dn dr :
  rtc pool_next
    (mkPool (jd :: input) closed Receiving (ws ++ Idle :: idle) true dn dr)
    (mkPool input closed Receiving (ws ++ Retrying jd :: idle) true dn dr).
Proof.
  eapply rtc_l; [by eapply ps_receive|]. eapply rtc_l; [by eapply ps_lock|].
  eapply rtc_l; [apply (ps_send jd (length ws)); [done|apply list_lookup_middle; done]|].
  eapply rtc_l; [apply (ps_failure jd (length ws)); cbn; apply list_lookup_insert_eq;
    rewrite length_app; cbn; lia|].
  cbn. rewrite list_insert_insert_eq, insert_app_r_alt by lia.
  rewrite Nat.sub_diag. apply rtc_refl.
Qed.

Lemma pool_fail_all jds input closed ws dn dr :
  rtc pool_next
    (mkPool (jds ++ input) closed Receiving (ws ++ replicate (length jds) Idle) true dn dr)
    (mkPool input closed Receiving (ws ++ (Retrying <$> jds)) true dn dr).
Proof.
  revert ws. induction jds as [|jd jds IH]; intros ws; cbn; [apply rtc_refl|].
  etrans; [apply pool_fail_one|].
  specialize (IH (ws ++ [Retrying jd])). rewrite <- !app_assoc in IH. exact IH.
Qed.

(** The pool can lock up.  If as many drops as there are workers fail one
    after the other -- one is enough for one worker -- the pool is in a state in
    which every worker waits to put its drop back, and from there no drop is ever
    processed again, however the storage recovers. *)
Theorem pool_deadlock workers jds input closed :
  1 ≤ workers → Z.of_nat (length jds) = workers →
  ∃ s, rtc pool_next (NewPool workers (jds ++ input) closed) s ∧ all_retrying s ∧
    ∀ s', rtc pool_next s s' → pl_done s' = [].
Proof.
  intros Hw Hlen. exists (mkPool input closed Receiving (Retrying <$> jds) true [] []).
  assert (all_retrying (mkPool input closed Receiving (Retrying <$> jds) true [] [])) as Hall.
  { apply Forall_fmap, Forall_forall. intros jd _. by exists jd. }
  split_and!; [|done|].
  - unfold NewPool. rewrite decide_False by lia. rewrite <- Hlen, Nat2Z.id.
    apply (pool_fail_all jds input closed []).
  - intros s' Hrun. cut (all_retrying s' ∧ pl_done s' = []); [tauto|].
    assert (pl_done (mkPool input closed Receiving (Retrying <$> jds) true [] []) = []) as Hd
      by done.
    revert Hall Hd. induction Hrun as [|s1 s2 s3 Hs _ IH]; [done|]. intros Hall Hd.
    destruct (all_retrying_step s1 s2 Hall Hs) as [Hall2 Hd2]. apply IH; [done|congruence].
Qed.

(** *** Progress while one worker is free *)

Definition weight (w : worker) : nat :=
  match w with Working _ => 1 | Retrying _ => 2 | Idle | Exited => 0 end.

Definition pool_measure (s : Pool) : nat :=
  4 * length (pl_input s) +
  match pl_dispatcher s with Locking _ => 3 | Sending _ => 2 | _ => 0 end +
  sum_list_with weight (pl_workers s).

Lemma sum_insert l i x y :
  l !! i = Some x → (sum_list_with weight (<[i := y]> l) + weight x
                     = sum_list_with weight l + weight y)%nat.
Proof.
  revert i. induction l as [|z l IH]; intros [|i] Hi; cbn in Hi; simplify_eq; simpl; [lia|].
  specialize (IH i Hi). lia.
Qed.

(** The dispatcher serves the input; a worker can receive, now or after its drop. *)
Definition serving (d : dispatcher) : Prop :=
  match d with Receiving | Locking _ | Sending _ => True | Closing | Returned => False end.

Definition free_worker (s : Pool) : Prop :=
  ∃ i w, pl_workers s !! i = Some w ∧ (w = Idle ∨ ∃ jd, w = Working jd).

Lemma task_lookup (ws : list worker) (jd : TJetDrop) : jd ∈ omap worker_task ws →
  ∃ i w, ws !! i = Some w ∧ (w = Working jd ∨ w = Retrying jd).
Proof.
  intros (w & Hw & Ht)%list_elem_of_omap. apply list_elem_of_lookup in Hw as [i Hi].
  exists i, w. split; [done|]. destruct w; cbn in Ht; simplify_eq; auto.
Qed.

(** With a free worker there is a step that brings the drops forward. *)
Lemma pool_forward s :
  pl_active s = true → serving (pl_dispatcher s) → free_worker s → outstanding s ≠ [] →
  ∃ s', pool_next s s' ∧ pl_active s' = true ∧ serving (pl_dispatcher s') ∧ free_worker s' ∧
        pl_dropped s' = pl_dropped s ∧ (pool_measure s' < pool_measure s)%nat.
Proof.
  intros Ha Hserv (i & w & Hi & Hw) Hout. unfold pool_next, pool_measure.
  destruct Hw as [-> |[jd ->]].
  2:{ eexists. split; [by apply (ps_success jd i)|]. cbn. split_and!; try done.
      - exists i, Idle. split; [|by left]. apply list_lookup_insert_eq. by eapply lookup_lt_Some.
      - pose proof (sum_insert _ _ _ Idle Hi) as Hs. cbn in Hs. lia. }
  destruct (pl_dispatcher s) as [|jd|jd| |] eqn:Hd; try done.
  - destruct (pl_input s) as [|jd input] eqn:Hinp.
    + destruct (omap worker_task (pl_workers s)) as [|jd ts] eqn:Hts.
      { destruct Hout. unfold outstanding. by rewrite Hinp, Hd, Hts. }
      destruct (task_lookup (pl_workers s) jd) as (k & w & Hk & Hw); [rewrite Hts; left|].
      assert (i ≠ k) as Hne by (intros ->; destruct Hw; simplify_eq).
      destruct Hw as [-> | ->].
      * eexists. split; [by apply (ps_success jd k)|]. cbn. rewrite Hd, Hinp. split_and!; try done.
        -- exists i, Idle. split; [|by left]. simpl. by rewrite list_lookup_insert_ne.
        -- pose proof (sum_insert _ _ _ Idle Hk) as Hs. cbn in Hs. cbn. lia.
      * eexists. split; [by apply (ps_retry jd k i)|]. cbn. rewrite Hd, Hinp.
        assert (<[k := Idle]> (pl_workers s) !! i = Some Idle) as Hi'
          by by rewrite list_lookup_insert_ne.
        split_and!; try done.
        -- exists i, (Working jd). split; [|by right; eexists].
           apply list_lookup_insert_eq. by eapply lookup_lt_Some.
        -- pose proof (sum_insert _ _ _ Idle Hk) as Hs1.
           pose proof (sum_insert _ _ _ (Working jd) Hi') as Hs2. cbn in Hs1, Hs2. cbn. lia.
    + eexists. split; [by eapply ps_receive|]. cbn. split_and!; try done; [by exists i, Idle; auto|].
      lia.
  - eexists. split; [by eapply ps_lock|]. cbn. split_and!; try done; [by exists i, Idle; auto|]. lia.
  - eexists. split; [by apply (ps_send jd i)|]. cbn. split_and!; try done.
    + exists i, (Working jd). split; [|by right; eexists].
      apply list_lookup_insert_eq. by eapply lookup_lt_Some.
    + pose proof (sum_insert _ _ _ (Working jd) Hi) as Hs. cbn in Hs. lia.
Qed.

(** Short of that lock-up the pool can always finish.  As long as it was not
    stopped and one worker is not waiting to put a drop back, there is a run in
    which every outstanding drop is processed and none is thrown away. *)
Theorem pool_can_finish s :
  pl_active s = true → serving (pl_dispatcher s) → free_worker s →
  ∃ s', rtc pool_next s s' ∧ outstanding s' = [] ∧ pl_dropped s' = pl_dropped s ∧
        pl_done s' ≡ₚ outstanding s ++ pl_done s.
Proof.
  remember (pool_measure s) as n eqn:Hn. revert s Hn.
  induction n as [n IH] using lt_wf_ind. intros s -> Ha Hserv Hfree.
  destruct (decide (length (outstanding s) = 0)%nat) as [Hz|Hz].
  { apply length_zero_iff_nil in Hz. exists s. rewrite Hz. by split_and!. }
  destruct (pool_forward s Ha Hserv Hfree) as (s1 & Hstep & Ha1 & Hserv1 & Hfree1 & Hdr & Hm).
  { intros Hnil. by rewrite Hnil in Hz. }
  destruct (IH (pool_measure s1) Hm s1 eq_refl Ha1 Hserv1 Hfree1) as (s2 & Hrun & Ho & Hd & Hdone).
  exists s2. split_and!; [by eapply rtc_l|done|congruence|].
  rewrite Hdone. pose proof (pool_step_conserves s s1 Hstep) as Hcons.
  rewrite Hdr, !(assoc_L (++)) in Hcons. by apply Permutation_app_inv_r in Hcons.
Qed.

(** The only panic of the pool is a failed drop put back after a stop: a run
    that was not stopped cannot send on a closed channel. *)
Theorem pool_panic_iff s :
  pool_step s None ↔
  pl_active s = false ∧ ∃ i jd, pl_workers s !! i = Some (Retrying jd).
Proof.
  split.
  - inversion_clear 1. split; [done|by do 2 eexists].
  - intros (Ha & i & jd & Hw). by eapply ps_retry_closed.
Qed.

(** ** The theorems at work on concrete drops *)

Definition ex_tdrop (jet : string) (rs : list TRecord) : TJetDrop :=
  mkTJetDrop (mkMainSection (mkDropStart (mkTPulse 70000 70000 5 70010 0) jet
    (Z.of_nat (String.length jet))) (mkDropContinue [[Byte.x01]]) rs) [] [Byte.x02].
Definition ex_trecord : TRecord := mkTRecord REQUEST [Byte.x09] [] [] [] [] [] [] 0.
Definition ex_controller : Controller := NewController (mkControllerConfig 10 1200 1 1) 2.

Lemma process_spec_witness :
  let jd := ex_tdrop "01" [ex_trecord] in
  ∃ db' c' err, process jd (up no_rows, ex_controller) = Some ((db', c'), err) ∧ err = None ∧
    c' = SetJetDropData (pulse_data jd) "01" ex_controller.
Proof.
  intros jd. destruct (process_spec jd (up no_rows) ex_controller) as (db' & c' & err & Hp & Hres).
  - vm_compute. congruence.
  - constructor; [|constructor]. split; vm_compute; congruence.
  - exists db', c', err. split; [exact Hp|].
    destruct Hres as [(e & m & He & _)|(db1 & mrs & _ & _ & [(e & m & _ & He & _)|(_ & He & Hc & _)])].
    + exfalso. vm_compute in He. discriminate He.
    + exfalso. rewrite He in Hp. vm_compute in Hp. discriminate Hp.
    + split; [exact He|exact Hc].
Defined.

Lemma process_register_stored_witness :
  let jd := ex_tdrop "01" [ex_trecord] in
  ∃ st', process jd (up no_rows, ex_controller) = Some (st', None) ∧ register_stored st'.
Proof.
  intros jd. eexists. split; [vm_compute; reflexivity|].
  eapply (process_register_stored jd (up no_rows, ex_controller) _ None).
  - vm_compute. congruence.
  - vm_compute. reflexivity.
  - intros k d j Hk. vm_compute in Hk. discriminate Hk.
Defined.

Lemma pool_conserves_witness :
  let s := mkPool [ex_tdrop "1" []] true (Locking (ex_tdrop "0" [])) [Idle] true [] [] in
  outstanding s ++ pl_done s ≡ₚ [ex_tdrop "0" []; ex_tdrop "1" []].
Proof.
  intros s. destruct (pool_conserves 1 [ex_tdrop "0" []; ex_tdrop "1" []] true s) as (_ & Ha & _).
  - eapply rtc_l; [by eapply ps_receive|]. apply rtc_refl.
  - apply Ha. reflexivity.
Defined.

Lemma pool_deadlock_witness :
  ∃ s, rtc pool_next (NewPool 1 [ex_tdrop "0" []; ex_tdrop "1" []] false) s ∧ all_retrying s ∧
    ∀ s', rtc pool_next s s' → pl_done s' = [].
Proof. apply (pool_deadlock 1 [ex_tdrop "0" []] [ex_tdrop "1" []] false); [lia|reflexivity]. Defined.

Lemma pool_can_finish_witness :
  let s := mkPool [ex_tdrop "1" []] false Receiving [Retrying (ex_tdrop "0" []); Idle] true [] [] in
  ∃ s', rtc pool_next s s' ∧ outstanding s' = [] ∧ pl_dropped s' = pl_dropped s ∧
        pl_done s' ≡ₚ outstanding s ++ pl_done s.
Proof. intros s. apply (pool_can_finish s); [done|done|]. exists 1%nat, Idle. auto. Defined.
