(* ===== verification/Rows.v ===== *)
(** * The rows the program writes

    Pulses, jet drops and records reach the database through [process] and
    through the two flags the controller sets.  The invariant here says what the
    rows are after any such writes, failed ones included: every drop has as many
    records as it says, in their places; every record belongs to a stored drop, at
    a place of it, with one of the three types and the time of its pulse. *)

From S2P Require Import Prelude GoStd Platform RefPlatform Types Models Gorm RefDb Interfaces Storage StorageInstance MissedData Controller Processor.

(** ** What the platform sends *)

(** The references of the records of each jet drop, in order, and the time of each
    pulse. *)
Record History := mkHistory {
  h_refs : Z * string → list bytes;
  h_time : Z → Z;
}.

(** A record is in one drop, once. *)
Record history_ok (h : History) : Prop := {
  ho_nodup : ∀ key, NoDup (h_refs h key);
  ho_place : ∀ key key' ref, ref ∈ h_refs h key → ref ∈ h_refs h key' → key = key';
}.

Definition drop_key `{Platform} (jd : TJetDrop) : Z * string :=
  (tp_PulseNo (pulse_data jd), jet_prefix jd).

(** A canonical drop that holds what the history says. *)
Record follows `{Platform} (h : History) (jd : TJetDrop) : Prop := {
  fo_number : tp_PulseNo (pulse_data jd) ≠ 0;
  fo_refs : tr_Ref <$> ms_Records (tjd_MainSection jd) = h_refs h (drop_key jd);
  fo_time : tp_PulseTimestamp (pulse_data jd) = h_time h (tp_PulseNo (pulse_data jd));
}.

(** ** The writes of the program *)

Section writes.
Context `{Platform, StorageLaws DB, JetDropRegister C}.

(** A call of [process], whatever it returns, and the two updates of the
    controller when they succeed (they change nothing when they fail). *)
Inductive program_write (h : History) : DB * C → DB * C → Prop :=
  | pw_process jd st st' err :
      follows h jd → process jd st = Some (st', err) → program_write h st st'
  | pw_complete n db c db' :
      n ≠ 0 → st_CompletePulse n db = Ok db' → program_write h (db, c) (db', c)
  | pw_sequence n db c db' :
      n ≠ 0 → st_SequencePulse n db = Ok db' → program_write h (db, c) (db', c).
End writes.

(** ** The types of the rows *)

(** The key of the drop a record belongs to. *)
Definition owner (mr : MRecord) : Z * string := (r_PulseNumber mr, r_JetID mr).

Definition record_typed (h : History) (t : Tables) (ref : bytes) (mr : MRecord) : Prop :=
  r_Reference mr = ref ∧ r_Type mr ∈ ["state"; "request"; "result"] ∧
  r_Timestamp mr = h_time h (r_PulseNumber mr) ∧
  is_Some (t_jet_drops t !! owner mr) ∧
  ∃ k : nat, r_Order mr = Z.of_nat k ∧ h_refs h (owner mr) !! k = Some ref.

Definition drop_typed (h : History) (t : Tables) (key : Z * string) (j : JetDrop) : Prop :=
  (jd_PulseNumber j, jd_JetID j) = key ∧ jd_Timestamp j = h_time h key.1 ∧
  is_Some (t_pulses t !! key.1) ∧
  jd_RecordAmount j = Z.of_nat (length (h_refs h key)) ∧
  ∀ (k : nat) ref, h_refs h key !! k = Some ref →
    ∃ mr, t_records t !! ref = Some mr ∧ owner mr = key ∧ r_Order mr = Z.of_nat k.

Definition pulse_typed (h : History) (n : Z) (p : Pulse) : Prop :=
  p_PulseNumber p = n ∧ p_Timestamp p = h_time h n.

Record rows_typed (h : History) (t : Tables) : Prop := {
  rt_pulses : ∀ n p, t_pulses t !! n = Some p → pulse_typed h n p;
  rt_drops : ∀ key j, t_jet_drops t !! key = Some j → drop_typed h t key j;
  rt_records : ∀ ref mr, t_records t !! ref = Some mr → record_typed h t ref mr;
}.

(** ** Lemmas *)

Lemma pulse_insert_typed h t n p :
  rows_typed h t → pulse_typed h n p → rows_typed h (set_pulses (<[n := p]> (t_pulses t)) t).
Proof.
  intros [Hp Hd Hr] Hn. constructor; cbn.
  - intros m q [[<- <-]|[_ Hq]]%lookup_insert_Some; [done|by apply Hp].
  - intros key j Hj. destruct (Hd _ _ Hj) as (? & ? & Hpulse & ? & ?). split_and!; try done. cbn.
    destruct (decide (n = key.1)) as [->|]; [by rewrite lookup_insert_eq|by rewrite lookup_insert_ne].
  - exact Hr.
Qed.

Section laws.
Context `{Platform, StorageLaws DB, JetDropRegister C}.

Lemma model_pulse_typed h jd old :
  follows h jd → pulse_typed h (tp_PulseNo (pulse_data jd)) (model_pulse (pulse_data jd)) ∧
  (pulse_typed h (tp_PulseNo (pulse_data jd)) old →
   pulse_typed h (tp_PulseNo (pulse_data jd)) (refresh old (model_pulse (pulse_data jd)))).
Proof. intros [_ _ Ht]. split; [by split|]. intros [Hn _]. by split. Qed.

Lemma pulse_saved_typed h jd t :
  follows h jd → rows_typed h t → rows_typed h (pulse_saved jd t).
Proof.
  intros Hf Ht. apply pulse_insert_typed; [done|].
  destruct (t_pulses t !! _) as [old|] eqn:Hold.
  - apply (model_pulse_typed h jd old Hf). by apply (rt_pulses _ _ Ht).
  - by apply (model_pulse_typed h jd emptyPulse Hf).
Qed.

Lemma rows_for_refs jd mrs :
  rows_for jd mrs → r_Reference <$> mrs = tr_Ref <$> ms_Records (tjd_MainSection jd).
Proof.
  intros [Hlen Hall]. apply list_eq_same_length with (n := length mrs);
    rewrite ?length_fmap; [done|done|].
  intros k x y Hk. rewrite !list_lookup_fmap.
  destruct (ms_Records _ !! k) as [r|] eqn:Hr; [|done].
  destruct (Hall _ _ Hr) as (type & _ & ->). cbn. congruence.
Qed.

Lemma type_names n type : RecordTypeFromTypes n = Some type → type ∈ ["state"; "request"; "result"].
Proof.
  unfold RecordTypeFromTypes. case_decide; [done|]. apply list_elem_of_lookup_2.
Qed.

(** The rows of one drop. *)
Lemma rows_for_typed h jd mrs mr :
  follows h jd → rows_for jd mrs → mr ∈ mrs →
  owner mr = drop_key jd ∧ r_Type mr ∈ ["state"; "request"; "result"] ∧
  r_Timestamp mr = h_time h (r_PulseNumber mr) ∧
  ∃ k : nat, r_Order mr = Z.of_nat k ∧ h_refs h (drop_key jd) !! k = Some (r_Reference mr).
Proof.
  intros Hf [Hlen Hall] [k Hk]%list_elem_of_lookup.
  destruct (lookup_lt_is_Some_2 (ms_Records (tjd_MainSection jd)) k) as [r Hr].
  { rewrite <- Hlen. by eapply lookup_lt_Some. }
  destruct (Hall _ _ Hr) as (type & Htype & Hmr). rewrite Hk in Hmr. injection Hmr as ->. cbn.
  split_and!; [done|by eapply type_names|by apply (fo_time _ _ Hf)|].
  exists k. split; [done|]. rewrite <- (fo_refs _ _ Hf), list_lookup_fmap, Hr. done.
Qed.

Lemma rows_for_lookup h jd mrs k ref :
  follows h jd → rows_for jd mrs → h_refs h (drop_key jd) !! k = Some ref →
  ∃ mr, mr ∈ mrs ∧ r_Reference mr = ref ∧ owner mr = drop_key jd ∧ r_Order mr = Z.of_nat k.
Proof.
  intros Hf [_ Hall] Hk. rewrite <- (fo_refs _ _ Hf), list_lookup_fmap in Hk.
  destruct (ms_Records _ !! k) as [r|] eqn:Hr; cbn in Hk; [|done]. injection Hk as <-.
  destruct (Hall _ _ Hr) as (type & _ & Hmr). eexists.
  split; [by eapply list_elem_of_lookup_2|]. done.
Qed.

(** Every place of a drop that was stored, or is now, is taken by its record. *)
Lemma processed_places h jd mrs a b t key (k : nat) ref :
  history_ok h → follows h jd → rows_for jd mrs → rows_typed h t →
  key = drop_key jd ∨ is_Some (t_jet_drops t !! key) → h_refs h key !! k = Some ref →
  ∃ mr, t_records (processed jd mrs a b t) !! ref = Some mr ∧ owner mr = key ∧
        r_Order mr = Z.of_nat k.
Proof.
  intros Hh Hf Hrows Ht Hkey Hk.
  assert (r_Reference <$> mrs = h_refs h (drop_key jd)) as Hrefs
    by (rewrite <- (fo_refs _ _ Hf); by apply rows_for_refs).
  destruct (decide (key = drop_key jd)) as [->|Hne].
  - destruct (rows_for_lookup _ _ _ _ _ Hf Hrows Hk) as (mr & Hin & <- & Hown & Hord).
    exists mr. split_and!; [|done|done].
    apply (fill_lookup r_Reference id); [rewrite Hrefs; apply Hh|done].
  - destruct Hkey as [?|[j Hj]]; [done|].
    destruct (rt_drops _ _ Ht _ _ Hj) as (_ & _ & _ & _ & Hall).
    destruct (Hall k ref Hk) as (mr & Hmr & Hown & Hord). exists mr. split_and!; [|done|done].
    rewrite <- Hmr. apply (fill_other r_Reference id). rewrite Hrefs. intros Hin.
    apply Hne, (ho_place _ Hh key (drop_key jd) ref); [by eapply list_elem_of_lookup_2|done].
Qed.

(** A whole drop and its rows. *)
Lemma processed_typed h jd mrs a b t :
  history_ok h → follows h jd → rows_for jd mrs → rows_typed h t →
  rows_typed h (processed jd mrs a b t).
Proof.
  intros Hh Hf Hrows Ht.
  constructor.
  - intros n p Hp. cbn in Hp. apply lookup_insert_Some in Hp as [[<- <-]|[_ Hp]];
      [|by apply (rt_pulses _ _ Ht)].
    destruct (t_pulses t !! _) as [old|] eqn:Hold.
    + by apply (model_pulse_typed h jd old Hf), (rt_pulses _ _ Ht).
    + by apply (model_pulse_typed h jd emptyPulse Hf).
  - intros key j Hj. cbn in Hj. fold (drop_key jd) in Hj.
    pose proof (λ k ref, processed_places h jd mrs a b t key k ref Hh Hf Hrows Ht) as Hplaces.
    apply lookup_insert_Some in Hj as [[<- <-]|[_ Hj]].
    + split_and!; [done|by apply (fo_time _ _ Hf)| | |intros; by apply Hplaces; [left|]].
      * cbn. by rewrite lookup_insert_eq.
      * cbn. f_equal. rewrite <- (fo_refs _ _ Hf). by rewrite length_fmap.
    + destruct (rt_drops _ _ Ht _ _ Hj) as (? & ? & Hpulse & ? & _).
      split_and!; [done|done| |done|intros; by apply Hplaces; [right|]]. cbn.
      destruct (decide (tp_PulseNo (pulse_data jd) = key.1)) as [->|];
        [by rewrite lookup_insert_eq|by rewrite lookup_insert_ne].
  - intros ref mr Hmr. cbn in Hmr.
    apply (fill_elem r_Reference id) in Hmr as [(mr' & Hin & <- & Hid)|Hmr]; [cbn in Hid; subst mr'|].
    + destruct (rows_for_typed _ _ _ _ Hf Hrows Hin) as (Hown & Htype & Htime & k & Hk & Href).
      split_and!; [done|done|done| |exists k; by rewrite Hown].
      cbn. rewrite Hown. fold (drop_key jd). by rewrite lookup_insert_eq.
    + destruct (rt_records _ _ Ht _ _ Hmr) as (? & ? & ? & Hdrop & ?). split_and!; try done.
      cbn. fold (drop_key jd). destruct (decide (drop_key jd = owner mr)) as [->|].
      * by rewrite lookup_insert_eq.
      * by rewrite lookup_insert_ne.
Qed.

(** ** The invariant *)

Lemma program_write_typed h st st' :
  history_ok h → program_write (C := C) h st st' →
  rows_typed h (st_tables st.1) → rows_typed h (st_tables st'.1).
Proof.
  intros Hh Hw Ht. destruct Hw as [jd [db c] [db' c'] err Hf Hp|n db c db' Hn Hst|n db c db' Hn Hst];
    cbn in *.
  - destruct err as [err|].
    + apply process_failed_tables in Hp as [Heq|Heq]; cbn in Heq; rewrite Heq; [done|].
      by apply pulse_saved_typed.
    + apply process_done in Hp as (_ & mrs & a & b & Hmrs & Heq); [|apply Hf].
      cbn in Heq. rewrite Heq. apply processed_typed; [done|done|by apply model_records_rows|done].
  - apply st_CompletePulse_Ok in Hst as (p & Hp & ->); [|done].
    apply pulse_insert_typed; [done|]. exact (rt_pulses _ _ Ht _ _ Hp).
  - apply st_SequencePulse_Ok in Hst as (p & Hp & ->); [|done].
    apply pulse_insert_typed; [done|]. exact (rt_pulses _ _ Ht _ _ Hp).
Qed.

(** C9: The rows are what they say they are.  Let the platform send each record in one
    place of one jet drop.  Then whatever calls of [process] and updates of the
    flags have been made on an empty database, in any order, repeated or failed:
    a stored pulse has its number and time; a stored drop is under its key, has
    its pulse, the time of its pulse and as many records as it says, one row for
    each of its places; and a stored record has one of the three types, the time
    of its pulse, and is the record of a place of a stored drop. *)
Theorem writes_typed h db c st :
  history_ok h → st_tables db = no_rows → rtc (program_write (C := C) h) (db, c) st →
  rows_typed h (st_tables st.1).
Proof.
  intros Hh Hempty Hrun.
  assert (rows_typed h (st_tables (db, c).1)) as Ht.
  { cbn. rewrite Hempty. constructor; unfold no_rows; cbn; intros ? ?; by rewrite lookup_empty. }
  induction Hrun as [|st1 st2 st3 Hw _ IH]; [done|]. by eapply IH, program_write_typed.
Qed.
End laws.

(** ** The theorem at work *)

(** One jet drop with one record. *)
Definition ex_history : History :=
  mkHistory (λ key, if decide (key = (70000, "01")) then [[Byte.x09]] else [])
    (λ n, if decide (n = 70000) then 5 else 0).

Definition ex_jd : TJetDrop := ex_tdrop "01" [ex_trecord].
Definition ex_after : RefDB * Controller :=
  match process ex_jd (up no_rows, ex_controller) with
  | Some (st, _) => st
  | None => (up no_rows, ex_controller)
  end.

Lemma ex_history_ok : history_ok ex_history.
Proof.
  constructor; cbn.
  - intros key. case_decide; [apply NoDup_singleton|apply NoDup_nil_2].
  - intros key key' ref. repeat case_decide; intros Ha Hb;
      try (by apply elem_of_nil in Ha); try (by apply elem_of_nil in Hb). congruence.
Defined.

Lemma ex_follows : follows ex_history ex_jd.
Proof. constructor; vm_compute; [congruence|reflexivity|reflexivity]. Defined.

Lemma writes_typed_witness :
  rows_typed ex_history (st_tables ex_after.1) ∧
  is_Some (t_jet_drops (st_tables ex_after.1) !! (70000, "01")).
Proof.
  split; [|vm_compute; by eexists].
  apply (writes_typed ex_history (up no_rows) ex_controller ex_after ex_history_ok);
    [vm_compute; reflexivity|].
  apply rtc_once, (pw_process _ ex_jd _ _ None ex_follows). vm_compute. reflexivity.
Defined.
