(* ===== verification/Transformer.v ===== *)
(** * The transformer: [src/etl/transformer/{transformer,mainnet_impl,error}.go]

    [Transform] turns a pulse of the platform with its records into one canonical
    jet drop per jet, with the state records of every object sorted into the
    order in which the object changed.  The code ranges over maps; the orders in
    which the runtime does so are arguments. *)

From S2P Require Import Prelude GoStd Platform RefPlatform Types Models Converter.

(** ** Sorting the records of a jet drop *)

Section sorting.
Context `{Platform}.

Definition restoreInsolarID (b : bytes) : string :=
  let b := if IsEmpty b then [] else b in
  ID_String (NewIDFromBytes b).

(** The three identifiers the sorting compares. *)
Definition obj_id (r : TRecord) : string := restoreInsolarID (tr_ObjectReference r).
Definition ref_id (r : TRecord) : string := restoreInsolarID (tr_Ref r).
Definition prev_id (r : TRecord) : string := restoreInsolarID (tr_PrevRecordReference r).

Abbreviation by_obj := (gmap string (gmap string TRecord)).

(** [m[obj][key] = r], for a map [m[obj]] that is not nil. *)
Definition put_record (obj key : string) (r : TRecord) (m : by_obj) : by_obj :=
  <[obj := <[key := r]> (default ∅ (m !! obj))]> m.

(** One turn of the loop: the maps by previous reference and by reference, and
    the records that are not states. *)
Definition init_turn (acc : by_obj * by_obj * list TRecord) (r : TRecord)
  : by_obj * by_obj * list TRecord :=
  let '(byPrev, byRef, notState) := acc in
  if decide (tr_Type r ≠ STATE) then (byPrev, byRef, notState ++ [r])
  else
    let '(byPrev, byRef) :=
      match byRef !! obj_id r with
      | None => (<[obj_id r := ∅]> byPrev, <[obj_id r := ∅]> byRef)
      | Some _ => (byPrev, byRef)
      end in
    (put_record (obj_id r) (prev_id r) r byPrev, put_record (obj_id r) (ref_id r) r byRef, notState).

Definition initRecordsMapsByObj (records : list TRecord) : by_obj * by_obj * list TRecord :=
  foldl init_turn (∅, ∅, []) records.

(** The search for the head: the first record, in the order [o] of the keys of
    [recordsByPrevRef], whose previous record is not among [recordsByRef]. *)
Fixpoint find_head (o : list string) (recordsByPrevRef recordsByRef : gmap string TRecord)
  : option TRecord :=
  match o with
  | [] => None
  | k :: o =>
      match recordsByPrevRef !! k with
      | Some r => if decide (recordsByRef !! prev_id r = None) then Some r
                  else find_head o recordsByPrevRef recordsByRef
      | None => find_head o recordsByPrevRef recordsByRef
      end
  end.

(** [for i := 1; len(recordsByPrevRef) != i; i++]; [n] turns are left. *)
Fixpoint follow_chain (n : nat) (objRef key : string) (recordsByPrevRef : gmap string TRecord)
  (sorted : list TRecord) : result (list TRecord) :=
  match n with
  | O => Ok sorted
  | S n =>
      match recordsByPrevRef !! key with
      | None => Err (ErrMsg ("cannot find record with prev record " +:+ key +:+ ", object "
                             +:+ objRef))
      | Some r => follow_chain n objRef (ref_id r) recordsByPrevRef (sorted ++ [r])
      end
  end.

(** The body of the loop over the objects; [o] is the order of the inner map. *)
Definition sort_object (o : list string) (objRef : string)
  (recordsByPrevRef recordsByRef : gmap string TRecord) (sorted : list TRecord)
  : result (list TRecord) :=
  if decide (size recordsByRef = 1%nat)
  then Ok (sorted ++ (map_to_list recordsByRef).*2)
  else
    match find_head o recordsByPrevRef recordsByRef with
    | None => Err (ErrMsg ("cannot find head record for object " +:+ objRef))
    | Some headRecord =>
        follow_chain (size recordsByPrevRef - 1) objRef (ref_id headRecord) recordsByPrevRef
          (sorted ++ [headRecord])
    end.

(** The loop over the objects in the order [os]. *)
Fixpoint sort_objects (os : list string) (o : string → list string) (byPrev byRef : by_obj)
  (sorted : list TRecord) : result (list TRecord) :=
  match os with
  | [] => Ok sorted
  | objRef :: os =>
      sorted ← sort_object (o objRef) objRef (default ∅ (byPrev !! objRef))
                 (default ∅ (byRef !! objRef)) sorted;
      sort_objects os o byPrev byRef sorted
  end.

(** [os] is the order of the objects, [o] gives for each the order of its map by
    previous reference. *)
Definition sortRecords (os : list string) (o : string → list string) (records : list TRecord)
  : result (list TRecord) :=
  let lenBefore := length records in
  let '(byPrev, byRef, sortedRecords) := initRecordsMapsByObj records in
  sortedRecords ← sort_objects os o byPrev byRef sortedRecords;
  let lenAfter := length sortedRecords in
  if decide (lenBefore ≠ lenAfter)
  then Err (ErrMsg ("Number of records before sorting (" +:+ FormatInt (Z.of_nat lenBefore)
                    +:+ ") changes after (" +:+ FormatInt (Z.of_nat lenAfter) +:+ ")"))
  else Ok sortedRecords.

(** The orders the runtime may choose. *)
Definition orders_ok (records : list TRecord) (os : list string) (o : string → list string)
  : Prop :=
  let '(byPrev, byRef, _) := initRecordsMapsByObj records in
  os ≡ₚ elements (dom byRef) ∧
  ∀ objRef m, byPrev !! objRef = Some m → o objRef ≡ₚ elements (dom m).
End sorting.

(** ** Canonical records and drops *)

Definition UnsupportedRecordTypeError : error := ErrMsg "Record does not support".

Section transform.
Context `{Platform}.

Definition getPulseData (pn : FullPulse) : TPulse :=
  mkTPulse (fp_PulseNumber pn) (AsEpoch (fp_PulseNumber pn))
    (NanosToSeconds (fp_PulseTimestamp pn)) (fp_NextPulseNumber pn) (fp_PrevPulseNumber pn).

Definition transferToCanonicalRecord (r : ExporterRecord) : result TRecord :=
  let ref := ID_Bytes (er_ID r) in
  let hash := ID_Hash (er_ID r) in
  let objectReference := ID_Bytes (er_ObjectID r) in
  rawData ← wrap_err "cannot get record raw data" (er_Raw r);
  let order := er_RecordNumber r in
  let genesis := bool_decide (ID_Pulse (er_ID r) = MinTimePulse) in
  match er_Virtual r with
  | Virtual_Activate image request memory =>
      let objectReference := if genesis then ID_Bytes (Ref_GetLocal request) else objectReference in
      Ok (mkTRecord STATE ref objectReference (Ref_Bytes image) [] memory hash rawData order)
  | Virtual_Amend image request prevState memory =>
      let objectReference := if genesis then ID_Bytes (Ref_GetLocal request) else objectReference in
      Ok (mkTRecord STATE ref objectReference (Ref_Bytes image) (ID_Bytes prevState) memory hash
            rawData order)
  | Virtual_Deactivate prevState =>
      Ok (mkTRecord STATE ref objectReference [] (ID_Bytes prevState) [] hash rawData order)
  | Virtual_Result object payload =>
      let objectReference := if genesis then ID_Bytes object else objectReference in
      Ok (mkTRecord RESULT ref objectReference [] [] payload hash rawData order)
  | Virtual_IncomingRequest method =>
      let objectReference := if genesis then ID_Bytes (Ref_GetLocal (GenesisRef method))
                             else objectReference in
      Ok (mkTRecord REQUEST ref objectReference [] [] [] hash rawData order)
  | Virtual_OutgoingRequest =>
      Ok (mkTRecord REQUEST ref objectReference [] [] [] hash rawData order)
  | Virtual_Other => Err UnsupportedRecordTypeError
  end.

(** The loop of [getRecords]; comparing with the sentinel is comparing its type,
    which no other error has, and its text. *)
Fixpoint collect_records (rs : list ExporterRecord) (res : gmap JetID (list TRecord))
  : result (gmap JetID (list TRecord)) :=
  match rs with
  | [] => Ok res
  | r :: rs =>
      match transferToCanonicalRecord r with
      | Err err => if decide (err = UnsupportedRecordTypeError) then collect_records rs res
                   else Err err
      | Ok record =>
          collect_records rs
            (<[er_JetID r := default [] (res !! er_JetID r) ++ [record]]> res)
      end
  end.

Definition getRecords (jd : PlatformPulseData) : result (gmap JetID (list TRecord)) :=
  if decide (ppd_Records jd = [])
  then Ok (foldl (λ res jet, <[jdc_JetID jet := []]> res) ∅ (fp_Jets (ppd_Pulse jd)))
  else collect_records (ppd_Records jd) ∅.

(** How the runtime ranges over the maps of each jet. *)
Record Orders := mkOrders {
  o_objects : JetID → list string;
  o_prevs : JetID → string → list string;
}.

(** [getJetDrop]: a drop whose records cannot be sorted is logged and left out
    ([Some None]); [None] is a panic. *)
Definition getJetDrop (ord : Orders) (jetID : JetID) (records : list TRecord) (pulseData : TPulse)
  (hash : bytes) (prevDropHash : list bytes) : option (option TJetDrop) :=
  prefix ← (if JetID_IsValid jetID then JetIDToString jetID else Some "");
  match sortRecords (o_objects ord jetID) (o_prevs ord jetID) records with
  | Err _ => Some None
  | Ok records =>
      Some (Some (mkTJetDrop
        (mkMainSection
           (mkDropStart pulseData prefix (Z.of_nat (String.length prefix)))
           (mkDropContinue prevDropHash) records) [] hash))
  end.

(** The last loop of [Transform]. *)
Fixpoint jet_drops (ord : Orders) (m : gmap JetID (list TRecord)) (pulseData : TPulse)
  (jets : list JetDropContinue) : option (list TJetDrop) :=
  match jets with
  | [] => Some []
  | jet :: jets =>
      drop ← getJetDrop ord (jdc_JetID jet) (default [] (m !! jdc_JetID jet)) pulseData
               (jdc_Hash jet) (jdc_PrevDropHashes jet);
      drops ← jet_drops ord m pulseData jets;
      Some (option_list drop ++ drops)
  end.

(** [Transform]; the loop that enters nil for the jets without records changes no
    later lookup.  [None] is a panic. *)
Definition Transform (ord : Orders) (jd : PlatformPulseData) : option (result (list TJetDrop)) :=
  let pulseData := getPulseData (ppd_Pulse jd) in
  match getRecords jd with
  | Err err => Some (Err err)
  | Ok m =>
      let m := foldl (λ m jet, if m !! jdc_JetID jet is Some _ then m
                               else <[jdc_JetID jet := []]> m) m (fp_Jets (ppd_Pulse jd)) in
      drops ← jet_drops ord m pulseData (fp_Jets (ppd_Pulse jd));
      Some (Ok drops)
  end.

(** ** The goroutine *)

(** [MainNetTransformer]: the pulses waiting in the extractor's channel, the drops
    sent so far, and whether a stop signal is in its one-place channel. *)
Record MainNetTransformer := mkMainNetTransformer {
  mt_extractorChan : list PlatformPulseData;
  mt_transformerChan : list TJetDrop;
  mt_stopSignal : bool;
}.

(** [run] when the receive from the extractor is chosen: an error is logged. *)
Definition run (ord : Orders) (m : MainNetTransformer) : option MainNetTransformer :=
  match mt_extractorChan m with
  | [] => Some m
  | jd :: rest =>
      transform ← Transform ord jd;
      Some (match transform with
            | Err _ => mkMainNetTransformer rest (mt_transformerChan m) (mt_stopSignal m)
            | Ok drops => mkMainNetTransformer rest (mt_transformerChan m ++ drops) (mt_stopSignal m)
            end)
  end.

(** [needStop] takes the signal away; [Stop] puts it there. *)
Definition needStop (m : MainNetTransformer) : bool * MainNetTransformer :=
  (mt_stopSignal m, mkMainNetTransformer (mt_extractorChan m) (mt_transformerChan m) false).
Definition Stop (m : MainNetTransformer) : MainNetTransformer :=
  mkMainNetTransformer (mt_extractorChan m) (mt_transformerChan m) true.
End transform.
