(* ===== verification/TransformerProofs.v ===== *)
(** * What the transformer guarantees

    [sortRecords] never loses, doubles or invents a record, and puts every proper
    chain of states into its order, whatever the order in which the runtime
    ranges over its maps. *)

From S2P Require Import Prelude GoStd Platform RefPlatform Types Models Converter Transformer.

(** ** Lemmas: maps built from lists *)

Section keyed.
Context {A : Type} (key : A → string).

(** The map the loop builds: the last record with a key wins. *)
Definition put_all (rs : list A) : gmap string A := foldl (λ m r, <[key r := r]> m) ∅ rs.

Lemma put_all_snoc rs r : put_all (rs ++ [r]) = <[key r := r]> (put_all rs).
Proof. unfold put_all. by rewrite foldl_app. Qed.

Lemma put_all_Some rs k r : put_all rs !! k = Some r → r ∈ rs ∧ key r = k.
Proof.
  induction rs as [|x rs IH] using rev_ind; [done|]. rewrite put_all_snoc.
  intros [[<- <-]|[_ Hk]]%lookup_insert_Some; [set_solver|]. apply IH in Hk. set_solver.
Qed.

Lemma put_all_dom rs k : is_Some (put_all rs !! k) ↔ k ∈ key <$> rs.
Proof.
  induction rs as [|x rs IH] using rev_ind; [cbn; rewrite elem_of_nil; by split; [intros []|]|].
  rewrite put_all_snoc, fmap_app, elem_of_app, lookup_insert_is_Some, IH. cbn.
  rewrite list_elem_of_singleton. destruct (decide (key x = k)); naive_solver.
Qed.

Lemma put_all_lookup rs r : NoDup (key <$> rs) → r ∈ rs → put_all rs !! key r = Some r.
Proof.
  intros Hnd Hr. destruct (proj2 (put_all_dom rs (key r))) as [x Hx].
  { apply list_elem_of_fmap. by exists r. }
  rewrite Hx. f_equal. apply put_all_Some in Hx as [Hin Hk].
  apply list_elem_of_lookup in Hr as [i Hi]. apply list_elem_of_lookup in Hin as [j Hj].
  assert (i = j) as ->; [|congruence].
  apply (NoDup_lookup (key <$> rs) i j (key r) Hnd); rewrite list_lookup_fmap.
  - by rewrite Hi.
  - by rewrite Hj, <- Hk.
Qed.

Lemma put_all_list rs : NoDup (key <$> rs) → (map_to_list (put_all rs)).*2 ≡ₚ rs.
Proof.
  induction rs as [|x rs IH] using rev_ind; [done|]. intros Hnd.
  rewrite fmap_app in Hnd. apply NoDup_app in Hnd as (Hnd & Hx & _).
  rewrite put_all_snoc, map_to_list_insert.
  - rewrite fmap_cons, IH by done. cbn. apply Permutation_cons_append.
  - apply eq_None_not_Some. intros Hs%put_all_dom. apply (Hx _ Hs). cbn. set_solver.
Qed.

Lemma put_all_size rs : (size (put_all rs) ≤ length rs)%nat.
Proof.
  induction rs as [|x rs IH] using rev_ind; [done|]. rewrite put_all_snoc, length_app. cbn.
  destruct (put_all rs !! key x) eqn:Hk; [rewrite map_size_insert_Some by (by eexists); lia|].
  rewrite map_size_insert_None by done. lia.
Qed.

Lemma put_all_size_NoDup rs : NoDup (key <$> rs) → size (put_all rs) = length rs.
Proof.
  intros Hnd. rewrite <- length_map_to_list, <- (length_fmap snd).
  by rewrite (put_all_list rs Hnd).
Qed.
End keyed.

Section sorting.
Context `{Platform}.
Implicit Types (r : TRecord) (rs records : list TRecord).

(** The states of an object, in the order of the input. *)
Definition states (o : string) (records : list TRecord) : list TRecord :=
  filter (λ r, tr_Type r = STATE ∧ obj_id r = o) records.

Definition not_states (records : list TRecord) : list TRecord :=
  filter (λ r, tr_Type r ≠ STATE) records.

(** What [initRecordsMapsByObj] builds. *)
Lemma init_spec records :
  let '(byPrev, byRef, notState) := initRecordsMapsByObj records in
  notState = not_states records ∧
  (∀ o, byRef !! o = if decide (states o records = []) then None
                     else Some (put_all ref_id (states o records))) ∧
  (∀ o, byPrev !! o = if decide (states o records = []) then None
                      else Some (put_all prev_id (states o records))).
Proof.
  unfold initRecordsMapsByObj. induction records as [|r records IH] using rev_ind; [done|].
  rewrite foldl_app. cbn [foldl].
  destruct (foldl init_turn (∅, ∅, []) records) as [[byPrev byRef] notState].
  destruct IH as (-> & Href & Hprev). unfold init_turn.
  destruct (decide (tr_Type r ≠ STATE)) as [Ht|Ht].
  { split_and!.
    - unfold not_states. by rewrite filter_app, (filter_cons_True _ r []), filter_nil.
    - intros o. unfold states. rewrite filter_app, (filter_cons_False _ r []), filter_nil, app_nil_r
        by tauto. apply Href.
    - intros o. unfold states. rewrite filter_app, (filter_cons_False _ r []), filter_nil, app_nil_r
        by tauto. apply Hprev. }
  assert (tr_Type r = STATE) as Hst by (by apply dec_stable).
  assert (∀ o, o ≠ obj_id r → states o (records ++ [r]) = states o records) as Hother.
  { intros o Ho. unfold states.
    rewrite filter_app, (filter_cons_False _ r []), filter_nil, app_nil_r; [done|]. naive_solver. }
  assert (states (obj_id r) (records ++ [r]) = states (obj_id r) records ++ [r]) as Hsame.
  { unfold states. by rewrite filter_app, (filter_cons_True _ r []), filter_nil. }
  assert (not_states (records ++ [r]) = not_states records) as Hns.
  { unfold not_states.
    by rewrite filter_app, (filter_cons_False _ r []), filter_nil, app_nil_r by tauto. }
  assert (states (obj_id r) (records ++ [r]) ≠ []) as Hne
    by (rewrite Hsame; by intros [_ ?]%app_eq_nil).
  assert (∀ (key : TRecord → string) (m : gmap string (gmap string TRecord)),
    (∀ o, m !! o = if decide (states o records = []) then None
                   else Some (put_all key (states o records))) →
    ∀ m', m' = match byRef !! obj_id r with None => <[obj_id r := ∅]> m | Some _ => m end →
    ∀ o, put_record (obj_id r) (key r) r m' !! o =
      if decide (states o (records ++ [r]) = []) then None
      else Some (put_all key (states o (records ++ [r])))) as Hput.
  { intros key m Hm m' -> o. unfold put_record. destruct (decide (o = obj_id r)) as [->|Ho].
    - rewrite lookup_insert_eq, decide_False by done. rewrite Hsame, put_all_snoc. do 2 f_equal.
      rewrite Href. destruct (decide (states (obj_id r) records = [])) as [He|He].
      + by rewrite lookup_insert_eq, He.
      + by rewrite Hm, decide_False.
    - rewrite lookup_insert_ne by done. rewrite Hother by done. rewrite <- Hm.
      destruct (byRef !! obj_id r); [done|]. by rewrite lookup_insert_ne. }
  pose proof (Hput prev_id byPrev Hprev _ eq_refl) as Hp.
  pose proof (Hput ref_id byRef Href _ eq_refl) as Hr.
  destruct (byRef !! obj_id r); split_and!; done.
Qed.

(** The records are the other ones and the states of each object. *)
Lemma split_by_object os rs :
  NoDup os → (∀ r, r ∈ rs → obj_id r ∈ os) →
  concat ((λ o, filter (λ r, obj_id r = o) rs) <$> os) ≡ₚ rs.
Proof.
  revert rs. induction os as [|o os IH]; intros rs Hnd Hos; cbn.
  { destruct rs as [|r rs]; [done|]. by destruct (not_elem_of_nil (obj_id r) (Hos r ltac:(left))). }
  apply NoDup_cons in Hnd as [Hnin Hnd].
  assert (rs ≡ₚ filter (λ r, obj_id r = o) rs ++ filter (λ r, obj_id r ≠ o) rs) as Hsplit.
  { clear. induction rs as [|r rs IH]; [done|]. rewrite !filter_cons.
    destruct (decide (obj_id r = o)), (decide (obj_id r ≠ o)); try done; cbn.
    - by f_equiv.
    - rewrite <- Permutation_middle. by f_equiv. }
  rewrite Hsplit at 2. f_equiv.
  rewrite <- (IH (filter (λ r, obj_id r ≠ o) rs) Hnd) at 1.
  - apply reflexive_eq. f_equal. apply list_fmap_ext. intros i o' Ho'. cbn.
    rewrite list_filter_filter. apply list_filter_iff. intros r. split; [|tauto].
    intros Hr. split; [done|]. intros Heq. apply Hnin. rewrite <- Heq, Hr.
    by eapply list_elem_of_lookup_2.
  - intros r [Hne Hr]%list_elem_of_filter. apply Hos in Hr. by apply elem_of_cons in Hr as [?|?].
Qed.

Lemma states_filter o records :
  states o records = filter (λ r, obj_id r = o) (filter (λ r, tr_Type r = STATE) records).
Proof. unfold states. rewrite list_filter_filter. apply list_filter_iff. tauto. Qed.

Lemma records_split records os o :
  orders_ok records os o →
  not_states records ++ concat ((λ o, states o records) <$> os) ≡ₚ records.
Proof.
  unfold orders_ok. pose proof (init_spec records) as Hspec.
  destruct (initRecordsMapsByObj records) as [[byPrev byRef] ns].
  destruct Hspec as (_ & Href & _). intros [Hos _].
  assert (concat ((λ o, states o records) <$> os) ≡ₚ filter (λ r, tr_Type r = STATE) records) as ->.
  { etrans; [|apply (split_by_object os (filter (λ r, tr_Type r = STATE) records))].
    - apply reflexive_eq. f_equal. apply list_fmap_ext. intros i x _. apply states_filter.
    - rewrite Hos. apply NoDup_elements.
    - intros r Hr. rewrite Hos, elem_of_elements, elem_of_dom, Href.
      rewrite decide_False; [by eexists|]. rewrite states_filter. intros Hnil.
      apply (not_elem_of_nil r). rewrite <- Hnil. by apply list_elem_of_filter. }
  unfold not_states. clear. induction records as [|r records IH]; [done|].
  rewrite !filter_cons. destruct (decide (tr_Type r ≠ STATE)), (decide (tr_Type r = STATE));
    try done; cbn.
  - by f_equiv.
  - rewrite <- Permutation_middle. by f_equiv.
Qed.

(** ** Chains *)

(** [c] is the history of an object: each state names the one before it, the
    first one names none of them. *)
Definition linked (c : list TRecord) : Prop :=
  ∀ i a b, c !! i = Some a → c !! S i = Some b → prev_id b = ref_id a.

Definition proper_chain (c : list TRecord) : Prop :=
  NoDup (ref_id <$> c) ∧ linked c ∧ ∀ h, head c = Some h → prev_id h ∉ ref_id <$> c.

Lemma linked_snoc c x y : linked (c ++ [x]) → prev_id y = ref_id x → linked ((c ++ [x]) ++ [y]).
Proof.
  intros Hl Hy i a b Ha Hb. destruct (decide (S i < length (c ++ [x]))%nat) as [Hlt|Hge].
  - rewrite lookup_app_l in Ha, Hb by lia. by eapply Hl.
  - pose proof (lookup_lt_Some _ _ _ Hb) as Hlen. rewrite !length_app in *. cbn in *.
    assert (i = length c) as -> by lia.
    rewrite lookup_app_l, list_lookup_middle in Ha by (rewrite ?length_app; cbn; lia || done).
    rewrite lookup_app_r in Hb by (rewrite length_app; cbn; lia). rewrite length_app in Hb.
    replace (S (length c) - (length c + length [x]))%nat with 0%nat in Hb by (cbn; lia).
    cbn in Hb. by simplify_eq.
Qed.

(** The part of a chain that the loop has followed. *)
Definition followed (rs : list TRecord) (acc : list TRecord) : Prop :=
  NoDup acc ∧ (∀ x, x ∈ acc → x ∈ rs) ∧ linked acc ∧
  ∀ h, head acc = Some h → prev_id h ∉ ref_id <$> rs.

Lemma ref_inj rs x y : NoDup (ref_id <$> rs) → x ∈ rs → y ∈ rs → ref_id x = ref_id y → x = y.
Proof.
  intros Hnd Hx Hy Heq. pose proof (put_all_lookup ref_id rs x Hnd Hx) as H1.
  pose proof (put_all_lookup ref_id rs y Hnd Hy) as H2. congruence.
Qed.

(** A record whose previous one is the last so far is new. *)
Lemma followed_next rs acc x y :
  NoDup (ref_id <$> rs) → followed rs (acc ++ [x]) → y ∈ rs → prev_id y = ref_id x →
  followed rs ((acc ++ [x]) ++ [y]).
Proof.
  intros Hnd (Hacc & Hin & Hl & Hh) Hy Hp. split_and!.
  - apply NoDup_app. split_and!; [done| |apply NoDup_singleton].
    intros z Hz ->%list_elem_of_singleton. apply list_elem_of_lookup in Hz as [[|i] Hi].
    + apply (Hh y); [by rewrite head_lookup|]. rewrite Hp. apply list_elem_of_fmap.
      exists x. split; [done|]. apply Hin. set_solver.
    + destruct (lookup_lt_is_Some_2 (acc ++ [x]) i) as [a Ha].
      { apply lookup_lt_Some in Hi. lia. }
      assert (a = x) as ->.
      { apply (ref_inj rs); [done|apply Hin; by eapply list_elem_of_lookup_2|apply Hin; set_solver|].
        rewrite <- Hp. symmetry. by eapply Hl. }
      assert (i = length acc) as ->.
      { eapply NoDup_lookup; [exact Hacc|exact Ha|by apply list_lookup_middle]. }
      apply lookup_lt_Some in Hi. rewrite length_app in Hi. cbn in Hi. lia.
  - intros z [Hz| ->%list_elem_of_singleton]%elem_of_app; auto.
  - by apply linked_snoc.
  - intros h Hhd. apply Hh. destruct acc; exact Hhd.
Qed.

Lemma follow_chain_Ok rs n objRef acc x sorted sorted' :
  NoDup (ref_id <$> rs) → followed rs (acc ++ [x]) →
  follow_chain n objRef (ref_id x) (put_all prev_id rs) (sorted ++ acc ++ [x]) = Ok sorted' →
  ∃ c, sorted' = sorted ++ c ∧ followed rs c.
Proof.
  intros Hnd. revert acc x. induction n as [|n IH]; intros acc x Hf Hc; cbn in Hc.
  { simplify_eq. by exists (acc ++ [x]). }
  destruct (put_all prev_id rs !! ref_id x) as [y|] eqn:Hy; [|done].
  apply put_all_Some in Hy as [Hyin Hyp]. rewrite <- (assoc_L (++)) in Hc.
  eapply (IH (acc ++ [x]) y); [by apply followed_next|]. exact Hc.
Qed.

Lemma find_head_Some o byPrev byRef h :
  find_head o byPrev byRef = Some h → (∃ k, byPrev !! k = Some h) ∧ byRef !! prev_id h = None.
Proof.
  induction o as [|k o IH]; cbn; [done|]. destruct (byPrev !! k) as [r|] eqn:Hk; [|done].
  case_decide; [|done]. intros [= <-]. eauto.
Qed.

(** What one object contributes is made of its states, each at most once. *)
Lemma sort_object_Ok o objRef rs sorted sorted' :
  NoDup (ref_id <$> rs) →
  sort_object o objRef (put_all prev_id rs) (put_all ref_id rs) sorted = Ok sorted' →
  ∃ c, sorted' = sorted ++ c ∧ c ⊆+ rs.
Proof.
  intros Hnd. unfold sort_object. case_decide.
  { intros [= <-]. eexists. split; [done|]. by rewrite put_all_list. }
  destruct (find_head _ _ _) as [h|] eqn:Hh; [|done].
  apply find_head_Some in Hh as [[k Hk] Hnone]. apply put_all_Some in Hk as [Hin _].
  intros Hc. apply (follow_chain_Ok rs _ _ []) in Hc as (c & -> & Hndc & Hcin & _); [|done|].
  - exists c. split; [done|]. by apply NoDup_submseteq.
  - split_and!.
    + apply NoDup_singleton.
    + by intros x ->%list_elem_of_singleton.
    + intros i a b Ha Hb. by rewrite lookup_nil in Hb || destruct i.
    + intros x [= <-] Hx%put_all_dom. by rewrite Hnone in Hx; destruct Hx.
Qed.

Lemma sort_objects_Ok os o byPrev byRef f sorted sorted' :
  (∀ x, NoDup (ref_id <$> f x)) →
  (∀ x, x ∈ os → byPrev !! x = Some (put_all prev_id (f x)) ∧
                 byRef !! x = Some (put_all ref_id (f x))) →
  sort_objects os o byPrev byRef sorted = Ok sorted' →
  ∃ c, sorted' = sorted ++ c ∧ c ⊆+ concat (f <$> os).
Proof.
  intros Hnd. revert sorted. induction os as [|x os IH]; intros sorted Hmaps Hs; cbn in Hs.
  { simplify_eq. exists []. by rewrite app_nil_r. }
  destruct (Hmaps x) as [Hm1 Hm2]; [by left|]. rewrite Hm1, Hm2 in Hs. cbn in Hs.
  autorewrite with be in Hs.
  destruct Hs as (s1 & Hs1 & Hs2). apply sort_object_Ok in Hs1 as (c & -> & Hc); [|done].
  apply IH in Hs2 as (c' & -> & Hc'); [|by intros; apply Hmaps; right].
  exists (c ++ c'). rewrite (assoc_L (++)). split; [done|]. cbn. by apply submseteq_app.
Qed.

Lemma maps_at_objects records os o :
  orders_ok records os o →
  let '(byPrev, byRef, _) := initRecordsMapsByObj records in
  ∀ x, x ∈ os → byPrev !! x = Some (put_all prev_id (states x records)) ∧
                byRef !! x = Some (put_all ref_id (states x records)) ∧ states x records ≠ [].
Proof.
  unfold orders_ok. pose proof (init_spec records) as Hspec.
  destruct (initRecordsMapsByObj records) as [[byPrev byRef] ns].
  destruct Hspec as (_ & Href & Hprev). intros [Hos _] x Hx.
  rewrite Hos, elem_of_elements, elem_of_dom, Href in Hx. rewrite Href, Hprev.
  destruct (decide (states x records = [])); [by destruct Hx|done].
Qed.

Lemma sortRecords_perm os o records sorted :
  (∀ x, NoDup (ref_id <$> states x records)) → orders_ok records os o →
  sortRecords os o records = Ok sorted → sorted ≡ₚ records.
Proof.
  intros Hnd Hord Hs. pose proof (records_split _ _ _ Hord) as Hsplit.
  pose proof (maps_at_objects _ _ _ Hord) as Hmaps. pose proof (init_spec records) as Hspec.
  unfold sortRecords in Hs. destruct (initRecordsMapsByObj records) as [[byPrev byRef] ns].
  destruct Hspec as (-> & _). autorewrite with be in Hs. destruct Hs as (s1 & Hs & Hlen).
  destruct (decide (length records ≠ length s1)) as [|Hl]; [done|]. simplify_eq.
  eapply (sort_objects_Ok os o byPrev byRef (λ x, states x records)) in Hs as (c & -> & Hc);
    [|done|by intros x Hx; destruct (Hmaps x Hx) as (? & ? & _)].
  rewrite <- Hsplit at 2. apply submseteq_length_Permutation.
  - by apply submseteq_app.
  - rewrite Hsplit. lia.
Qed.

(** Sorting never loses, doubles or invents a record.  When the states of
    every object have different references -- they are identifiers -- the records
    [sortRecords] returns are a rearrangement of those it was given, in whatever
    order the runtime ranges over its maps, broken histories included; otherwise
    it reports an error. *)
Theorem sortRecords_permutation os o records sorted :
  (∀ x, NoDup (ref_id <$> states x records)) → orders_ok records os o →
  sortRecords os o records = Ok sorted → sorted ≡ₚ records.
Proof. apply sortRecords_perm. Qed.

(** ** Proper chains are sorted *)

Lemma proper_chain_prev c i a b :
  proper_chain c → c !! i = Some a → c !! S i = Some b → prev_id b ∈ ref_id <$> c.
Proof.
  intros (_ & Hl & _) Ha Hb. rewrite (Hl i a b Ha Hb). apply list_elem_of_fmap.
  exists a. split; [done|]. by eapply list_elem_of_lookup_2.
Qed.

Lemma proper_chain_NoDup_prev c : proper_chain c → NoDup (prev_id <$> c).
Proof.
  intros Hc. pose proof Hc as (Hnd & Hl & Hh). apply NoDup_alt. intros i j k Hi Hj.
  rewrite list_lookup_fmap in Hi, Hj.
  destruct (c !! i) as [a|] eqn:Ha; [|done]. destruct (c !! j) as [b|] eqn:Hb; [|done].
  cbn in Hi, Hj.
  assert (prev_id b = prev_id a) as Heq by congruence.
  assert (∀ m x, c !! S m = Some x → ∃ y, c !! m = Some y ∧ prev_id x = ref_id y) as Hpre.
  { intros m x Hx. destruct (lookup_lt_is_Some_2 c m) as [y Hy].
    { apply lookup_lt_Some in Hx. lia. } exists y. eauto. }
  destruct i as [|i], j as [|j].
  - done.
  - exfalso. apply (Hh a); [by rewrite head_lookup|]. rewrite <- Heq.
    destruct (lookup_lt_is_Some_2 c j) as [y Hy]; [apply lookup_lt_Some in Hb; lia|].
    by eapply proper_chain_prev.
  - exfalso. apply (Hh b); [by rewrite head_lookup|]. rewrite Heq.
    destruct (lookup_lt_is_Some_2 c i) as [y Hy]; [apply lookup_lt_Some in Ha; lia|].
    by eapply proper_chain_prev.
  - f_equal. destruct (Hpre i a Ha) as (x & Hx & Hxa), (Hpre j b Hb) as (y & Hy & Hyb).
    eapply (NoDup_lookup (ref_id <$> c)); [done|by rewrite list_lookup_fmap, Hx|].
    rewrite list_lookup_fmap, Hy. cbn. congruence.
Qed.

Lemma find_head_unique o byPrev byRef h :
  (∀ k r, byPrev !! k = Some r → byRef !! prev_id r = None → r = h) →
  (∃ k, k ∈ o ∧ byPrev !! k = Some h) → byRef !! prev_id h = None →
  find_head o byPrev byRef = Some h.
Proof.
  intros Huniq (k & Hk & Hkh) Hnone. induction o as [|x o IH]; [by apply not_elem_of_nil in Hk|].
  cbn. destruct (byPrev !! x) as [r|] eqn:Hx.
  - case_decide as Hd; [by f_equal; eapply Huniq|].
    apply IH. apply elem_of_cons in Hk as [->|?]; [by simplify_eq|done].
  - apply IH. apply elem_of_cons in Hk as [->|?]; [congruence|done].
Qed.

Lemma follow_chain_all t objRef x byPrev sorted :
  linked (x :: t) → (∀ y, y ∈ t → byPrev !! prev_id y = Some y) →
  follow_chain (length t) objRef (ref_id x) byPrev sorted = Ok (sorted ++ t).
Proof.
  revert x sorted. induction t as [|y t IH]; intros x sorted Hl Hin; cbn [length follow_chain].
  { by rewrite app_nil_r. }
  rewrite <- (Hl 0%nat x y) by done. rewrite Hin by left. rewrite IH.
  - by rewrite <- (assoc_L (++)).
  - intros i a b Ha Hb. by apply (Hl (S i)).
  - intros z Hz. apply Hin. by right.
Qed.

Lemma sort_object_chain o objRef rs c sorted :
  rs ≡ₚ c → c ≠ [] → proper_chain c → o ≡ₚ elements (dom (put_all prev_id rs)) →
  sort_object o objRef (put_all prev_id rs) (put_all ref_id rs) sorted = Ok (sorted ++ c).
Proof.
  intros Hperm Hne Hc Ho. pose proof Hc as (Hnd & Hl & Hh).
  assert (NoDup (ref_id <$> rs)) as Hndr by by rewrite Hperm.
  assert (NoDup (prev_id <$> rs)) as Hndp by (rewrite Hperm; by apply proper_chain_NoDup_prev).
  assert (∀ y, y ∈ c → put_all prev_id rs !! prev_id y = Some y) as Hin.
  { intros y Hy. apply put_all_lookup; [done|by rewrite Hperm]. }
  destruct c as [|h t]; [done|]. unfold sort_object. case_decide as Hsz.
  - rewrite put_all_size_NoDup in Hsz by done.
    pose proof (Permutation_length Hperm) as Hlen. cbn in Hlen. destruct t; [|cbn in Hlen; lia].
    pose proof (put_all_list ref_id rs Hndr) as Hpl. rewrite Hperm in Hpl at 2.
    apply Permutation_singleton_r in Hpl. by rewrite Hpl.
  - assert (∀ k, put_all ref_id rs !! k = None ↔ k ∉ ref_id <$> h :: t) as Hnone.
    { intros k. rewrite eq_None_not_Some, put_all_dom, Hperm. done. }
    rewrite (find_head_unique _ _ _ h).
    + rewrite put_all_size_NoDup by done. rewrite (Permutation_length Hperm). cbn [length].
      rewrite Nat.sub_succ, Nat.sub_0_r, follow_chain_all; [by rewrite <- (assoc_L (++))|done|].
      intros y Hy. apply Hin. by right.
    + intros k r Hk Hr%Hnone. apply put_all_Some in Hk as [Hrin _]. rewrite Hperm in Hrin.
      apply list_elem_of_lookup in Hrin as [[|i] Hi]; [by cbn in Hi; simplify_eq|].
      destruct Hr. destruct (lookup_lt_is_Some_2 (h :: t) i) as [y Hy].
      { apply lookup_lt_Some in Hi. lia. } by eapply proper_chain_prev.
    + exists (prev_id h). rewrite Ho, elem_of_elements, elem_of_dom. split; [|apply Hin; left].
      rewrite Hin by left. by eexists.
    + apply Hnone, Hh. done.
Qed.

Lemma sort_objects_chains os o byPrev byRef f chain_of sorted :
  (∀ x, x ∈ os → byPrev !! x = Some (put_all prev_id (f x)) ∧
     byRef !! x = Some (put_all ref_id (f x)) ∧
     f x ≡ₚ chain_of x ∧ chain_of x ≠ [] ∧ proper_chain (chain_of x) ∧
     o x ≡ₚ elements (dom (put_all prev_id (f x)))) →
  sort_objects os o byPrev byRef sorted = Ok (sorted ++ concat (chain_of <$> os)).
Proof.
  revert sorted. induction os as [|x os IH]; intros sorted Hall; cbn; [by rewrite app_nil_r|].
  destruct (Hall x) as (-> & -> & Hp & Hne & Hc & Ho); [by left|]. cbn.
  rewrite (sort_object_chain _ _ _ (chain_of x)) by done. cbn.
  rewrite IH by (intros; apply Hall; by right). by rewrite <- (assoc_L (++)).
Qed.

Lemma sort_chains os o records (chain_of : string → list TRecord) :
  orders_ok records os o →
  (∀ x, states x records ≠ [] → states x records ≡ₚ chain_of x ∧ proper_chain (chain_of x)) →
  sortRecords os o records = Ok (not_states records ++ concat (chain_of <$> os)).
Proof.
  intros Hord Hch. pose proof (records_split _ _ _ Hord) as Hsplit.
  pose proof (maps_at_objects _ _ _ Hord) as Hmaps. pose proof (init_spec records) as Hspec.
  unfold sortRecords. unfold orders_ok in Hord.
  destruct (initRecordsMapsByObj records) as [[byPrev byRef] ns].
  destruct Hspec as (-> & _). destruct Hord as [_ Ho].
  rewrite (sort_objects_chains os o byPrev byRef (λ x, states x records) chain_of).
  - cbn. rewrite decide_False; [done|]. intros Hlen. apply Hlen. rewrite <- Hsplit at 1.
    apply Permutation_length. f_equiv. clear -Hch Hmaps. induction os as [|x os IH]; cbn; [done|].
    f_equiv; [|apply IH; intros; apply Hmaps; by right].
    apply Hch. by apply Hmaps; left.
  - intros x Hx. destruct (Hmaps x Hx) as (Hm1 & Hm2 & Hm3). destruct (Hch x Hm3) as [Hp Hc].
    split_and!; [done|done|done| |done|by apply Ho].
    intros Hnil. apply Hm3. rewrite Hnil in Hp. by apply Permutation_nil_r in Hp.
Qed.

(** The states of every object are a shuffled proper chain. *)
Definition in_chains (records : list TRecord) (chain_of : string → list TRecord) : Prop :=
  ∀ x, states x records ≠ [] → states x records ≡ₚ chain_of x ∧ proper_chain (chain_of x).

(** C22: proper histories come out in order.  If the states of every object are a
    shuffled proper chain, [sortRecords] succeeds, and its result is the other
    records in their order followed by each object's chain in its order of change
    -- for every shuffle and every range order of the runtime. *)
Theorem sortRecords_sorts os o records (chain_of : string → list TRecord) :
  orders_ok records os o →
  (∀ x, states x records ≠ [] → states x records ≡ₚ chain_of x ∧ proper_chain (chain_of x)) →
  sortRecords os o records = Ok (not_states records ++ concat (chain_of <$> os)).
Proof. apply sort_chains. Qed.

(** The states of one object, shuffled. *)
Lemma sort_one_object os o records (c : list TRecord) x :
  orders_ok records os o → records ≡ₚ c → c ≠ [] → proper_chain c →
  Forall (λ r, tr_Type r = STATE ∧ obj_id r = x) c →
  sortRecords os o records = Ok c.
Proof.
  intros Hord Hperm Hne Hc Hall. rewrite Forall_forall in Hall.
  assert (∀ y, states y records = if decide (y = x) then records else []) as Hst.
  { intros y. unfold states. case_decide as Hy.
    - apply filter_all. intros r Hr. rewrite Hperm in Hr. destruct (Hall r Hr). by subst.
    - apply filter_none. intros r Hr [_ Hr']. rewrite Hperm in Hr. destruct (Hall r Hr). congruence. }
  assert (not_states records = []) as Hns.
  { apply filter_none. intros r Hr Ht. rewrite Hperm in Hr. by destruct (Hall r Hr). }
  assert (records ≠ []) as Hne' by (intros ->; by apply Permutation_nil_l in Hperm).
  assert (os = [x]) as ->.
  { pose proof (init_spec records) as Hspec. unfold orders_ok in Hord.
    destruct (initRecordsMapsByObj records) as [[byPrev byRef] ns].
    destruct Hspec as (_ & Href & _), Hord as [Hos _].
    assert (dom byRef = {[x]}) as Hd.
    { apply set_eq. intros y. rewrite elem_of_dom, Href, Hst, elem_of_singleton.
      destruct (decide (y = x)) as [->|Hy]; case_decide; try done; split; done. }
    rewrite Hd, elements_singleton in Hos. by apply Permutation_singleton_r in Hos. }
  rewrite (sort_chains [x] o records (λ _, c)); [|done|].
  - rewrite Hns. cbn. by rewrite app_nil_r.
  - intros y Hy. rewrite Hst in Hy |- *. by case_decide.
Qed.
End sorting.

(** ** A whole pulse *)

Section transform.
Context `{PlatformLaws}.

(** The canonical records of a jet, in the order the platform sent them; records
    of unsupported types are skipped. *)
Definition canonical (id : JetID) (r : ExporterRecord) : option TRecord :=
  if decide (er_JetID r = id)
  then match transferToCanonicalRecord r with Ok record => Some record | Err _ => None end
  else None.
Definition records_of (id : JetID) (rs : list ExporterRecord) : list TRecord :=
  omap (canonical id) rs.

Lemma transfer_type r record :
  transferToCanonicalRecord r = Ok record → 0 ≤ tr_Type record ≤ 2.
Proof.
  unfold transferToCanonicalRecord. autorewrite with be. intros (raw & _ & Hr).
  destruct (er_Virtual r); simplify_eq; cbn; unfold STATE, REQUEST, RESULT; lia.
Qed.

Lemma records_of_type id rs record : record ∈ records_of id rs → 0 ≤ tr_Type record ≤ 2.
Proof.
  unfold records_of, canonical. intros (r & _ & Hr)%list_elem_of_omap.
  case_decide; [|done]. destruct (transferToCanonicalRecord r) eqn:Ht; simplify_eq.
  by eapply transfer_type.
Qed.

Lemma collect_records_Ok rs res m :
  collect_records rs res = Ok m →
  ∀ id, default [] (m !! id) = default [] (res !! id) ++ records_of id rs.
Proof.
  revert res. induction rs as [|r rs IH]; intros res Hc id; cbn in Hc.
  { simplify_eq. cbn. by rewrite app_nil_r. }
  unfold records_of. cbn. fold (records_of id rs). unfold canonical at 1.
  destruct (transferToCanonicalRecord r) as [record|err] eqn:Ht.
  - rewrite (IH _ Hc). case_decide as Hid.
    + subst id. rewrite lookup_insert_eq. cbn. by rewrite <- (assoc_L (++)).
    + by rewrite lookup_insert_ne.
  - destruct (decide (err = UnsupportedRecordTypeError)); [|done].
    rewrite (IH _ Hc). by case_decide.
Qed.

Lemma getRecords_Ok jd m :
  Transformer.getRecords jd = Ok m → ∀ id, default [] (m !! id) = records_of id (ppd_Records jd).
Proof.
  unfold Transformer.getRecords. case_decide as Hnil.
  - intros [= <-] id. rewrite Hnil.
    assert (∀ jets (res : gmap JetID (list TRecord)), default [] (res !! id) = [] →
      default [] (foldl (λ res (jet : JetDropContinue), <[jdc_JetID jet := []]> res) res jets !! id) = [])
      as Hfold.
    { induction jets as [|jet jets IH]; intros res Hres; cbn; [done|]. apply IH.
      destruct (decide (jdc_JetID jet = id)) as [->|];
        [by rewrite lookup_insert_eq|by rewrite lookup_insert_ne]. }
    by apply Hfold.
  - intros Hc id. by rewrite (collect_records_Ok _ _ _ Hc).
Qed.

(** Entering nil for the jets without records. *)
Lemma fill_jets (jets : list JetDropContinue) (m : gmap JetID (list TRecord)) id :
  default [] (foldl (λ m jet, if m !! jdc_JetID jet is Some _ then m
                              else <[jdc_JetID jet := []]> m) m jets !! id) = default [] (m !! id).
Proof.
  revert m. induction jets as [|jet jets IH]; intros m; cbn; [done|]. rewrite IH.
  destruct (m !! jdc_JetID jet) eqn:Hj; [done|].
  destruct (decide (jdc_JetID jet = id)) as [<-|];
    [by rewrite lookup_insert_eq, Hj|by rewrite lookup_insert_ne].
Qed.

(** The text of a jet: empty for a jet id that is not valid. *)
Definition jet_text (id : JetID) : option string :=
  if JetID_IsValid id then JetIDToString id else Some "".

(** What the pulse's jet number [i] becomes. *)
Definition drop_of (ord : Orders) (jd : PlatformPulseData) (jet : JetDropContinue)
  (d : option TJetDrop) : Prop :=
  let id := jdc_JetID jet in
  let records := records_of id (ppd_Records jd) in
  match d with
  | Some drop =>
      let ms := tjd_MainSection drop in
      ds_PulseData (ms_Start ms) = getPulseData (ppd_Pulse jd) ∧
      jet_text id = Some (ds_JetDropPrefix (ms_Start ms)) ∧
      valid_jet_id (ds_JetDropPrefix (ms_Start ms)) ∧
      dc_PrevDropHash (ms_DropContinue ms) = jdc_PrevDropHashes jet ∧
      tjd_Hash drop = jdc_Hash jet ∧
      ms_Records ms ≡ₚ records ∧ Forall (λ r, 0 ≤ tr_Type r ≤ 2) (ms_Records ms) ∧
      sortRecords (o_objects ord id) (o_prevs ord id) records = Ok (ms_Records ms)
  | None => ∃ e, sortRecords (o_objects ord id) (o_prevs ord id) records = Err e
  end.

Lemma getJetDrop_spec ord jd jet :
  let id := jdc_JetID jet in
  let records := records_of id (ppd_Records jd) in
  (∀ x, NoDup (ref_id <$> states x records)) →
  orders_ok records (o_objects ord id) (o_prevs ord id) →
  ∃ d, getJetDrop ord id records (getPulseData (ppd_Pulse jd)) (jdc_Hash jet)
         (jdc_PrevDropHashes jet) = Some d ∧ drop_of ord jd jet d.
Proof.
  intros id records Hnd Hord. unfold getJetDrop.
  pose proof (JetIDToString_bits id) as Hjet.
  assert (valid_jet_id (bits_text (Prefix id) 0 (Z.to_nat (Depth id)))) as Hvalid.
  { split; [apply bits_text_bits|]. rewrite bits_text_length. pose proof (Depth_range id). lia. }
  assert (∃ prefix, jet_text id = Some prefix ∧ valid_jet_id prefix) as (prefix & Htext & Hp).
  { unfold jet_text. destruct (JetID_IsValid id); [by eexists|]. exists "".
    split; [done|]. split; [done|cbn; lia]. }
  fold id (jet_text id). rewrite Htext. cbn. fold records. destruct (sortRecords _ _ records) as [sorted|e] eqn:Hs.
  - eexists. split; [done|]. cbn.
    assert (sorted ≡ₚ records) as Hperm by by eapply sortRecords_perm.
    split_and!; [done|done|done|done|done|done| |exact Hs].
    rewrite Hperm. apply Forall_forall. intros r. apply records_of_type.
  - eexists. split; [done|]. cbn. by exists e.
Qed.

Lemma jet_drops_spec ord jd jets (m : gmap JetID (list TRecord)) :
  (∀ id, default [] (m !! id) = records_of id (ppd_Records jd)) →
  (∀ jet, jet ∈ jets →
     let records := records_of (jdc_JetID jet) (ppd_Records jd) in
     (∀ x, NoDup (ref_id <$> states x records)) ∧
     orders_ok records (o_objects ord (jdc_JetID jet)) (o_prevs ord (jdc_JetID jet))) →
  ∃ ds, jet_drops ord m (getPulseData (ppd_Pulse jd)) jets = Some (omap id ds) ∧
        Forall2 (drop_of ord jd) jets ds.
Proof.
  intros Hm Hjets. induction jets as [|jet jets IH]; cbn; [by exists []|].
  destruct (Hjets jet) as [Hnd Hord]; [by left|].
  destruct (getJetDrop_spec ord jd jet Hnd Hord) as (d & Hd & Hdrop).
  rewrite Hm, Hd. cbn. destruct IH as (ds & -> & Hds); [by intros; apply Hjets; right|].
  cbn. exists (d :: ds). split; [|by constructor]. by destruct d.
Qed.

(** [Transform] behind its two maps: the jets of the pulse over the records sent. *)
Lemma Transform_jet_drops ord jd m :
  Transformer.getRecords jd = Ok m →
  ∃ m', (∀ id, default [] (m' !! id) = records_of id (ppd_Records jd)) ∧
    Transform ord jd =
      (drops ← jet_drops ord m' (getPulseData (ppd_Pulse jd)) (fp_Jets (ppd_Pulse jd));
       Some (Ok drops)).
Proof.
  intros Hm. unfold Transform. rewrite Hm. eexists. split; [|reflexivity].
  intros id. rewrite fill_jets. by apply getRecords_Ok.
Qed.

(** Records in chains are sorted, so their jet is not lost. *)
Lemma drop_of_chains ord jd jet d chain_of :
  let id := jdc_JetID jet in
  let records := records_of id (ppd_Records jd) in
  orders_ok records (o_objects ord id) (o_prevs ord id) → drop_of ord jd jet d →
  in_chains records chain_of →
  ∃ drop, d = Some drop ∧
    ms_Records (tjd_MainSection drop) = not_states records ++ concat (chain_of <$> o_objects ord id).
Proof.
  intros id records Hord Hd Hch. pose proof (sort_chains _ _ _ _ Hord Hch) as Hs.
  destruct d as [drop|]; cbn in Hd.
  - exists drop. split; [done|]. destruct Hd as (_ & _ & _ & _ & _ & _ & _ & Hd).
    fold id records in Hd. rewrite Hs in Hd. by injection Hd.
  - destruct Hd as [e He]. fold id records in He. by rewrite Hs in He.
Qed.

(** C10: a pulse becomes a drop for each jet whose records can be sorted.  If the
    records of the pulse marshal and the states of an object in a jet have
    different references, [Transform] does not panic and succeeds, and its drops
    are, in the order of the jets, one for each jet for which [sortRecords]
    succeeds: with the pulse's data, the jet's text, hash and previous hashes,
    and exactly the supported records of that jet in the order of [sortRecords].
    A jet is left out exactly when [sortRecords] fails on it; one in which the
    states of every object form a chain never is, and its drop holds the other
    records followed by the chains. *)
Theorem Transform_spec ord jd m :
  Transformer.getRecords jd = Ok m →
  (∀ jet, jet ∈ fp_Jets (ppd_Pulse jd) →
     let records := records_of (jdc_JetID jet) (ppd_Records jd) in
     (∀ x, NoDup (ref_id <$> states x records)) ∧
     orders_ok records (o_objects ord (jdc_JetID jet)) (o_prevs ord (jdc_JetID jet))) →
  ∃ ds, Transform ord jd = Some (Ok (omap id ds)) ∧
    Forall2 (λ jet d, drop_of ord jd jet d ∧
      let records := records_of (jdc_JetID jet) (ppd_Records jd) in
      ∀ chain_of, in_chains records chain_of →
        ∃ drop, d = Some drop ∧ ms_Records (tjd_MainSection drop) =
          not_states records ++ concat (chain_of <$> o_objects ord (jdc_JetID jet)))
      (fp_Jets (ppd_Pulse jd)) ds.
Proof.
  intros (m' & Hm' & ->)%(Transform_jet_drops ord) Hjets.
  destruct (jet_drops_spec ord jd _ _ Hm' Hjets) as (ds & -> & Hds). exists ds. split; [done|].
  eapply Forall2_impl_l; [exact Hds|]. intros jet d Hjet Hd. split; [done|].
  intros records chain_of. apply drop_of_chains; [by apply Hjets|done].
Qed.
End transform.

(** ** The theorems at work on concrete records *)

Section std_orders.
Context `{Platform}.

(** One choice of the runtime. *)
Definition std_os (records : list TRecord) : list string :=
  elements (dom (initRecordsMapsByObj records).1.2).
Definition std_o (records : list TRecord) (objRef : string) : list string :=
  elements (dom (default ∅ ((initRecordsMapsByObj records).1.1 !! objRef))).

Lemma std_orders_ok records : orders_ok records (std_os records) (std_o records).
Proof.
  unfold orders_ok, std_os, std_o.
  destruct (initRecordsMapsByObj records) as [[byPrev byRef] ns]. cbn.
  split; [done|]. by intros objRef m ->.
Qed.

Lemma NoDup_states records x : NoDup (ref_id <$> records) → NoDup (ref_id <$> states x records).
Proof.
  intros Hnd. eapply sublist_NoDup; [exact Hnd|]. unfold states. clear Hnd.
  induction records as [|r rs IH]; [done|]. rewrite filter_cons.
  case_decide; cbn; by constructor.
Qed.
End std_orders.

Definition ex_state (ref prev : Byte.byte) : TRecord :=
  mkTRecord STATE [ref] [Byte.x6f] [] [prev] [] [] [] 0.
Definition ex_request : TRecord := mkTRecord REQUEST [Byte.x39] [Byte.x6f] [] [] [] [] [] 0.
(** Three states of one object, last first, and a request. *)
Definition ex_records : list TRecord :=
  [ex_state Byte.x63 Byte.x62; ex_request; ex_state Byte.x62 Byte.x61; ex_state Byte.x61 Byte.x00].
Definition ex_chain : list TRecord :=
  [ex_state Byte.x61 Byte.x00; ex_state Byte.x62 Byte.x61; ex_state Byte.x63 Byte.x62].

Lemma ex_records_NoDup x : NoDup (ref_id <$> states x ex_records).
Proof. apply NoDup_states. apply (bool_decide_unpack _). vm_compute. exact I. Defined.

Lemma sortRecords_permutation_witness :
  sortRecords (std_os ex_records) (std_o ex_records) ex_records = Ok (ex_request :: ex_chain) ∧
  ex_request :: ex_chain ≡ₚ ex_records.
Proof.
  assert (sortRecords (std_os ex_records) (std_o ex_records) ex_records
    = Ok (ex_request :: ex_chain)) as Hs by (vm_compute; reflexivity).
  split; [exact Hs|].
  apply (sortRecords_permutation (std_os ex_records) (std_o ex_records) ex_records);
    [exact ex_records_NoDup|apply std_orders_ok|exact Hs].
Defined.

Lemma ex_chain_proper : proper_chain ex_chain.
Proof.
  split_and!.
  - apply (bool_decide_unpack _). vm_compute. exact I.
  - intros [|[|[|i]]] a b Ha Hb; cbn in Ha, Hb; simplify_eq; reflexivity.
  - intros h [= <-]. apply (bool_decide_unpack _). vm_compute. exact I.
Defined.

Lemma ex_states x :
  states x ex_records ≠ [] → x = "o" ∧ states x ex_records ≡ₚ ex_chain.
Proof.
  intros Hne. assert (x = "o") as ->.
  { destruct (states x ex_records) as [|r rs] eqn:Hs; [done|].
    assert (r ∈ states x ex_records) as Hr by (rewrite Hs; left).
    apply list_elem_of_filter in Hr as [[_ Ho] Hr]. unfold ex_records in Hr.
    repeat (apply elem_of_cons in Hr as [->|Hr]; [by vm_compute in Ho|]).
    by apply elem_of_nil in Hr. }
  split; [done|].
  assert (states "o" ex_records = reverse ex_chain) as -> by (vm_compute; reflexivity).
  apply reverse_Permutation.
Defined.

Lemma sortRecords_sorts_witness :
  sortRecords (std_os ex_records) (std_o ex_records) ex_records
  = Ok (not_states ex_records ++ concat ((λ _, ex_chain) <$> std_os ex_records)).
Proof.
  apply (sortRecords_sorts _ _ _ (λ _, ex_chain)); [apply std_orders_ok|].
  intros x Hx. split; [by apply ex_states|apply ex_chain_proper].
Defined.

(** A pulse with one jet, an activation and a record of an unsupported type. *)
Definition ex_pulse_data : PlatformPulseData :=
  mkPlatformPulseData _
    (mkFullPulse 70000 0 70010 5000000000
       [mkJetDropContinue (toy_jet 2 [Byte.x40]) [Byte.x07] [[Byte.x06]]])
    [mkExporterRecord 1 [Byte.x61] [Byte.x6f] (toy_jet 2 [Byte.x40])
       (Virtual_Activate [Byte.x70] [Byte.x71] [Byte.x01]) None (Ok [Byte.xff]);
     mkExporterRecord 2 [Byte.x62] [Byte.x6f] (toy_jet 2 [Byte.x40]) Virtual_Other None
       (Ok [Byte.xfe])].
Definition ex_orders : Orders :=
  mkOrders (λ id, std_os (records_of id (ppd_Records ex_pulse_data)))
    (λ id, std_o (records_of id (ppd_Records ex_pulse_data))).

Lemma Transform_spec_witness :
  ∃ m d, Transformer.getRecords ex_pulse_data = Ok m ∧
    Transform ex_orders ex_pulse_data = Some (Ok [d]) ∧ tjd_Hash d = [Byte.x07].
Proof.
  assert (∃ m, Transformer.getRecords ex_pulse_data = Ok m) as [m Hm]
    by (eexists; unfold Transformer.getRecords; reflexivity).
  destruct (Transform_spec ex_orders ex_pulse_data m Hm) as (ds & Ht & Hds).
  - intros jet Hjet records. split; [|apply std_orders_ok].
    intros x. apply NoDup_states. cbn in Hjet. apply list_elem_of_singleton in Hjet as ->.
    apply (bool_decide_unpack _). vm_compute. exact I.
  - cbn [ppd_Pulse fp_Jets ex_pulse_data] in Hds.
    destruct ds as [|d [|d' ds]]; [by inversion Hds| |inversion Hds; subst; by inversion H4].
    apply Forall2_cons in Hds as [[Hd _] _]. destruct d as [d|].
    + exists m, d. split; [exact Hm|]. split; [exact Ht|].
      destruct Hd as (_ & _ & _ & _ & Hh & _). exact Hh.
    + exfalso. destruct Hd as [e He]. vm_compute in He. discriminate He.
Defined.
