(* ===== verification/TransformerLoop.v ===== *)
(** * The goroutine of the transformer: [src/etl/transformer/mainnet_impl.go]

    [Start] runs [run] and [needStop] in turn; [Stop] puts a signal into a channel
    of one place.  [run] takes a pulse or the signal, whichever the runtime picks,
    and puts the signal back for [needStop] to take.  The steps are the single
    operations on the three channels, so that the calls of [Stop], the extractor and
    the processor come in between. *)

From S2P Require Import Prelude GoStd Platform RefPlatform Types Models Converter Transformer TransformerProofs.

Section loop.
Context `{Platform}.

(** Where the goroutine is. *)
Inductive place :=
  | Selecting                         (* at the select of run *)
  | Sending (drops : list TJetDrop)   (* in the loop over transform *)
  | PuttingBack                       (* at m.stopSignal <- true of run *)
  | AtNeedStop
  | Gone.

(** The channels, with the place in their buffers; the calls of [Stop] that wait
    for a place and those that have returned; and, to speak about a run, the
    pulses taken from the extractor and the drops the processor has received. *)
Record Loop := mkLoop {
  tl_queueLen : nat;
  tl_extractorChan : list PlatformPulseData;
  tl_transformerChan : list TJetDrop;
  tl_stopSignal : bool;
  tl_place : place;
  tl_stopping : nat;
  tl_stopped : nat;
  tl_taken : list PlatformPulseData;
  tl_received : list TJetDrop;
}.

(** [NewMainNetTransformer] and [Start]. *)
Definition NewMainNetTransformer (queueLen : nat) : Loop :=
  mkLoop queueLen [] [] false Selecting 0 0 [] [].

(** What [run] sends for a pulse; an error is logged. *)
Definition to_send (transform : result (list TJetDrop)) : list TJetDrop :=
  match transform with Ok drops => drops | Err _ => [] end.

(** The goroutine. *)
Inductive goes : Loop → Loop → Prop :=
  | tl_take q jd ext out sig w r taken rec ord transform :
      Transform ord jd = Some transform →
      goes (mkLoop q (jd :: ext) out sig Selecting w r taken rec)
           (mkLoop q ext out sig (Sending (to_send transform)) w r (taken ++ [jd]) rec)
  | tl_send q ext out sig d drops w r taken rec :
      (length out < q)%nat →
      goes (mkLoop q ext out sig (Sending (d :: drops)) w r taken rec)
           (mkLoop q ext (out ++ [d]) sig (Sending drops) w r taken rec)
  | tl_sent q ext out sig w r taken rec :
      goes (mkLoop q ext out sig (Sending []) w r taken rec)
           (mkLoop q ext out sig AtNeedStop w r taken rec)
  | tl_signal q ext out w r taken rec :
      goes (mkLoop q ext out true Selecting w r taken rec)
           (mkLoop q ext out false PuttingBack w r taken rec)
  | tl_put_back q ext out w r taken rec :
      goes (mkLoop q ext out false PuttingBack w r taken rec)
           (mkLoop q ext out true AtNeedStop w r taken rec)
  | tl_stop q ext out w r taken rec :
      goes (mkLoop q ext out true AtNeedStop w r taken rec)
           (mkLoop q ext out false Gone w r taken rec)
  | tl_go_on q ext out w r taken rec :
      goes (mkLoop q ext out false AtNeedStop w r taken rec)
           (mkLoop q ext out false Selecting w r taken rec).

(** The processor takes a drop: from the buffer, or from the goroutine itself when
    there is no buffer. *)
Inductive consumes : Loop → Loop → Prop :=
  | tl_receive q ext d out sig pl w r taken rec :
      consumes (mkLoop q ext (d :: out) sig pl w r taken rec)
               (mkLoop q ext out sig pl w r taken (rec ++ [d]))
  | tl_hand_over ext sig d drops w r taken rec :
      consumes (mkLoop 0 ext [] sig (Sending (d :: drops)) w r taken rec)
               (mkLoop 0 ext [] sig (Sending drops) w r taken (rec ++ [d])).

Inductive tl_step : Loop → Loop → Prop :=
  | tl_goes l l' : goes l l' → tl_step l l'
  | tl_consumes l l' : consumes l l' → tl_step l l'
  | tl_extract q ext jd out sig pl w r taken rec :
      tl_step (mkLoop q ext out sig pl w r taken rec) (mkLoop q (ext ++ [jd]) out sig pl w r taken rec)
  | tl_Stop q ext out sig pl w r taken rec :
      tl_step (mkLoop q ext out sig pl w r taken rec) (mkLoop q ext out sig pl (S w) r taken rec)
  | tl_Stop_returns q ext out pl w r taken rec :
      tl_step (mkLoop q ext out false pl (S w) r taken rec) (mkLoop q ext out true pl w (S r) taken rec).

(** ** What is sent *)

(** What the goroutine still has to send. *)
Definition unsent (l : Loop) : list TJetDrop :=
  match tl_place l with Sending drops => drops | _ => [] end.

(** [drops] is what [run] sends for a pulse. *)
Definition sent_for (jd : PlatformPulseData) (drops : list TJetDrop) : Prop :=
  ∃ ord transform, Transform ord jd = Some transform ∧ drops = to_send transform.

Definition conserved (l : Loop) : Prop :=
  ∃ rs, Forall2 sent_for (tl_taken l) rs ∧
    tl_received l ++ tl_transformerChan l ++ unsent l = concat rs ∧
    (length (tl_transformerChan l) ≤ tl_queueLen l)%nat.

(** A signal is in its channel, in the goroutine's hand, or has ended it. *)
Definition signals (l : Loop) : nat :=
  (if tl_stopSignal l then 1 else 0) +
  match tl_place l with PuttingBack => 1 | Gone => 1 | _ => 0 end.

Definition loop_ok (l : Loop) : Prop := conserved l ∧ signals l = tl_stopped l.

Lemma goes_ok l l' : loop_ok l → goes l l' → loop_ok l'.
Proof.
  intros [(rs & Hrs & Heq & Hlen) Hsig] Hg. unfold loop_ok, conserved, signals in *.
  destruct Hg as [q jd ext out sig w r taken rec ord t Ht| | | | | |];
    cbn [tl_queueLen tl_transformerChan tl_stopSignal tl_place tl_stopped tl_taken tl_received unsent] in *;
    try (split; [|lia]); try (by exists rs).
  - exists (rs ++ [to_send t]). split_and!; [|rewrite concat_app; cbn; by rewrite <- Heq, !app_nil_r, <- app_assoc|done].
    apply Forall2_app; [done|]. repeat constructor. by exists ord, t.
  - exists rs. rewrite length_app. cbn. split_and!; [done| |lia]. rewrite <- Heq, <- !app_assoc. done.
Qed.

Lemma tl_step_ok l l' : loop_ok l → tl_step l l' → loop_ok l'.
Proof.
  intros Hok Hs. destruct Hs as [l l' Hg|l l' Hc| | |]; [by eapply goes_ok| |done|done|].
  - destruct Hok as [(rs & Hrs & Heq & Hlen) Hsig]. unfold loop_ok, conserved, signals in *.
    destruct Hc; cbn [tl_queueLen tl_transformerChan tl_stopSignal tl_place tl_stopped tl_taken tl_received
      unsent] in *; (split; [|done]); exists rs; (split; [done|]).
    + rewrite <- Heq, <- !app_assoc. cbn in *. split; [done|lia].
    + rewrite <- Heq, <- !app_assoc. cbn in *. split; [done|lia].
  - destruct Hok as [(rs & Hrs & Heq & Hlen) Hsig]. unfold loop_ok, conserved, signals in *. cbn in *.
    split; [by exists rs|lia].
Qed.

Lemma reachable_ok q l : rtc tl_step (NewMainNetTransformer q) l → loop_ok l.
Proof.
  apply (rtc_ind_r (R := tl_step) loop_ok (NewMainNetTransformer q)); [|by intros; eapply tl_step_ok].
  split; [|done]. exists []. split_and!; [constructor|done|cbn; lia].
Qed.

(** The drops come out in the order of the pulses, none lost and none twice: what
    the processor has received, what is in the channel and what the goroutine still
    holds are what [Transform] makes of the pulses taken, one after the other; and
    the channel never holds more than its length. *)
Theorem transformer_conserves q l :
  rtc tl_step (NewMainNetTransformer q) l →
  ∃ rs, Forall2 sent_for (tl_taken l) rs ∧
    tl_received l ++ tl_transformerChan l ++ unsent l = concat rs ∧
    (length (tl_transformerChan l) ≤ tl_queueLen l)%nat.
Proof. intros Hl. by destruct (reachable_ok q l Hl) as [Hc _]. Qed.

(** ** Stopping *)

Definition moves (l l' : Loop) : Prop := goes l l' ∨ consumes l l'.

Lemma goes_once l l' : goes l l' → rtc moves l l'.
Proof. intros Hg. apply rtc_once. by left. Qed.

(** What is being sent gets sent when the processor receives. *)
Lemma sends_all q ext out sig drops w r taken rec :
  ∃ out' rec', rtc moves (mkLoop q ext out sig (Sending drops) w r taken rec)
                         (mkLoop q ext out' sig AtNeedStop w r taken rec').
Proof.
  revert out rec. induction drops as [|d drops IH]; intros out rec.
  { exists out, rec. apply goes_once, tl_sent. }
  assert (∃ rec', rtc moves (mkLoop q ext out sig (Sending (d :: drops)) w r taken rec)
    (mkLoop q ext [] sig (Sending (d :: drops)) w r taken rec')) as [rec1 Hdrain].
  { clear IH. revert rec. induction out as [|x out IHo]; intros rec; [by exists rec|].
    destruct (IHo (rec ++ [x])) as [rec' Hr]. exists rec'.
    eapply rtc_l; [|exact Hr]. right. apply tl_receive. }
  destruct q as [|q].
  - destruct (IH [] (rec1 ++ [d])) as (out' & rec' & Hr). exists out', rec'.
    etrans; [exact Hdrain|]. eapply rtc_l; [|exact Hr]. right. apply tl_hand_over.
  - destruct (IH [d] rec1) as (out' & rec' & Hr). exists out', rec'.
    etrans; [exact Hdrain|]. eapply rtc_l; [|exact Hr]. left.
    apply (tl_send (S q) ext []). cbn. lia.
Qed.

Lemma stops_at_need_stop q ext out w r taken rec :
  rtc moves (mkLoop q ext out true AtNeedStop w r taken rec) (mkLoop q ext out false Gone w r taken rec).
Proof. apply goes_once, tl_stop. Qed.

(** C11: One call of [Stop] that has returned.  The goroutine can end without taking
    another pulse, as long as the processor receives what is still to be sent; and
    it has then sent everything of the pulses it took. *)
Theorem transformer_stops q l :
  rtc tl_step (NewMainNetTransformer q) l → tl_stopped l = 1%nat →
  ∃ l' rs, rtc moves l l' ∧ tl_place l' = Gone ∧ tl_taken l' = tl_taken l ∧
    Forall2 sent_for (tl_taken l) rs ∧ tl_received l' ++ tl_transformerChan l' = concat rs.
Proof.
  intros Hl Hr. pose proof (reachable_ok q l Hl) as Hok.
  assert (∃ l', rtc moves l l' ∧ tl_place l' = Gone ∧ tl_taken l' = tl_taken l) as (l' & Hm & Hgone & Htaken).
  { destruct Hok as [_ Hsig]. unfold signals in Hsig. rewrite Hr in Hsig.
    destruct l as [q' ext out sig pl w r taken rec].
    cbn [tl_stopSignal tl_place tl_stopped tl_taken] in *.
    destruct pl as [|drops| | |], sig; cbn in Hsig; try lia.
    - exists (mkLoop q' ext out false Gone w r taken rec). split; [|by split].
      eapply rtc_l; [left; apply tl_signal|]. eapply rtc_l; [left; apply tl_put_back|].
      apply stops_at_need_stop.
    - destruct (sends_all q' ext out true drops w r taken rec) as (out' & rec' & Hs).
      exists (mkLoop q' ext out' false Gone w r taken rec'). split; [|by split]. etrans; [exact Hs|]. apply stops_at_need_stop.
    - exists (mkLoop q' ext out false Gone w r taken rec). split; [|by split]. eapply rtc_l; [left; apply tl_put_back|]. apply stops_at_need_stop.
    - eexists. split; [apply stops_at_need_stop|by split].
    - eexists. split; [apply rtc_refl|by split]. }
  assert (loop_ok l') as [(rs & Hrs & Heq & _) _].
  { clear -Hok Hm. induction Hm as [|a b c Hab _ IH]; [done|]. apply IH.
    eapply tl_step_ok; [exact Hok|]. destruct Hab; [by apply tl_goes|by apply tl_consumes]. }
  exists l', rs. rewrite Htaken in Hrs. unfold unsent in Heq. rewrite Hgone, app_nil_r in Heq. by split_and!.
Qed.

(** A second call that returns came either after the goroutine was gone, or while
    it held the signal of the first: then it can never put that one back. *)
Theorem transformer_second_stop q l :
  rtc tl_step (NewMainNetTransformer q) l →
  (tl_stopped l ≤ 2)%nat ∧
  (tl_stopped l = 2%nat →
    tl_place l = Gone ∨ ∀ l', rtc tl_step l l' → tl_place l' = PuttingBack).
Proof.
  intros Hl. destruct (reachable_ok q l Hl) as [_ Hsig]. unfold signals in Hsig.
  split; [rewrite <- Hsig; destruct (tl_stopSignal l), (tl_place l); lia|]. intros H2. rewrite H2 in Hsig.
  assert (tl_stopSignal l = true ∧ (tl_place l = PuttingBack ∨ tl_place l = Gone)) as [Hs [Hp|Hp]].
  { destruct (tl_stopSignal l), (tl_place l); cbn in Hsig; try lia; auto. }
  - right. intros l' Hl'. clear Hl Hsig H2.
    enough (tl_stopSignal l' = true ∧ tl_place l' = PuttingBack) by tauto.
    induction Hl' as [|a b c Hab _ IH]; [done|]. apply IH; clear IH.
    + destruct Hab as [a b Hg|a b Hc| | |]; cbn in *; [by destruct Hg|by destruct Hc|done|done|done].
    + destruct Hab as [a b Hg|a b Hc| | |]; cbn in *; [by destruct Hg|by destruct Hc|done|done|done].
  - by left.
Qed.
End loop.

(** ** The theorems at work *)

(** A pulse with one jet goes through; then the transformer is stopped. *)
Definition ex_drops : list TJetDrop :=
  match Transform ex_orders ex_pulse_data with Some (Ok drops) => drops | _ => [] end.

Lemma ex_transform : Transform ex_orders ex_pulse_data = Some (Ok ex_drops).
Proof. unfold ex_drops. destruct (Transform ex_orders ex_pulse_data) as [[ds|]|] eqn:Ht; [done|discriminate Ht..]. Defined.

Definition stopped_loop : Loop :=
  mkLoop 5 [] [] true (Sending ex_drops) 0 1 [ex_pulse_data] [].

Lemma stopped_loop_reachable : rtc tl_step (NewMainNetTransformer 5) stopped_loop.
Proof.
  eapply rtc_l; [apply (tl_extract 5 [] ex_pulse_data)|]. cbn [app].
  eapply rtc_l; [apply tl_goes, (tl_take _ _ _ _ _ _ _ _ _ _ _ ex_transform)|].
  eapply rtc_l; [apply tl_Stop|]. eapply rtc_l; [apply tl_Stop_returns|]. apply rtc_refl.
Defined.

Lemma transformer_conserves_witness :
  ∃ rs, Forall2 sent_for [ex_pulse_data] rs ∧ ex_drops = concat rs.
Proof.
  destruct (transformer_conserves 5 stopped_loop stopped_loop_reachable) as (rs & Hrs & Heq & _).
  exists rs. split; [exact Hrs|exact Heq].
Defined.

Lemma transformer_stops_witness :
  ∃ l', rtc moves stopped_loop l' ∧ tl_place l' = Gone.
Proof.
  destruct (transformer_stops 5 stopped_loop stopped_loop_reachable eq_refl) as (l' & rs & Hm & Hg & _).
  exists l'. split; [exact Hm|exact Hg].
Defined.

(** Two calls of [Stop] in a row can leave the goroutine waiting for ever. *)
Definition held_up : Loop := mkLoop 5 [] [] true PuttingBack 0 2 [] [].
Lemma held_up_reachable : rtc tl_step (NewMainNetTransformer 5) held_up.
Proof.
  eapply rtc_l; [apply tl_Stop|]. eapply rtc_l; [apply tl_Stop_returns|].
  eapply rtc_l; [apply tl_goes, tl_signal|].
  eapply rtc_l; [apply tl_Stop|]. eapply rtc_l; [apply tl_Stop_returns|]. apply rtc_refl.
Defined.
Lemma transformer_second_stop_witness : ∀ l', rtc tl_step held_up l' → tl_place l' = PuttingBack.
Proof.
  destruct (transformer_second_stop 5 held_up held_up_reachable) as [_ [Hg|Hp]];
    [reflexivity|discriminate Hg|exact Hp].
Defined.
