(* ===== verification/TestData.v ===== *)
(** * Test data: [src/testutils/{generators,models,canonical}.go]

    The generators of the tests: records, the lifeline of an object, trees of
    splitting jets, rows of the tables.  They draw from [Random]; the set of the
    jet identifiers handed out, a global of the package, is part of the source.
    A generator that waits for a jet identifier not yet used takes the number of
    its attempts as [fuel]. *)

From S2P Require Import Prelude GoStd Platform RefPlatform Types Models Converter Gorm RefDb Interfaces Random Transformer TransformerProofs.

(** A source with a global of the program beside it. *)
Definition with_global {G X A} (f : G → A * G) (s : G * X) : A * (G * X) :=
  let '(a, g') := f s.1 in (a, (g', s.2)).

#[export] Instance random_pair {X} `{Random G} : Random (G * X) := {|
  Now_Unix := with_global Now_Unix;
  crand_Read l := with_global (crand_Read l);
  rand_Intn n := with_global (rand_Intn n);
  rand_Int63n n := with_global (rand_Int63n n);
  uuid_NewV4 := with_global uuid_NewV4;
  gen_ID := with_global gen_ID;
  gen_IDWithPulse pn := with_global (gen_IDWithPulse pn);
  gen_JetID := with_global gen_JetID;
  gen_Reference := with_global gen_Reference;
  gen_PulseNumber := with_global gen_PulseNumber;
|}.

#[export] Instance random_pair_laws {X} `{RandomLaws G} : RandomLaws (G * X).
Proof.
  constructor; intros.
  - pose proof (Intn_range n g.1 ltac:(done)). cbn. unfold with_global. by destruct (rand_Intn n g.1).
  - pose proof (Int63n_range n g.1 ltac:(done)). cbn. unfold with_global. by destruct (rand_Int63n n g.1).
  - pose proof (IDWithPulse_pulse pn g.1 ltac:(done)). cbn. unfold with_global.
    by destruct (gen_IDWithPulse pn g.1).
  - pose proof (PulseNumber_range g.1). cbn. unfold with_global. by destruct (gen_PulseNumber g.1).
Qed.

(** The further parts of the platform's libraries the generators use: the zero
    values of its structs, the marshalling of a record, the jet tree, pulse
    numbers and time. *)
Class TestPlatform `{Platform} := {
  ID_zero : ID;
  Reference_zero : Reference;
  JetID_zero : JetID;
  NewID : Z → bytes → ID;                  (* insolar.NewID *)
  Marshal : Z → ID → ID → JetID → Virtual → result bytes;
  NewJetID : Z → bytes → JetID;            (* insolar.NewJetID *)
  jet_Siblings : JetID → JetID * JetID;    (* jet.Siblings: the two children *)
  PulseNumber_Prev : Z → Z → Z;            (* PulseNumber.Prev(delta) *)
  PulseNumber_Next : Z → Z → Z;            (* PulseNumber.Next(delta) *)
  AsApproximateTime : Z → result Z;        (* PulseNumber.AsApproximateTime(), in seconds *)
}.

(** Documented: the children of a jet have its text and one more bit, and an
    identifier belongs to the pulse it is made for. *)
Class TestPlatformLaws `{TestPlatform} := {
  Siblings_text : ∀ id s, JetIDToString id = Some s → (String.length s < 216)%nat →
    JetIDToString (jet_Siblings id).1 = Some (s +:+ "0") ∧
    JetIDToString (jet_Siblings id).2 = Some (s +:+ "1");
  NewID_pulse : ∀ pn hash, MinTimePulse ≤ pn < 2 ^ 30 → ID_Pulse (NewID pn hash) = pn;
}.

(** ** Records *)

Section generators.
Context `{HP : Platform, !TestPlatform, !Random G}.

(** The source with [uniqueJetID]. *)
Abbreviation Src := (G * gset Z)%type.

(** An [exporter.Record] with its raw data. *)
Definition new_record (n : Z) (id obj : ID) (jet : JetID) (v : Virtual) (from : option Z)
  : ExporterRecord := mkExporterRecord n id obj jet v from (Marshal n id obj jet v).

Definition EOF : error := ErrMsg "EOF".

Definition RandNumberOverRange (min max : Z) : Gen Src Z :=
  n ← Int63n (max - min + 1); mret (n + min).

Definition GenerateRandBytes : Gen Src bytes := draw uuid_NewV4.

Definition letterRunes : string := "abcdefghijklmnopqrstuvwxyzABCDEFGHIJKLMNOPQRSTUVWXYZ".

Fixpoint random_letters (n : nat) (s : string) : Gen Src string :=
  match n with
  | O => mret s
  | S n =>
      i ← Intn (Z.of_nat (String.length letterRunes));
      c ← must (String.get (Z.to_nat i) letterRunes);
      random_letters n (s +:+ String c "")
  end.
Definition RandomString (n : nat) : Gen Src string := random_letters n "".

(** Whether the identifier is new; the zero one never is. *)
Definition saveUniqueJetID (jetID : JetID) : Gen Src bool :=
  id ← must (BigEndian_Uint64 (Prefix jetID));
  if decide (id = 0) then mret false
  else λ '(g, uniqueJetID),
    if decide (id ∈ uniqueJetID) then Some (false, (g, uniqueJetID))
    else Some (true, (g, {[id]} ∪ uniqueJetID)).

Fixpoint GenerateUniqueJetID (fuel : nat) : Gen Src JetID :=
  match fuel with
  | O => must None
  | S fuel =>
      jetID ← draw gen_JetID;
      saved ← saveUniqueJetID jetID;
      if saved : bool then mret jetID else GenerateUniqueJetID fuel
  end.

(** The variables of the closure [GenerateRecords] returns. *)
Record Closure := mkClosure { cl_pn : Z; cl_cnt : Z; cl_eof : bool }.

(** One call of that closure. *)
Definition generateRecords_call (fuel : nat) (batchSize : Z) (c : Closure)
  : Gen Src (result ExporterRecord * Closure) :=
  stop ← (if cl_eof c then mret false
          else if decide (batchSize = 0) then must None   (* division by zero *)
          else mret (bool_decide (Z.rem (cl_cnt c) batchSize = 0)));
  if stop : bool then mret (Err EOF, mkClosure (cl_pn c) (cl_cnt c) true)
  else
    let cnt := cl_cnt c + 1 in
    _ ← RandNumberOverRange 100 500;
    _ ← RandNumberOverRange 100 500;
    request ← draw gen_Reference;
    id ← draw (gen_IDWithPulse (cl_pn c));
    objectID ← draw gen_ID;
    jetID ← GenerateUniqueJetID fuel;
    _ ← RandNumberOverRange 100 500;
    mret (Ok (new_record (uint32 cnt) id objectID jetID
                (Virtual_Amend Reference_zero request ID_zero []) (Some (cl_pn c))),
          mkClosure (cl_pn c) cnt false).

Definition GenerateRecords : Gen Src Closure :=
  pn ← draw gen_PulseNumber; mret (mkClosure pn 0 true).

(** The loop of [GenerateRecordsSilence]: [turns] calls at most, [count] records
    still to come. *)
Fixpoint silence_loop (fuel turns : nat) (batchSize : Z) (count : nat) (c : Closure)
  (res : list ExporterRecord) : Gen Src (list ExporterRecord) :=
  match count with
  | O => mret res
  | S count' =>
      match turns with
      | O => must None
      | S turns =>
          '(r, c) ← generateRecords_call fuel batchSize c;
          match r with
          | Err _ => silence_loop fuel turns batchSize count c res
          | Ok record => silence_loop fuel turns batchSize count' c (res ++ [record])
          end
      end
  end.

(** At most every second call reports the end of a batch. *)
Definition GenerateRecordsSilence (fuel : nat) (count : Z) : Gen Src (list ExporterRecord) :=
  if decide (count < 0) then must None
  else
    f ← GenerateRecords;
    silence_loop fuel (2 * Z.to_nat count) count (Z.to_nat count) f [].

(** [GenerateRecordsSilence(1)[0]]. *)
Definition any_record (fuel : nat) : Gen Src ExporterRecord :=
  rs ← GenerateRecordsSilence fuel 1; must (head rs).

(** The generators of one record overwrite its identifiers and its content. *)
Definition overwritten (r : ExporterRecord) (id objectID : ID) (v : Virtual) : ExporterRecord :=
  new_record (er_RecordNumber r) id objectID (er_JetID r) v None.
Definition set_JetID (jetID : JetID) (r : ExporterRecord) : ExporterRecord :=
  new_record (er_RecordNumber r) (er_ID r) (er_ObjectID r) jetID (er_Virtual r)
    (er_ShouldIterateFrom r).

Definition GenerateRequestRecord (fuel : nat) (pulse : Z) (objectID : ID) : Gen Src ExporterRecord :=
  r ← any_record fuel;
  id ← draw (gen_IDWithPulse pulse);
  method ← RandomString 20;
  mret (overwritten r id objectID (Virtual_IncomingRequest method)).

Definition GenerateVirtualActivateRecord (fuel : nat) (pulse : Z) (objectID requestID : ID)
  : Gen Src ExporterRecord :=
  r ← any_record fuel;
  id ← draw (gen_IDWithPulse pulse);
  image ← draw gen_Reference;
  mret (overwritten r id objectID (Virtual_Activate image (NewReference requestID) [])).

Definition GenerateVirtualRequestRecord (fuel : nat) (pulse : Z) (objectID : ID)
  : Gen Src ExporterRecord :=
  r ← any_record fuel;
  id ← draw (gen_IDWithPulse pulse);
  mret (overwritten r id objectID (Virtual_IncomingRequest "")).

Definition GenerateVirtualResultRecord (fuel : nat) (pulse : Z) (objectID requestID : ID)
  : Gen Src ExporterRecord :=
  r ← any_record fuel;
  id ← draw (gen_IDWithPulse pulse);
  object ← draw gen_ID;
  mret (overwritten r id objectID (Virtual_Result object [])).

Definition GenerateVirtualAmendRecord (fuel : nat) (pulse : Z) (objectID prevStateID : ID)
  : Gen Src ExporterRecord :=
  r ← any_record fuel;
  id ← draw (gen_IDWithPulse pulse);
  image ← draw gen_Reference;
  mret (overwritten r id objectID (Virtual_Amend image Reference_zero prevStateID [])).

Definition GenerateVirtualDeactivateRecord (fuel : nat) (pulse : Z) (objectID prevStateID : ID)
  : Gen Src ExporterRecord :=
  r ← any_record fuel;
  id ← draw (gen_IDWithPulse pulse);
  mret (overwritten r id objectID (Virtual_Deactivate prevStateID)).

Definition GenerateRecordInNextPulse (fuel : nat) (prevPulse : Z) : Gen Src ExporterRecord :=
  r ← any_record fuel;
  id ← draw (gen_IDWithPulse (uint32 (prevPulse + 10)));
  mret (overwritten r id (er_ObjectID r) (er_Virtual r)).

Fixpoint linked_amends (fuel n : nat) (pulse : Z) (jetID : JetID) (objectID prevStateID : ID)
  (acc : list ExporterRecord) : Gen Src (list ExporterRecord) :=
  match n with
  | O => mret acc
  | S n =>
      r ← GenerateVirtualAmendRecord fuel pulse objectID prevStateID;
      let r := set_JetID jetID r in
      linked_amends fuel n pulse jetID objectID (er_ID r) (acc ++ [r])
  end.

(** [make] panics for a negative length. *)
Definition GenerateVirtualAmendRecordsLinkedArray (fuel : nat) (pulse : Z) (jetID : JetID)
  (objectID prevStateID : ID) (recordsCount : Z) : Gen Src (list ExporterRecord) :=
  if decide (recordsCount < 0) then must None
  else linked_amends fuel (Z.to_nat recordsCount) pulse jetID objectID prevStateID [].

(** ** The lifeline of an object *)

(** The records of a pulse; a nil pointer is [None]. *)
Record RecordsByPulse := mkRecordsByPulse { Pn : Z; Records : list (option ExporterRecord) }.
Record ObjectLifeline := mkObjectLifeline {
  StateRecords : list RecordsByPulse;
  SideRecords : list RecordsByPulse;
  ObjID : ID;
}.

Definition GetStateRecords (l : ObjectLifeline) : list (option ExporterRecord) :=
  StateRecords l ≫= Records.
Definition GetAllRecords (l : ObjectLifeline) : list (option ExporterRecord) :=
  GetStateRecords l ++ (SideRecords l ≫= Records).

(** Slices: [make([]*T, n)], [l[i] = x], [l[i]], [copy(dst, src)]; [None] is the
    panic for a length or an index out of range. *)
Definition make_slice {A} (n : Z) : option (list (option A)) :=
  if decide (0 ≤ n) then Some (replicate (Z.to_nat n) None) else None.
Definition set_at {A} (i : Z) (x : A) (l : list A) : option (list A) :=
  if decide (0 ≤ i < Z.of_nat (length l)) then Some (<[Z.to_nat i := x]> l) else None.
Definition get_at {A} (i : Z) (l : list A) : option A :=
  if decide (0 ≤ i) then l !! Z.to_nat i else None.
Definition copy {A} (dst src : list A) : list A :=
  take (length dst) src ++ drop (length src) dst.

(** The variables of the loop of [GenerateObjectLifeline]; [stateRecords] is
    filled in order. *)
Record LifelineState := mkLifelineState {
  ls_prevState : ID;
  ls_pn : Z;
  ls_stateRecords : list RecordsByPulse;
  ls_sideRecords : list RecordsByPulse;
}.

(** The records of the first pulse: the activation and its amends, with the
    request beside them. *)
Definition first_pulse (fuel : nat) (pn : Z) (jetID : JetID) (objectID : ID) (recordsInPulse : Z)
  (records : list (option ExporterRecord))
  : Gen Src (ExporterRecord * ID * list ExporterRecord * list (option ExporterRecord)) :=
  request ← GenerateRequestRecord fuel pn objectID;
  activate ← GenerateVirtualActivateRecord fuel pn objectID (er_ID request);
  let activate := set_JetID jetID activate in
  records ← must (set_at 0 (Some activate) records);
  amends ← GenerateVirtualAmendRecordsLinkedArray fuel pn jetID objectID (er_ID activate)
             (recordsInPulse - 1);
  mret (request, er_ID activate, amends,
        take 1 records ++ copy (drop 1 records) (Some <$> amends)).

(** The end of the last pulse: its last record becomes a deactivation. *)
Definition last_record (fuel : nat) (pn : Z) (jetID : JetID) (objectID : ID)
  (amends : list ExporterRecord) (records : list (option ExporterRecord))
  : Gen Src (ID * list (option ExporterRecord)) :=
  prev ← must (get_at (Z.of_nat (length amends) - 2) amends);
  deactivate ← GenerateVirtualDeactivateRecord fuel pn objectID (er_ID prev);
  let deactivate := set_JetID jetID deactivate in
  records ← must (set_at (Z.of_nat (length records) - 1) (Some deactivate) records);
  mret (er_ID prev, records).

(** The two branches of a turn, for the first pulse and for the others. *)
Definition turn_records (fuel : nat) (pn : Z) (jetID : JetID) (objectID : ID) (recordsInPulse i : Z)
  (st : LifelineState) (records : list (option ExporterRecord))
  : Gen Src (ID * list RecordsByPulse * list ExporterRecord * list (option ExporterRecord)) :=
  if decide (i = 0) then
    '(request, activateID, amends, records) ←
      first_pulse fuel pn jetID objectID recordsInPulse records;
    mret (activateID, [mkRecordsByPulse pn [Some request]], amends, records)
  else
    amends ← GenerateVirtualAmendRecordsLinkedArray fuel pn jetID objectID (ls_prevState st)
               recordsInPulse;
    mret (ls_prevState st, ls_sideRecords st, amends, copy records (Some <$> amends)).

Definition lifeline_turn (fuel : nat) (pulseCount recordsInPulse : Z) (objectID : ID) (i : Z)
  (st : LifelineState) : Gen Src LifelineState :=
  jetID ← GenerateUniqueJetID fuel;
  let pn := uint32 (ls_pn st + 10) in
  records ← must (make_slice recordsInPulse);
  '(prevState, sideRecords, amends, records) ←
    turn_records fuel pn jetID objectID recordsInPulse i st records;
  let prevState := match last amends with Some r => er_ID r | None => prevState end in
  '(prevState, records) ←
    (if decide (i = pulseCount - 1 ∧ 1 < recordsInPulse)
     then last_record fuel pn jetID objectID amends records
     else mret (prevState, records));
  mret (mkLifelineState prevState pn (ls_stateRecords st ++ [mkRecordsByPulse pn records])
          sideRecords).

Fixpoint lifeline_loop (fuel : nat) (pulseCount recordsInPulse : Z) (objectID : ID)
  (turns : list Z) (st : LifelineState) : Gen Src LifelineState :=
  match turns with
  | [] => mret st
  | i :: turns =>
      st ← lifeline_turn fuel pulseCount recordsInPulse objectID i st;
      lifeline_loop fuel pulseCount recordsInPulse objectID turns st
  end.

Definition GenerateObjectLifeline (fuel : nat) (pulseCount recordsInPulse : Z)
  : Gen Src ObjectLifeline :=
  objectID ← draw gen_ID;
  if decide (pulseCount < 0) then must None
  else
    pn ← draw gen_PulseNumber;
    st ← lifeline_loop fuel pulseCount recordsInPulse objectID (seqZ 0 pulseCount)
           (mkLifelineState ID_zero pn [] [mkRecordsByPulse 0 []]);
    mret (mkObjectLifeline (ls_stateRecords st) (ls_sideRecords st) objectID).
End generators.

(** ** Trees of splitting jets *)

Section trees.
Context `{HP : Platform, !TestPlatform, !Random G}.
Abbreviation Src := (G * gset Z)%type.

(** By pulse and jet: the hash of the parent and the jet's own. *)
Abbreviation JetTree := (gmap Z (gmap JetID (list bytes))).

(** The two loops after the recursive calls: the jets of a pulse are added to
    those it has already. *)
Definition merge_tree (result l : JetTree) : JetTree :=
  union_with (λ jds j, Some (j ∪ jds)) result l.

Fixpoint getSiblings (depth : nat) (parent : JetID) (parentPn : Z) (hashes : list bytes)
  : Gen Src JetTree :=
  match depth with
  | O => mret ∅
  | S depth =>
      let '(leftJet, rightJet) := jet_Siblings parent in
      let pn := uint32 (parentPn + 10) in
      prevHash ← must (hashes !! 1%nat);
      leftHash ← GenerateRandBytes;
      rightHash ← GenerateRandBytes;
      (* the second assignment wins should both jets be one *)
      let jds := <[rightJet := [prevHash; rightHash]]> {[leftJet := [prevHash; leftHash]]} in
      leftHashes ← must (jds !! leftJet);
      l ← getSiblings depth leftJet pn leftHashes;
      let result := merge_tree {[pn := jds]} l in
      rightHashes ← must (result !! pn ≫= (.!! rightJet));
      r ← getSiblings depth rightJet pn rightHashes;
      mret (merge_tree result r)
  end.

(** The loop over root jets until one is new; [fuel] stands for its time limit,
    after which the empty map is returned. *)
Fixpoint GenerateJetIDTree (fuel : nat) (pn : Z) (depth : nat) : Gen Src JetTree :=
  match fuel with
  | O => mret ∅
  | S fuel =>
      length ← RandNumberOverRange 15 40;
      id ← draw (gen_IDWithPulse pn);
      let rootJetID := NewJetID length (ID_Bytes id) in
      saved ← saveUniqueJetID rootJetID;
      if saved : bool then
        rootHash ← GenerateRandBytes;
        childs ← getSiblings depth rootJetID pn [[]; rootHash];
        mret (childs ∪ {[pn := {[rootJetID := [[]; rootHash]]}]})
      else GenerateJetIDTree fuel pn depth
  end.
End trees.

(** ** Rows of the tables *)

Section rows.
Context `{HP : Platform, !TestPlatform, !Random G}.
Abbreviation Src := (G * gset Z)%type.

Definition pulseDelta : Z := 10.

Definition InitRecordDB (jetDrop : JetDrop) : Gen Src MRecord :=
  reference ← draw gen_ID;
  objectReference ← draw gen_ID;
  prototypeReference ← draw gen_ID;
  payload ← GenerateRandBytes;
  prevRecordReference ← draw gen_ID;
  hash ← GenerateRandBytes;
  rawData ← GenerateRandBytes;
  mret (mkMRecord (ID_Bytes reference) State (ID_Bytes objectReference)
          (ID_Bytes prototypeReference) payload (ID_Bytes prevRecordReference) hash rawData
          (jd_JetID jetDrop) (jd_PulseNumber jetDrop) 1 (jd_Timestamp jetDrop)).

Definition InitJetDropDB (fuel : nat) (pulse : Pulse) : Gen Src JetDrop :=
  id ← GenerateUniqueJetID fuel;
  jetID ← must (JetIDToString id);
  firstPrevHash ← GenerateRandBytes;
  secondPrevHash ← GenerateRandBytes;
  hash ← GenerateRandBytes;
  rawData ← GenerateRandBytes;
  mret (mkJetDrop (p_PulseNumber pulse) jetID firstPrevHash secondPrevHash hash rawData
          (p_Timestamp pulse) 0).

(** The row of the pulse with the number [pulseNumber]. *)
Definition pulse_row (pulseNumber : Z) : result Pulse :=
  timestamp ← AsApproximateTime pulseNumber;
  Ok (mkPulse pulseNumber (PulseNumber_Prev pulseNumber pulseDelta)
        (PulseNumber_Next pulseNumber pulseDelta) false false timestamp 0 0).
Definition InitPulseDB : Gen Src (result Pulse) :=
  pulseNumber ← draw gen_PulseNumber; mret (pulse_row pulseNumber).
Definition InitNextPulseDB (pn : Z) : result Pulse := pulse_row (uint32 (pn + pulseDelta)).

(** [require.NoError(t, err)] ends the test. *)
Definition require_NoError {A} (r : result A) : option A :=
  match r with Ok a => Some a | Err _ => None end.

(** The pulses of a test, each after the one before it. *)
Fixpoint next_pulses (n : nat) (pn : Z) : option (list Pulse) :=
  match n with
  | O => Some []
  | S n =>
      pulse ← require_NoError (InitNextPulseDB pn);
      pulses ← next_pulses n (p_PulseNumber pulse);
      Some (pulse :: pulses)
  end.
(** Without a pulse, the write to [pulses[0]] panics. *)
Definition chained_pulses (pulseCount : nat) : Gen Src (list Pulse) :=
  pulse ← InitPulseDB;
  pulse ← must (require_NoError pulse);
  match pulseCount with
  | O => must None
  | S n => pulses ← must (next_pulses n (p_PulseNumber pulse)); mret (pulse :: pulses)
  end.

Definition set_jd_JetID (jetID : string) (j : JetDrop) : JetDrop :=
  mkJetDrop (jd_PulseNumber j) jetID (jd_FirstPrevHash j) (jd_SecondPrevHash j) (jd_Hash j)
    (jd_RawData j) (jd_Timestamp j) (jd_RecordAmount j).
Definition set_jd_RecordAmount (n : Z) (j : JetDrop) : JetDrop :=
  mkJetDrop (jd_PulseNumber j) (jd_JetID j) (jd_FirstPrevHash j) (jd_SecondPrevHash j) (jd_Hash j)
    (jd_RawData j) (jd_Timestamp j) n.

(** A drop of one jet for each of [pulses]. *)
Fixpoint drops_of_jet (fuel : nat) (jID : string) (pulses : list Pulse) : Gen Src (list JetDrop) :=
  match pulses with
  | [] => mret []
  | pulse :: pulses =>
      jd ← InitJetDropDB fuel pulse;
      jds ← drops_of_jet fuel jID pulses;
      mret (set_jd_JetID jID jd :: jds)
  end.

(** The code makes pulse and drop of a turn together; the pulses after the first
    draw nothing. *)
Definition GenerateJetDropsWithSomeJetID (fuel jCount : nat)
  : Gen Src (string * list JetDrop * list Pulse) :=
  pulses ← chained_pulses jCount;
  match pulses with
  | [] => must None
  | pulse :: rest =>
      jDrop ← InitJetDropDB fuel pulse;
      drops ← drops_of_jet fuel (jd_JetID jDrop) rest;
      mret (jd_JetID jDrop, jDrop :: drops, pulses)
  end.

(** The descendants of a jet down to [depth], as drops of one pulse. *)
Fixpoint createChildren (fuel depth : nat) (pulse : Pulse) (jetID : string)
  : Gen Src (list JetDrop) :=
  match depth with
  | O => mret []
  | S depth =>
      let '(leftID, rightID) := (jetID +:+ "0", jetID +:+ "1") in
      jDropLeft ← InitJetDropDB fuel pulse;
      jDropRight ← InitJetDropDB fuel pulse;
      lefts ← createChildren fuel depth pulse leftID;
      rights ← createChildren fuel depth pulse rightID;
      mret ([set_jd_JetID leftID jDropLeft; set_jd_JetID rightID jDropRight] ++ lefts ++ rights)
  end.

(** [jDCount] jets in a pulse, each with its descendants. *)
Fixpoint split_jets (fuel jDCount depth : nat) (pulse : Pulse) : Gen Src (list JetDrop) :=
  match jDCount with
  | O => mret []
  | S n =>
      jDrop ← InitJetDropDB fuel pulse;
      children ← createChildren fuel depth pulse (jd_JetID jDrop);
      rest ← split_jets fuel n depth pulse;
      mret (jDrop :: children ++ rest)
  end.
Fixpoint split_pulses (fuel jDCount depth : nat) (pulses : list Pulse) : Gen Src (list JetDrop) :=
  match pulses with
  | [] => mret []
  | pulse :: pulses =>
      drops ← split_jets fuel jDCount depth pulse;
      rest ← split_pulses fuel jDCount depth pulses;
      mret (drops ++ rest)
  end.
Definition GenerateJetDropsWithSplit (fuel pulseCount jDCount depth : nat)
  : Gen Src (list JetDrop * list Pulse) :=
  pulses ← chained_pulses pulseCount;
  drops ← split_pulses fuel jDCount depth pulses;
  mret (drops, pulses).
End rows.
