(* ===== verification/RefTestData.v ===== *)
(** * A concrete platform for the test data

    The further operations of [TestPlatform] for the platform of [RefPlatform.v]:
    a child of a jet is one bit deeper, with that bit set or cleared. *)

From S2P Require Import Prelude GoStd Platform RefPlatform Types Models Converter Gorm RefDb Interfaces Random Transformer TransformerProofs TestData.

(** Bit [k] of a byte, the least significant one being 0. *)
Definition byte_set (b : bool) (k : nat) (x : Byte.byte) : Byte.byte :=
  let n := Byte.to_N x in
  default x (Byte.of_N (if b then N.setbit n (N.of_nat k) else N.clearbit n (N.of_nat k))).

(** Bit [n] of a byte sequence, counted as in the prefix of a jet. *)
Definition set_bit (b : bool) (n : nat) (p : bytes) : bytes :=
  alter (byte_set b (7 - n `mod` 8)) (n `div` 8)%nat p.

Definition all_bytes : list Byte.byte := (λ n, default Byte.x00 (Byte.of_nat n)) <$> seq 0 256.

Lemma elem_of_all_bytes x : x ∈ all_bytes.
Proof.
  apply list_elem_of_fmap. exists (Byte.to_nat x). split.
  - by rewrite Byte.of_to_nat.
  - apply elem_of_seq. pose proof (Byte.to_nat_bounded x). lia.
Qed.

Definition byte_bit (x : Byte.byte) (j : nat) : bool :=
  Z.testbit (Z.of_N (Byte.to_N x)) (Z.of_nat j).

Lemma byte_set_bit b k j x :
  (k < 8)%nat → (j < 8)%nat →
  byte_bit (byte_set b k x) j = if decide (j = k) then b else byte_bit x j.
Proof.
  intros Hk Hj.
  assert (Forall (λ x, Forall (λ b, Forall (λ k, Forall (λ j,
    byte_bit (byte_set b k x) j = if decide (j = k) then b else byte_bit x j)
    (seq 0 8)) (seq 0 8)) [true; false]) all_bytes) as Hall
    by (apply (bool_decide_unpack _); vm_compute; exact I).
  rewrite Forall_forall in Hall. specialize (Hall x (elem_of_all_bytes x)).
  rewrite Forall_forall in Hall. specialize (Hall b ltac:(destruct b; set_solver)).
  rewrite Forall_forall in Hall. specialize (Hall k ltac:(apply elem_of_seq; lia)).
  rewrite Forall_forall in Hall. apply Hall, elem_of_seq. lia.
Qed.

Lemma prefix_bit_byte p i :
  prefix_bit p i = match p !! (i `div` 8)%nat with
                   | Some x => byte_bit x (7 - i `mod` 8)
                   | None => false
                   end.
Proof.
  unfold prefix_bit, byte_bit.
  change 8 with (Z.of_nat 8). rewrite <- Nat2Z.inj_div, <- Nat2Z.inj_mod, Nat2Z.id.
  destruct (p !! _); [|done]. pose proof (Nat.mod_upper_bound i 8). f_equal. lia.
Qed.

Lemma set_bit_bit b n p i :
  (n < 8 * length p)%nat →
  prefix_bit (set_bit b n p) i = if decide (i = n) then b else prefix_bit p i.
Proof.
  intros Hn. rewrite !prefix_bit_byte. unfold set_bit.
  assert (i = 8 * (i `div` 8) + i `mod` 8)%nat as Hi by (apply Nat.div_mod; lia).
  assert (n = 8 * (n `div` 8) + n `mod` 8)%nat as Hn' by (apply Nat.div_mod; lia).
  pose proof (Nat.mod_upper_bound i 8). pose proof (Nat.mod_upper_bound n 8).
  destruct (decide (i `div` 8 = n `div` 8)%nat) as [Hd|Hd].
  - rewrite Hd, list_lookup_alter_eq.
    destruct (lookup_lt_is_Some_2 p (n `div` 8)%nat) as [x ->]; [lia|].
    cbn [fmap option_fmap option_map]. rewrite byte_set_bit by lia.
    do 2 case_decide; lia || done.
  - rewrite list_lookup_alter_ne by done. rewrite decide_False; [done|]. intros ->. done.
Qed.

Lemma length_set_bit b n p : length (set_bit b n p) = length p.
Proof. apply length_alter. Qed.

Lemma bits_text_snoc p from n :
  bits_text p from (S n) = bits_text p from n +:+ String (bit_char (prefix_bit p (from + n))) "".
Proof.
  revert from. induction n as [|n IH]; intros from; [cbn; by rewrite Nat.add_0_r|].
  change (bits_text p from (S (S n)))
    with (String (bit_char (prefix_bit p from)) (bits_text p (S from) (S n))).
  rewrite IH. cbn [bits_text]. rewrite str_app_cons. by replace (from + S n)%nat with (S from + n)%nat by lia.
Qed.

Lemma bits_text_ext p q from n :
  (∀ i, (from ≤ i < from + n)%nat → prefix_bit p i = prefix_bit q i) →
  bits_text p from n = bits_text q from n.
Proof.
  revert from. induction n as [|n IH]; intros from Hpq; cbn; [done|].
  rewrite (Hpq from) by lia. f_equal. apply IH. intros i Hi. apply Hpq. lia.
Qed.

(** ** The instance *)

Definition ref_child (b : bool) (id : JetID) : JetID :=
  let n := Depth id in toy_jet (n + 1) (set_bit b (Z.to_nat n) (Prefix id)).

#[export] Instance ref_test_platform : TestPlatform := {|
  ID_zero := [] : ID;
  Reference_zero := [] : Reference;
  JetID_zero := toy_jet 0 [];
  NewID pn hash := pulse_bytes pn ++ hash;
  Marshal n id obj _ _ := Ok (id : bytes);
  NewJetID n b := toy_jet n b;
  jet_Siblings id := (ref_child false id, ref_child true id);
  PulseNumber_Prev n delta := n - delta;
  PulseNumber_Next n delta := n + delta;
  AsApproximateTime n := Ok n;
|}.

Lemma ref_child_text b (id : JetID) s :
  JetIDToString id = Some s → (String.length s < 216)%nat →
  JetIDToString (ref_child b id) = Some (s +:+ String (bit_char b) "").
Proof.
  rewrite !JetIDToString_bits. intros Hs.
  assert (s = bits_text (Prefix id) 0 (Z.to_nat (Depth id))) as -> by congruence. clear Hs.
  rewrite bits_text_length. intros Hd.
  pose proof (Depth_range id) as Hr. pose proof (Prefix_length id) as Hl.
  set (n := Z.to_nat (Depth id)) in *.
  assert (Depth (ref_child b id) = Depth id + 1) as ->.
  { change (Depth (ref_child b id)) with (Z.max 0 (Z.min 216 (Depth id + 1))). lia. }
  assert (Prefix (ref_child b id) = set_bit b n (Prefix id)) as ->.
  { change (Prefix (ref_child b id)) with (take 27 (set_bit b n (Prefix id) ++ replicate 27 Byte.x00)).
    rewrite take_app_le, take_ge by (rewrite length_set_bit; lia). done. }
  replace (Z.to_nat (Depth id + 1)) with (S n) by lia.
  rewrite bits_text_snoc, set_bit_bit, decide_True by lia. do 2 f_equal.
  apply bits_text_ext. intros i Hi. rewrite set_bit_bit, decide_False by lia. done.
Qed.

#[export] Instance ref_test_platform_laws : TestPlatformLaws.
Proof.
  constructor.
  - intros id s Hs Hlen. split; [by apply (ref_child_text false id s)|by apply (ref_child_text true id s)].
  - intros pn hash Hpn. apply pulse_of_bytes. cbn in Hpn. lia.
Qed.
