(* ===== verification/TestDataProofs.v ===== *)
(** * What the test data looks like

    A generated lifeline is a history that the transformer puts back in order from
    any shuffle, and the sizes for which one can be generated are known. *)

From S2P Require Import Prelude GoStd Platform RefPlatform Types Models Converter Gorm RefDb Interfaces Random Transformer TransformerProofs TestData RefTestData.

(** ** Histories *)

Section histories.
Context `{HP : Platform}.
Implicit Types r : ExporterRecord.

(** [v] is a state after the state [prev], the first one if there is none. *)
Definition state_after (prev : option ID) (v : Virtual) : Prop :=
  match v with
  | Virtual_Activate _ _ _ => prev = None
  | Virtual_Amend _ _ p _ | Virtual_Deactivate p => prev = Some p
  | _ => False
  end.

(** Consecutive states of the object [obj], the first one after [prev]. *)
Fixpoint history (obj : ID) (prev : option ID) (rs : list ExporterRecord) : Prop :=
  match rs with
  | [] => True
  | r :: rs =>
      er_ObjectID r = obj ∧ state_after prev (er_Virtual r) ∧ history obj (Some (er_ID r)) rs
  end.

(** The state the next one comes after. *)
Definition latest (prev : option ID) (rs : list ExporterRecord) : option ID :=
  match last rs with Some r => Some (er_ID r) | None => prev end.

Lemma latest_cons prev r rs : latest prev (r :: rs) = latest (Some (er_ID r)) rs.
Proof. unfold latest. rewrite last_cons. by destruct (last rs). Qed.

Lemma latest_app prev a b : latest prev (a ++ b) = latest (latest prev a) b.
Proof. revert prev. induction a as [|r a IH]; intros prev; [done|]. cbn [app]. by rewrite !latest_cons. Qed.

Lemma history_app obj prev a b :
  history obj prev (a ++ b) ↔ history obj prev a ∧ history obj (latest prev a) b.
Proof.
  revert prev. induction a as [|r a IH]; intros prev; cbn; [tauto|].
  rewrite latest_cons, IH. tauto.
Qed.

(** What the transformer makes of a history: a chain of states of one object.
    Only at the genesis pulse the object is another one. *)
Definition canonical_of (r : ExporterRecord) (c : TRecord) : Prop :=
  transferToCanonicalRecord r = Ok c.

Lemma canonical_state obj prev r c :
  er_ObjectID r = obj → state_after prev (er_Virtual r) → ID_Pulse (er_ID r) ≠ MinTimePulse →
  canonical_of r c →
  tr_Type c = STATE ∧ tr_ObjectReference c = ID_Bytes obj ∧ tr_Ref c = ID_Bytes (er_ID r) ∧
  ∀ p, prev = Some p → tr_PrevRecordReference c = ID_Bytes p.
Proof.
  intros <- Hst Hp. unfold canonical_of, transferToCanonicalRecord.
  rewrite bool_decide_eq_false_2 by done. intros (raw & _ & Hc)%result_bind_Ok.
  destruct (er_Virtual r); cbn in Hst; try done; simplify_eq; cbn; split_and!; try done; naive_solver.
Qed.

Lemma history_linked obj prev rs cs :
  history obj prev rs → Forall (λ r, ID_Pulse (er_ID r) ≠ MinTimePulse) rs →
  Forall2 canonical_of rs cs →
  linked cs ∧ Forall (λ c, tr_Type c = STATE ∧ tr_ObjectReference c = ID_Bytes obj) cs ∧
  ∀ p c, prev = Some p → head cs = Some c → tr_PrevRecordReference c = ID_Bytes p.
Proof.
  intros Hh Hp Hcs. revert prev Hh Hp. induction Hcs as [|r c rs cs Hc Hcs IH]; intros prev; cbn.
  { intros _ _. split_and!; [by intros i a b|constructor|done]. }
  intros (Ho & Hst & Hh) [Hpr Hp]%Forall_cons.
  destruct (canonical_state _ _ _ _ Ho Hst Hpr Hc) as (Ht & Hobj & Href & Hprev).
  destruct (IH _ Hh Hp) as (Hl & Hall & Hhd). split_and!.
  - intros [|i] a b Ha Hb; cbn in Ha, Hb; [|by eapply Hl].
    injection Ha as <-. unfold prev_id, ref_id. f_equal. rewrite Href. eapply Hhd; [done|].
    by destruct cs.
  - by constructor.
  - intros p c' Hpr' [= <-]. by apply Hprev.
Qed.

(** The references of the states differ, and the first one's predecessor is not
    among them: true of identifiers drawn at random, almost surely. *)
Definition fresh (cs : list TRecord) : Prop :=
  NoDup (ref_id <$> cs) ∧ ∀ h, head cs = Some h → prev_id h ∉ ref_id <$> cs.

(** [sortRecords] restores [rs] from any shuffle of its canonical records. *)
Definition sorts (rs : list ExporterRecord) : Prop :=
  ∀ cs recs os o,
    Forall (λ r, ID_Pulse (er_ID r) ≠ MinTimePulse) rs → Forall2 canonical_of rs cs → fresh cs →
    recs ≡ₚ cs → orders_ok recs os o → sortRecords os o recs = Ok cs.

Lemma sortRecords_nil os o : orders_ok [] os o → sortRecords os o [] = Ok [].
Proof.
  intros [Hos _]. cbn in Hos. rewrite dom_empty_L, elements_empty in Hos.
  by apply Permutation_nil_r in Hos as ->.
Qed.

Lemma history_sorts obj prev rs : history obj prev rs → sorts rs.
Proof.
  intros Hh cs recs os o Hp Hcs [Hnd Hhd] Hperm Hord.
  destruct (history_linked _ _ _ _ Hh Hp Hcs) as (Hl & Hall & _).
  destruct (decide (cs = [])) as [->|Hne].
  { apply Permutation_nil_r in Hperm as ->. by apply sortRecords_nil. }
  apply (sort_one_object os o recs cs (restoreInsolarID (ID_Bytes obj))); try done.
  eapply Forall_impl; [exact Hall|]. intros c [Ht Ho]. split; [done|]. unfold obj_id. by rewrite Ho.
Qed.
End histories.

(** ** The lifeline *)

Section lifeline.
Context `{HP : Platform, !TestPlatform, !Random G}.
Abbreviation Src := (G * gset Z)%type.
Implicit Types (r : ExporterRecord) (g : Src).

Lemma activate_Ok fuel pulse obj request g r g' jetID :
  GenerateVirtualActivateRecord fuel pulse obj request g = Some (r, g') →
  er_ObjectID (set_JetID jetID r) = obj ∧ state_after None (er_Virtual (set_JetID jetID r)).
Proof.
  intros (r0 & g1 & _ & Hg)%Gen_bind_Some. apply Gen_bind_Some in Hg as (id & g2 & _ & Hg).
  by apply Gen_bind_Some in Hg as (im & g3 & _ & [[= <-] _]%Gen_ret_Some).
Qed.

Lemma amend_Ok fuel pulse obj prev g r g' jetID :
  GenerateVirtualAmendRecord fuel pulse obj prev g = Some (r, g') →
  er_ObjectID (set_JetID jetID r) = obj ∧ state_after (Some prev) (er_Virtual (set_JetID jetID r)).
Proof.
  intros (r0 & g1 & _ & Hg)%Gen_bind_Some. apply Gen_bind_Some in Hg as (id & g2 & _ & Hg).
  by apply Gen_bind_Some in Hg as (im & g3 & _ & [[= <-] _]%Gen_ret_Some).
Qed.

Lemma deactivate_Ok fuel pulse obj prev g r g' jetID :
  GenerateVirtualDeactivateRecord fuel pulse obj prev g = Some (r, g') →
  er_ObjectID (set_JetID jetID r) = obj ∧ state_after (Some prev) (er_Virtual (set_JetID jetID r)).
Proof.
  intros (r0 & g1 & _ & Hg)%Gen_bind_Some.
  by apply Gen_bind_Some in Hg as (id & g2 & _ & [[= <-] _]%Gen_ret_Some).
Qed.

Lemma linked_amends_Ok fuel n pulse jetID obj prev acc g rs g' :
  linked_amends fuel n pulse jetID obj prev acc g = Some (rs, g') →
  ∃ new, rs = acc ++ new ∧ length new = n ∧ history obj (Some prev) new.
Proof.
  revert prev acc g. induction n as [|n IH]; intros prev acc g.
  { intros [<- _]%Gen_ret_Some. exists []. by rewrite app_nil_r. }
  intros (r & g1 & Hr & Hl)%Gen_bind_Some. apply IH in Hl as (new & -> & Hn & Hh).
  exists (set_JetID jetID r :: new). rewrite <- (assoc_L (++)).
  split_and!; [done|cbn; lia|]. cbn [history]. by destruct (amend_Ok _ _ _ _ _ _ _ jetID Hr).
Qed.

Lemma amends_Ok fuel pulse jetID obj prev n g rs g' :
  GenerateVirtualAmendRecordsLinkedArray fuel pulse jetID obj prev n g = Some (rs, g') →
  0 ≤ n ∧ Z.of_nat (length rs) = n ∧ history obj (Some prev) rs.
Proof.
  unfold GenerateVirtualAmendRecordsLinkedArray. case_decide; [done|].
  intros (new & -> & Hn & Hh)%linked_amends_Ok. split_and!; [lia|cbn; lia|done].
Qed.

Lemma copy_same {A} (dst src : list A) : length dst = length src → copy dst src = src.
Proof. intros Hl. unfold copy. rewrite Hl, take_ge, drop_ge, app_nil_r by lia. done. Qed.

Lemma set_at_0 {A} (x : A) l l' : set_at 0 x l = Some l' → l' = x :: drop 1 l.
Proof. unfold set_at. case_decide; [|done]. intros [= <-]. destruct l; [cbn in *; lia|done]. Qed.

Lemma copy_tail {A} (x : A) l src :
  length l = S (length src) → take 1 (x :: drop 1 l) ++ copy (drop 1 (x :: drop 1 l)) src = x :: src.
Proof. intros Hl. destruct l as [|y l]; [done|]. injection Hl as Hl. cbn [drop take app]. by rewrite copy_same. Qed.

Lemma first_pulse_Ok fuel pn jetID obj n g request aid amends records g' :
  first_pulse fuel pn jetID obj n (replicate (Z.to_nat n) None) g
    = Some ((request, aid, amends, records), g') →
  ∃ rs, records = Some <$> rs ∧ Z.of_nat (length rs) = n ∧ history obj None rs ∧
    ∃ a, rs = a :: amends ∧ aid = er_ID a.
Proof.
  intros (rq & g1 & _ & Hg)%Gen_bind_Some. apply Gen_bind_Some in Hg as (a & g2 & Ha & Hg).
  apply Gen_bind_Some in Hg as (rec & g3 & [Hs%set_at_0 _]%must_Some & Hg).
  apply Gen_bind_Some in Hg as (am & g4 & Ham%amends_Ok & [[= <- <- <- <-] _]%Gen_ret_Some).
  destruct Ham as (Hn & Hlen & Hh). exists (set_JetID jetID a :: am). subst rec. split_and!.
  - rewrite copy_tail; [done|]. rewrite length_replicate, length_fmap. lia.
  - cbn. lia.
  - cbn [history]. by destruct (activate_Ok _ _ _ _ _ _ _ jetID Ha).
  - by eexists.
Qed.

(** The last record of the last pulse is replaced. *)
Lemma last_record_Ok fuel pn jetID obj amends rs before prev g id records g' :
  last_record fuel pn jetID obj amends (Some <$> rs) g = Some ((id, records), g') →
  rs = before ++ amends → history obj prev rs →
  ∃ rs', records = Some <$> rs' ∧ length rs' = length rs ∧ history obj prev rs'.
Proof.
  intros (p & g1 & [Hp _]%must_Some & Hg)%Gen_bind_Some ->.
  apply Gen_bind_Some in Hg as (d & g2 & Hd & Hg).
  apply Gen_bind_Some in Hg as (rec & g3 & [Hs _]%must_Some & [[= _ <-] _]%Gen_ret_Some).
  unfold get_at in Hp. case_decide as Hlen; [|done].
  destruct amends as [|x am _] using rev_ind; [cbn in Hlen; lia|].
  destruct am as [|y am _] using rev_ind; [cbn in Hlen; lia|].
  rewrite !length_app in Hp, Hlen. cbn in Hp, Hlen.
  replace (Z.to_nat (Z.of_nat (length am + 1 + 1) - 2)) with (length am) in Hp by lia.
  rewrite lookup_app_l, list_lookup_middle in Hp by (rewrite ?length_app; cbn; lia || done).
  injection Hp as ->.
  unfold set_at in Hs. case_decide; [|done]. injection Hs as <-.
  rewrite (assoc_L (++)). set (init := before ++ am ++ [p]).
  replace (Z.to_nat (Z.of_nat (length (Some <$> init ++ [x])) - 1)) with (length (Some <$> init) + 0)%nat
    by (rewrite !length_fmap, length_app; cbn; lia).
  rewrite fmap_app, insert_app_r. cbn [fmap list_fmap insert list_insert].
  intros [Hi _]%history_app. exists (init ++ [set_JetID jetID d]).
  rewrite fmap_app, !length_app. split_and!; [done|done|].
  apply history_app. split; [done|]. unfold init. rewrite (assoc_L (++)), latest_app.
  cbn [history]. by destruct (deactivate_Ok _ _ _ _ _ _ _ jetID Hd).
Qed.

(** After some turns: the pulses hold [rss], together a history from the
    activation on, whose latest state is remembered until the last turn. *)
Record lifeline_inv (obj : ID) (n : Z) (st : LifelineState) (rss : list (list ExporterRecord))
  : Prop := {
  li_records : Records <$> ls_stateRecords st = fmap Some <$> rss;
  li_lengths : Forall (λ rs, Z.of_nat (length rs) = n) rss;
  li_history : history obj None (concat rss);
}.
Definition remembers (st : LifelineState) (rss : list (list ExporterRecord)) : Prop :=
  rss ≠ [] → latest None (concat rss) = Some (ls_prevState st).

(** The part of a turn before its last two lines. *)
Lemma turn_records_Ok fuel pn jetID obj n i st g prevState side amends records g' rss :
  turn_records fuel pn jetID obj n i st (replicate (Z.to_nat n) None) g
    = Some ((prevState, side, amends, records), g') →
  remembers st rss → (i = 0 ↔ rss = []) →
  ∃ before rs, rs = before ++ amends ∧ records = Some <$> rs ∧ Z.of_nat (length rs) = n ∧
    history obj (latest None (concat rss)) rs ∧
    latest (latest None (concat rss)) rs
    = Some (match last amends with Some r => er_ID r | None => prevState end).
Proof.
  unfold turn_records. intros Hg Hrem Hi. case_decide as H0.
  - apply Gen_bind_Some in Hg as ([[[rq aid] am] rec] & g1 & Hf & [[= <- _ <- <-] _]%Gen_ret_Some).
    apply first_pulse_Ok in Hf as (rs & -> & Hlen & Hh & a & -> & ->).
    rewrite (proj1 Hi H0). exists [a], (a :: am). split_and!; [done..|].
    rewrite latest_cons. unfold latest. by destruct (last am).
  - apply Gen_bind_Some in Hg as (am & g1 & Ham%amends_Ok & [[= <- _ <- <-] _]%Gen_ret_Some).
    destruct Ham as (Hn & Hlen & Hh). rewrite Hrem by tauto. exists [], am.
    split_and!; [done|apply copy_same|done..|].
    + rewrite length_replicate, length_fmap. lia.
    + unfold latest. by destruct (last am).
Qed.

Lemma lifeline_turn_Ok fuel pulseCount n obj i st g st' g' rss :
  lifeline_turn fuel pulseCount n obj i st g = Some (st', g') →
  lifeline_inv obj n st rss → remembers st rss → (i = 0 ↔ rss = []) →
  ∃ rs, lifeline_inv obj n st' (rss ++ [rs]) ∧
        (i ≠ pulseCount - 1 → remembers st' (rss ++ [rs])).
Proof.
  intros (jetID & g1 & _ & Hg)%Gen_bind_Some [Hrecs Hlens Hhist] Hrem Hi.
  apply Gen_bind_Some in Hg as (rec0 & g2 & [Hm _]%must_Some & Hg).
  unfold make_slice in Hm. destruct (decide (0 ≤ n)); [|done]. injection Hm as <-.
  apply Gen_bind_Some in Hg as ([[[prev side] am] rec] & g3 & Hr & Hg).
  eapply turn_records_Ok in Hr as (before & rs & Hrs & -> & Hlen & Hh & Hlat); [|done..].
  assert (∀ rs', length rs' = length rs → history obj (latest None (concat rss)) rs' →
    ∀ prevState side', lifeline_inv obj n (mkLifelineState prevState (uint32 (ls_pn st + 10))
      (ls_stateRecords st ++ [mkRecordsByPulse (uint32 (ls_pn st + 10)) (Some <$> rs')]) side')
      (rss ++ [rs'])) as Hinv.
  { intros rs' Hlen' Hh' ps sd. constructor; cbn.
    - by rewrite !fmap_app, Hrecs.
    - apply Forall_app. split; [done|]. repeat constructor. lia.
    - rewrite concat_app. cbn. rewrite app_nil_r. by apply history_app. }
  apply Gen_bind_Some in Hg as ([prev' rec'] & g4 & Hl & [<- _]%Gen_ret_Some).
  case_decide as Hlast.
  - eapply last_record_Ok in Hl as (rs' & -> & Hlen' & Hh'); [|done..].
    exists rs'. split; [by apply Hinv|]. tauto.
  - apply Gen_ret_Some in Hl as [[= <- <-] _]. exists rs. split; [by apply Hinv|].
    intros _ _. rewrite concat_app, latest_app. cbn. by rewrite app_nil_r.
Qed.

Lemma lifeline_loop_Ok fuel pulseCount n obj i st g st' g' rss :
  lifeline_loop fuel pulseCount n obj (seqZ i (pulseCount - i)) st g = Some (st', g') →
  lifeline_inv obj n st rss → remembers st rss → i = Z.of_nat (length rss) → i ≤ pulseCount →
  ∃ rss', lifeline_inv obj n st' rss' ∧ Z.of_nat (length rss') = pulseCount.
Proof.
  remember (Z.to_nat (pulseCount - i)) as k eqn:Hk.
  revert i st g rss Hk. induction k as [|k IH]; intros i st g rss Hk Hl Hinv Hrem Hlen Hle.
  - replace (pulseCount - i) with 0 in Hl by lia. apply Gen_ret_Some in Hl as [<- _].
    exists rss. split; [done|lia].
  - rewrite seqZ_cons in Hl by lia.
    apply Gen_bind_Some in Hl as (st1 & g1 & Ht & Hl).
    apply (lifeline_turn_Ok _ _ _ _ _ _ _ _ _ rss) in Ht as (rs & Hinv' & Hrem'); [|done..|].
    2: { rewrite Hlen. destruct rss; cbn; split; done || lia. }
    replace (Z.pred (pulseCount - i)) with (pulseCount - Z.succ i) in Hl by lia.
    destruct (decide (i = pulseCount - 1)) as [Hi|Hi].
    + replace (pulseCount - Z.succ i) with 0 in Hl by lia. apply Gen_ret_Some in Hl as [<- _].
      exists (rss ++ [rs]). split; [done|]. rewrite length_app. cbn. lia.
    + eapply (IH (Z.succ i)); [lia|exact Hl|exact Hinv'|by apply Hrem'| |lia].
      rewrite length_app. cbn. lia.
Qed.

Lemma history_segment obj prev rss rs :
  history obj prev (concat rss) → rs ∈ rss → ∃ prev', history obj prev' rs.
Proof.
  revert prev. induction rss as [|rs' rss IH]; intros prev; cbn; [intros _ []%elem_of_nil|].
  intros [Hh Hr]%history_app [->|Hin]%elem_of_cons; [by exists prev|by eapply IH].
Qed.

Lemma fmap_records (ps : list RecordsByPulse) rss :
  Records <$> ps = fmap Some <$> rss → (ps ≫= Records) = Some <$> concat rss.
Proof.
  revert rss. induction ps as [|p ps IH]; intros [|rs rss] Heq; try done.
  cbn in Heq. injection Heq as Hp Hps. cbn. by rewrite Hp, fmap_app, (IH rss).
Qed.

(** Generated lifelines are histories.  A lifeline that is generated has the
    asked number of pulses with the asked number of records each and no nil among
    them; over all pulses they are consecutive states of its object, from the
    activation on.  The records of each pulse, however shuffled, come out of the
    sorting of the transformer in the order they were generated in, if the
    identifiers drawn for them differ and the pulse is not the genesis one. *)
Theorem GenerateObjectLifeline_sorts fuel pulseCount recordsInPulse l :
  can_return (GenerateObjectLifeline (G := G) fuel pulseCount recordsInPulse) l →
  ∃ rss, Records <$> StateRecords l = fmap Some <$> rss ∧
    Z.of_nat (length rss) = pulseCount ∧
    Forall (λ rs, Z.of_nat (length rs) = recordsInPulse) rss ∧
    GetStateRecords l = Some <$> concat rss ∧
    history (ObjID l) None (concat rss) ∧ Forall sorts rss.
Proof.
  intros (g & g' & (obj & g1 & _ & Hg)%Gen_bind_Some).
  destruct (decide (pulseCount < 0)); [done|].
  apply Gen_bind_Some in Hg as (pn & g2 & _ & Hg).
  apply Gen_bind_Some in Hg as (st & g3 & Hl & [<- _]%Gen_ret_Some).
  rewrite <- (Z.sub_0_r pulseCount) in Hl at 2.
  apply (lifeline_loop_Ok _ _ _ _ _ _ _ _ _ []) in Hl as (rss & [Hr Hn Hh] & Hlen); [|by constructor|by intros ?|done|lia].
  exists rss. split_and!; [done..|by apply fmap_records|done|].
  apply Forall_forall. intros rs Hrs. destruct (history_segment _ _ _ _ Hh Hrs) as [prev Hp].
  by eapply history_sorts.
Qed.

Lemma first_turn_panics fuel pulseCount n obj st g :
  n ≤ 0 ∨ n = 2 ∧ pulseCount = 1 → lifeline_turn fuel pulseCount n obj 0 st g = None.
Proof.
  intros Hn. destruct (lifeline_turn _ _ _ _ _ _ _) as [[st' g']|] eqn:Ht; [exfalso|done].
  apply Gen_bind_Some in Ht as (jetID & g1 & _ & Hg).
  apply Gen_bind_Some in Hg as (rec0 & g2 & [Hm _]%must_Some & Hg).
  unfold make_slice in Hm. destruct (decide (0 ≤ n)); [|done]. injection Hm as <-.
  apply Gen_bind_Some in Hg as ([[[prev side] am] rec] & g3 & Hr & Hg).
  apply Gen_bind_Some in Hr as ([[[rq aid] am'] rec'] & g4 & Hf & [[= _ _ -> ->] _]%Gen_ret_Some).
  apply first_pulse_Ok in Hf as (rs & _ & Hlen & _ & a & -> & _). cbn in Hlen.
  destruct Hn as [Hn|[-> ->]]; [lia|]. apply Gen_bind_Some in Hg as ([pr rc] & g5 & Hl & _).
  apply Gen_bind_Some in Hl as (p & g6 & [Hp _]%must_Some & _).
  unfold get_at in Hp. by rewrite decide_False in Hp by lia.
Qed.
End lifeline.

(** ** Enough random data *)

Section supply.
Context `{HP : Platform, !TestPlatform, !Random G, !RandomLaws G}.
Abbreviation Src := (G * gset Z)%type.

(** A draw of anything but a jet identifier. *)
Inductive other_draw : Src → Src → Prop :=
  | od_ID s : other_draw s (gen_ID s).2
  | od_IDWithPulse pn s : other_draw s (gen_IDWithPulse pn s).2
  | od_Reference s : other_draw s (gen_Reference s).2
  | od_PulseNumber s : other_draw s (gen_PulseNumber s).2
  | od_Intn n s : other_draw s (rand_Intn n s).2
  | od_Int63n n s : other_draw s (rand_Int63n n s).2
  | od_NewV4 s : other_draw s (uuid_NewV4 s).2.

(** From [s] on, [k] jet identifiers can be had with [fuel] attempts for each,
    whatever else is drawn in between. *)
Fixpoint supply (fuel k : nat) (s : Src) : Prop :=
  match k with
  | O => True
  | S k => ∀ s1, rtc other_draw s s1 →
             ∃ id s2, GenerateUniqueJetID fuel s1 = Some (id, s2) ∧ supply fuel k s2
  end.

(** [m] returns when [c] identifiers can be had, and leaves the others. *)
Definition lasts {A} (fuel c : nat) (m : Gen Src A) : Prop :=
  ∀ k s, supply fuel (c + k) s → ∃ a s', m s = Some (a, s') ∧ supply fuel k s'.

Lemma supply_draw fuel k s s1 : other_draw s s1 → supply fuel k s → supply fuel k s1.
Proof. destruct k as [|k]; [done|]. intros Hd Hs s2 H2. apply Hs. by eapply rtc_l. Qed.

Lemma supply_less fuel k k' s : (k ≤ k')%nat → supply fuel k' s → supply fuel k s.
Proof.
  revert k s. induction k' as [|k' IH]; intros k s Hk Hs; destruct k as [|k]; try done; [lia|].
  intros s1 H1. destruct (Hs s1 H1) as (id & s2 & Hg & H2). exists id, s2. split; [done|].
  apply IH; [lia|done].
Qed.

Lemma lasts_more {A} fuel c c' (m : Gen Src A) : (c ≤ c')%nat → lasts fuel c m → lasts fuel c' m.
Proof. intros Hc Hm k s Hs. apply Hm. eapply supply_less; [|exact Hs]. lia. Qed.

Lemma lasts_bind {A B} fuel c c' (m : Gen Src A) (f : A → Gen Src B) :
  lasts fuel c m → (∀ a, can_return m a → lasts fuel c' (f a)) → lasts fuel (c + c') (m ≫= f).
Proof.
  intros Hm Hf k s Hs. destruct (Hm (c' + k)%nat s) as (a & s1 & Ha & H1).
  { by rewrite Nat.add_assoc. }
  destruct (Hf a ltac:(by exists s, s1) k s1 H1) as (b & s2 & Hb & H2).
  exists b, s2. split; [|done]. apply Gen_bind_Some. by exists a, s1.
Qed.

Lemma lasts_ret {A} fuel (a : A) : lasts fuel 0 (mret a).
Proof. intros k s Hs. by exists a, s. Qed.

Lemma lasts_must {A} fuel (o : option A) : is_Some o → lasts fuel 0 (must o).
Proof. intros [a ->] k s Hs. by exists a, s. Qed.

Lemma lasts_draw {A} fuel (f : Src → A * Src) :
  (∀ s, other_draw s (f s).2) → lasts fuel 0 (draw f).
Proof.
  intros Hf k s Hs. exists (f s).1, (f s).2. split; [by unfold draw; destruct (f s)|].
  by eapply supply_draw.
Qed.

Lemma lasts_jet fuel : lasts fuel 1 (GenerateUniqueJetID fuel).
Proof. intros k s Hs. apply Hs. done. Qed.

Lemma lasts_Intn fuel n : 0 < n → lasts fuel 0 (Intn (G := Src) n).
Proof. intros Hn. unfold Intn. rewrite decide_True by done. apply lasts_draw, od_Intn. Qed.
Lemma lasts_Int63n fuel n : 0 < n → lasts fuel 0 (Int63n (G := Src) n).
Proof. intros Hn. unfold Int63n. rewrite decide_True by done. apply lasts_draw, od_Int63n. Qed.
End supply.

#[export] Hint Resolve lasts_ret lasts_draw lasts_jet lasts_Intn lasts_Int63n : gen.
#[export] Hint Constructors other_draw : gen.

Section returns.
Context `{HP : Platform, !TestPlatform, !Random G, !RandomLaws G}.
Abbreviation Src := (G * gset Z)%type.

(** Steps that draw no jet identifier, and the rest of the generator. *)
Lemma lasts_free {A B} fuel c (m : Gen Src A) (f : A → Gen Src B) :
  lasts fuel 0 m → (∀ a, can_return m a → lasts fuel c (f a)) → lasts fuel c (m ≫= f).
Proof. apply (lasts_bind fuel 0 c). Qed.

Lemma lasts_number fuel min max :
  min ≤ max → lasts fuel 0 (RandNumberOverRange (G := G) min max).
Proof. intros Hm. apply lasts_free; [apply lasts_Int63n; lia|]. auto with gen. Qed.

Lemma get_is_Some j s : (j < String.length s)%nat → is_Some (String.get j s).
Proof.
  revert j. induction s as [|a s IH]; intros [|j] Hj; cbn in *; try lia; [by eexists|].
  apply IH. lia.
Qed.

Lemma lasts_letters fuel n s : lasts fuel 0 (random_letters (G := G) n s).
Proof.
  revert s. induction n as [|n IH]; intros s; [apply lasts_ret|].
  apply lasts_free; [by apply lasts_Intn|]. intros i (s0 & s1 & Hi%Intn_Some).
  apply lasts_free; [|by intros]. apply lasts_must, get_is_Some. lia.
Qed.

(** A record costs one jet identifier. *)
Lemma lasts_call fuel batchSize c :
  cl_eof c = true → lasts fuel 1 (generateRecords_call (G := G) fuel batchSize c).
Proof.
  intros Heof. unfold generateRecords_call. rewrite Heof.
  apply lasts_free; [apply lasts_ret|]. intros stop (s & s' & [<- _]%Gen_ret_Some).
  do 2 (apply lasts_free; [by apply lasts_number|]; intros ? _).
  do 3 (apply lasts_free; [auto with gen|]; intros ? _).
  apply (lasts_bind fuel 1 0); [apply lasts_jet|]. intros jet _.
  apply lasts_free; [by apply lasts_number|]. auto with gen.
Qed.

Lemma call_Ok fuel batchSize c r c' :
  cl_eof c = true → can_return (generateRecords_call (G := G) fuel batchSize c) (r, c') → is_ok r = true.
Proof.
  intros Heof (s & s' & Hs). unfold generateRecords_call in Hs. rewrite Heof in Hs.
  apply Gen_bind_Some in Hs as (stop & s1 & [<- _]%Gen_ret_Some & Hs).
  do 7 apply Gen_bind_Some in Hs as (? & ? & _ & Hs).
  by apply Gen_ret_Some in Hs as [[= <- _] _].
Qed.

Lemma lasts_record fuel : lasts fuel 1 (any_record (G := G) fuel).
Proof.
  unfold any_record, GenerateRecordsSilence. rewrite decide_False by lia.
  apply (lasts_bind fuel 1 0).
  - apply lasts_free; [apply lasts_free; [auto with gen|]; auto with gen|].
    intros c (s & s' & (pn & s1 & _ & [<- _]%Gen_ret_Some)%Gen_bind_Some).
    apply (lasts_bind fuel 1 0); [by apply lasts_call|].
    intros [[r|err] c'] Hc; apply call_Ok in Hc; try done. apply lasts_ret.
  - intros rs (s & s' & (c & s1 & Hc & Hs)%Gen_bind_Some).
    apply Gen_bind_Some in Hc as (pn & s2 & _ & [<- _]%Gen_ret_Some).
    apply Gen_bind_Some in Hs as ([r c'] & s3 & Hr & Hs).
    assert (is_ok r = true) as Hok by (eapply call_Ok; [|by eexists _, _]; done).
    destruct r; [|done]. apply Gen_ret_Some in Hs as [<- _]. by apply lasts_must.
Qed.

(** The generators of single records. *)
Lemma lasts_overwritten fuel (rest : ExporterRecord → Gen Src ExporterRecord) :
  (∀ r, lasts fuel 0 (rest r)) → lasts fuel 1 (r ← any_record fuel; rest r).
Proof. intros Hr. apply (lasts_bind fuel 1 0); [apply lasts_record|by intros]. Qed.

Ltac lasts_draws := repeat (apply lasts_free; [auto with gen|]; intros ? _); auto with gen.

Lemma lasts_request fuel pulse obj : lasts fuel 1 (GenerateRequestRecord (G := G) fuel pulse obj).
Proof.
  apply lasts_overwritten. intros r. apply lasts_free; [auto with gen|]. intros id _.
  apply lasts_free; [apply lasts_letters|]. auto with gen.
Qed.
Lemma lasts_activate fuel pulse obj rq :
  lasts fuel 1 (GenerateVirtualActivateRecord (G := G) fuel pulse obj rq).
Proof. apply lasts_overwritten. intros r. lasts_draws. Qed.
Lemma lasts_amend fuel pulse obj prev :
  lasts fuel 1 (GenerateVirtualAmendRecord (G := G) fuel pulse obj prev).
Proof. apply lasts_overwritten. intros r. lasts_draws. Qed.
Lemma lasts_deactivate fuel pulse obj prev :
  lasts fuel 1 (GenerateVirtualDeactivateRecord (G := G) fuel pulse obj prev).
Proof. apply lasts_overwritten. intros r. lasts_draws. Qed.

Lemma lasts_amends fuel pulse jetID obj prev n :
  0 ≤ n → lasts fuel (Z.to_nat n)
    (GenerateVirtualAmendRecordsLinkedArray (G := G) fuel pulse jetID obj prev n).
Proof.
  intros Hn. unfold GenerateVirtualAmendRecordsLinkedArray. rewrite decide_False by lia.
  generalize (Z.to_nat n) as k, (@nil ExporterRecord) as acc. intros k. revert prev.
  induction k as [|k IH]; intros prev acc; [apply lasts_ret|].
  apply (lasts_bind fuel 1 k); [apply lasts_amend|]. intros r _. apply IH.
Qed.

Lemma lasts_first_pulse fuel pn jetID obj n :
  1 ≤ n → lasts fuel (Z.to_nat n + 1)
    (first_pulse (G := G) fuel pn jetID obj n (replicate (Z.to_nat n) None)).
Proof.
  intros Hn. apply (lasts_more fuel (1 + (1 + (Z.to_nat (n - 1) + 0)))); [lia|].
  apply lasts_bind; [apply lasts_request|]. intros request _.
  apply lasts_bind; [apply lasts_activate|]. intros activate _.
  apply lasts_free.
  { apply lasts_must. unfold set_at. rewrite decide_True by (rewrite length_replicate; lia). by eexists. }
  intros records _. apply lasts_bind; [apply lasts_amends; lia|]. auto with gen.
Qed.

Lemma lasts_last_record fuel pn jetID obj amends records :
  (2 ≤ length amends)%nat → records ≠ [] →
  lasts fuel 1 (last_record (G := G) fuel pn jetID obj amends records).
Proof.
  intros Ham Hrec. apply lasts_free.
  { apply lasts_must. unfold get_at. rewrite decide_True by lia. apply lookup_lt_is_Some. lia. }
  intros p _. apply (lasts_bind fuel 1 0); [apply lasts_deactivate|]. intros d _.
  apply lasts_free; [|auto with gen]. apply lasts_must. unfold set_at.
  rewrite decide_True; [by eexists|]. destruct records; [done|cbn; lia].
Qed.

(** The sizes for which a lifeline can be generated. *)
Definition sizes_ok (pulseCount n : Z) : Prop :=
  0 ≤ pulseCount ∧ (0 < pulseCount → 1 ≤ n) ∧ ¬ (pulseCount = 1 ∧ n = 2).

Lemma lasts_turn_records fuel pn jetID obj n i st :
  1 ≤ n → lasts fuel (Z.to_nat n + 1)
    (turn_records (G := G) fuel pn jetID obj n i st (replicate (Z.to_nat n) None)).
Proof.
  intros Hn. unfold turn_records. case_decide.
  - apply (lasts_more fuel (Z.to_nat n + 1 + 0)); [lia|].
    apply lasts_bind; [by apply lasts_first_pulse|]. intros [[[rq aid] am] rec] _. apply lasts_ret.
  - apply (lasts_more fuel (Z.to_nat n + 0)); [lia|].
    apply lasts_bind; [apply lasts_amends; lia|]. auto with gen.
Qed.

(** How many amends a pulse has. *)
Lemma turn_amends fuel pn jetID obj n i st prev side am rec :
  can_return (turn_records (G := G) fuel pn jetID obj n i st (replicate (Z.to_nat n) None))
    (prev, side, am, rec) →
  Z.of_nat (length am) = (if decide (i = 0) then n - 1 else n) ∧ Z.of_nat (length rec) = n.
Proof.
  intros (s & s' & Hs). unfold turn_records in Hs. case_decide.
  - apply Gen_bind_Some in Hs as ([[[rq aid] am'] rec'] & s1 & Hf & [[= _ _ <- <-] _]%Gen_ret_Some).
    apply first_pulse_Ok in Hf as (rs & -> & Hlen & _ & a & -> & _). rewrite length_fmap. cbn in *. lia.
  - apply Gen_bind_Some in Hs as (am' & s1 & (? & Hlen & _)%amends_Ok & [[= _ _ <- <-] _]%Gen_ret_Some).
    split; [done|]. rewrite copy_same, length_fmap by (rewrite length_replicate, length_fmap; lia). done.
Qed.

Lemma lasts_turn fuel pulseCount n obj i st :
  sizes_ok pulseCount n → 0 ≤ i < pulseCount →
  lasts fuel (Z.to_nat n + 3) (lifeline_turn (G := G) fuel pulseCount n obj i st).
Proof.
  intros (_ & Hn & Hbad) Hi. specialize (Hn ltac:(lia)).
  apply (lasts_more fuel (1 + (Z.to_nat n + 1 + (1 + 0)))); [lia|].
  apply lasts_bind; [apply lasts_jet|]. intros jetID _. apply lasts_free.
  { apply lasts_must. unfold make_slice. rewrite decide_True by lia. by eexists. }
  intros rec0 (s & s' & [Hm _]%must_Some). unfold make_slice in Hm.
  rewrite decide_True in Hm by lia. injection Hm as <-.
  apply lasts_bind; [by apply lasts_turn_records|]. intros [[[prev side] am] rec] [Ham Hrec]%turn_amends.
  apply lasts_bind; [|intros [? ?] _; apply lasts_ret].
  destruct (decide (i = pulseCount - 1 ∧ 1 < n)); [|apply (lasts_more fuel 0); auto with gen].
  apply lasts_last_record; [case_decide; lia|]. intros ->. cbn in Hrec. lia.
Qed.

Lemma lasts_loop fuel pulseCount n obj i st :
  sizes_ok pulseCount n → 0 ≤ i ≤ pulseCount →
  lasts fuel (Z.to_nat (pulseCount - i) * (Z.to_nat n + 3))
    (lifeline_loop (G := G) fuel pulseCount n obj (seqZ i (pulseCount - i)) st).
Proof.
  intros Hok. remember (Z.to_nat (pulseCount - i)) as k eqn:Hk. revert i st Hk.
  induction k as [|k IH]; intros i st Hk Hi.
  - replace (pulseCount - i) with 0 by lia. apply lasts_ret.
  - rewrite seqZ_cons by lia. cbn [Nat.mul]. apply lasts_bind; [apply lasts_turn; [done|lia]|].
    intros st1 _. replace (Z.pred (pulseCount - i)) with (pulseCount - Z.succ i) by lia.
    apply IH; lia.
Qed.

(** For which sizes a lifeline can be generated.  With enough random data the
    generator returns exactly if the number of pulses is not negative, every pulse
    has a record, and it is not one pulse of two records: there the first pulse
    has one amend only, and the deactivation looks for the last but one. *)
Theorem GenerateObjectLifeline_returns fuel pulseCount n s :
  supply fuel (Z.to_nat pulseCount * (Z.to_nat n + 3)) s →
  is_Some (GenerateObjectLifeline (G := G) fuel pulseCount n s) ↔ sizes_ok pulseCount n.
Proof.
  intros Hs. split.
  - intros [[l s'] Hl]. apply Gen_bind_Some in Hl as (obj & s1 & _ & Hl).
    destruct (decide (pulseCount < 0)); [done|].
    apply Gen_bind_Some in Hl as (pn & s2 & _ & Hl).
    apply Gen_bind_Some in Hl as (st & s3 & Hl & _).
    destruct (decide (pulseCount = 0)) as [->|H0]; [split; lia|].
    rewrite seqZ_cons in Hl by lia. apply Gen_bind_Some in Hl as (st1 & s4 & Ht & _).
    destruct (decide (n ≤ 0 ∨ n = 2 ∧ pulseCount = 1)) as [Hbad|Hgood].
    + by rewrite first_turn_panics in Ht.
    + split; [lia|]. split; lia.
  - intros Hok. destruct (lasts_free fuel (Z.to_nat pulseCount * (Z.to_nat n + 3)) (draw (gen_ID (G := Src)))
      (λ objectID, if decide (pulseCount < 0) then must None else
         pn ← draw gen_PulseNumber;
         st ← lifeline_loop fuel pulseCount n objectID (seqZ 0 pulseCount)
                (mkLifelineState ID_zero pn [] [mkRecordsByPulse 0 []]);
         mret (mkObjectLifeline (ls_stateRecords st) (ls_sideRecords st) objectID))) with (k := 0%nat) (s := s)
      as (l & s' & Hl & _); [auto with gen| |by rewrite Nat.add_0_r|by eexists].
    intros obj _. rewrite decide_False by (destruct Hok; lia).
    apply lasts_free; [auto with gen|]. intros pn _.
    rewrite <- (Nat.add_0_r (_ * _)). apply lasts_bind; [|auto with gen].
    rewrite <- (Z.sub_0_r pulseCount) at 1 3. apply lasts_loop; [done|]. destruct Hok. lia.
Qed.
End returns.

(** ** The theorems at work *)

(** The identifiers of the concrete source grow. *)
Lemma ref_code c :
  (c < 65280)%N →
  BigEndian_Uint64 (Prefix (toy_jet 16 (nonce c))) = Some ((256 + Z.of_N c) * 2 ^ 48).
Proof.
  intros Hc. unfold nonce. cbn [fmap list_fmap].
  pose proof (N.div_mod c 256) as Hdm. pose proof (N.mod_lt c 256) as Hmod.
  assert (c / 256 < 255)%N as Hdiv by (apply N.Div0.div_lt_upper_bound; lia).
  rewrite (N.mod_small (c / 256)) by done.
  generalize dependent (c / 256)%N. generalize dependent (c `mod` 256)%N. intros m Hm q Hq Hdiv.
  assert (∀ n, (n < 256)%N → ∃ b, Byte.of_N n = Some b ∧ Byte.to_N b = n) as Hbyte.
  { intros n Hn. destruct (Byte.of_N n) as [b|] eqn:Hb; [|apply Byte.of_N_None_iff in Hb; lia].
    exists b. split; [done|]. by apply Byte.to_of_N. }
  destruct (Hbyte (1 + q)%N) as (x & Hx & Hx'); [lia|].
  destruct (Hbyte m) as (y & Hy & Hy'); [lia|].
  cbn [compose]. unfold compose. rewrite Hx, Hy. cbn [default from_option].
  unfold BigEndian_Uint64. cbn -[Z.mul Z.add Z.pow Byte.to_N]. rewrite Hx', Hy'. cbn. f_equal. lia.
Qed.

Lemma ref_draws s s1 :
  rtc (other_draw (G := N * N)) s s1 → s1.1.1 = s.1.1 ∧ s1.2 = s.2.
Proof.
  induction 1 as [s|s s2 s3 Hd _ [IH1 IH2]]; [done|]. rewrite IH1, IH2.
  by destruct Hd as [[[] ?]|? [[] ?]|[[] ?]|[[] ?]|? [[] ?]|? [[] ?]|[[] ?]].
Qed.

Lemma ref_supply k c n u :
  (c + N.of_nat k < 65280)%N → (∀ id, id ∈ u → id < (256 + Z.of_N c) * 2 ^ 48) →
  supply (G := N * N) 1 k ((c, n), u).
Proof.
  revert c n u. induction k as [|k IH]; intros c n u Hc Hu; [done|].
  intros [[c1 n1] u1] [Hc1 Hu1]%ref_draws. cbn in Hc1, Hu1. subst c1 u1.
  exists (toy_jet 16 (nonce c)), (((c + 1)%N, n1), {[(256 + Z.of_N c) * 2 ^ 48]} ∪ u). split.
  - cbn [GenerateUniqueJetID]. unfold mbind, Gen_bind, draw. cbn -[toy_jet nonce saveUniqueJetID].
    unfold saveUniqueJetID, mbind, Gen_bind, must. rewrite ref_code by lia. cbn -[toy_jet nonce Z.mul].
    rewrite decide_False by lia. rewrite decide_False; [done|]. intros Hin%Hu. lia.
  - apply IH; [lia|]. intros id [->%elem_of_singleton|Hin]%elem_of_union; [lia|].
    apply Hu in Hin. lia.
Qed.

Definition ex_source : (N * N) * gset Z := ((0, 0)%N, ∅).

Lemma ex_supply k : (N.of_nat k < 65280)%N → supply 1 k ex_source.
Proof. intros Hk. apply ref_supply; [lia|set_solver]. Qed.

Definition has_result {A} (o : option A) : bool := match o with Some _ => true | None => false end.

Lemma GenerateObjectLifeline_sorts_witness :
  ∃ l rss, can_return (GenerateObjectLifeline (G := N * N) 1 2 3) l ∧
    GetStateRecords l = Some <$> concat rss ∧ length (concat rss) = 6%nat ∧ Forall sorts rss.
Proof.
  assert (has_result (GenerateObjectLifeline 1 2 3 ex_source) = true) as Hr
    by (vm_compute; reflexivity).
  destruct (GenerateObjectLifeline 1 2 3 ex_source) as [[l s']|] eqn:Hl; [clear Hr|discriminate Hr].
  assert (can_return (GenerateObjectLifeline (G := N * N) 1 2 3) l) as Hc by (exists ex_source, s'; exact Hl).
  destruct (GenerateObjectLifeline_sorts 1 2 3 l Hc) as (rss & _ & Hlen & Hall & Hg & _ & Hs).
  exists l, rss. split; [exact Hc|]. split; [exact Hg|]. split; [|exact Hs].
  clear -Hlen Hall. destruct rss as [|a [|b [|]]]; cbn in Hlen; try lia.
  rewrite !Forall_cons in Hall. cbn. rewrite !length_app. cbn. lia.
Defined.

Lemma GenerateObjectLifeline_returns_witness :
  is_Some (GenerateObjectLifeline 1 2 3 ex_source) ∧
  ¬ is_Some (GenerateObjectLifeline 1 1 2 ex_source).
Proof.
  split.
  - apply (GenerateObjectLifeline_returns 1 2 3 ex_source); [apply ex_supply; lia|].
    split; [lia|]. split; lia.
  - intros Hr. apply (GenerateObjectLifeline_returns 1 1 2 ex_source) in Hr; [|apply ex_supply; lia].
    destruct Hr as (_ & _ & Hbad). apply Hbad. split; reflexivity.
Defined.
