(* ===== verification/Heavymock.v ===== *)
(** * The mock of the platform: [src/test/heavymock], [src/testutils/clients]

    A server that keeps the records the tests import until an export of their
    pulse takes them away, and a pulse client that offers the lowest pulse which
    still has records.  Records are kept behind pointers and marked in place; the
    list of them only grows.  A method that holds the mutex is one step. *)

From S2P Require Import Prelude GoStd Platform RefPlatform Random TestData RefTestData.

(** [Record.Equal], generated from the message definition, and what is documented
    of it: it compares the fields. *)
Class RecordEqual `{Platform} := Record_Equal : ExporterRecord → ExporterRecord → bool.
Class RecordEqualLaws `{RecordEqual} := {
  Record_Equal_refl : ∀ r, Record_Equal r r = true;
  Record_Equal_ID : ∀ r s, Record_Equal r s = true → er_ID r = er_ID s;
}.

(** ** The store: [import_records_impl.go] *)

Section store.
Context `{RecordEqual}.

Record savedRecord := mkSavedRecord { record : ExporterRecord; isSent : bool }.

(** [ImporterServer]: its [records]. *)
Abbreviation ImporterServer := (list savedRecord).
Definition NewHeavymockImporter : ImporterServer := [].

Definition GetUnsentRecords (s : ImporterServer) : list ExporterRecord :=
  record <$> filter (λ r, isSent r = false) s.

(** The inner loop of [MarkAsSent]. *)
Fixpoint mark_first (r : ExporterRecord) (s : ImporterServer) : ImporterServer :=
  match s with
  | [] => []
  | sr :: s =>
      if Record_Equal r (record sr) && negb (isSent sr)
      then mkSavedRecord (record sr) true :: s
      else sr :: mark_first r s
  end.
Fixpoint MarkAsSent (records : list ExporterRecord) (s : ImporterServer) : ImporterServer :=
  match records with
  | [] => s
  | r :: records => MarkAsSent records (mark_first r s)
  end.

Definition collectRecords (records : list ExporterRecord) (s : ImporterServer) : ImporterServer :=
  s ++ ((λ r, mkSavedRecord r false) <$> records).

(** What [stream.Recv()] returns. *)
Inductive Recv :=
  | Recv_EOF                           (* io.EOF *)
  | Recv_Err (err : error)
  | Recv_Record (r : ExporterRecord).

(** The loop of [Import]; [None]: it waits for the stream. *)
Fixpoint import_loop (stream : list Recv) (received : list ExporterRecord)
  : option (result (list ExporterRecord)) :=
  match stream with
  | [] => None
  | Recv_EOF :: _ => Some (Ok received)
  | Recv_Err err :: _ => Some (Err err)
  | Recv_Record record :: stream => import_loop stream (received ++ [record])
  end.

(** [Import]; [sendAndClose] is what [stream.SendAndClose] answers.  As long as
    it waits it holds the mutex. *)
Definition Import (stream : list Recv) (sendAndClose : option error) (s : ImporterServer)
  : option (ImporterServer * option error) :=
  received ← import_loop stream [];
  Some match received with
       | Ok received => (collectRecords received s, sendAndClose)
       | Err err => (s, Some err)
       end.

Context `{!TestPlatform, !Random G}.
Abbreviation Src := (G * gset Z)%type.

(** The loop of [GetLowestUnsentPulse] and its two variables. *)
Fixpoint lowest_loop (rs : list ExporterRecord) (pulse : Z)
  (jets : gmap Z (gmap JetID JetDropContinue)) : Gen Src (Z * gmap Z (gmap JetID JetDropContinue)) :=
  match rs with
  | [] => mret (pulse, jets)
  | r :: rs =>
      if decide (ID_Pulse (er_ID r) > pulse) then lowest_loop rs pulse jets
      else
        let pulse := ID_Pulse (er_ID r) in
        hash ← GenerateRandBytes;
        let jet := mkJetDropContinue (er_JetID r) hash [] in
        lowest_loop rs pulse
          (<[pulse := <[er_JetID r := jet]> (default ∅ (jets !! pulse))]> jets)
  end.

(** [range] lists the values of a map in the order of the loop over it. *)
Definition GetLowestUnsentPulse (range : gmap JetID JetDropContinue → list JetDropContinue)
  (s : ImporterServer) : Gen Src (Z * list JetDropContinue) :=
  '(pulse, jets) ← lowest_loop (GetUnsentRecords s) (2 ^ 32 - 1) ∅;
  mret (pulse, range (default ∅ (jets !! pulse))).

(** ** The export: [exporter_impl.go] *)

(** What [Export] collects before it marks and sends. *)
Definition unsent_of (pn : Z) (s : ImporterServer) : list ExporterRecord :=
  filter (λ r, ID_Pulse (er_ID r) = pn) (GetUnsentRecords s).

(** The loop over [stream.Send]; [send] is what it answers to each record. *)
Fixpoint send_all (send : nat → option error) (n : nat) (records : list ExporterRecord)
  : list ExporterRecord * option error :=
  match records with
  | [] => ([], None)
  | r :: records =>
      match send n with
      | Some err => ([], Some err)
      | None => let '(sent, err) := send_all send (S n) records in (r :: sent, err)
      end
  end.

Definition Export (fuel : nat) (pn : Z) (send : nat → option error) (s : ImporterServer)
  : Gen Src (ImporterServer * list ExporterRecord * option error) :=
  let records := unsent_of pn s in
  let s := MarkAsSent records s in
  marker ← GenerateRecordInNextPulse fuel pn;
  let '(sent, err) := send_all send 0 (records ++ [marker]) in
  mret (s, sent, err).

(** ** The helpers of a client: [importer_client_helper.go] *)

Inductive SendAnswer := Send_Ok | Send_EOF | Send_Err (err : error).

(** What a call of [ImportRecords] put on the stream, whether it closed it, and
    what it returns. *)
Record Imported := mkImported {
  im_sent : list ExporterRecord;
  im_closed : bool;
  im_err : option error;
}.

Fixpoint import_sends (send : nat → SendAnswer) (closeAndRecv : result bool) (n : nat)
  (records : list (option ExporterRecord)) (sent : list ExporterRecord) : Imported :=
  let close :=
    mkImported sent true
      match closeAndRecv with
      | Err err => Some (ErrWrap err "Error in Importer reply")
      | Ok _ => None      (* errors.Wrap(nil, ...) is nil *)
      end in
  match records with
  | [] => close
  | None :: _ => mkImported sent false (Some (ErrMsg "unable to send nil record"))
  | Some record :: records =>
      match send n with
      | Send_Err err => mkImported sent false (Some (ErrWrap err "Error sending to stream"))
      | Send_EOF => close
      | Send_Ok => import_sends send closeAndRecv (S n) records (sent ++ [record])
      end
  end.

(** [open]: the error of [client.Import]. *)
Definition ImportRecords (open : option error) (send : nat → SendAnswer)
  (closeAndRecv : result bool) (records : list (option ExporterRecord)) : Imported :=
  match open with
  | Some err => mkImported [] false (Some err)
  | None => import_sends send closeAndRecv 0 records []
  end.

(** What the server reads of that call while the connection holds: nothing more
    comes on a stream that is neither closed nor cancelled. *)
Definition server_side (i : Imported) : list Recv :=
  (Recv_Record <$> im_sent i) ++ (if im_closed i then [Recv_EOF] else []).

Fixpoint receive_loop (stream : list Recv) (records : list ExporterRecord)
  : option (result (list ExporterRecord)) :=
  match stream with
  | [] => None
  | Recv_EOF :: _ => Some (Ok records)
  | Recv_Err err :: _ => Some (Err (ErrWrap err "Unexpected error"))
  | Recv_Record record :: stream => receive_loop stream (records ++ [record])
  end.
Definition ReceiveRecords (export : result (list Recv)) : option (result (list ExporterRecord)) :=
  match export with
  | Err err => Some (Err (ErrWrap err "Error when sending client request"))
  | Ok stream => receive_loop stream []
  end.

(** The stream that a client of [Export] reads. *)
Definition client_side (out : list ExporterRecord * option error) : list Recv :=
  (Recv_Record <$> out.1) ++ [match out.2 with None => Recv_EOF | Some err => Recv_Err err end].

(** ** Records of one pulse: [genrecords.go] *)

Definition SimpleRecord : ExporterRecord :=
  new_record 100 (NewID 65537 []) ID_zero JetID_zero Virtual_Other None.

Fixpoint records_by_pulse (pulse : Z) (numbers : list Z) : Gen Src (list ExporterRecord) :=
  match numbers with
  | [] => mret []
  | i :: numbers =>
      id ← draw (gen_IDWithPulse pulse);
      rest ← records_by_pulse pulse numbers;
      mret (new_record (uint32 i) id ID_zero JetID_zero Virtual_Other (Some pulse) :: rest)
  end.
Definition GetRecordsByPulse (pulse count : Z) : Gen Src (list ExporterRecord) :=
  records_by_pulse pulse (seqZ 0 count).

(** ** The pulse client: [testutils/clients/pulse_client.go] *)

Definition GetFullPulse (pn : Z) (jetDropContinue : list JetDropContinue) : result FullPulse :=
  time ← AsApproximateTime pn;
  Ok (mkFullPulse pn (uint32 (pn - 10)) (uint32 (pn + 10)) (int64 (time * 1000000000)) jetDropContinue).

(** [TestPulseClient]: the two functions that are set.  The response of
    [TopSyncPulse] comes with the error. *)
Record TestPulseClient := mkTestPulseClient {
  topSyncPulse : Z * option error;
  NextFinalizedPulseFunc : ImporterServer → Gen Src (result FullPulse);
}.

Definition getTestTopSyncPulseResponse (pn : Z) : Z := pn.
Definition GetTestPulseClient (pn : Z) (err : option error) : TestPulseClient :=
  mkTestPulseClient (getTestTopSyncPulseResponse pn, err) (λ _, mret (GetFullPulse pn [])).

Definition SetNextFinalizedPulseFunc
  (range : gmap JetID JetDropContinue → list JetDropContinue) (c : TestPulseClient)
  : TestPulseClient :=
  mkTestPulseClient (topSyncPulse c)
    (λ importer,
      '(pulse, jetDropContinue) ← GetLowestUnsentPulse range importer;
      let p := uint32 pulse in
      mret (if decide (p = 2 ^ 32 - 1) then Err (ErrMsg "unready yet")
            else GetFullPulse p jetDropContinue)).
End store.
