(* ===== verification/HeavymockProofs.v ===== *)
(** * The mock of the platform is a mailbox

    What the store of [Heavymock.v] amounts to: a list of records not yet sent,
    to which an import appends and from which an export takes those of its pulse. *)

From S2P Require Import Prelude GoStd Platform RefPlatform Random TestData RefTestData TestDataProofs Heavymock.

Section mailbox.
Context `{RecordEqualLaws}.
Abbreviation ImporterServer := (list savedRecord).
Implicit Types (s : ImporterServer) (r : ExporterRecord).

Definition sent_records s : list ExporterRecord := record <$> filter (λ x, isSent x = true) s.

(** The records of a pulse, which [Record.Equal] cannot tell apart. *)
Abbreviation of_pulse_number pn := (λ r, ID_Pulse (er_ID r) = pn).

Lemma unsent_cons sr s :
  GetUnsentRecords (sr :: s) = (if isSent sr then [] else [record sr]) ++ GetUnsentRecords s.
Proof. unfold GetUnsentRecords. rewrite filter_cons. by destruct (isSent sr). Qed.
Lemma sent_cons sr s :
  sent_records (sr :: s) = (if isSent sr then [record sr] else []) ++ sent_records s.
Proof. unfold sent_records. rewrite filter_cons. by destruct (isSent sr). Qed.

Lemma saved_unsent rs : GetUnsentRecords ((λ r, mkSavedRecord r false) <$> rs) = rs.
Proof. induction rs as [|r rs IH]; [done|]. rewrite fmap_cons, unsent_cons. cbn. by rewrite IH. Qed.
Lemma saved_sent rs : sent_records ((λ r, mkSavedRecord r false) <$> rs) = [].
Proof. induction rs as [|r rs IH]; [done|]. by rewrite fmap_cons, sent_cons. Qed.

Lemma collectRecords_unsent rs s : GetUnsentRecords (collectRecords rs s) = GetUnsentRecords s ++ rs.
Proof.
  unfold GetUnsentRecords, collectRecords. rewrite filter_app, fmap_app. f_equal. apply saved_unsent.
Qed.

Lemma collectRecords_sent rs s : sent_records (collectRecords rs s) = sent_records s.
Proof.
  unfold sent_records, collectRecords. rewrite filter_app, fmap_app.
  fold (sent_records ((λ r, mkSavedRecord r false) <$> rs)). rewrite saved_sent. apply app_nil_r.
Qed.

(** Marking takes the first record that equals the given one. *)
Lemma mark_first_unsent r s pre r' post :
  GetUnsentRecords s = pre ++ r' :: post →
  Forall (λ x, Record_Equal r x = false) pre → Record_Equal r r' = true →
  GetUnsentRecords (mark_first r s) = pre ++ post ∧
  sent_records (mark_first r s) ≡ₚ r' :: sent_records s.
Proof.
  intros Hs Hpre Hr. revert pre Hs Hpre. induction s as [|[x sent] s IH]; intros pre Hs Hpre.
  { cbn in Hs. by destruct pre. }
  rewrite unsent_cons in Hs. cbn [isSent record mark_first] in *. destruct sent; cbn [app negb] in *.
  - rewrite andb_false_r, unsent_cons, !sent_cons. cbn [isSent record app].
    destruct (IH pre Hs Hpre) as [-> ->]. split; [done|]. apply Permutation_swap.
  - rewrite andb_true_r. destruct pre as [|y pre]; cbn [app] in Hs; injection Hs as -> Hs.
    + rewrite Hr, unsent_cons, !sent_cons. by rewrite Hs.
    + apply Forall_cons in Hpre as [Hy Hpre]. rewrite Hy, unsent_cons, !sent_cons.
      destruct (IH pre Hs Hpre) as [-> Hperm]. by split.
Qed.

Lemma mark_first_length r s : length (mark_first r s) = length s.
Proof. induction s as [|sr s IH]; cbn; [done|]. destruct (_ && _); cbn; by rewrite ?IH. Qed.

Lemma different_pulse r x pn :
  ID_Pulse (er_ID r) = pn → ID_Pulse (er_ID x) ≠ pn → Record_Equal r x = false.
Proof.
  intros Hr Hx. apply not_true_iff_false. intros Heq%Record_Equal_ID. by rewrite <- Heq in Hx.
Qed.

(** Marking the unsent records of a pulse marks exactly those, also when other
    records have come behind them in the meantime. *)
Lemma MarkAsSent_pulse pn s l new :
  GetUnsentRecords s = l ++ new →
  let s' := MarkAsSent (filter (of_pulse_number pn) l) s in
  GetUnsentRecords s' = filter (λ r, ID_Pulse (er_ID r) ≠ pn) l ++ new ∧
  sent_records s' ≡ₚ filter (of_pulse_number pn) l ++ sent_records s.
Proof.
  intros Hs. cbn zeta.
  enough (∀ pre, Forall (λ r, ID_Pulse (er_ID r) ≠ pn) pre → GetUnsentRecords s = pre ++ l ++ new →
    GetUnsentRecords (MarkAsSent (filter (of_pulse_number pn) l) s) =
      pre ++ filter (λ r, ID_Pulse (er_ID r) ≠ pn) l ++ new ∧
    sent_records (MarkAsSent (filter (of_pulse_number pn) l) s) ≡ₚ
      filter (of_pulse_number pn) l ++ sent_records s) as Hgen by by apply (Hgen []).
  clear Hs. revert s. induction l as [|r l IH]; intros s pre Hpre Hs; [done|].
  destruct (decide (ID_Pulse (er_ID r) = pn)) as [Hr|Hr].
  - rewrite !filter_cons_True, (filter_cons_False _ r) by naive_solver. cbn [MarkAsSent].
    cbn [app] in Hs. eapply mark_first_unsent in Hs as [Hu Hsent];
      [|eapply Forall_impl; [exact Hpre|]; intros x; by apply different_pulse|apply Record_Equal_refl].
    destruct (IH _ pre Hpre Hu) as [-> ->]. split; [done|]. rewrite Hsent. by rewrite <- Permutation_middle.
  - rewrite (filter_cons_False _ r), (filter_cons_True _ r) by done.
    change (pre ++ (r :: l) ++ new) with (pre ++ [r] ++ (l ++ new)) in Hs. rewrite app_assoc in Hs.
    destruct (IH s (pre ++ [r])) as [-> ->]; [apply Forall_app; by split; [|constructor]|done|].
    by rewrite <- !app_assoc.
Qed.

(** ** Imports during an export *)

(** The store, the records imported so far, those an export has collected and not
    marked yet, and those that exports have taken away. *)
Record Mock := mkMock {
  mk_store : ImporterServer;
  mk_imported : list ExporterRecord;
  mk_collected : option (list ExporterRecord);
  mk_taken : list ExporterRecord;
}.

(** An import is one critical section of the store's mutex, an export two; the
    mutex of the exporter admits one export at a time. *)
Inductive mock_step : Mock → Mock → Prop :=
  | ms_import s imported c taken stream sendAndClose s' err rs :
      Import stream sendAndClose s = Some (s', err) → import_loop stream [] = Some (Ok rs) →
      mock_step (mkMock s imported c taken) (mkMock s' (imported ++ rs) c taken)
  | ms_import_fails s imported c taken stream sendAndClose s' err e :
      Import stream sendAndClose s = Some (s', err) → import_loop stream [] = Some (Err e) →
      mock_step (mkMock s imported c taken) (mkMock s' imported c taken)
  | ms_collect s imported taken pn :
      mock_step (mkMock s imported None taken) (mkMock s imported (Some (unsent_of pn s)) taken)
  | ms_mark s imported rs taken :
      mock_step (mkMock s imported (Some rs) taken)
        (mkMock (MarkAsSent rs s) imported None (taken ++ rs)).

Definition new_mock : Mock := mkMock NewHeavymockImporter [] None [].

Definition mock_ok (m : Mock) : Prop :=
  sent_records (mk_store m) ≡ₚ mk_taken m ∧
  mk_taken m ++ GetUnsentRecords (mk_store m) ≡ₚ mk_imported m ∧
  ∀ rs, mk_collected m = Some rs →
    ∃ pn l new, GetUnsentRecords (mk_store m) = l ++ new ∧ rs = filter (of_pulse_number pn) l.

Lemma mock_ok_step m m' : mock_ok m → mock_step m m' → mock_ok m'.
Proof.
  intros (Hsent & Hall & Hc) Hstep. unfold mock_ok.
  destruct Hstep as [s imported c taken stream sc s' err rs Him Hrs
                    |s imported c taken stream sc s' err e Him He
                    |s imported taken pn|s imported rs taken]; cbn [mk_store mk_imported mk_collected mk_taken] in *.
  - unfold Import in Him. rewrite Hrs in Him. cbn [mbind option_bind] in Him. injection Him as <- _.
    rewrite collectRecords_sent, collectRecords_unsent, app_assoc, Hall. split_and!; [done..|].
    intros rs' (pn & l & new & -> & ->)%Hc. exists pn, l, (new ++ rs). by rewrite app_assoc.
  - unfold Import in Him. rewrite He in Him. cbn [mbind option_bind] in Him. by injection Him as <- _.
  - split_and!; [done..|]. intros rs [= <-]. exists pn, (GetUnsentRecords s), [].
    by rewrite app_nil_r.
  - destruct (Hc rs) as (pn & l & new & Hl & ->); [done|].
    destruct (MarkAsSent_pulse pn s l new Hl) as [-> ->]. split_and!; [|rewrite <- Hall, Hl|done].
    + rewrite Hsent. apply Permutation_app_comm.
    + rewrite <- app_assoc, (app_assoc (filter _ l)). f_equiv. f_equiv.
      clear. induction l as [|r l IH]; [done|].
      destruct (decide (ID_Pulse (er_ID r) = pn)) as [Hr|Hr].
      * rewrite filter_cons_True, (filter_cons_False _ r) by naive_solver. cbn. by rewrite IH.
      * rewrite filter_cons_False, (filter_cons_True _ r) by done.
        rewrite <- Permutation_middle. by rewrite IH.
Qed.

(** C14: The mailbox loses no record and hands none out twice, however the imports and
    the two critical sections of the exports interleave: what exports have taken
    and what is still unsent are, together and counted with repetitions, the
    records of the successful imports, and what is marked is what was taken. *)
Theorem mailbox_conserved m :
  rtc mock_step new_mock m →
  mk_taken m ++ GetUnsentRecords (mk_store m) ≡ₚ mk_imported m ∧
  sent_records (mk_store m) ≡ₚ mk_taken m.
Proof.
  intros Hm. enough (mock_ok m) as (? & ? & _) by done.
  apply (rtc_ind_r (R := mock_step) mock_ok new_mock); [|by intros; eapply mock_ok_step|done].
  split_and!; done.
Qed.
End mailbox.

(** ** The operations *)

Section operations.
Context `{RecordEqualLaws, !TestPlatform, !Random G}.
Abbreviation ImporterServer := (list savedRecord).
Abbreviation Src := (G * gset Z)%type.
Implicit Types (s : ImporterServer) (rs : list ExporterRecord).

Lemma import_loop_records rs rest received :
  import_loop ((Recv_Record <$> rs) ++ rest) received = import_loop rest (received ++ rs).
Proof.
  revert received. induction rs as [|r rs IH]; intros received; cbn; [by rewrite app_nil_r|].
  by rewrite IH, <- app_assoc.
Qed.

Lemma receive_loop_records rs rest records :
  receive_loop ((Recv_Record <$> rs) ++ rest) records = receive_loop rest (records ++ rs).
Proof.
  revert records. induction rs as [|r rs IH]; intros records; cbn; [by rewrite app_nil_r|].
  by rewrite IH, <- app_assoc.
Qed.

Lemma import_sends_ok reply n rs sent :
  import_sends (λ _, Send_Ok) (Ok reply) n (Some <$> rs) sent = mkImported (sent ++ rs) true None.
Proof.
  revert n sent. induction rs as [|r rs IH]; intros n sent; cbn; [by rewrite app_nil_r|].
  by rewrite IH, <- app_assoc.
Qed.

(** Records that are imported arrive behind those already there. *)
Theorem ImportRecords_Import s rs reply sendAndClose :
  let i := ImportRecords None (λ _, Send_Ok) (Ok reply) (Some <$> rs) in
  im_err i = None ∧
  ∃ s', Import (server_side i) sendAndClose s = Some (s', sendAndClose) ∧
        GetUnsentRecords s' = GetUnsentRecords s ++ rs.
Proof.
  cbn [ImportRecords]. rewrite import_sends_ok. split; [done|]. unfold server_side, Import.
  cbn [im_sent im_closed app]. rewrite import_loop_records. cbn.
  eexists. split; [done|]. apply collectRecords_unsent.
Qed.

Lemma import_sends_nil pre post closeAndRecv n sent :
  import_sends (λ _, Send_Ok) closeAndRecv n ((Some <$> pre) ++ None :: post) sent =
  mkImported (sent ++ pre) false (Some (ErrMsg "unable to send nil record")).
Proof.
  revert n sent. induction pre as [|r pre IH]; intros n sent; cbn; [by rewrite app_nil_r|].
  by rewrite IH, <- app_assoc.
Qed.

(** A nil record among them makes the helper return an error without closing its
    stream: the server waits for the rest and keeps the mutex of the store. *)
Theorem ImportRecords_nil_hangs s pre post closeAndRecv sendAndClose :
  let i := ImportRecords None (λ _, Send_Ok) closeAndRecv ((Some <$> pre) ++ None :: post) in
  im_err i = Some (ErrMsg "unable to send nil record") ∧
  Import (server_side i) sendAndClose s = None.
Proof.
  cbn [ImportRecords]. rewrite import_sends_nil. split; [done|].
  unfold Import, server_side. cbn [im_sent im_closed app]. by rewrite import_loop_records.
Qed.

Lemma send_all_ok n rs : send_all (λ _, None) n rs = (rs, None).
Proof. revert n. induction rs as [|r rs IH]; intros n; cbn; [done|]. by rewrite IH. Qed.

Lemma send_all_spec send n rs sent err :
  send_all send n rs = (sent, err) →
  (err = None ∧ sent = rs) ∨
  (∃ e r rest, err = Some e ∧ rs = sent ++ r :: rest ∧ send (n + length sent)%nat = Some e).
Proof.
  revert n sent err. induction rs as [|r rs IH]; intros n sent err; cbn; [intros [= <- <-]; by left|].
  destruct (send n) as [e|] eqn:Hn.
  { intros [= <- <-]. right. exists e, r, rs. by rewrite Nat.add_0_r. }
  destruct (send_all send (S n) rs) as [sent' err'] eqn:Hs. intros [= <- <-].
  apply IH in Hs as [[-> ->]|(e & r' & rest & -> & -> & He)]; [by left|right].
  exists e, r', rest. split_and!; [done|done|]. cbn. by rewrite Nat.add_succ_r.
Qed.

(** An export marks the unsent records of its pulse, all of them and no other, and
    then sends them in the order they came, with the marker behind; when a send
    fails, what has not been sent is lost: it stays marked. *)
Theorem Export_spec fuel pn send s g s' sent err g' :
  Export fuel pn send s g = Some (s', sent, err, g') →
  GetUnsentRecords s' = filter (λ r, ID_Pulse (er_ID r) ≠ pn) (GetUnsentRecords s) ∧
  ∃ marker, can_return (GenerateRecordInNextPulse fuel pn) marker ∧
    ((err = None ∧ sent = unsent_of pn s ++ [marker]) ∨
     ∃ e r rest, err = Some e ∧ unsent_of pn s ++ [marker] = sent ++ r :: rest).
Proof.
  unfold Export. intros (marker & g1 & Hm & Hs)%Gen_bind_Some.
  destruct (send_all send 0 _) as [sent0 err0] eqn:Hsend.
  apply Gen_ret_Some in Hs as [[= <- <- <-] _].
  destruct (MarkAsSent_pulse pn s (GetUnsentRecords s) []) as [Hu _]; [by rewrite app_nil_r|].
  rewrite app_nil_r in Hu. split; [exact Hu|]. exists marker. split; [by exists g, g1|].
  apply send_all_spec in Hsend as [[-> ->]|(e & r & rest & -> & -> & _)]; [by left|right].
  by exists e, r, rest.
Qed.

Lemma marker_spec fuel pn marker :
  can_return (GenerateRecordInNextPulse (G := G) fuel pn) marker →
  er_ShouldIterateFrom marker = None ∧
  ∃ g : Src, er_ID marker = (gen_IDWithPulse (uint32 (pn + 10)) g).1.
Proof.
  intros (g & g' & (r & g1 & _ & Hg)%Gen_bind_Some).
  apply Gen_bind_Some in Hg as (id & g2 & Hid & [<- _]%Gen_ret_Some).
  split; [done|]. apply draw_Some in Hid. exists g1. by rewrite Hid.
Qed.

(** ** The lowest pulse *)

(** The lowest pulse of some records, [q] if they have none below. *)
Definition lowest (q : Z) (rs : list ExporterRecord) : Z :=
  foldl Z.min q ((λ r, ID_Pulse (er_ID r)) <$> rs).

Lemma lowest_cons q r rs : lowest q (r :: rs) = lowest (Z.min q (ID_Pulse (er_ID r))) rs.
Proof. done. Qed.

Lemma lowest_le q rs : lowest q rs ≤ q.
Proof.
  revert q. induction rs as [|r rs IH]; intros q; [done|]. rewrite lowest_cons.
  etrans; [apply IH|lia].
Qed.

Definition jets_at (p : Z) (jets : gmap Z (gmap JetID JetDropContinue)) : gmap JetID JetDropContinue :=
  default ∅ (jets !! p).

(** A jet is filed under its own identifier. *)
Definition filed (m : gmap JetID JetDropContinue) : Prop := map_Forall (λ id j, jdc_JetID j = id) m.

Lemma jets_at_insert p q m jets :
  jets_at p (<[q := m]> jets) = if decide (p = q) then m else jets_at p jets.
Proof.
  unfold jets_at. case_decide as Hp; [by rewrite Hp, lookup_insert_eq|by rewrite lookup_insert_ne].
Qed.

Lemma lowest_loop_Ok rs pulse jets g p js g' :
  lowest_loop rs pulse jets g = Some ((p, js), g') → (∀ q, filed (jets_at q jets)) →
  p = lowest pulse rs ∧ filed (jets_at p js) ∧
  ∀ id, is_Some (jets_at p js !! id) ↔
    is_Some (jets_at p jets !! id) ∨ ∃ r, r ∈ rs ∧ ID_Pulse (er_ID r) = p ∧ er_JetID r = id.
Proof.
  revert pulse jets g. induction rs as [|r rs IH]; intros pulse jets g; cbn [lowest_loop].
  { intros [[= <- <-] _]%Gen_ret_Some Hf. split_and!; [done|apply Hf|].
    intros id. split; [by left|]. intros [?|(r & Hr & _)]; [done|]. by apply elem_of_nil in Hr. }
  rewrite lowest_cons. case_decide as Hr.
  - intros Hg Hf. rewrite Z.min_l by lia. destruct (IH _ _ _ Hg Hf) as (Hp & Hfp & Hid).
    split_and!; [done|done|]. intros id. rewrite Hid. setoid_rewrite elem_of_cons.
    split; [intros [?|(r' & ? & ?)]; [by left|right; exists r'; by split; [right|]]|].
    intros [?|(r' & [->|Hr'] & Hpulse & Hj)]; [by left| |right; by exists r'].
    pose proof (lowest_le pulse rs). lia.
  - intros (hash & g1 & _ & Hg)%Gen_bind_Some Hf. rewrite Z.min_r by lia.
    apply IH in Hg as (Hp & Hfp & Hid).
    2: { intros q. rewrite jets_at_insert. case_decide; [|apply Hf].
         intros id j [[<- <-]|[_ Hj]]%lookup_insert_Some; [done|]. by eapply Hf. }
    split_and!; [done|done|]. intros id. rewrite Hid, jets_at_insert. setoid_rewrite elem_of_cons.
    clear Hid IH Hfp. case_decide as Hpr.
    + rewrite lookup_insert_is_Some, <- Hpr. destruct (decide (er_JetID r = id)) as [Hj|Hj].
      * split; [intros _; right; exists r; by auto|intros _; left; by left].
      * split.
        -- intros [[?|[_ ?]]|(r' & ? & ?)]; [done|by left|right; exists r'; auto].
        -- intros [?|(r' & [->|Hr'] & ? & ?)]; [left; auto|done|right; by exists r'].
    + split.
      * intros [?|(r' & ? & ?)]; [by left|right; exists r'; auto].
      * intros [?|(r' & [->|Hr'] & ? & ?)]; [by left|congruence|right; by exists r'].
Qed.

(** A loop over the values of a map meets each of them once. *)
Definition visits_values (range : gmap JetID JetDropContinue → list JetDropContinue) : Prop :=
  ∀ m, range m ≡ₚ (map_to_list m).*2.

Lemma filed_ids m : filed m → jdc_JetID <$> (map_to_list m).*2 = (map_to_list m).*1.
Proof.
  intros Hm. rewrite <- list_fmap_compose. apply list_fmap_ext.
  intros i [id j] Hi%list_elem_of_lookup_2%elem_of_map_to_list. by apply Hm in Hi.
Qed.

Lemma elem_of_keys (m : gmap JetID JetDropContinue) id : id ∈ (map_to_list m).*1 ↔ is_Some (m !! id).
Proof.
  rewrite list_elem_of_fmap. split.
  - intros ([k j] & -> & Hj%elem_of_map_to_list). by exists j.
  - intros [j Hj]. exists (id, j). by rewrite elem_of_map_to_list.
Qed.

(** The pulse that is offered next is the lowest with unsent records, and it comes
    with each jet of its records once; without any unsent record it is the
    greatest number there is. *)
Theorem GetLowestUnsentPulse_spec range s g p jets g' :
  visits_values range → GetLowestUnsentPulse range s g = Some ((p, jets), g') →
  p = lowest (2 ^ 32 - 1) (GetUnsentRecords s) ∧ NoDup (jdc_JetID <$> jets) ∧
  ∀ id, id ∈ jdc_JetID <$> jets ↔ ∃ r, r ∈ unsent_of p s ∧ er_JetID r = id.
Proof.
  intros Hrange ([p' js] & g1 & Hg & [[= -> <-] _]%Gen_ret_Some)%Gen_bind_Some.
  apply lowest_loop_Ok in Hg as (Hp & Hf & Hid); [|by intros q; unfold jets_at; rewrite lookup_empty].
  split; [done|]. fold (jets_at p js).
  assert (jdc_JetID <$> range (jets_at p js) ≡ₚ (map_to_list (jets_at p js)).*1) as Hperm
    by (rewrite <- (filed_ids _ Hf); f_equiv; apply Hrange).
  split; [rewrite Hperm; apply NoDup_fst_map_to_list|]. intros id.
  rewrite Hperm, elem_of_keys, Hid. unfold jets_at. rewrite lookup_empty. split.
  - intros [?%is_Some_None|(r & Hr & Hpr & Hj)]; [done|]. exists r. split; [|done].
    by apply list_elem_of_filter.
  - intros (r & [Hpr Hr]%list_elem_of_filter & Hj). right. by exists r.
Qed.
End operations.

(** ** The theorems at work *)

#[local] Instance ref_Reference_eq_dec : EqDecision (@Reference ref_platform).
Proof. change (EqDecision bytes). apply _. Defined.
#[local] Instance ref_Virtual_eq_dec : EqDecision (@Virtual ref_platform).
Proof. solve_decision. Defined.
#[export] Instance ref_record_eq_dec : EqDecision (@ExporterRecord ref_platform).
Proof. solve_decision. Defined.

#[export] Instance ref_record_equal : RecordEqual := λ r s, bool_decide (r = s).
#[export] Instance ref_record_equal_laws : RecordEqualLaws.
Proof.
  split; intros r; unfold Record_Equal, ref_record_equal.
  - by rewrite bool_decide_eq_true.
  - by intros s ->%bool_decide_eq_true.
Qed.

Definition map_values (m : gmap JetID JetDropContinue) : list JetDropContinue := (map_to_list m).*2.
Lemma map_values_visits : visits_values map_values.
Proof. intros m. reflexivity. Qed.

(** Records of two pulses and two jets, one of them twice. *)
Definition mock_record (n pulse : Z) (jet : Byte.byte) : ExporterRecord :=
  new_record n (NewID pulse []) [] (toy_jet 8 [jet]) Virtual_Other None.
Definition mock_records : list ExporterRecord :=
  [mock_record 1 65547 Byte.x01; mock_record 2 65537 Byte.x02; mock_record 3 65547 Byte.x02;
   mock_record 1 65547 Byte.x01].
Definition mock_filled : list savedRecord := collectRecords mock_records NewHeavymockImporter.

Lemma mock_lowest_unsent : unsent_of 65537 mock_filled = [mock_record 2 65537 Byte.x02].
Proof. apply (bool_decide_unpack _). vm_compute. exact I. Defined.

Lemma mailbox_conserved_witness :
  ∃ m, rtc mock_step new_mock m ∧
    mk_taken m = [mock_record 2 65537 Byte.x02] ∧
    mk_taken m ++ GetUnsentRecords (mk_store m) ≡ₚ mk_imported m.
Proof.
  set (stream := (Recv_Record <$> mock_records) ++ [Recv_EOF]).
  set (taken := [mock_record 2 65537 Byte.x02]).
  set (late := [mock_record 5 65537 Byte.x03]).
  assert (rtc mock_step new_mock
    (mkMock (MarkAsSent taken (collectRecords late mock_filled)) (mock_records ++ late) None taken))
    as Hm.
  { eapply rtc_l; [apply (ms_import _ [] None [] stream None mock_filled None mock_records)|];
      [reflexivity|reflexivity|]. cbn [app].
    eapply rtc_l; [apply (ms_collect _ _ _ 65537)|].
    rewrite mock_lowest_unsent.
    eapply rtc_l; [apply (ms_import _ _ _ _ ((Recv_Record <$> late) ++ [Recv_EOF]) None
      (collectRecords late mock_filled) None late)|]; [reflexivity|reflexivity|].
    eapply rtc_l; [apply ms_mark|]. apply rtc_refl. }
  eexists. split; [exact Hm|]. split; [reflexivity|]. apply (mailbox_conserved _ Hm).
Defined.

Lemma GetLowestUnsentPulse_spec_witness :
  ∃ jets g', GetLowestUnsentPulse map_values mock_filled ex_source = Some ((65537, jets), g') ∧
    toy_jet 8 [Byte.x02] ∈ jdc_JetID <$> jets ∧ toy_jet 8 [Byte.x01] ∉ jdc_JetID <$> jets.
Proof.
  assert (match GetLowestUnsentPulse map_values mock_filled ex_source with
          | Some ((p, _), _) => bool_decide (p = 65537)
          | None => false end = true) as Hp by (vm_compute; reflexivity).
  destruct (GetLowestUnsentPulse map_values mock_filled ex_source) as [[[p jets] g']|] eqn:Hg;
    [|discriminate Hp].
  apply bool_decide_eq_true in Hp as ->.
  destruct (GetLowestUnsentPulse_spec _ _ _ _ _ _ map_values_visits Hg) as (_ & _ & Hjets).
  exists jets, g'. split; [reflexivity|]. rewrite !Hjets. split.
  - exists (mock_record 2 65537 Byte.x02). rewrite mock_lowest_unsent. split; [left|reflexivity].
  - intros (r & Hr & Hj). rewrite mock_lowest_unsent in Hr. apply list_elem_of_singleton in Hr as ->. vm_compute in Hj. discriminate Hj.
Defined.
