(* ===== verification/JetTreeProofs.v ===== *)
(** * The jets of the test data

    Jet identifiers are handed out once; the trees of splitting jets are full
    binary trees, and so are the drops of a split jet. *)

From S2P Require Import Prelude GoStd Platform RefPlatform Types Models Converter Gorm RefDb Interfaces Random Transformer TransformerProofs TestData RefTestData TestDataProofs.

(** ** Jet identifiers are handed out once *)

Section unique.
Context `{HP : Platform, !PlatformLaws, !TestPlatform, !Random G, !RandomLaws G}.
Abbreviation Src := (G * gset Z)%type.

Lemma saveUniqueJetID_Some (jetID : JetID) (g : G) (u : gset Z) :
  ∃ n b u', BigEndian_Uint64 (Prefix jetID) = Some n ∧
    saveUniqueJetID jetID (g, u) = Some (b, (g, u')) ∧
    (b = true ↔ n ≠ 0 ∧ n ∉ u) ∧ u' = if b : bool then {[n]} ∪ u else u.
Proof.
  destruct (BigEndian_Prefix jetID) as [n Hn].
  unfold saveUniqueJetID, mbind, Gen_bind, must. rewrite Hn. cbn.
  destruct (decide (n = 0)) as [->|Hn0]; [by exists 0, false, u; split_and!; naive_solver|].
  destruct (decide (n ∈ u)) as [Hu|Hu].
  - exists n, false, u. split_and!; naive_solver.
  - exists n, true, ({[n]} ∪ u). split_and!; naive_solver.
Qed.

(** An identifier that is handed out is not zero, was not handed out before, and
    will not be handed out again. *)
Lemma GenerateUniqueJetID_fresh fuel (g : G) (u : gset Z) id g' u' :
  GenerateUniqueJetID fuel (g, u) = Some (id, (g', u')) →
  ∃ n, BigEndian_Uint64 (Prefix id) = Some n ∧ n ≠ 0 ∧ (n ∉ u) ∧ u' = {[n]} ∪ u.
Proof.
  revert g u. induction fuel as [|fuel IH]; intros g u; [done|].
  intros (jetID & [g1 u1] & Hd%draw_Some & Hs)%Gen_bind_Some. cbn in Hd. unfold with_global in Hd.
  destruct (gen_JetID (g, u).1) as [j g2] eqn:Hj. cbn in Hd. simplify_eq.
  apply Gen_bind_Some in Hs as (b & s2 & Hsave & Hs).
  destruct (saveUniqueJetID_Some jetID g1 u1) as (n & b' & u2 & Hn & Hsv & Hb & ->).
  rewrite Hsv in Hsave. injection Hsave as <- <-. destruct b'.
  - apply Gen_ret_Some in Hs as [<- [= <- <-]]. exists n. naive_solver.
  - by apply IH in Hs.
Qed.
End unique.

(** ** Trees of splitting jets *)

Section trees.
Context `{HP : Platform, !PlatformLaws, !TestPlatform, !TestPlatformLaws, !Random G, !RandomLaws G}.
Abbreviation Src := (G * gset Z)%type.
Abbreviation JetTree := (gmap Z (gmap JetID (list bytes))).
Implicit Types t l r : JetTree.

(** The [k]-th generation below a jet. *)
Fixpoint generation (k : nat) (id : JetID) : list JetID :=
  match k with
  | O => [id]
  | S k => generation k (jet_Siblings id).1 ++ generation k (jet_Siblings id).2
  end.

(** The jets of a pulse in a tree. *)
Definition jets (t : JetTree) (p : Z) : gset JetID := dom (default ∅ (t !! p)).

(** The tree holds the generations [from..depth] below [root] at the pulses ten
    apart, and nothing else. *)
Record generations (root : JetID) (pn : Z) (from depth : nat) (t : JetTree) : Prop := {
  gn_pulses : ∀ p, is_Some (t !! p) ↔ ∃ k, (from ≤ k ≤ depth)%nat ∧ p = pn + 10 * Z.of_nat k;
  gn_jets : ∀ k, (from ≤ k ≤ depth)%nat →
    jets t (pn + 10 * Z.of_nat k) = list_to_set (generation k root);
}.

Lemma merge_is_Some l r p : is_Some (merge_tree l r !! p) ↔ is_Some (l !! p) ∨ is_Some (r !! p).
Proof.
  unfold merge_tree. rewrite lookup_union_with.
  destruct (l !! p), (r !! p); cbn; split; try (by eauto); by intros [[]|[]].
Qed.

Lemma jets_merge l r p : jets (merge_tree l r) p = jets l p ∪ jets r p.
Proof.
  unfold jets, merge_tree. rewrite lookup_union_with.
  destruct (l !! p) as [a|], (r !! p) as [b|]; cbn; rewrite ?dom_union_L, ?dom_empty_L; set_solver.
Qed.

Lemma jets_None t p : ¬ is_Some (t !! p) → jets t p = ∅.
Proof. intros Hp. unfold jets. apply eq_None_not_Some in Hp. rewrite Hp. cbn. apply dom_empty_L. Qed.

(** Two generations of siblings below their parents make one of the grandparent. *)
Lemma generations_merge id pn depth jds l r :
  dom jds = {[(jet_Siblings id).1; (jet_Siblings id).2]} →
  generations (jet_Siblings id).1 (pn + 10) 1 depth l →
  generations (jet_Siblings id).2 (pn + 10) 1 depth r →
  generations id pn 1 (S depth) (merge_tree (merge_tree {[pn + 10 := jds]} l) r).
Proof.
  intros Hjds [Hl Hlj] [Hr Hrj]. constructor.
  - intros p. rewrite !merge_is_Some, Hl, Hr, lookup_singleton_is_Some. split.
    + intros [[<-|(k & Hk & ->)]|(k & Hk & ->)]; [exists 1%nat|exists (S k)..]; lia.
    + intros ([|[|k]] & Hk & ->); [lia|left; left; lia|right]. exists (S k). lia.
  - intros [|[|k]] Hk; [lia| |].
    + replace (pn + 10 * Z.of_nat 1) with (pn + 10) by lia. rewrite !jets_merge.
      rewrite (jets_None l) by (rewrite Hl; intros (k & ? & ?); lia).
      rewrite (jets_None r) by (rewrite Hr; intros (k & ? & ?); lia).
      unfold jets. rewrite lookup_singleton_eq. cbn. rewrite Hjds. set_solver.
    + replace (pn + 10 * Z.of_nat (S (S k))) with (pn + 10 + 10 * Z.of_nat (S k)) by lia.
      rewrite !jets_merge, Hlj, Hrj by lia.
      rewrite jets_None by (rewrite lookup_singleton_is_Some; lia).
      cbn [generation]. rewrite !list_to_set_app_L. set_solver.
Qed.

Lemma run_bind {A B} (m : Gen Src A) (f : A → Gen Src B) s a s1 :
  m s = Some (a, s1) → (m ≫= f) s = f a s1.
Proof. intros Hm. unfold mbind, Gen_bind. by rewrite Hm. Qed.

Lemma getSiblings_spec depth id pn hashes (s : Src) :
  length hashes = 2%nat → 0 ≤ pn → pn + 10 * Z.of_nat depth < 2 ^ 32 →
  ∃ t s', getSiblings depth id pn hashes s = Some (t, s') ∧ generations id pn 1 depth t.
Proof.
  revert id pn hashes s. induction depth as [|depth IH]; intros id pn hashes s Hh Hpn Hmax.
  { exists ∅, s. split; [done|]. constructor; [|lia]. intros p. rewrite lookup_empty.
    split; [by intros []|]. intros (k & ? & _). lia. }
  destruct hashes as [|h0 [|h1 [|]]]; try done. cbn [getSiblings].
  destruct (jet_Siblings id) as [lid rid] eqn:Hsib.
  assert (uint32 (pn + 10) = pn + 10) as -> by (apply Z.mod_small; lia).
  rewrite (run_bind _ _ s h1 s) by done.
  destruct (GenerateRandBytes s) as [[lh s1]|] eqn:Hlh; [|done]. rewrite (run_bind _ _ _ _ _ Hlh).
  destruct (GenerateRandBytes s1) as [[rh s2]|] eqn:Hrh; [|done]. rewrite (run_bind _ _ _ _ _ Hrh).
  cbn zeta. set (jds := <[rid := [h1; rh]]> {[lid := [h1; lh]]}).
  assert (∃ lhs, jds !! lid = Some lhs ∧ length lhs = 2%nat) as (lhs & Hl & Hl2).
  { unfold jds. destruct (decide (rid = lid)) as [->|Hne];
      [rewrite lookup_insert_eq|rewrite lookup_insert_ne, lookup_singleton_eq by done]; by eexists. }
  rewrite (run_bind _ _ s2 lhs s2) by (unfold must; by rewrite Hl).
  destruct (IH lid (pn + 10) lhs s2) as (l & s3 & Hlt & Hgl); [done|lia..|].
  rewrite (run_bind _ _ _ _ _ Hlt). cbn zeta.
  rewrite (run_bind _ _ s3 [h1; rh] s3).
  2: { unfold must, merge_tree. rewrite lookup_union_with, lookup_singleton_eq.
       replace (l !! (pn + 10)) with (@None (gmap JetID (list bytes))).
       - cbn. unfold jds. by rewrite lookup_insert_eq.
       - symmetry. apply eq_None_not_Some. rewrite (gn_pulses _ _ _ _ _ Hgl).
         intros (k & ? & ?). lia. }
  destruct (IH rid (pn + 10) [h1; rh] s3) as (r & s4 & Hrt & Hgr); [done|lia..|].
  rewrite (run_bind _ _ _ _ _ Hrt). eexists _, s4. split; [done|].
  apply generations_merge; rewrite Hsib; cbn; [|done..].
  unfold jds. rewrite dom_insert_L, dom_singleton_L. set_solver.
Qed.

Lemma generations_root id pn depth t hs :
  generations id pn 1 depth t → generations id pn 0 depth (t ∪ {[pn := {[id := hs]}]}).
Proof.
  intros [Hp Hj].
  assert (t !! pn = None) as Hroot by (apply eq_None_not_Some; rewrite Hp; intros (k & ? & ?); lia).
  constructor.
  - intros p. rewrite lookup_union_is_Some, Hp, lookup_singleton_is_Some. split.
    + intros [(k & Hk & ->)|<-]; [exists k|exists 0%nat]; lia.
    + intros ([|k] & Hk & ->); [right; lia|left]. exists (S k). lia.
  - intros [|k] Hk.
    + replace (pn + 10 * Z.of_nat 0) with pn by lia. unfold jets.
      rewrite lookup_union_r, lookup_singleton_eq by done. cbn. rewrite dom_singleton_L. set_solver.
    + rewrite <- Hj by lia. unfold jets. rewrite lookup_union_l; [done|].
      apply lookup_singleton_ne. lia.
Qed.

(** The texts of a generation: those of the root with [k] more bits. *)
Lemma generation_text id s k x :
  JetIDToString id = Some s → (String.length s + k ≤ 216)%nat →
  (∃ jet, jet ∈ generation k id ∧ JetIDToString jet = Some x) ↔
  ∃ w, all_chars is_bit w = true ∧ String.length w = k ∧ x = s +:+ w.
Proof.
  revert id s x. induction k as [|k IH]; intros id s x Hs Hlen; cbn [generation].
  - setoid_rewrite list_elem_of_singleton. split.
    + intros (jet & -> & Hx). exists "". rewrite str_app_nil_r. split_and!; [done..|congruence].
    + intros ([|] & _ & ? & ->); [|done]. exists id. by rewrite str_app_nil_r.
  - destruct (Siblings_text id s Hs) as [Hl Hr]; [lia|].
    assert (∀ c, String.length (s +:+ String c "") + k ≤ 216)%nat as Hlen'
      by (intros c; rewrite str_length_app; cbn; lia).
    pose proof (IH _ _ x Hl (Hlen' _)) as IHl. pose proof (IH _ _ x Hr (Hlen' _)) as IHr.
    split.
    + intros (jet & [Hin|Hin]%elem_of_app & Hx).
      * destruct (proj1 IHl) as (w & Hw & <- & ->); [by exists jet|].
        exists (String "0" w). by rewrite <- str_app_assoc.
      * destruct (proj1 IHr) as (w & Hw & <- & ->); [by exists jet|].
        exists (String "1" w). by rewrite <- str_app_assoc.
    + intros ([|c w] & Hw & Hk & ->); [done|]. cbn in Hw, Hk.
      apply andb_true_iff in Hw as [Hc Hw]. injection Hk as Hk.
      apply is_bit_cases in Hc as [-> | ->].
      * destruct (proj2 IHl) as (jet & Hin & Hx); [exists w; by rewrite <- str_app_assoc|].
        exists jet. rewrite elem_of_app. auto.
      * destruct (proj2 IHr) as (jet & Hin & Hx); [exists w; by rewrite <- str_app_assoc|].
        exists jet. rewrite elem_of_app. auto.
Qed.

(** Generated jet trees are full.  [GenerateJetIDTree] always returns.  Unless
    its time is up, the map has exactly one pulse per depth, ten apart from the
    given one on, and the jets of each pulse split the root jet completely: their
    texts are those of the root with all continuations of that length. *)
Theorem GenerateJetIDTree_full fuel pn depth (s : Src) :
  0 ≤ pn → pn + 10 * Z.of_nat depth < 2 ^ 32 →
  ∃ t s', GenerateJetIDTree fuel pn depth s = Some (t, s') ∧
    (t = ∅ ∨ ∃ root, generations root pn 0 depth t ∧
       ∀ text k x, JetIDToString root = Some text → (String.length text + depth ≤ 216)%nat →
         (k ≤ depth)%nat →
         (∃ jet, jet ∈ jets t (pn + 10 * Z.of_nat k) ∧ JetIDToString jet = Some x) ↔
         ∃ w, all_chars is_bit w = true ∧ String.length w = k ∧ x = text +:+ w).
Proof.
  intros Hpn Hmax. revert s. induction fuel as [|fuel IH]; intros s; [by exists ∅, s; auto|].
  cbn [GenerateJetIDTree].
  assert (∃ n s1, RandNumberOverRange 15 40 s = Some (n, s1)) as (n & s1 & Hn).
  { unfold RandNumberOverRange, Int63n. rewrite decide_True by lia. unfold mbind, Gen_bind, draw.
    destruct (rand_Int63n _ s). by eexists _, _. }
  rewrite (run_bind _ _ _ _ _ Hn).
  destruct (gen_IDWithPulse pn s1) as [rid s2] eqn:Hid.
  rewrite (run_bind _ _ s1 rid s2) by (unfold draw; by rewrite Hid). cbn zeta.
  destruct s2 as [g2 u2].
  destruct (saveUniqueJetID_Some (NewJetID n (ID_Bytes rid)) g2 u2) as (c & b & u3 & _ & Hs & _ & _).
  rewrite (run_bind _ _ _ _ _ Hs). destruct b; [|apply IH].
  destruct (GenerateRandBytes (g2, u3)) as [[hash s4]|] eqn:Hh; [|done].
  rewrite (run_bind _ _ _ _ _ Hh).
  destruct (getSiblings_spec depth (NewJetID n (ID_Bytes rid)) pn [[]; hash] s4)
    as (t & s5 & Ht & Hg); [done..|].
  rewrite (run_bind _ _ _ _ _ Ht). eexists _, s5. split; [done|]. right.
  exists (NewJetID n (ID_Bytes rid)). apply (generations_root _ _ _ _ [[]; hash]) in Hg.
  split; [exact Hg|]. intros text k x Htext Hlen Hk.
  rewrite (gn_jets _ _ _ _ _ Hg) by lia. setoid_rewrite elem_of_list_to_set.
  apply generation_text; [done|lia].
Qed.
End trees.

(** ** Drops of a split jet *)

Section children.
Context `{HP : Platform, !PlatformLaws, !TestPlatform, !Random G, !RandomLaws G}.
Abbreviation Src := (G * gset Z)%type.

(** The proper descendants of a jet down to a depth. *)
Definition descendant (jetID : string) (depth : nat) (x : string) : Prop :=
  ∃ w, all_chars is_bit w = true ∧ (1 ≤ String.length w ≤ depth)%nat ∧ x = jetID +:+ w.

Lemma str_app_inj_l s t u : s +:+ t = s +:+ u → t = u.
Proof. induction s as [|a s IH]; [done|]. intros [= Hs]. by apply IH. Qed.

Lemma descendant_S jetID depth x :
  descendant jetID (S depth) x ↔
  ∃ c, is_bit c = true ∧
    (x = jetID +:+ String c "" ∨ descendant (jetID +:+ String c "") depth x).
Proof.
  unfold descendant. split.
  - intros ([|c w] & Hw & Hlen & ->); cbn in *; [lia|]. apply andb_true_iff in Hw as [Hc Hw].
    exists c. split; [done|]. destruct w as [|c' w]; [by left|right].
    exists (String c' w). rewrite <- str_app_assoc. split_and!; [done|cbn in *; lia..|done].
  - intros (c & Hc & [->|(w & Hw & Hlen & ->)]).
    + exists (String c ""). cbn. rewrite Hc. split_and!; [done|lia..|done].
    + exists (String c w). rewrite <- str_app_assoc. cbn. rewrite Hc, Hw. split_and!; [done|lia..|done].
Qed.

Lemma descendants_apart jetID c d depth x y :
  c ≠ d → (x = jetID +:+ String c "" ∨ descendant (jetID +:+ String c "") depth x) →
  (y = jetID +:+ String d "" ∨ descendant (jetID +:+ String d "") depth y) → x ≠ y.
Proof.
  intros Hcd Hx Hy ->.
  assert (∀ e, (y = jetID +:+ String e "" ∨ descendant (jetID +:+ String e "") depth y) →
    ∃ w, y = jetID +:+ String e w) as Hhead.
  { intros e [->|(w & _ & _ & ->)]; [by exists ""|]. exists w. by rewrite <- str_app_assoc. }
  destruct (Hhead c Hx) as [w ->]. destruct (Hhead d Hy) as [w' Hw].
  apply str_app_inj_l in Hw. by injection Hw.
Qed.

Lemma not_own_descendant jetID depth : ¬ descendant jetID depth jetID.
Proof.
  intros (w & _ & Hlen & Heq). apply (f_equal String.length) in Heq.
  rewrite str_length_app in Heq. lia.
Qed.

Lemma InitJetDropDB_Ok fuel pulse (s : Src) j s' :
  InitJetDropDB fuel pulse s = Some (j, s') →
  jd_PulseNumber j = p_PulseNumber pulse ∧ jd_Timestamp j = p_Timestamp pulse ∧
  valid_jet_id (jd_JetID j).
Proof.
  intros (id & s1 & _ & Hs)%Gen_bind_Some.
  apply Gen_bind_Some in Hs as (jetID & s2 & [Hid _]%must_Some & Hs).
  do 4 apply Gen_bind_Some in Hs as (? & ? & _ & Hs). apply Gen_ret_Some in Hs as [<- _].
  destruct (JetIDToString_valid id) as (t & Ht & Hv). split_and!; [done..|]. cbn. congruence.
Qed.

Lemma lasts_drop fuel pulse : lasts fuel 1 (InitJetDropDB (G := G) fuel pulse).
Proof.
  apply (lasts_bind fuel 1 0); [apply lasts_jet|]. intros id _. apply lasts_free.
  { apply lasts_must. destruct (JetIDToString_valid id) as (t & Ht & _). by eexists. }
  intros jetID _. do 4 (apply lasts_free; [apply lasts_draw; constructor|]; intros ? _). apply lasts_ret.
Qed.

Lemma lasts_children fuel depth pulse jetID :
  lasts fuel (2 ^ S depth - 2) (createChildren (G := G) fuel depth pulse jetID).
Proof.
  revert jetID. induction depth as [|depth IH]; intros jetID; [apply lasts_ret|].
  apply (lasts_more fuel (1 + (1 + ((2 ^ S depth - 2) + ((2 ^ S depth - 2) + 0))))).
  { pose proof (Nat.pow_nonzero 2 depth). cbn [Nat.pow]. lia. }
  do 2 (apply lasts_bind; [apply lasts_drop|]; intros ? _).
  do 2 (apply lasts_bind; [apply IH|]; intros ? _). apply lasts_ret.
Qed.

Lemma createChildren_Ok fuel depth pulse jetID (s : Src) drops s' :
  createChildren fuel depth pulse jetID s = Some (drops, s') →
  Forall (λ j, jd_PulseNumber j = p_PulseNumber pulse) drops ∧
  NoDup (jd_JetID <$> drops) ∧ ∀ x, x ∈ jd_JetID <$> drops ↔ descendant jetID depth x.
Proof.
  revert jetID s drops s'. induction depth as [|depth IH]; intros jetID s drops s'.
  { intros [<- _]%Gen_ret_Some. split_and!; [constructor|constructor|]. intros x.
    rewrite elem_of_nil. split; [done|]. intros (w & _ & ? & _). lia. }
  intros (jl & s1 & (Hjl & _)%InitJetDropDB_Ok & Hs)%Gen_bind_Some.
  apply Gen_bind_Some in Hs as (jr & s2 & (Hjr & _)%InitJetDropDB_Ok & Hs).
  apply Gen_bind_Some in Hs as (ls & s3 & (Hl & Ndl & Hel)%IH & Hs).
  apply Gen_bind_Some in Hs as (rs & s4 & (Hr & Ndr & Her)%IH & [<- _]%Gen_ret_Some).
  split_and!.
  - cbn. repeat constructor; [done..|]. by apply Forall_app.
  - rewrite !fmap_app. cbn [fmap list_fmap jd_JetID set_jd_JetID app].
    rewrite !NoDup_cons, NoDup_app, elem_of_cons, !elem_of_app. setoid_rewrite Hel. setoid_rewrite Her.
    split_and!; try done.
    + intros [Heq%str_app_inj_l|[Hd|Hd]]; [done|by apply not_own_descendant in Hd|].
      by eapply (descendants_apart jetID "0" "1" depth); [|by left|by right|].
    + intros [Hd|Hd]; [|by apply not_own_descendant in Hd].
      by eapply (descendants_apart jetID "1" "0" depth); [|by left|by right|].
    + intros x Hx Hx'. by eapply (descendants_apart jetID "0" "1" depth x x); [|by right|by right|].
  - intros x. rewrite descendant_S, !fmap_app. cbn [fmap list_fmap jd_JetID set_jd_JetID].
    rewrite !elem_of_app, !elem_of_cons, elem_of_nil. setoid_rewrite Hel. setoid_rewrite Her.
    setoid_rewrite is_bit_cases. naive_solver.
Qed.

(** Drops of a split jet.  When enough jet identifiers can be had,
    [createChildren] returns the drops of exactly the proper descendants of the jet
    down to the given depth, each once, all in the given pulse. *)
Theorem createChildren_spec fuel depth pulse jetID (s : Src) :
  supply fuel (2 ^ S depth - 2) s →
  ∃ drops s', createChildren fuel depth pulse jetID s = Some (drops, s') ∧
    Forall (λ j, jd_PulseNumber j = p_PulseNumber pulse) drops ∧
    NoDup (jd_JetID <$> drops) ∧ ∀ x, x ∈ jd_JetID <$> drops ↔ descendant jetID depth x.
Proof.
  intros Hs. destruct (lasts_children fuel depth pulse jetID 0%nat s) as (drops & s' & Hd & _).
  { by rewrite Nat.add_0_r. }
  exists drops, s'. split; [done|]. by eapply createChildren_Ok.
Qed.
End children.

(** ** The theorems at work *)

Lemma GenerateJetIDTree_full_witness :
  ∃ t s', GenerateJetIDTree (G := N * N) 1 70000 2 ex_source = Some (t, s') ∧
    ∃ root, generations root 70000 0 2 t.
Proof.
  assert (match GenerateJetIDTree (G := N * N) 1 70000 2 ex_source with
          | Some (t, _) => size t | None => 0%nat end = 3%nat) as Hsize by (vm_compute; reflexivity).
  destruct (GenerateJetIDTree_full (G := N * N) 1 70000 2 ex_source) as (t & s' & Ht & Hfull);
    [lia|lia|].
  exists t, s'. split; [exact Ht|]. rewrite Ht in Hsize.
  destruct Hfull as [->|(root & Hg & _)]; [discriminate Hsize|]. exists root. exact Hg.
Defined.

Definition ex_test_pulse : Pulse := mkPulse 70000 69990 70010 false false 0 0 0.

Lemma createChildren_spec_witness :
  ∃ drops s', createChildren 1 2 ex_test_pulse "01" ex_source = Some (drops, s') ∧
    "0110" ∈ jd_JetID <$> drops.
Proof.
  destruct (createChildren_spec 1 2 ex_test_pulse "01" ex_source) as (drops & s' & Hd & _ & _ & Hel).
  { apply ex_supply. vm_compute. reflexivity. }
  exists drops, s'. split; [exact Hd|]. apply Hel. exists "10". split; [reflexivity|].
  split; [cbn; lia|reflexivity].
Defined.
