(* ===== verification/TestRecords.v ===== *)
(** * Records over several pulses: [src/testutils/{generators,canonical}.go]

    The generators that spread records over pulses and jets, and those of
    canonical jet drops. *)

From S2P Require Import Prelude GoStd Platform RefPlatform Types Models Converter Gorm RefDb Interfaces Random Transformer TransformerProofs TestData RefTestData TestDataProofs JetTreeProofs.

Section records.
Context `{HP : Platform, !TestPlatform, !Random G}.
Abbreviation Src := (G * gset Z)%type.

(** A record of another pulse, without a number to go on from. *)
Definition moved (id : ID) (r : ExporterRecord) : ExporterRecord :=
  new_record (er_RecordNumber r) id (er_ObjectID r) (er_JetID r) (er_Virtual r) None.

(** The variables of the closure [GenerateRecordsWithDifferencePulses] returns; of
    the previous record its identifier. *)
Record PulsesClosure := mkPulsesClosure { dp_i : Z; dp_localRecordCount : Z; dp_prevRecord : ID }.

Definition GenerateRecordsWithDifferencePulses (fuel : nat) (startpn : Z) : Gen Src PulsesClosure :=
  prevRecord ← any_record fuel;
  mret (mkPulsesClosure 0 0 (NewID (uint32 startpn) [])).

(** One call of that closure. *)
Definition differencePulses_call (fuel : nat) (differentPulseSize recordCount : Z) (c : PulsesClosure)
  : Gen Src (result ExporterRecord * PulsesClosure) :=
  if decide (dp_i c < differentPulseSize) then
    record ← any_record fuel;
    let prev := ID_Pulse (dp_prevRecord c) in
    if decide (dp_localRecordCount c < recordCount) then
      id ← draw (gen_IDWithPulse prev);
      mret (Ok (moved id record), mkPulsesClosure (dp_i c) (dp_localRecordCount c + 1) id)
    else
      id ← draw (gen_IDWithPulse (uint32 (prev + 10)));
      mret (Ok (moved id record), mkPulsesClosure (dp_i c + 1) 1 id)
  else mret (Err EOF, c).

(** [n] calls; those that report the end give nothing. *)
Fixpoint differencePulses_loop (fuel n : nat) (differentPulseSize recordCount : Z) (c : PulsesClosure)
  : Gen Src (list ExporterRecord) :=
  match n with
  | O => mret []
  | S n =>
      '(r, c) ← differencePulses_call fuel differentPulseSize recordCount c;
      rest ← differencePulses_loop fuel n differentPulseSize recordCount c;
      mret (match r with Err _ => rest | Ok r => r :: rest end)
  end.

Definition GenerateRecordsWithDifferencePulsesSilence (fuel : nat) (differentPulseSize recordCount : Z)
  : Gen Src (list ExporterRecord) :=
  c ← GenerateRecordsWithDifferencePulses fuel MinTimePulse;
  differencePulses_loop fuel (Z.to_nat (differentPulseSize * recordCount)) differentPulseSize recordCount c.

Definition GenerateRecordsFromOneJetSilence (fuel : nat) (differentPulseSize recordCount : Z)
  : Gen Src (list ExporterRecord) :=
  records ← GenerateRecordsWithDifferencePulsesSilence fuel differentPulseSize recordCount;
  jetID ← GenerateUniqueJetID fuel;
  mret (set_JetID jetID <$> records).

(** The records of one jet drop of a tree. *)
Fixpoint records_of_node (p : Z) (jd : JetID) (rs : list ExporterRecord) : Gen Src (list ExporterRecord) :=
  match rs with
  | [] => mret []
  | r :: rs =>
      id ← draw (gen_IDWithPulse p);
      rest ← records_of_node p jd rs;
      mret (set_JetID jd (moved id r) :: rest)
  end.
Fixpoint records_of_nodes (fuel : nat) (recordsInJetDrop : Z) (nodes : list (Z * JetID))
  : Gen Src (list ExporterRecord) :=
  match nodes with
  | [] => mret []
  | (p, jd) :: nodes =>
      records ← GenerateRecordsSilence fuel recordsInJetDrop;
      records ← records_of_node p jd records;
      rest ← records_of_nodes fuel recordsInJetDrop nodes;
      mret (records ++ rest)
  end.

(** [order] is the order of the two loops over the tree. *)
Definition GenerateRecordsWIthSplitJetDrops (fuel : nat) (pn : Z) (depth : nat) (recordsInJetDrop : Z)
  (order : gmap Z (gmap JetID (list bytes)) → list (Z * JetID))
  : Gen Src (list ExporterRecord * gmap Z (gmap JetID (list bytes))) :=
  jdTree ← GenerateJetIDTree fuel pn depth;
  result ← records_of_nodes fuel recordsInJetDrop (order jdTree);
  mret (result, jdTree).

(** ** Canonical data: [canonical.go] *)

Definition CreateJetDropCanonical (records : list TRecord) : Gen Src TJetDrop :=
  pn ← draw gen_PulseNumber;
  jet ← draw gen_JetID;
  prefix ← must (JetIDToString jet);
  other ← draw gen_JetID;
  rawData ← GenerateRandBytes;
  hash ← GenerateRandBytes;
  mret (mkTJetDrop
    (mkMainSection (mkDropStart (mkTPulse pn 0 0 (pn + 10) (pn - 10)) prefix (Depth other))
       (mkDropContinue []) records) rawData hash).

Definition CreateRecordCanonical : Gen Src TRecord :=
  ref ← draw gen_Reference;
  objectReference ← draw gen_Reference;
  prototypeReference ← draw gen_Reference;
  prevRecordReference ← draw gen_Reference;
  payload ← GenerateRandBytes;
  hash ← GenerateRandBytes;
  rawData ← GenerateRandBytes;
  mret (mkTRecord STATE (Ref_Bytes ref) (Ref_Bytes objectReference) (Ref_Bytes prototypeReference)
    (Ref_Bytes prevRecordReference) payload hash rawData 0).
End records.

(** ** Theorems *)

Section spread.
Context `{HP : Platform, !PlatformLaws, !TestPlatform, !TestPlatformLaws, !Random G, !RandomLaws G}.
Abbreviation Src := (G * gset Z)%type.
Abbreviation pulse_of r := (ID_Pulse (er_ID r)).

Lemma IDWithPulse_Some pn (s s' : Src) id :
  65536 ≤ pn < 2 ^ 30 → draw (gen_IDWithPulse pn) s = Some (id, s') → ID_Pulse id = pn.
Proof.
  rewrite draw_Some. intros Hpn Hid. rewrite <- MinTimePulse_value in Hpn.
  pose proof (IDWithPulse_pulse pn s Hpn) as Hp. by rewrite Hid in Hp.
Qed.

(** The [k]-th record, [n] to a pulse. *)
Definition nth_pulse (n k : Z) : Z := MinTimePulse + 10 * (k / n).

Lemma differencePulses_loop_Ok fuel m size n c (s : Src) rs s' :
  0 < n → 0 ≤ dp_i c → 0 ≤ dp_localRecordCount c ≤ n →
  dp_i c * n + dp_localRecordCount c + Z.of_nat m ≤ size * n → 65536 + 10 * size < 2 ^ 30 →
  ID_Pulse (dp_prevRecord c) = 65536 + 10 * dp_i c →
  differencePulses_loop fuel m size n c s = Some (rs, s') →
  (λ r, pulse_of r) <$> rs = nth_pulse n <$> seqZ (dp_i c * n + dp_localRecordCount c) (Z.of_nat m) ∧
  Forall (λ r, er_ShouldIterateFrom r = None) rs.
Proof.
  intros Hn. revert c s rs s'. induction m as [|m IH]; intros [i cnt prev] s rs s' Hi Hc Hm Hmax Hprev;
    cbn [dp_i dp_localRecordCount dp_prevRecord differencePulses_loop] in *.
  { by intros [<- _]%Gen_ret_Some. }
  intros ([r c'] & s1 & Hr & Hs)%Gen_bind_Some.
  apply Gen_bind_Some in Hs as (rest & s2 & Hrest & [<- _]%Gen_ret_Some).
  rewrite Nat2Z.inj_succ, seqZ_cons by lia. rewrite Z.pred_succ, fmap_cons.
  unfold differencePulses_call in Hr. cbn [dp_i dp_localRecordCount dp_prevRecord] in Hr.
  rewrite decide_True in Hr by nia.
  apply Gen_bind_Some in Hr as (record & s3 & _ & Hr). unfold nth_pulse at 1. rewrite MinTimePulse_value.
  destruct (decide (cnt < n)) as [Hcnt|Hcnt].
  - apply Gen_bind_Some in Hr as (id & s4 & Hid & [[= <- <-] _]%Gen_ret_Some).
    apply IDWithPulse_Some in Hid; [|nia].
    apply IH in Hrest as [Hrest Hall]; cbn [dp_i dp_localRecordCount dp_prevRecord] in *; [|lia..].
    rewrite fmap_cons, Hrest. split; [|by constructor]. f_equal; [|do 2 f_equal; lia].
    cbn. rewrite Hid, Hprev. by rewrite Z.div_add_l, Z.div_small, Z.add_0_r by lia.
  - assert (cnt = n) as -> by lia.
    apply Gen_bind_Some in Hr as (id & s4 & Hid & [[= <- <-] _]%Gen_ret_Some).
    assert (uint32 (ID_Pulse prev + 10) = 65536 + 10 * (i + 1)) as Hu.
    { unfold uint32. rewrite Hprev, Z.mod_small; nia. }
    rewrite Hu in Hid. apply IDWithPulse_Some in Hid; [|nia].
    apply IH in Hrest as [Hrest Hall]; cbn [dp_i dp_localRecordCount dp_prevRecord] in *; [|lia..].
    rewrite fmap_cons, Hrest. split; [|by constructor]. f_equal; [|do 2 f_equal; lia].
    cbn. rewrite Hid. replace (i * n + n) with ((i + 1) * n) by lia. by rewrite Z.div_mul by lia.
Qed.

(** The records of the first [size] pulses, [n] to each, in the order of the
    pulses. *)
Theorem GenerateRecordsWithDifferencePulsesSilence_spec fuel size n rs :
  0 < n → 0 ≤ size → 65536 + 10 * size < 2 ^ 30 →
  can_return (GenerateRecordsWithDifferencePulsesSilence (G := G) fuel size n) rs →
  (λ r, pulse_of r) <$> rs = nth_pulse n <$> seqZ 0 (size * n) ∧
  Forall (λ r, er_ShouldIterateFrom r = None) rs.
Proof.
  intros Hn Hsize Hmax (s & s' & (c & s1 & Hc & Hs)%Gen_bind_Some).
  apply Gen_bind_Some in Hc as (r & s2 & _ & [<- _]%Gen_ret_Some).
  apply differencePulses_loop_Ok in Hs; cbn [dp_i dp_localRecordCount dp_prevRecord] in *; try nia.
  - rewrite Z2Nat.id in Hs by nia. exact Hs.
  - rewrite MinTimePulse_value. change (uint32 65536) with 65536.
    rewrite NewID_pulse; [done|]. rewrite MinTimePulse_value. lia.
Qed.

Lemma lasts_differencePulses_call fuel size n c :
  lasts fuel 1 (differencePulses_call (G := G) fuel size n c).
Proof.
  unfold differencePulses_call. case_decide; [|apply (lasts_more fuel 0); [lia|apply lasts_ret]].
  apply (lasts_bind fuel 1 0); [apply lasts_record|]. intros r _.
  case_decide; (apply lasts_free; [auto with gen|]; intros id _; apply lasts_ret).
Qed.

Lemma lasts_differencePulses_loop fuel m size n c :
  lasts fuel m (differencePulses_loop (G := G) fuel m size n c).
Proof.
  revert c. induction m as [|m IH]; intros c; [apply lasts_ret|].
  apply (lasts_bind fuel 1 m); [apply lasts_differencePulses_call|]. intros [r c'] _.
  apply (lasts_more fuel (m + 0)); [lia|]. apply lasts_bind; [apply IH|]. intros rest _. apply lasts_ret.
Qed.

Lemma lasts_DifferencePulsesSilence fuel size n :
  lasts fuel (1 + Z.to_nat (size * n)) (GenerateRecordsWithDifferencePulsesSilence (G := G) fuel size n).
Proof.
  apply lasts_bind; [|intros c _; apply lasts_differencePulses_loop].
  apply (lasts_bind fuel 1 0); [apply lasts_record|]. intros r _. apply lasts_ret.
Qed.

Lemma lasts_FromOneJet fuel size n :
  lasts fuel (2 + Z.to_nat (size * n)) (GenerateRecordsFromOneJetSilence (G := G) fuel size n).
Proof.
  replace (2 + Z.to_nat (size * n))%nat with ((1 + Z.to_nat (size * n)) + 1)%nat by lia.
  apply lasts_bind; [apply lasts_DifferencePulsesSilence|]. intros rs _.
  apply (lasts_bind fuel 1 0); [apply lasts_jet|]. intros jet _. apply lasts_ret.
Qed.

Lemma FromOneJet_Ok fuel size n (g : G) (u : gset Z) rs g' u' :
  0 < n → 0 ≤ size → 65536 + 10 * size < 2 ^ 30 →
  GenerateRecordsFromOneJetSilence fuel size n (g, u) = Some (rs, (g', u')) →
  length rs = Z.to_nat (size * n) ∧
  (λ r, pulse_of r) <$> rs = nth_pulse n <$> seqZ 0 (size * n) ∧
  Forall (λ r, er_ShouldIterateFrom r = None) rs ∧
  ∃ jet, Forall (λ r, er_JetID r = jet) rs.
Proof.
  intros Hn Hsize Hmax (rs0 & s1 & Hrs & Hs)%Gen_bind_Some.
  apply Gen_bind_Some in Hs as (jet & s2 & _ & [<- _]%Gen_ret_Some).
  destruct (GenerateRecordsWithDifferencePulsesSilence_spec fuel size n rs0) as [Hp Hall]; try done.
  { by exists (g, u), s1. }
  assert (length rs0 = Z.to_nat (size * n)) as Hlen.
  { apply (f_equal length) in Hp. by rewrite !length_fmap, length_seqZ in Hp. }
  rewrite length_fmap. split; [done|]. split; [|split].
  - rewrite <- Hp, <- list_fmap_compose. done.
  - apply Forall_fmap. eapply Forall_impl; [exact Hall|]. by intros r.
  - exists jet. apply Forall_fmap, Forall_forall. by intros r.
Qed.

(** ** Records in a tree of jets *)

Lemma silence_loop_length fuel turns batchSize count c res (s : Src) rs s' :
  silence_loop fuel turns batchSize count c res s = Some (rs, s') → length rs = (length res + count)%nat.
Proof.
  revert turns c res s. induction count as [|count IHc]; intros turns c res s.
  { destruct turns; cbn; intros [<- _]%Gen_ret_Some; lia. }
  revert count IHc c res s. induction turns as [|turns IH]; intros count IHc c res s; cbn; [done|].
  intros ([r c'] & s1 & _ & Hs)%Gen_bind_Some. destruct r as [r|e].
  - apply IHc in Hs. rewrite length_app in Hs. cbn in Hs. lia.
  - by apply (IH count IHc) in Hs.
Qed.

Lemma GenerateRecordsSilence_length fuel count (s : Src) rs s' :
  GenerateRecordsSilence fuel count s = Some (rs, s') → length rs = Z.to_nat count.
Proof.
  unfold GenerateRecordsSilence. case_decide; [done|].
  intros (f & s1 & _ & Hs)%Gen_bind_Some. by apply silence_loop_length in Hs.
Qed.

Lemma records_of_node_Ok p jd rs0 (s : Src) rs s' :
  65536 ≤ p < 2 ^ 30 → records_of_node p jd rs0 s = Some (rs, s') →
  (λ r, (pulse_of r, er_JetID r)) <$> rs = replicate (length rs0) (p, jd).
Proof.
  intros Hp. revert s rs s'. induction rs0 as [|r rs0 IH]; intros s rs s'; cbn [records_of_node].
  { by intros [<- _]%Gen_ret_Some. }
  intros (id & s1 & Hid & Hs)%Gen_bind_Some. apply IDWithPulse_Some in Hid; [|done].
  apply Gen_bind_Some in Hs as (rest & s2 & Hrest & [<- _]%Gen_ret_Some).
  rewrite fmap_cons, (IH _ _ _ Hrest). cbn. by rewrite Hid.
Qed.

Lemma records_of_nodes_Ok fuel k nodes (s : Src) rs s' :
  Forall (λ n, 65536 ≤ n.1 < 2 ^ 30) nodes → records_of_nodes fuel k nodes s = Some (rs, s') →
  (λ r, (pulse_of r, er_JetID r)) <$> rs = nodes ≫= replicate (Z.to_nat k).
Proof.
  intros Hnodes. revert s rs s'. induction Hnodes as [|[p jd] nodes Hp _ IH]; intros s rs s'; cbn [records_of_nodes].
  { by intros [<- _]%Gen_ret_Some. }
  intros (rs0 & s1 & Hlen%GenerateRecordsSilence_length & Hs)%Gen_bind_Some.
  apply Gen_bind_Some in Hs as (rs1 & s2 & Hn%records_of_node_Ok & Hs); [|done].
  apply Gen_bind_Some in Hs as (rest & s3 & Hrest & [<- _]%Gen_ret_Some).
  rewrite fmap_app, Hn, (IH _ _ _ Hrest), Hlen. done.
Qed.

(** Every node of the tree, in every pulse, has [k] records and there are no
    others. *)
Theorem GenerateRecordsWIthSplitJetDrops_spec fuel pn depth k order rs tree :
  Forall (λ n, 65536 ≤ n.1 < 2 ^ 30) (order tree) →
  can_return (GenerateRecordsWIthSplitJetDrops (G := G) fuel pn depth k order) (rs, tree) →
  (λ r, (pulse_of r, er_JetID r)) <$> rs = order tree ≫= replicate (Z.to_nat k).
Proof.
  intros Hnodes (s & s' & (t & s1 & _ & Hs)%Gen_bind_Some).
  apply Gen_bind_Some in Hs as (rs' & s2 & Hrs & [[= -> ->] _]%Gen_ret_Some).
  by eapply records_of_nodes_Ok.
Qed.
End spread.
