(* ===== verification/TestRows.v ===== *)
(** * Rows written by the tests: [src/testutils/{models,canonical}.go]

    The helpers that create rows, and the states of one object in their order. *)

From S2P Require Import Prelude GoStd Platform RefPlatform Types Models Converter Gorm RefDb Interfaces Storage StorageWrite WellFormed Random Migrations Transformer TestData RefTestData TransformerProofs TestDataProofs.

Section rows.
Context `{Gorm DB}.

Definition CreateRecord (record : MRecord) (db : DB) : result DB :=
  wrap_err "error while saving record" (Create_Record record db).
Definition CreateJetDrop (jetDrop : JetDrop) (db : DB) : result DB :=
  wrap_err "error while saving jetDrop" (Create_JetDrop jetDrop db).
Definition CreatePulse (pulse : Pulse) (db : DB) : result DB :=
  wrap_err "error while saving pulse" (Create_Pulse pulse db).

Definition CreateJetDrops (jetDrops : list JetDrop) (db : DB) : result DB :=
  Transaction (save_all CreateJetDrop jetDrops) db.
Definition CreatePulses (pulses : list Pulse) (db : DB) : result DB :=
  Transaction (save_all CreatePulse pulses) db.

Context `{HP : Platform, !TestPlatform, !Random G}.
Abbreviation Src := (G * gset Z)%type.

Definition ordered (objRef : ID) (i : Z) (r : MRecord) : MRecord :=
  mkMRecord (r_Reference r) (r_Type r) (ID_Bytes objRef) (r_PrototypeReference r) (r_Payload r)
    (r_PrevRecordReference r) (r_Hash r) (r_RawData r) (r_JetID r) (r_PulseNumber r) i
    (r_Timestamp r).

(** The loop of [OrderedRecords]; a row that cannot be created ends the test. *)
Fixpoint ordered_loop (jetDrop : JetDrop) (objRef : ID) (orders : list Z) (result : list MRecord)
  (db : DB) : Gen Src (list MRecord * DB) :=
  match orders with
  | [] => mret (result, db)
  | i :: orders =>
      record ← InitRecordDB jetDrop;
      let record := ordered objRef i record in
      db ← must (require_NoError (CreateRecord record db));
      ordered_loop jetDrop objRef orders (result ++ [record]) db
  end.
Definition OrderedRecords (db : DB) (jetDrop : JetDrop) (objRef : ID) (amount : Z)
  : Gen Src (list MRecord * DB) := ordered_loop jetDrop objRef (seqZ 1 amount) [] db.
End rows.

(** A drop with random records, saved through the storage. *)
Section saved.
Context `{HP : Platform, !TestPlatform, !Random G, StorageSetter DB}.
Abbreviation Src := (G * gset Z)%type.

Fixpoint records_of_drop (n : nat) (jetDrop : JetDrop) : Gen Src (list MRecord) :=
  match n with
  | O => mret []
  | S n =>
      record ← InitRecordDB jetDrop;
      rest ← records_of_drop n jetDrop;
      mret (record :: rest)
  end.

Definition InitJetDropWithRecords (fuel : nat) (db : DB) (recordAmount : nat) (pulse : Pulse)
  : Gen Src (JetDrop * DB) :=
  jetDrop ← InitJetDropDB fuel pulse;
  let jetDrop := set_jd_RecordAmount (Z.of_nat recordAmount) jetDrop in
  record ← records_of_drop recordAmount jetDrop;
  db ← must (require_NoError (st_SaveJetDropData jetDrop record (p_PulseNumber pulse) db));
  mret (jetDrop, db).
End saved.

(** ** Theorems *)

Section saved_laws.
Context `{HP : Platform, !TestPlatform, !Random G, StorageLaws DB}.
Abbreviation Src := (G * gset Z)%type.

Lemma records_of_drop_Ok n jetDrop (s : Src) rs s' :
  records_of_drop n jetDrop s = Some (rs, s') →
  length rs = n ∧ Forall (λ r, (r_PulseNumber r, r_JetID r) = jd_key jetDrop) rs.
Proof.
  revert s rs s'. induction n as [|n IH]; intros s rs s'; [by intros [<- _]%Gen_ret_Some|].
  intros (r & s1 & Hr & Hs)%Gen_bind_Some.
  apply Gen_bind_Some in Hs as (rest & s2 & [Hlen Hall]%IH & [<- _]%Gen_ret_Some).
  do 7 apply Gen_bind_Some in Hr as (? & ? & _ & Hr). apply Gen_ret_Some in Hr as [<- _].
  split; [cbn; by rewrite Hlen|by constructor].
Qed.

(** The drop is stored in the pulse under its number of records, with as many
    records of its own. *)
Theorem InitJetDropWithRecords_spec fuel db n pulse (s : Src) j db' s' :
  p_PulseNumber pulse ≠ 0 →
  InitJetDropWithRecords fuel db n pulse s = Some ((j, db'), s') →
  ∃ rs, length rs = n ∧ jd_RecordAmount j = Z.of_nat n ∧ jd_PulseNumber j = p_PulseNumber pulse ∧
    Forall (λ r, (r_PulseNumber r, r_JetID r) = jd_key j) rs ∧
    t_jet_drops (st_tables db') = <[jd_key j := j]> (t_jet_drops (st_tables db)) ∧
    t_records (st_tables db') = put_records rs (t_records (st_tables db)).
Proof.
  intros Hne (jd & s1 & Hjd & Hs)%Gen_bind_Some.
  apply Gen_bind_Some in Hs as (rs & s2 & [Hlen Hall]%records_of_drop_Ok & Hs).
  apply Gen_bind_Some in Hs as (db1 & s3 & [Hdb _]%must_Some & [[= <- <-] _]%Gen_ret_Some).
  destruct (st_SaveJetDropData _ _ _ _) as [db2|err] eqn:Hsave; [|done]. injection Hdb as ->.
  apply st_SaveJetDropData_Ok in Hsave as (a & b & ->); [|done].
  apply Gen_bind_Some in Hjd as (? & ? & _ & Hjd). do 5 apply Gen_bind_Some in Hjd as (? & ? & _ & Hjd).
  apply Gen_ret_Some in Hjd as [<- _]. by exists rs.
Qed.
End saved_laws.

Section created.
Context `{GormLaws DB}.

(** Rows created one after the other: none was there before, and no key occurs
    twice. *)
Lemma create_all_Ok {K A} `{Countable K} (get : Tables → gmap K A) set (key : A → K)
    (create : A → DB → result DB) xs db db' :
  table_component get set →
  (∀ x db db', x ∈ xs → create x db = Ok db' →
     get (tables db) !! key x = None ∧ tables db' = set (<[key x := x]> (get (tables db))) (tables db)) →
  save_all create xs db = Ok db' →
  tables db' = set (insert_all key xs (get (tables db))) (tables db) ∧
  NoDup (key <$> xs) ∧ ∀ x, x ∈ xs → get (tables db) !! key x = None.
Proof.
  intros (Hg & Hs & Hid). revert db. induction xs as [|x xs IH]; intros db Hstep; cbn.
  { intros [= ->]. rewrite Hid. split_and!; [done|constructor|set_solver]. }
  intros (db1 & Hx & Hc)%result_bind_Ok. apply Hstep in Hx as [Hn Hx]; [|by left].
  apply IH in Hc as (-> & Hnd & Hnone); [|intros; apply Hstep; [by right|done]].
  rewrite Hx, Hg in Hnone. split_and!.
  - by rewrite Hx, Hg, Hs.
  - apply NoDup_cons. split; [|done]. intros (y & Hy & Hin)%list_elem_of_fmap.
    specialize (Hnone y Hin). by rewrite <- Hy, lookup_insert_eq in Hnone.
  - intros y [->|Hy]%elem_of_cons; [done|]. specialize (Hnone y Hy).
    by apply lookup_insert_None in Hnone as [? _].
Qed.

(** Test rows are created all or not at all.  When [CreateJetDrops] succeeds, the
    drops have different keys, none of them was stored before, and exactly they
    have been added, each under its pulse. *)
Theorem CreateJetDrops_spec js db db' :
  CreateJetDrops js db = Ok db' →
  NoDup (jd_key <$> js) ∧ (∀ j, j ∈ js → t_jet_drops (tables db) !! jd_key j = None) ∧
  tables db' = set_jet_drops (insert_all jd_key js (t_jet_drops (tables db))) (tables db).
Proof.
  intros (db1 & Hs & ->)%Transaction_Ok.
  apply (create_all_Ok t_jet_drops set_jet_drops jd_key) in Hs as (-> & Hnd & Hnone);
    [done|apply components|].
  intros j db2 db3 _ (Hn & _ & ->)%wrap_err_Ok%Create_JetDrop_Ok. done.
Qed.

Context `{HP : Platform, !TestPlatform, !Random G}.
Abbreviation Src := (G * gset Z)%type.

Lemma ordered_loop_Ok jetDrop objRef orders acc db (s : Src) rs db' s' :
  ordered_loop jetDrop objRef orders acc db s = Some ((rs, db'), s') →
  ∃ new, rs = acc ++ new ∧ r_Order <$> new = orders ∧
    Forall (λ r, r_Type r = State ∧ r_ObjectReference r = ID_Bytes objRef ∧
                 (r_PulseNumber r, r_JetID r) = jd_key jetDrop) new ∧
    save_all CreateRecord new db = Ok db'.
Proof.
  revert acc db s. induction orders as [|i orders IH]; intros acc db s.
  { intros [[= <- <-] _]%Gen_ret_Some. exists []. by rewrite app_nil_r. }
  intros (r & s1 & Hr & Hs)%Gen_bind_Some.
  apply Gen_bind_Some in Hs as (db1 & s2 & [Hdb _]%must_Some & Hs).
  destruct (CreateRecord (ordered objRef i r) db) as [db2|err] eqn:Hc; [|done].
  injection Hdb as ->. apply IH in Hs as (new & -> & <- & Hall & Hsave).
  do 7 apply Gen_bind_Some in Hr as (? & ? & _ & Hr). apply Gen_ret_Some in Hr as [<- _].
  eexists (_ :: new). rewrite <- (assoc_L (++)). split_and!; [done|done|by constructor|].
  cbn [save_all]. rewrite Hc. exact Hsave.
Qed.

(** The history of a test object.  When [OrderedRecords] returns, it returns the
    states it has stored: [amount] new rows of the object in the drop, numbered
    from one on; no other row has changed. *)
Theorem OrderedRecords_spec db jetDrop objRef amount (s : Src) rs db' s' :
  OrderedRecords db jetDrop objRef amount s = Some ((rs, db'), s') →
  r_Order <$> rs = seqZ 1 amount ∧
  Forall (λ r, r_Type r = State ∧ r_ObjectReference r = ID_Bytes objRef ∧
               (r_PulseNumber r, r_JetID r) = jd_key jetDrop) rs ∧
  NoDup (r_Reference <$> rs) ∧
  tables db' = set_records (insert_all r_Reference rs (t_records (tables db))) (tables db).
Proof.
  intros (new & -> & Ho & Hall & Hs)%ordered_loop_Ok.
  apply (create_all_Ok t_records set_records r_Reference) in Hs as (Ht & Hnd & _);
    [done|apply components|].
  intros r db2 db3 _ (Hn & _ & ->)%wrap_err_Ok%Create_Record_Ok. done.
Qed.
End created.

(** ** The theorems at work *)

Definition ex_drops : list JetDrop :=
  [mkJetDrop 10 "00" [] [] [] [] 0 0; mkJetDrop 10 "01" [] [] [] [] 0 0].

Lemma CreateJetDrops_spec_witness :
  ∃ db', CreateJetDrops ex_drops ex_db = Ok db' ∧
    tables db' = set_jet_drops (insert_all jd_key ex_drops (t_jet_drops (tables ex_db))) (tables ex_db).
Proof.
  assert (is_ok (CreateJetDrops ex_drops ex_db) = true) as Hok by (vm_compute; reflexivity).
  destruct (CreateJetDrops ex_drops ex_db) as [db'|err] eqn:Hc; [|discriminate Hok].
  exists db'. split; [reflexivity|]. by apply (CreateJetDrops_spec ex_drops ex_db db') in Hc as (_ & _ & Ht).
Defined.

Definition ex_object : ID := [Byte.x6f].

(** Three states in the drop [ex_drop] of the pulse 10. *)
Lemma OrderedRecords_spec_witness :
  ∃ rs db' s', OrderedRecords ex_db1 ex_drop ex_object 3 ex_source = Some ((rs, db'), s') ∧
    r_Order <$> rs = [1; 2; 3].
Proof.
  assert (match OrderedRecords ex_db1 ex_drop ex_object 3 ex_source with
          | Some _ => true | None => false end = true) as Hok by (vm_compute; reflexivity).
  destruct (OrderedRecords ex_db1 ex_drop ex_object 3 ex_source) as [[[rs db'] s']|] eqn:Hr;
    [|discriminate Hok].
  exists rs, db', s'. split; [reflexivity|].
  by apply (OrderedRecords_spec ex_db1 ex_drop ex_object 3) in Hr as (Ho & _).
Defined.
