(* ===== verification/Extractor.v ===== *)
(** * The extractor: [src/etl/extractor/platform_impl.go]

    Goroutines of the extractor walk over the pulses of the platform and hand
    each one, with all its records, to the transformer.  What the network answers
    is an argument: a list of turns, and in each turn a list of attempts.  What a
    goroutine does to the shared state is the list of its actions, which
    interleave with those of the others; a goroutine that waits for the network
    has used up its list. *)

From S2P Require Import Prelude GoStd Platform Types Interfaces Controller.

(** ** The worker counter *)

(** [atomic.AddInt32]: the new value. *)
Definition AddInt32 (workers delta : Z) : Z := int32 (workers + delta).

(** [takeWorker] when nothing runs between its two atomic additions. *)
Definition takeWorker (maxWorkers workers : Z) : bool * Z :=
  let w := AddInt32 workers 1 in
  if decide (w > maxWorkers) then (false, AddInt32 w (-1)) else (true, w).

Definition freeWorker (workers : Z) : Z := AddInt32 workers (-1).

(** A goroutine, as far as the counter is concerned: outside, between the two
    additions of a failing [takeWorker], or holding a worker. *)
Inductive holder := Outside | Over | Holding.
#[export] Instance holder_eq_dec : EqDecision holder.
Proof. solve_decision. Defined.

(** One atomic addition of goroutine [i]. *)
Inductive worker_step (maxWorkers : Z) : Z * list holder → Z * list holder → Prop :=
  | take_fails w hs i :
      hs !! i = Some Outside → AddInt32 w 1 > maxWorkers →
      worker_step maxWorkers (w, hs) (AddInt32 w 1, <[i := Over]> hs)
  | take_undo w hs i :
      hs !! i = Some Over →
      worker_step maxWorkers (w, hs) (AddInt32 w (-1), <[i := Outside]> hs)
  | take_succeeds w hs i :
      hs !! i = Some Outside → AddInt32 w 1 ≤ maxWorkers →
      worker_step maxWorkers (w, hs) (AddInt32 w 1, <[i := Holding]> hs)
  | free_step w hs i :
      hs !! i = Some Holding →
      worker_step maxWorkers (w, hs) (freeWorker w, <[i := Outside]> hs).

(** ** The extractor *)

Record ExtractorConfig := mkExtractorConfig {
  x_batchSize : Z;
  x_continuousPulseRetrievingHalfPulseSeconds : Z;
  x_maxWorkers : Z;
}.

(** The state its methods share; [x_goroutines] are the calls of
    [retrievePulses] that were started, the latest first. *)
Record PlatformExtractor := mkPlatformExtractor {
  x_cfg : ExtractorConfig;
  x_hasStarted : bool;
  x_workers : Z;
  x_goroutines : list (Z * Z);
}.

Definition NewPlatformExtractor (batchSize halfPulseSeconds maxWorkers : Z) : PlatformExtractor :=
  mkPlatformExtractor (mkExtractorConfig batchSize halfPulseSeconds maxWorkers) false 0 [].

Definition go_retrievePulses (from until : Z) (e : PlatformExtractor) : PlatformExtractor :=
  mkPlatformExtractor (x_cfg e) (x_hasStarted e) (x_workers e) ((from, until) :: x_goroutines e).

Definition set_started (b : bool) (e : PlatformExtractor) : PlatformExtractor :=
  mkPlatformExtractor (x_cfg e) b (x_workers e) (x_goroutines e).

Definition LoadJetDrops (from to : Z) (e : PlatformExtractor)
  : PlatformExtractor * option error := (go_retrievePulses from to e, None).

#[export] Instance PlatformExtractor_extractor : JetDropsExtractor PlatformExtractor := {|
  ex_LoadJetDrops := LoadJetDrops;
|}.

Definition Start (e : PlatformExtractor) : PlatformExtractor * option error :=
  (if x_hasStarted e then e else go_retrievePulses 0 0 (set_started true e), None).

Definition Stop (e : PlatformExtractor) : PlatformExtractor * option error :=
  (if x_hasStarted e then set_started false e else e, None).

Section extractor.
Context `{Platform, ExporterMessages}.

Definition isVersionError (err : error) : bool :=
  Contains (Error err) ErrDeprecatedClientVersion
  || Contains (Error err) "unknown heavy-version"
  || Contains (Error err) "unknown type client"
  || Contains (Error err) "incorrect format of the heavy-version".

Definition isRateLimitError (err : error) : bool := Contains (Error err) RateLimitExceededMsg.

(** ** The pulses of the platform: [platform_pulse.go] *)

(** [PlatformPulseExtractor]: what the two calls of its gRPC client answer. *)
Record PlatformPulseExtractor := mkPlatformPulseExtractor {
  client_TopSyncPulse : result Z;
  client_NextFinalizedPulse : Z → result FullPulse;
}.

(** The number comes with the error; it is 0 then. *)
Definition fetchCurrentPulse (ppe : PlatformPulseExtractor) : Z * option error :=
  match client_TopSyncPulse ppe with
  | Err err => (0, Some err)
  | Ok pulseNumber => (pulseNumber, None)
  end.

Definition GetCurrentPulse (ppe : PlatformPulseExtractor) : Z * option error :=
  fetchCurrentPulse ppe.

Definition GetNextFinalizedPulse (ppe : PlatformPulseExtractor) (p : Z) : result FullPulse :=
  match client_NextFinalizedPulse ppe p with
  | Err err => Err err
  | Ok ret => Ok ret
  end.

(** ** Actions *)

Inductive action :=
  | TakeWorker                                    (* e.takeWorker(), once it succeeds *)
  | FreeWorker                                    (* e.freeWorker() *)
  | ShutdownBE                                    (* e.shutdownBE() *)
  | Sleep (d : Z)                                 (* time.Sleep *)
  | Emit (d : PlatformPulseData)                  (* e.mainPulseDataChan <- d *)
  | CallRetrieve (pu : FullPulse) (skip : bool)   (* e.retrieveRecords(...) *)
  | GoRetrieve (pu : FullPulse).                  (* go e.retrieveRecords(...) *)

(** ** Retrieving the records of one pulse *)

(** What one turn of the inner loop finds: a cancelled context, or what
    [stream.Recv()] returns. *)
Inductive RecvEvent :=
  | RecvCancelled
  | RecvEOF
  | RecvErr (err : error)
  | RecvResp (resp : ExporterRecord).

(** What one turn of the outer loop finds: a cancelled context, or what
    [client.Export] returns. *)
Inductive Attempt :=
  | ExportCancelled
  | ExportErr (err : error)
  | ExportStream (evs : list RecvEvent).

(** How the inner loop ends; [StreamOpen]: it waits for the stream. *)
Inductive stream_end :=
  | StreamOpen (records : list ExporterRecord)
  | StreamReopen (records : list ExporterRecord)
  | StreamReturn
  | StreamWhole (records : list ExporterRecord) (iterateFrom : Z).

(** "next pulse packet". *)
Definition next_pulse_packet (pu : FullPulse) (resp : ExporterRecord) : bool :=
  bool_decide (er_ShouldIterateFrom resp ≠ None) || negb (ID_Pulse (er_ID resp) =? fp_PulseNumber pu).

Definition iterate_from (resp : ExporterRecord) : Z :=
  match er_ShouldIterateFrom resp with
  | Some n => n
  | None => ID_Pulse (er_ID resp)
  end.

(** The loop "per record in request". *)
Fixpoint read_stream (halfPulse : Z) (pu : FullPulse) (evs : list RecvEvent)
  (records : list ExporterRecord) : list action * stream_end :=
  match evs with
  | [] => ([], StreamOpen records)
  | RecvCancelled :: _ => ([], StreamReturn)
  | RecvEOF :: _ => ([], StreamReopen records)
  | RecvErr err :: _ =>
      if isRateLimitError err then ([Sleep halfPulse], StreamReopen records)
      else if Contains (Error err) ErrNotFinalPulseData || Contains (Error err) ErrNotFound
      then ([Sleep (int64 (halfPulse * 2))], StreamReopen records)
      else ([], StreamReturn)
  | RecvResp resp :: evs =>
      if next_pulse_packet pu resp
      then ([Emit (mkPlatformPulseData _ pu records)], StreamWhole records (iterate_from resp))
      else read_stream halfPulse pu evs (records ++ [resp])
  end.

(** How the loop "each portion" ends; [RecordsWait]: it waits for the network. *)
Inductive records_end :=
  | RecordsWait (records : list ExporterRecord)
  | RecordsReturn (nextPulse : option Z).

(** The loop "each portion"; an attempt is what [Export] answers to the record
    number of the request. *)
Fixpoint portions (halfPulse : Z) (pu : FullPulse) (attempts : list (Z → Attempt))
  (records : list ExporterRecord) : list action * records_end :=
  match attempts with
  | [] => ([], RecordsWait records)
  | attempt :: attempts =>
      match attempt (uint32 (Z.of_nat (length records))) with
      | ExportCancelled => ([], RecordsReturn None)
      | ExportErr err =>
          if isVersionError err then ([ShutdownBE], RecordsReturn None)
          else
            let '(acts, res) := portions halfPulse pu attempts records in
            ((if isRateLimitError err then Sleep halfPulse else Sleep Second) :: acts, res)
      | ExportStream evs =>
          let '(acts, se) := read_stream halfPulse pu evs records in
          match se with
          | StreamOpen records => (acts, RecordsWait records)
          | StreamReturn => (acts, RecordsReturn None)
          | StreamWhole _ iterateFrom => (acts, RecordsReturn (Some iterateFrom))
          | StreamReopen records =>
              let '(acts', res) := portions halfPulse pu attempts records in (acts ++ acts', res)
          end
      end
  end.

Definition halfPulse (e : ExtractorConfig) : Z :=
  int64 (x_continuousPulseRetrievingHalfPulseSeconds e * Second).

(** The deferred function runs when [retrieveRecords] returns. *)
Definition retrieveRecords (e : ExtractorConfig) (pu : FullPulse) (mainThread skipRequest : bool)
  (attempts : list (Z → Attempt)) : list action * records_end :=
  let deferred := if mainThread then [] else [FreeWorker] in
  if skipRequest
  then ([Emit (mkPlatformPulseData _ pu [])] ++ deferred, RecordsReturn None)
  else
    let '(acts, res) := portions (halfPulse e) pu attempts [] in
    match res with
    | RecordsWait _ => (acts, res)
    | RecordsReturn _ => (acts ++ deferred, res)
    end.

(** ** Walking over the pulses *)

(** What one turn of the loop finds: whether the context is cancelled, what
    [GetNextFinalizedPulse] answers to a pulse number, and what the platform
    answers to [retrieveRecords] of a pulse. *)
Record Turn := mkTurn {
  tn_cancelled : bool;
  tn_GetNextFinalizedPulse : Z → result FullPulse;
  tn_attempts : FullPulse → list (Z → Attempt);
}.

(** [pu] and [nextNotEmptyPulseNumber]. *)
Record Walk := mkWalk { wk_pu : FullPulse; wk_nextNotEmpty : option Z }.

(** How a turn ends: the next one follows, the goroutine returns (because of
    the context, a version error, or [until]), or it waits in [retrieveRecords]. *)
Inductive stop := StopCancelled | StopVersion | StopUntil.
#[export] Instance stop_eq_dec : EqDecision stop.
Proof. solve_decision. Defined.
Inductive turn_end :=
  | TurnNext (w : Walk)
  | TurnReturn (s : stop)
  | TurnWait.

(** A failed [GetNextFinalizedPulse]. *)
Definition pulse_error (e : ExtractorConfig) (mainThread : bool) (err : error) (w : Walk)
  : list action * turn_end :=
  let free := if mainThread then [] else [FreeWorker] in
  if isVersionError err then ([ShutdownBE], TurnReturn StopVersion)
  else if isRateLimitError err then (free ++ [Sleep (halfPulse e)], TurnNext w)
  else if Contains (Error err) ErrNotFound
  then (free ++ [Sleep (int64 (halfPulse e * 3))], TurnNext w)
  else (free ++ [Sleep Second], TurnNext w).

(** What a turn does with a new pulse: the end of the call it makes, if it makes
    one, and the number it remembers. *)
Definition take_pulse (e : ExtractorConfig) (mainThread : bool) (pu : FullPulse)
  (nextNotEmpty : option Z) (attempts : list (Z → Attempt))
  : list action * option (option Z) :=
  if negb mainThread && bool_decide (x_maxWorkers e ≤ 3) then
    if (match nextNotEmpty with None => true | Some n => n <=? fp_PulseNumber pu end) then
      let '(acts, res) := retrieveRecords e pu mainThread false attempts in
      (CallRetrieve pu false :: acts,
       match res with RecordsWait _ => None | RecordsReturn n => Some n end)
    else
      let '(acts, _) := retrieveRecords e pu mainThread true attempts in
      (CallRetrieve pu true :: acts, Some nextNotEmpty)
  else ([GoRetrieve pu], Some nextNotEmpty).

Definition pulses_turn (e : ExtractorConfig) (until : Z) (w : Walk) (t : Turn)
  : list action * turn_end :=
  let mainThread := until <=? 0 in
  if tn_cancelled t then ([], TurnReturn StopCancelled)
  else
    let take := if mainThread then [] else [TakeWorker] in
    let before := wk_pu w in
    let '(acts, te) :=
      match tn_GetNextFinalizedPulse t (fp_PulseNumber before) with
      | Err err => pulse_error e mainThread err w
      | Ok pu =>
          if fp_PulseNumber pu =? fp_PulseNumber before then
            (Sleep (halfPulse e) :: (if mainThread then [] else [FreeWorker]),
             TurnNext (mkWalk pu (wk_nextNotEmpty w)))
          else
            let '(acts, called) := take_pulse e mainThread pu (wk_nextNotEmpty w) (tn_attempts t pu) in
            match called with
            | None => (acts, TurnWait)
            | Some nextNotEmpty =>
                if mainThread
                then (acts ++ [Sleep (int64 (halfPulse e * 2))], TurnNext (mkWalk pu nextNotEmpty))
                else if uint32 until <=? fp_PulseNumber pu
                then (acts, TurnReturn StopUntil)
                else (acts, TurnNext (mkWalk pu nextNotEmpty))
            end
      end in
    (take ++ acts, te).

Fixpoint pulses_loop (e : ExtractorConfig) (until : Z) (turns : list Turn) (w : Walk)
  : list action * turn_end :=
  match turns with
  | [] => ([], TurnNext w)
  | t :: turns =>
      let '(acts, te) := pulses_turn e until w t in
      match te with
      | TurnNext w' => let '(acts', te') := pulses_loop e until turns w' in (acts ++ acts', te')
      | _ => (acts, te)
      end
  end.

(** [retrievePulses]. *)
Definition retrievePulses (e : ExtractorConfig) (from until : Z) (turns : list Turn)
  : list action * turn_end :=
  pulses_loop e until turns (mkWalk (mkFullPulse (uint32 from) 0 0 0 []) None).
End extractor.
