(* ===== verification/ExtractorProofs.v ===== *)
(** * What the extractor guarantees

    Against a platform that answers from one ledger, however often it
    interrupts, a pulse is handed over with exactly its records, a reloading
    goroutine visits exactly the pulses of its range, and no more than
    [maxWorkers] goroutines hold a worker, however their atomic additions
    interleave. *)

From S2P Require Import Prelude GoStd Platform RefPlatform Types Interfaces Controller Extractor.

(** ** The worker counter *)

Definition count (h : holder) (hs : list holder) : Z := Z.of_nat (length (filter (h =.) hs)).

Lemma count_cons h a hs : count h (a :: hs) = (if decide (h = a) then 1 else 0) + count h hs.
Proof. unfold count. rewrite filter_cons. repeat case_decide; subst; cbn; naive_solver lia. Qed.

Lemma count_insert h hs i a b :
  hs !! i = Some a →
  count h (<[i := b]> hs)
  = count h hs - (if decide (h = a) then 1 else 0) + (if decide (h = b) then 1 else 0).
Proof.
  revert i. induction hs as [|c hs IH]; intros [|i] Hi; [done..| |]; cbn in Hi.
  - injection Hi as ->. change (<[0%nat := b]> (a :: hs)) with (b :: hs).
    rewrite !count_cons. lia.
  - change (<[S i := b]> (c :: hs)) with (c :: <[i := b]> hs).
    rewrite !count_cons, (IH i Hi). lia.
Qed.

Lemma count_nonneg h hs : 0 ≤ count h hs.
Proof. unfold count. lia. Qed.

Lemma count_replicate n : count Holding (replicate n Outside) = 0 ∧ count Over (replicate n Outside) = 0.
Proof. induction n; [done|]. cbn [replicate]. by rewrite !count_cons. Qed.

Lemma count_total hs : count Outside hs + count Over hs + count Holding hs = Z.of_nat (length hs).
Proof.
  induction hs as [|h hs IH]; [done|]. rewrite !count_cons, length_cons, Nat2Z.inj_succ.
  destruct h; repeat case_decide; simplify_eq; lia.
Qed.

Lemma AddInt32_small w d : - 2 ^ 31 ≤ w + d < 2 ^ 31 → AddInt32 w d = w + d.
Proof. intros Hw. apply wrap_small; lia. Qed.

(** What holds between any two atomic additions. *)
Definition counter_ok (maxWorkers : Z) (n : nat) (s : Z * list holder) : Prop :=
  length s.2 = n ∧ s.1 = count Holding s.2 + count Over s.2 ∧ count Holding s.2 ≤ maxWorkers.

Lemma counter_ok_step maxWorkers n s s' :
  Z.of_nat n < 2 ^ 31 →
  counter_ok maxWorkers n s → worker_step maxWorkers s s' → counter_ok maxWorkers n s'.
Proof.
  intros Hn (Hlen & Hw & Hmax) Hstep. unfold counter_ok.
  destruct Hstep as [w hs i Hi Hgt|w hs i Hi|w hs i Hi Hle|w hs i Hi]; cbn in *;
    rewrite length_insert, !(count_insert _ _ _ _ _ Hi);
    pose proof (count_nonneg Over hs); pose proof (count_nonneg Holding hs);
    pose proof (count_total hs);
    pose proof (count_nonneg Outside (<[i := Over]> hs)) as Ho;
    rewrite (count_insert _ _ _ _ _ Hi) in Ho;
    pose proof (count_nonneg Outside hs); repeat case_decide; simplify_eq;
    unfold freeWorker in *; rewrite AddInt32_small in * by lia; lia.
Qed.

Lemma counter_ok_reachable maxWorkers n s :
  Z.of_nat n < 2 ^ 31 → 0 ≤ maxWorkers →
  rtc (worker_step maxWorkers) (0, replicate n Outside) s → counter_ok maxWorkers n s.
Proof.
  intros Hn Hmax. apply (rtc_ind_r (counter_ok maxWorkers n)).
  - pose proof (count_replicate n) as [Hh Ho]. unfold counter_ok. cbn -[count].
    rewrite length_replicate. lia.
  - intros s1 s2 _ Hstep IH. by eapply counter_ok_step.
Qed.

(** ** The ledger *)

Section ledger.
Context `{Platform, ExporterMessages}.

(** The records of each pulse, by its number. *)
Context (whole : Z → list ExporterRecord).

Definition emitted (acts : list action) : list PlatformPulseData :=
  omap (λ a, match a with Emit d => Some d | _ => None end) acts.

Definition whole_pulse (pu : FullPulse) : PlatformPulseData :=
  mkPlatformPulseData _ pu (whole (fp_PulseNumber pu)).

(** The records of a pulse look like records of this pulse. *)
Definition well_numbered (pu : FullPulse) : Prop :=
  Forall (λ r, next_pulse_packet pu r = false) (whole (fp_PulseNumber pu)) ∧
  Z.of_nat (length (whole (fp_PulseNumber pu))) < 2 ^ 32.

(** A packet that follows the records of [pu]: it belongs to another pulse, and
    no pulse before the one it points to has records. *)
Definition next_packet (pu : FullPulse) (nxt : ExporterRecord) : Prop :=
  next_pulse_packet pu nxt = true ∧
  ∀ q, fp_PulseNumber pu < q < iterate_from nxt → whole q = [].

Definition responses (evs : list RecvEvent) : list ExporterRecord :=
  omap (λ ev, match ev with RecvResp r => Some r | _ => None end) evs.

(** The platform answers from the ledger: a stream carries what follows the
    record number of the request, in order, up to where it breaks off. *)
Definition serves (pu : FullPulse) (attempt : Z → Attempt) : Prop :=
  ∀ k evs, attempt k = ExportStream evs →
  ∃ nxt, next_packet pu nxt ∧
         responses evs `prefix_of` drop (Z.to_nat k) (whole (fp_PulseNumber pu)) ++ [nxt].

(** ** One pulse *)

Lemma read_stream_serves half pu evs records rest nxt :
  Forall (λ r, next_pulse_packet pu r = false) rest → next_packet pu nxt →
  responses evs `prefix_of` rest ++ [nxt] →
  match read_stream half pu evs records with
  | (acts, StreamOpen r) | (acts, StreamReopen r) =>
      emitted acts = [] ∧ ∃ rest', records ++ rest = r ++ rest'
  | (acts, StreamReturn) => emitted acts = []
  | (acts, StreamWhole r n) =>
      emitted acts = [mkPlatformPulseData _ pu (records ++ rest)] ∧ n = iterate_from nxt
  end.
Proof.
  intros Hrest Hnxt. revert records rest Hrest.
  induction evs as [|[| |err|resp] evs IH]; intros records rest Hrest Hpre; cbn -[responses] in *.
  1-3: naive_solver.
  - destruct (isRateLimitError err); [naive_solver|].
    destruct (_ || _); naive_solver.
  - cbn in Hpre. destruct rest as [|r rest].
    + apply prefix_cons_inv_1 in Hpre as ->. destruct Hnxt as [-> _].
      cbn. by rewrite app_nil_r.
    + apply Forall_cons in Hrest as [Hr Hrest]. pose proof (prefix_cons_inv_1 _ _ _ _ Hpre) as ->.
      apply prefix_cons_inv_2 in Hpre. rewrite Hr.
      specialize (IH (records ++ [r]) rest Hrest Hpre). by rewrite <- app_assoc in IH.
Qed.

(** What [portions] has handed over by the time it ends or waits. *)
Definition handed_over (pu : FullPulse) (out : list action * records_end) : Prop :=
  match out.2 with
  | RecordsReturn (Some n) =>
      emitted out.1 = [whole_pulse pu] ∧ ∀ q, fp_PulseNumber pu < q < n → whole q = []
  | _ => emitted out.1 = []
  end.

Lemma emitted_app a b : emitted (a ++ b) = emitted a ++ emitted b.
Proof. apply omap_app. Qed.

Lemma handed_over_after pu acts out :
  emitted acts = [] → handed_over pu out → handed_over pu (acts ++ out.1, out.2).
Proof.
  intros Hacts. unfold handed_over. cbn. rewrite emitted_app, Hacts. by destruct out as [? [|[]]].
Qed.

(** The request asks for what is still missing. *)
Lemma serves_rest pu attempt records rest evs :
  well_numbered pu → whole (fp_PulseNumber pu) = records ++ rest → serves pu attempt →
  attempt (uint32 (Z.of_nat (length records))) = ExportStream evs →
  Forall (λ r, next_pulse_packet pu r = false) rest ∧
  ∃ nxt, next_packet pu nxt ∧ responses evs `prefix_of` rest ++ [nxt].
Proof.
  intros [Hall Hlen] Hw Hserves Hevs. rewrite Hw in Hall, Hlen. rewrite length_app in Hlen.
  apply Forall_app in Hall as [_ Hall]. split; [done|].
  destruct (Hserves _ _ Hevs) as (nxt & Hnxt & Hpre). exists nxt. split; [done|].
  unfold uint32 in Hpre. rewrite Z.mod_small, Nat2Z.id, Hw, drop_app_length in Hpre by lia.
  done.
Qed.

Lemma portions_handed_over half pu attempts records rest :
  well_numbered pu → Forall (serves pu) attempts →
  whole (fp_PulseNumber pu) = records ++ rest →
  handed_over pu (portions half pu attempts records).
Proof.
  intros Hwell Hserves. revert records rest.
  induction Hserves as [|a attempts Ha _ IH]; intros records rest Hw; [done|]. cbn.
  destruct (a _) as [|err|evs] eqn:Hevs; [done| |].
  - destruct (isVersionError err); [done|].
    specialize (IH _ _ Hw). destruct (portions _ _ _ _) as [acts res].
    apply (handed_over_after pu [if isRateLimitError err then _ else _] (acts, res)); [|done].
    by destruct (isRateLimitError err).
  - destruct (serves_rest _ _ _ _ _ Hwell Hw Ha Hevs) as (Hrest & nxt & Hnxt & Hpre).
    pose proof (read_stream_serves half _ _ records _ _ Hrest Hnxt Hpre) as Hread.
    destruct (read_stream _ _ _ _) as [acts [r|r| |r n]]; unfold handed_over; cbn.
    + apply Hread.
    + destruct Hread as [Hacts [rest' Hr]]. specialize (IH r rest' ltac:(congruence)).
      destruct (portions _ _ _ _) as [acts' res]. by apply (handed_over_after _ _ (acts', res)).
    + done.
    + destruct Hread as [Hacts ->]. rewrite <- Hw in Hacts. split; [exact Hacts|apply Hnxt].
Qed.

(** An end of a stream after which the code asks again. *)
Definition transient (ev : RecvEvent) : Prop :=
  match ev with
  | RecvEOF => True
  | RecvErr err =>
      isRateLimitError err
      || (Contains (Error err) ErrNotFinalPulseData || Contains (Error err) ErrNotFound) = true
  | _ => False
  end.

Definition broken_off (attempt : Z → Attempt) (k : Z) (rs : list ExporterRecord) : Prop :=
  ∃ ev, attempt k = ExportStream ((RecvResp <$> rs) ++ [ev]) ∧ transient ev.

(** An attempt that may bring no progress but does no harm, and one that brings
    at least one packet. *)
Definition harmless (attempt : Z → Attempt) : Prop :=
  ∀ k, (∃ err, attempt k = ExportErr err ∧ isVersionError err = false) ∨
       ∃ rs, broken_off attempt k rs.
Definition productive (pu : FullPulse) (attempt : Z → Attempt) : Prop :=
  ∀ k, 0 ≤ k ≤ Z.of_nat (length (whole (fp_PulseNumber pu))) →
  ∃ rs, broken_off attempt k rs ∧ rs ≠ [].

Lemma responses_broken_off rs ev : transient ev → responses ((RecvResp <$> rs) ++ [ev]) = rs.
Proof.
  intros Hev. induction rs as [|r rs IH]; [by destruct ev|]. cbn. by f_equal.
Qed.

Lemma read_stream_transient half pu rs ev records rest nxt :
  Forall (λ r, next_pulse_packet pu r = false) rest → next_packet pu nxt → transient ev →
  rs `prefix_of` rest ++ [nxt] →
  (∃ acts rest', read_stream half pu ((RecvResp <$> rs) ++ [ev]) records
      = (acts, StreamReopen (records ++ rs)) ∧ rest = rs ++ rest') ∨
  (∃ acts n, read_stream half pu ((RecvResp <$> rs) ++ [ev]) records
      = (acts, StreamWhole (records ++ rest) n)).
Proof.
  intros Hrest Hnxt Hev. revert records rest Hrest.
  induction rs as [|resp rs IH]; intros records rest Hrest Hpre.
  - left. rewrite app_nil_r. destruct ev as [| |err|]; [done|by do 2 eexists| |done].
    cbn in Hev |- *. destruct (isRateLimitError err); [by do 2 eexists|].
    cbn in Hev. rewrite Hev. by do 2 eexists.
  - cbn. destruct rest as [|r rest].
    + apply prefix_cons_inv_1 in Hpre as ->. destruct Hnxt as [-> _]. right.
      rewrite app_nil_r. by do 2 eexists.
    + apply Forall_cons in Hrest as [Hr Hrest]. pose proof (prefix_cons_inv_1 _ _ _ _ Hpre) as ->.
      apply prefix_cons_inv_2 in Hpre. rewrite Hr.
      destruct (IH (records ++ [r]) rest Hrest Hpre) as [(acts & rest' & -> & ->)|(acts & n & ->)].
      * left. exists acts, rest'. by rewrite <- app_assoc.
      * right. exists acts, n. by rewrite <- app_assoc.
Qed.

(** An attempt that breaks off leaves the records it brought. *)
Lemma portions_step half pu a records rest rs :
  well_numbered pu → serves pu a → whole (fp_PulseNumber pu) = records ++ rest →
  broken_off a (uint32 (Z.of_nat (length records))) rs →
  (∃ n, ∀ attempts, (portions half pu (a :: attempts) records).2 = RecordsReturn (Some n)) ∨
  (∃ rest', rest = rs ++ rest' ∧ ∀ attempts,
     (portions half pu (a :: attempts) records).2 = (portions half pu attempts (records ++ rs)).2).
Proof.
  intros Hwell Ha Hw (ev & Hevs & Hev).
  destruct (serves_rest _ _ _ _ _ Hwell Hw Ha Hevs) as (Hrest & nxt & Hnxt & Hpre).
  rewrite responses_broken_off in Hpre by done. cbn [portions]. rewrite Hevs.
  destruct (read_stream_transient half pu rs ev records rest nxt Hrest Hnxt Hev Hpre)
    as [(acts & rest' & -> & ->)|(acts & n & ->)]; [|left; by exists n].
  right. exists rest'. split; [done|]. intros attempts. by destruct (portions _ _ _ _).
Qed.

Lemma portions_complete half pu attempts ps records rest :
  well_numbered pu → Forall (serves pu) attempts → Forall harmless attempts →
  ps `sublist_of` attempts → Forall (productive pu) ps →
  whole (fp_PulseNumber pu) = records ++ rest → (length rest < length ps)%nat →
  ∃ n, (portions half pu attempts records).2 = RecordsReturn (Some n).
Proof.
  intros Hwell Hserves. revert ps records rest.
  induction Hserves as [|a attempts Ha _ IH]; intros ps records rest Hharm Hsub Hprod Hw Hlen.
  { apply sublist_nil_r in Hsub as ->. cbn in Hlen. lia. }
  apply Forall_cons in Hharm as [Hharm Hharms].
  apply sublist_cons_r in Hsub as [Hsub|(ps' & -> & Hsub)].
  - destruct (Hharm (uint32 (Z.of_nat (length records)))) as [(err & Herr & Hv)|(rs & Hrs)].
    + cbn. rewrite Herr, Hv. destruct (IH _ _ _ Hharms Hsub Hprod Hw Hlen) as [n Hn].
      exists n. by destruct (portions _ _ _ _).
    + destruct (portions_step half _ _ _ _ _ Hwell Ha Hw Hrs) as [[n Hn]|(rest' & -> & ->)];
        [by exists n|]. apply (IH ps (records ++ rs) rest'); [done..|by rewrite <- app_assoc|].
      rewrite length_app in Hlen. lia.
  - apply Forall_cons in Hprod as [Hp Hprod].
    destruct (Hp (uint32 (Z.of_nat (length records)))) as (rs & Hrs & Hne).
    { destruct Hwell as [_ Hsize]. rewrite Hw, length_app in *. unfold uint32.
      rewrite Z.mod_small by lia. lia. }
    destruct (portions_step half _ _ _ _ _ Hwell Ha Hw Hrs) as [[n Hn]|(rest' & -> & ->)];
      [by exists n|]. apply (IH ps' (records ++ rs) rest'); [done..|by rewrite <- app_assoc|].
    rewrite length_app in Hlen. cbn in Hlen. destruct rs; [done|]. cbn in Hlen. lia.
Qed.

(** A stream of the pulse's own records that breaks off in any other way. *)
Definition breaks_badly (pu : FullPulse) (err : error) (attempt : Z → Attempt) : Prop :=
  ¬ transient (RecvErr err) ∧
  ∀ k, ∃ rs, Forall (λ r, next_pulse_packet pu r = false) rs ∧
    attempt k = ExportStream ((RecvResp <$> rs) ++ [RecvErr err]).

Lemma read_stream_breaks half pu err rs records :
  Forall (λ r, next_pulse_packet pu r = false) rs → ¬ transient (RecvErr err) →
  read_stream half pu ((RecvResp <$> rs) ++ [RecvErr err]) records = ([], StreamReturn).
Proof.
  intros Hrs Herr. revert records. induction Hrs as [|r rs Hr _ IH]; intros records; cbn.
  - cbn in Herr. destruct (isRateLimitError err); [done|].
    by destruct (_ || _).
  - by rewrite Hr.
Qed.

(** Harmless attempts that have not brought the whole pulse leave it to the ones
    that follow. *)
Lemma portions_harmless half pu pre post records rest :
  well_numbered pu → Forall (serves pu) pre → Forall harmless pre →
  whole (fp_PulseNumber pu) = records ++ rest →
  (∃ n, (portions half pu pre records).2 = RecordsReturn (Some n)) ∨
  ∃ records', (portions half pu (pre ++ post) records).2 = (portions half pu post records').2.
Proof.
  intros Hwell Hserves. revert records rest.
  induction Hserves as [|a pre Ha _ IH]; intros records rest Hharm Hw; [right; by exists records|].
  apply Forall_cons in Hharm as [Hharm Hharms].
  destruct (Hharm (uint32 (Z.of_nat (length records)))) as [(err & Herr & Hv)|(rs & Hrs)].
  - cbn. rewrite Herr, Hv. destruct (IH _ _ Hharms Hw) as [[n Hn]|[records' Hr]].
    + left. exists n. by destruct (portions _ _ pre _).
    + right. exists records'. by destruct (portions _ _ (pre ++ post) _).
  - destruct (portions_step half _ _ _ _ _ Hwell Ha Hw Hrs) as [[n Hn]|(rest' & -> & Heq)].
    + left. exists n. apply Hn.
    + cbn [app]. rewrite !Heq. apply (IH (records ++ rs) rest'); [done|by rewrite <- app_assoc].
Qed.

Lemma portions_breaks half pu err bad post records :
  breaks_badly pu err bad → portions half pu (bad :: post) records = ([], RecordsReturn None).
Proof.
  intros [Herr Hbad]. destruct (Hbad (uint32 (Z.of_nat (length records)))) as (rs & Hrs & Hevs).
  cbn [portions]. by rewrite Hevs, read_stream_breaks.
Qed.

(** The deferred function adds nothing to the channel. *)
Lemma retrieveRecords_portions e pu mainThread attempts :
  emitted (retrieveRecords e pu mainThread false attempts).1
  = emitted (portions (halfPulse e) pu attempts []).1 ∧
  (retrieveRecords e pu mainThread false attempts).2
  = (portions (halfPulse e) pu attempts []).2.
Proof.
  unfold retrieveRecords. destruct (portions _ _ _ _) as [acts [r|n]]; cbn -[emitted]; [done|].
  rewrite emitted_app. destruct mainThread; cbn; by rewrite ?app_nil_r.
Qed.

Lemma retrieveRecords_handed_over e pu mainThread attempts :
  well_numbered pu → Forall (serves pu) attempts →
  handed_over pu (retrieveRecords e pu mainThread false attempts).
Proof.
  intros Hwell Hserves.
  pose proof (portions_handed_over (halfPulse e) pu attempts [] _ Hwell Hserves eq_refl) as Hp.
  destruct (retrieveRecords_portions e pu mainThread attempts) as [He Hr].
  unfold handed_over in *. by rewrite He, Hr.
Qed.

(** ** Walking over the pulses *)

(** The pulses a goroutine asks for, in order. *)
Definition visited (acts : list action) : list FullPulse :=
  omap (λ a, match a with CallRetrieve pu _ | GoRetrieve pu => Some pu | _ => None end) acts.

(** How many workers the actions keep: a started goroutine gives its worker back
    when it ends, so it counts as returned. *)
Definition kept (acts : list action) : Z :=
  foldr (λ a n, match a with TakeWorker => 1 | FreeWorker | GoRetrieve _ => -1 | _ => 0 end + n)
    0 acts.

Lemma visited_app a b : visited (a ++ b) = visited a ++ visited b.
Proof. apply omap_app. Qed.
Lemma kept_app a b : kept (a ++ b) = kept a + kept b.
Proof. unfold kept. induction a as [|x a IH]; [done|]. cbn. rewrite IH. lia. Qed.

(** Actions that neither ask for a pulse nor touch the workers. *)
Definition inert (a : action) : Prop :=
  match a with Sleep _ | Emit _ | ShutdownBE => True | _ => False end.

Lemma inert_none acts : Forall inert acts → visited acts = [] ∧ kept acts = 0.
Proof.
  induction 1 as [|a acts Ha _ [IHv IHk]]; [done|]. unfold visited, kept in *. cbn.
  rewrite IHk. by destruct a.
Qed.

Lemma read_stream_inert half pu evs records : Forall inert (read_stream half pu evs records).1.
Proof.
  revert records. induction evs as [|[| |err|r] evs IH]; intros records; cbn; [by constructor..| |].
  - repeat case_match; repeat constructor.
  - case_match; [repeat constructor|apply IH].
Qed.

Lemma portions_inert half pu attempts records : Forall inert (portions half pu attempts records).1.
Proof.
  revert records. induction attempts as [|a attempts IH]; intros records; cbn; [by constructor|].
  destruct (a _) as [|err|evs]; [by constructor| |].
  - destruct (isVersionError err); [repeat constructor|].
    specialize (IH records). destruct (portions _ _ _ _). cbn. constructor; [|done].
    by destruct (isRateLimitError err).
  - pose proof (read_stream_inert half pu evs records) as Hs.
    destruct (read_stream _ _ _ _) as [acts [r|r| |r n]]; [done| |done..].
    specialize (IH r). destruct (portions _ _ _ _). by apply Forall_app.
Qed.

Lemma retrieveRecords_actions e pu mainThread skip attempts :
  let out := retrieveRecords e pu mainThread skip attempts in
  visited out.1 = [] ∧
  kept out.1 = match out.2 with
               | RecordsReturn _ => if mainThread then 0 else -1
               | RecordsWait _ => 0
               end.
Proof.
  intros out. unfold out, retrieveRecords. clear out. destruct skip; [by destruct mainThread|].
  pose proof (portions_inert (halfPulse e) pu attempts []) as Hi. apply inert_none in Hi as [Hv Hk].
  destruct (portions _ _ _ _) as [acts [r|n]]; cbn [fst snd] in *; [done|].
  by rewrite visited_app, kept_app, Hv, Hk; destruct mainThread.
Qed.

(** The pulses that are or will be final, in order. *)
Context (finalized : list FullPulse).
Context (finalized_sorted : StronglySorted (λ p q, fp_PulseNumber p < fp_PulseNumber q) finalized).

Definition due (n : Z) : list FullPulse := filter (λ p, n < fp_PulseNumber p) finalized.

(** The service answers with the first final pulse above the number, or with the
    pulse of that number when it knows no later one. *)
Definition answers (t : Turn) : Prop :=
  ∀ n p, tn_GetNextFinalizedPulse t n = Ok p → fp_PulseNumber p = n ∨ head (due n) = Some p.

Lemma due_next n p : head (due n) = Some p → due n = p :: due (fp_PulseNumber p).
Proof using finalized_sorted.
  unfold due. induction finalized_sorted as [|q l Hl IH Hq]; [done|].
  rewrite (filter_cons _ q l). case_decide as Hn.
  - cbn [head]. intros [= ->]. f_equal. rewrite filter_cons, decide_False by lia.
    clear -Hq Hn. induction Hq as [|r l Hr _ IH]; [done|].
    rewrite !filter_cons, !decide_True by lia. by f_equal.
  - intros Hp. rewrite IH by done. rewrite filter_cons, decide_False; [done|].
    assert (p ∈ filter (λ p, n < fp_PulseNumber p) l) as Hin by (apply head_Some_elem_of, Hp).
    apply list_elem_of_filter in Hin as [_ Hin]. rewrite Forall_forall in Hq.
    specialize (Hq p Hin). lia.
Qed.

Lemma due_head n p : head (due n) = Some p → n < fp_PulseNumber p.
Proof.
  intros Hp. apply head_Some_elem_of in Hp. by apply list_elem_of_filter in Hp as [? _].
Qed.

(** What one turn of a reloading goroutine does. *)
Definition turn_spec (until : Z) (w : Walk) (out : list action * turn_end) : Prop :=
  let next p := head (due (fp_PulseNumber (wk_pu w))) = Some p in
  match out.2 with
  | TurnNext w' =>
      kept out.1 = 0 ∧
      ((visited out.1 = [] ∧ fp_PulseNumber (wk_pu w') = fp_PulseNumber (wk_pu w)) ∨
       (visited out.1 = [wk_pu w'] ∧ next (wk_pu w') ∧ fp_PulseNumber (wk_pu w') < until))
  | TurnReturn StopUntil =>
      kept out.1 = 0 ∧ ∃ p, visited out.1 = [p] ∧ next p ∧ until ≤ fp_PulseNumber p
  | TurnReturn StopCancelled => kept out.1 = 0 ∧ visited out.1 = []
  | TurnReturn StopVersion => kept out.1 = 1 ∧ visited out.1 = []
  | TurnWait => kept out.1 = 1 ∧ ∃ p, visited out.1 = [p] ∧ next p
  end.

Lemma take_pulse_actions e pu nextNotEmpty attempts :
  let out := take_pulse e false pu nextNotEmpty attempts in
  visited out.1 = [pu] ∧ kept out.1 = match out.2 with Some _ => -1 | None => 0 end.
Proof.
  intros out. unfold out, take_pulse. clear out. case_match; [|done].
  destruct nextNotEmpty as [n|]; [destruct (n <=? fp_PulseNumber pu)|].
  2: { pose proof (retrieveRecords_actions e pu false true attempts) as [Hv Hk].
       split; [exact (f_equal (cons pu) Hv)|exact Hk]. }
  all: pose proof (retrieveRecords_actions e pu false false attempts) as [Hv Hk];
    destruct (retrieveRecords _ _ _ _ _) as [acts [r|n']]; cbn [fst snd] in *;
    (split; [exact (f_equal (cons pu) Hv)|exact Hk]).
Qed.

Lemma pulses_turn_spec e until w t :
  0 < until < 2 ^ 32 → answers t → turn_spec until w (pulses_turn e until w t).
Proof.
  intros Hu Ht. unfold pulses_turn. rewrite (proj2 (Z.leb_gt until 0)) by lia.
  destruct (tn_cancelled t); [done|].
  destruct (tn_GetNextFinalizedPulse t _) as [pu|err] eqn:Hget.
  - destruct (Z.eqb_spec (fp_PulseNumber pu) (fp_PulseNumber (wk_pu w))) as [Heq|Hne]; [by repeat constructor|].
    destruct (Ht _ _ Hget) as [?|Hnext]; [done|].
    pose proof (take_pulse_actions e pu (wk_nextNotEmpty w) (tn_attempts t pu)) as [Hv Hk].
    destruct (take_pulse _ _ _ _ _) as [acts [n|]]; cbn [fst snd] in *.
    + unfold uint32. rewrite Z.mod_small by lia.
      destruct (Z.leb_spec until (fp_PulseNumber pu)); unfold turn_spec; cbn [fst snd];
        rewrite visited_app, kept_app, Hv, Hk; eauto.
    + unfold turn_spec. cbn [fst snd]. rewrite visited_app, kept_app, Hv, Hk. eauto.
  - unfold pulse_error. destruct (isVersionError err); [done|].
    destruct (isRateLimitError err); [by repeat constructor|].
    destruct (Contains _ _); by repeat constructor.
Qed.

(** The pulses a reloading goroutine has visited are the first ones it is due,
    and all but the last lie before [until]. *)
Definition visits_in_order (until : Z) (from : Z) (out : list action * turn_end) : Prop :=
  (∃ rest, due from = visited out.1 ++ rest) ∧
  match out.2 with
  | TurnReturn StopUntil =>
      ∃ ps p, visited out.1 = ps ++ [p] ∧ Forall (λ q, fp_PulseNumber q < until) ps ∧
              until ≤ fp_PulseNumber p
  | TurnWait => ∃ ps p, visited out.1 = ps ++ [p] ∧ Forall (λ q, fp_PulseNumber q < until) ps
  | _ => Forall (λ q, fp_PulseNumber q < until) (visited out.1)
  end ∧
  kept out.1 = match out.2 with TurnReturn StopVersion | TurnWait => 1 | _ => 0 end.

Lemma visits_in_order_skip until n acts out :
  visited acts = [] → kept acts = 0 → visits_in_order until n out →
  visits_in_order until n (acts ++ out.1, out.2).
Proof.
  intros Hv Hk. unfold visits_in_order. cbn [fst snd]. by rewrite visited_app, kept_app, Hv, Hk.
Qed.

Lemma visits_in_order_visit until n p acts out :
  visited acts = [p] → kept acts = 0 → head (due n) = Some p → fp_PulseNumber p < until →
  visits_in_order until (fp_PulseNumber p) out →
  visits_in_order until n (acts ++ out.1, out.2).
Proof using finalized_sorted.
  intros Hv Hk Hnext Hp ((rest & Hrest) & Hend & Hkept). unfold visits_in_order. cbn [fst snd].
  rewrite visited_app, kept_app, Hv, Hk. rewrite (due_next _ _ Hnext), Hrest.
  split; [by exists rest|]. split; [|done].
  destruct out.2 as [|[]|]; cbn [app].
  - by constructor.
  - by constructor.
  - by constructor.
  - destruct Hend as (ps & q & -> & Hps & Hq). exists (p :: ps), q. by repeat constructor.
  - destruct Hend as (ps & q & -> & Hps). exists (p :: ps), q. by repeat constructor.
Qed.

Lemma pulses_loop_visits e until turns w :
  0 < until < 2 ^ 32 → Forall answers turns →
  visits_in_order until (fp_PulseNumber (wk_pu w)) (pulses_loop e until turns w).
Proof using finalized_sorted.
  intros Hu Hall. revert w. induction Hall as [|t turns Ht _ IH]; intros w.
  { split; [by eexists|]. by repeat constructor. }
  cbn [pulses_loop]. pose proof (pulses_turn_spec e until w t Hu Ht) as Hturn.
  destruct (pulses_turn _ _ _ _) as [acts [w'|[]|]]; unfold turn_spec in Hturn; cbn [fst snd] in Hturn.
  - specialize (IH w'). destruct (pulses_loop _ _ _ _) as [acts' te'].
    destruct Hturn as [Hk [[Hv Heq]|(Hv & Hnext & Hlt)]].
    + rewrite Heq in IH. by apply (visits_in_order_skip _ _ _ (acts', te')).
    + by apply (visits_in_order_visit _ _ (wk_pu w') _ (acts', te')).
  - destruct Hturn as [Hk Hv]. unfold visits_in_order. cbn [fst snd]. rewrite Hv. by eauto.
  - destruct Hturn as [Hk Hv]. unfold visits_in_order. cbn [fst snd]. rewrite Hv. by eauto.
  - destruct Hturn as (Hk & p & Hv & Hnext & Hp). unfold visits_in_order. cbn [fst snd].
    rewrite Hv, (due_next _ _ Hnext). split; [by eexists|]. split; [|done]. by exists [], p.
  - destruct Hturn as (Hk & p & Hv & Hnext). unfold visits_in_order. cbn [fst snd].
    rewrite Hv, (due_next _ _ Hnext). split; [by eexists|]. split; [|done]. by exists [], p.
Qed.

(** ** What a walk hands over *)

(** No pulse between the last one and the one the code remembers has records. *)
Definition gap (w : Walk) : Prop :=
  ∀ n q, wk_nextNotEmpty w = Some n → fp_PulseNumber (wk_pu w) < q < n → whole q = [].

(** Pulses handed over with exactly their records, in the order of the visits. *)
Definition hands_over (acts : list action) : Prop :=
  ∃ ps, emitted acts = whole_pulse <$> ps ∧ ps `sublist_of` visited acts.

Lemma hands_over_app a b : hands_over a → hands_over b → hands_over (a ++ b).
Proof.
  intros (ps & Hps & Hs) (qs & Hqs & Ht). exists (ps ++ qs).
  rewrite emitted_app, visited_app, Hps, Hqs, fmap_app. split; [done|by apply sublist_app].
Qed.

Lemma hands_over_silent acts : emitted acts = [] → hands_over acts.
Proof. intros He. exists []. rewrite He. split; [done|apply sublist_nil_l]. Qed.

Lemma take_pulse_hands_over e mainThread pu w attempts :
  well_numbered pu → Forall (serves pu) attempts → gap w →
  fp_PulseNumber (wk_pu w) < fp_PulseNumber pu →
  let out := take_pulse e mainThread pu (wk_nextNotEmpty w) attempts in
  hands_over out.1 ∧ ∀ n, out.2 = Some n → gap (mkWalk pu n).
Proof.
  intros Hwell Hserves Hgap Hlt out. unfold out, take_pulse. clear out.
  assert (gap (mkWalk pu (wk_nextNotEmpty w))) as Hkeep.
  { intros n q Hn Hq. cbn in *. apply (Hgap n q Hn). lia. }
  case_match; [|split; [by apply hands_over_silent|by intros n [= <-]]].
  destruct (match wk_nextNotEmpty w with None => true | Some n => n <=? fp_PulseNumber pu end) eqn:Hask.
  - pose proof (retrieveRecords_handed_over e pu mainThread attempts Hwell Hserves) as Hho.
    pose proof (retrieveRecords_actions e pu mainThread false attempts) as [Hv _].
    destruct (retrieveRecords _ _ _ _ _) as [acts [r|[n|]]]; unfold handed_over in Hho;
      cbn [fst snd] in *.
    + split; [by apply (hands_over_silent (CallRetrieve pu false :: acts))|done].
    + destruct Hho as [He Hn]. split.
      * exists [pu]. split; [exact He|]. apply sublist_skip, sublist_nil_l.
      * intros ? [= <-] m q [= <-] Hq. by apply Hn.
    + split; [by apply (hands_over_silent (CallRetrieve pu false :: acts))|].
      by intros n [= <-].
  - destruct (wk_nextNotEmpty w) as [n|] eqn:Hn; [|done]. apply Z.leb_gt in Hask.
    split; [|by intros ? [= <-]]. exists [pu]. unfold retrieveRecords. cbn [fst snd].
    split; [|apply sublist_skip, sublist_nil_l].
    change (whole_pulse <$> [pu]) with [mkPlatformPulseData _ pu (whole (fp_PulseNumber pu))].
    rewrite (Hgap n _ Hn) by done. by destruct mainThread.
Qed.

Lemma pulses_turn_hands_over e until w t :
  Forall well_numbered finalized → answers t →
  (∀ pu, pu ∈ finalized → Forall (serves pu) (tn_attempts t pu)) → gap w →
  let out := pulses_turn e until w t in
  hands_over out.1 ∧ ∀ w', out.2 = TurnNext w' → gap w'.
Proof.
  intros Hwell Ht Hserves Hgap out. unfold out, pulses_turn. clear out.
  destruct (tn_cancelled t); [by split; [apply hands_over_silent|]|].
  destruct (tn_GetNextFinalizedPulse t _) as [pu|err] eqn:Hget.
  2: { unfold pulse_error. repeat (case_match; simplify_eq);
       (split; [by apply hands_over_silent|by intros ? [= <-]]). }
  destruct (Z.eqb_spec (fp_PulseNumber pu) (fp_PulseNumber (wk_pu w))) as [Heq|Hne].
  { split; [by destruct (until <=? 0); apply hands_over_silent|]. intros ? [= <-] n q Hn Hq.
    apply (Hgap n q Hn). cbn in Hq. lia. }
  destruct (Ht _ _ Hget) as [?|Hnext]; [done|].
  pose proof (due_head _ _ Hnext) as Hlt.
  assert (pu ∈ finalized) as Hin.
  { apply head_Some_elem_of in Hnext. by apply list_elem_of_filter in Hnext as [_ ?]. }
  pose proof (take_pulse_hands_over e (until <=? 0) pu w (tn_attempts t pu)
    (proj1 (Forall_forall _ _) Hwell _ Hin) (Hserves _ Hin) Hgap Hlt) as [Hho Hnxt].
  destruct (take_pulse _ _ _ _ _) as [acts called]. cbn [fst snd] in *.
  assert (∀ l, emitted l = [] → hands_over ((if until <=? 0 then [] else [TakeWorker]) ++ acts ++ l)) as Hall.
  { intros l Hl. repeat apply hands_over_app; [|done|by apply hands_over_silent].
    by destruct (until <=? 0); apply hands_over_silent. }
  destruct called as [n|].
  - destruct (until <=? 0); [split; [by apply Hall|intros ? [= <-]; by apply Hnxt]|].
    destruct (uint32 until <=? _); (split; [by rewrite <- (app_nil_r acts); apply Hall|]); [done|].
    intros ? [= <-]. by apply Hnxt.
  - split; [|done]. rewrite <- (app_nil_r acts). by apply Hall.
Qed.

Lemma pulses_loop_hands_over e until turns w :
  Forall well_numbered finalized → Forall answers turns →
  Forall (λ t, ∀ pu, pu ∈ finalized → Forall (serves pu) (tn_attempts t pu)) turns → gap w →
  hands_over (pulses_loop e until turns w).1.
Proof.
  intros Hwell Hall Hserves. revert w.
  induction Hall as [|t turns Ht _ IH]; intros w Hgap; [by apply hands_over_silent|].
  apply Forall_cons in Hserves as [Hs Hserves]. cbn [pulses_loop].
  destruct (pulses_turn_hands_over e until w t Hwell Ht Hs Hgap) as [Hho Hnxt].
  destruct (pulses_turn _ _ _ _) as [acts [w'|s|]]; cbn [fst snd] in *; [|done..].
  specialize (IH Hserves w' (Hnxt w' eq_refl)).
  destruct (pulses_loop _ _ _ _) as [acts' te']. by apply hands_over_app.
Qed.

(** ** A walk ends *)

(** A turn that does not stop the goroutine, and one that finds the next final
    pulse. *)
Definition harmless_turn (e : ExtractorConfig) (t : Turn) : Prop :=
  tn_cancelled t = false ∧
  (∀ n err, tn_GetNextFinalizedPulse t n = Err err → isVersionError err = false) ∧
  ∀ pu, ∃ n, (retrieveRecords e pu false false (tn_attempts t pu)).2 = RecordsReturn n.
Definition ready_turn (t : Turn) : Prop :=
  ∀ n p, head (due n) = Some p → tn_GetNextFinalizedPulse t n = Ok p.

Lemma take_pulse_returns e pu nextNotEmpty attempts :
  (∃ n, (retrieveRecords e pu false false attempts).2 = RecordsReturn n) →
  ∃ n, (take_pulse e false pu nextNotEmpty attempts).2 = Some n.
Proof.
  intros [n Hn]. unfold take_pulse. case_match; [|by eexists].
  destruct (match nextNotEmpty with None => true | Some n => n <=? fp_PulseNumber pu end).
  - destruct (retrieveRecords _ _ _ _ _) as [acts res]. cbn in *. subst. by eexists.
  - destruct (retrieveRecords _ _ _ _ _). by eexists.
Qed.

Lemma pulses_turn_goes_on e until w t :
  0 < until < 2 ^ 32 → harmless_turn e t →
  (pulses_turn e until w t).2 = TurnReturn StopUntil ∨
  ∃ w', (pulses_turn e until w t).2 = TurnNext w' ∧
        ∀ p, tn_GetNextFinalizedPulse t (fp_PulseNumber (wk_pu w)) = Ok p → wk_pu w' = p.
Proof.
  intros Hu (Hc & Hv & Hr). unfold pulses_turn. rewrite Hc, (proj2 (Z.leb_gt until 0)) by lia.
  destruct (tn_GetNextFinalizedPulse t _) as [pu|err] eqn:Hget.
  - destruct (fp_PulseNumber pu =? _); [right; eexists; split; [reflexivity|by intros ? [= <-]]|].
    destruct (take_pulse_returns e pu (wk_nextNotEmpty w) _ (Hr pu)) as [n Hn].
    destruct (take_pulse _ _ _ _ _) as [acts called]. cbn in Hn. subst called.
    destruct (uint32 until <=? _); [by left|]. right. eexists. split; [reflexivity|by intros ? [= <-]].
  - unfold pulse_error. rewrite (Hv _ _ Hget).
    repeat case_match; simplify_eq; right; eexists; (split; [reflexivity|by intros ? [=]]).
Qed.

Lemma pulses_loop_finishes e until turns ps w :
  0 < until < 2 ^ 32 → Forall answers turns → Forall (harmless_turn e) turns →
  ps `sublist_of` turns → Forall ready_turn ps →
  (length (due (fp_PulseNumber (wk_pu w))) ≤ length ps)%nat →
  (∃ p, p ∈ due (fp_PulseNumber (wk_pu w)) ∧ until ≤ fp_PulseNumber p) →
  (pulses_loop e until turns w).2 = TurnReturn StopUntil.
Proof using finalized_sorted.
  intros Hu Hall. revert ps w. induction Hall as [|t turns Ht _ IH]; intros ps w Hh Hsub Hps Hlen Hlast.
  { apply sublist_nil_r in Hsub as ->. destruct Hlast as (p & Hp & _).
    destruct (due _); [by apply elem_of_nil in Hp|cbn in Hlen; lia]. }
  apply Forall_cons in Hh as [Hh Hhs]. cbn [pulses_loop].
  pose proof (pulses_turn_spec e until w t Hu Ht) as Hturn.
  destruct (pulses_turn_goes_on e until w t Hu Hh) as [Hstop|(w' & Hnext & Hgot)].
  { destruct (pulses_turn _ _ _ _) as [acts te]. cbn in Hstop. by subst te. }
  destruct (pulses_turn _ _ _ _) as [acts te]. cbn in Hnext. subst te.
  assert ((pulses_loop e until turns w').2 = TurnReturn StopUntil) as Hend;
    [|by destruct (pulses_loop _ _ _ _)].
  assert (∃ ps', ps' `sublist_of` turns ∧ Forall ready_turn ps' ∧
    (length (due (fp_PulseNumber (wk_pu w'))) ≤ length ps')%nat) as (ps' & Hsub' & Hps' & Hlen').
  { apply sublist_cons_r in Hsub as [Hsub|(ps' & -> & Hsub)].
    - exists ps. split_and!; [done..|]. destruct Hturn as [_ [[_ ->]|(_ & Hn & _)]]; [done|].
      rewrite (due_next _ _ Hn) in Hlen. cbn in Hlen. lia.
    - apply Forall_cons in Hps as [Hready Hps]. exists ps'. split_and!; [done..|].
      destruct (due (fp_PulseNumber (wk_pu w))) as [|p d] eqn:Hdue.
      { destruct Hlast as (p & Hp & _). by apply elem_of_nil in Hp. }
      assert (head (due (fp_PulseNumber (wk_pu w))) = Some p) as Hn by by rewrite Hdue.
      rewrite (Hgot p (Hready _ _ Hn)). rewrite (due_next _ _ Hn) in Hdue.
      injection Hdue as ->. cbn in Hlen. lia. }
  apply (IH ps' w'); [done..|]. destruct Hlast as (p & Hp & Hle).
  destruct Hturn as [_ [[_ ->]|(_ & Hn & Hlt)]]; [by exists p|].
  rewrite (due_next _ _ Hn) in Hp. apply elem_of_cons in Hp as [->|Hp]; [lia|by exists p].
Qed.

(** ** The theorems *)

(** C12: Which interruptions of a stream cost a record.  None does its place or a
    part of its pulse: whatever the extractor hands over for a pulse is the pulse
    with exactly its records, in order, and the number it returns leads over
    pulses without records only.  Harmless interruptions -- the end of a portion,
    the rate limit, "not final", "not found", and failed calls that are no version
    errors -- do not stop it: it hands the pulse over, once, as soon as they
    include more attempts that bring a packet than the pulse has records.  Any
    other error of the stream does: if only harmless attempts came before it and
    the pulse is not handed over yet, it never is, and nothing is returned. *)
Theorem retrieveRecords_whole e pu mainThread attempts :
  well_numbered pu → Forall (serves pu) attempts →
  let out := retrieveRecords e pu mainThread false attempts in
  handed_over pu out ∧
  (∀ ps, Forall harmless attempts → ps `sublist_of` attempts → Forall (productive pu) ps →
    (length (whole (fp_PulseNumber pu)) < length ps)%nat →
    emitted out.1 = [whole_pulse pu] ∧ ∃ n, out.2 = RecordsReturn (Some n)) ∧
  (∀ pre bad post err, attempts = pre ++ bad :: post → Forall harmless pre →
    breaks_badly pu err bad → emitted (retrieveRecords e pu mainThread false pre).1 = [] →
    emitted out.1 = [] ∧ out.2 = RecordsReturn None).
Proof.
  intros Hwell Hserves out.
  pose proof (retrieveRecords_handed_over e pu mainThread attempts Hwell Hserves) as Hho.
  split_and!; [exact Hho| |].
  - intros ps Hh Hsub Hps Hlen.
    destruct (portions_complete (halfPulse e) pu attempts ps [] _ Hwell Hserves Hh Hsub Hps eq_refl Hlen)
      as [n Hn].
    rewrite <- (proj2 (retrieveRecords_portions e pu mainThread attempts)) in Hn.
    unfold handed_over in Hho. rewrite Hn in Hho. split; [apply Hho|by exists n].
  - intros pre bad post err -> Hh Hbad Hnone.
    apply Forall_app in Hserves as [Hserves _].
    pose proof (retrieveRecords_handed_over e pu mainThread pre Hwell Hserves) as Hpre.
    assert (out.2 = RecordsReturn None) as Hend.
    { unfold out. rewrite (proj2 (retrieveRecords_portions e pu mainThread _)).
      destruct (portions_harmless (halfPulse e) pu pre (bad :: post) [] _ Hwell Hserves Hh eq_refl)
        as [[n Hn]|[records ->]]; [|by erewrite portions_breaks].
      exfalso. rewrite <- (proj2 (retrieveRecords_portions e pu mainThread pre)) in Hn.
      unfold handed_over in Hpre. rewrite Hn, Hnone in Hpre. by destruct Hpre. }
    unfold handed_over in Hho. fold out in Hho. rewrite Hend in Hho. by split.
Qed.

(** C16: A goroutine that reloads the pulses of [(from, until]] asks for exactly the
    final pulses of this range, each once and in order, up to the first one that
    reaches [until]; it keeps no worker, unless it stops on a version error or
    is still waiting; and it ends when the turns that find the next pulse are
    as many as the pulses. *)
Theorem retrievePulses_visits e from until turns :
  0 < from < 2 ^ 32 → 0 < until < 2 ^ 32 → Forall answers turns →
  visits_in_order until from (retrievePulses e from until turns) ∧
  ∀ ps, Forall (harmless_turn e) turns → ps `sublist_of` turns → Forall ready_turn ps →
    (length (due from) ≤ length ps)%nat → (∃ p, p ∈ due from ∧ until ≤ fp_PulseNumber p) →
    (retrievePulses e from until turns).2 = TurnReturn StopUntil.
Proof using finalized_sorted.
  intros Hf Hu Hall. unfold retrievePulses.
  assert (uint32 from = from) as -> by (apply Z.mod_small; lia).
  set (w := mkWalk (mkFullPulse from 0 0 0 []) None).
  change from with (fp_PulseNumber (wk_pu w)) in Hf |- *.
  split; [by apply pulses_loop_visits|].
  intros ps Hh Hsub Hps Hlen Hlast. by eapply pulses_loop_finishes.
Qed.

(** C23: Even when the extractor skips requests for pulses it believes to be empty,
    every pulse a walk hands over itself carries exactly its records, and the
    pulses come in the order in which they were visited. *)
Theorem retrievePulses_exact e from until turns :
  Forall well_numbered finalized → Forall answers turns →
  Forall (λ t, ∀ pu, pu ∈ finalized → Forall (serves pu) (tn_attempts t pu)) turns →
  hands_over (retrievePulses e from until turns).1.
Proof.
  intros Hwell Hall Hserves. by apply pulses_loop_hands_over.
Qed.
End ledger.

(** C25: At any moment, however the atomic additions of the goroutines interleave,
    the counter is the number of goroutines that hold a worker or are about to
    give up, and no more than [maxWorkers] hold one; whenever none is about to
    give up and a worker is left, [takeWorker] succeeds. *)
Theorem workers_bounded maxWorkers n w hs :
  Z.of_nat n < 2 ^ 31 → 0 ≤ maxWorkers < 2 ^ 31 →
  rtc (worker_step maxWorkers) (0, replicate n Outside) (w, hs) →
  count Holding hs ≤ maxWorkers ∧ w = count Holding hs + count Over hs ∧
  (count Over hs = 0 → count Holding hs < maxWorkers →
   takeWorker maxWorkers w = (true, w + 1)).
Proof.
  intros Hn Hm Hr.
  destruct (counter_ok_reachable _ _ _ Hn (proj1 Hm) Hr) as (_ & Hw & Hmax). cbn -[count] in *.
  split_and!; [done..|]. intros Ho Hlt. unfold takeWorker.
  pose proof (count_nonneg Holding hs). rewrite !AddInt32_small by lia.
  rewrite decide_False by lia. done.
Qed.

(** ** The theorems at work on a concrete ledger *)

#[local] Instance ref_messages : ExporterMessages := {|
  ErrDeprecatedClientVersion := "client version is deprecated";
  RateLimitExceededMsg := "rate limit exceeded";
  ErrNotFinalPulseData := "trying to get a non-finalized pulse data";
  ErrNotFound := "pulse not found";
|}.

Definition ex_pulse (n : Z) : FullPulse := mkFullPulse n 0 0 0 [].
Definition ex_finalized : list FullPulse := [ex_pulse 65537; ex_pulse 65547; ex_pulse 65557].
Definition ex_rec (n : Z) (from : option Z) : ExporterRecord :=
  mkExporterRecord n [] [] (toy_jet 0 []) Virtual_Other from (Ok []).
(** Two records, all of the first pulse. *)
Definition ex_whole (n : Z) : list ExporterRecord :=
  if decide (n = 65537) then [ex_rec 1 None; ex_rec 2 None] else [].
(** The packet after pulse [n] leads to the next pulse with records, or to the
    last pulse. *)
Definition ex_next (n : Z) : ExporterRecord :=
  ex_rec 3 (Some (if decide (n < 65537) then 65537 else 65557)).
(** A stream that carries one packet and breaks off. *)
Definition ex_attempt (pu : FullPulse) (k : Z) : Attempt :=
  ExportStream
    ((RecvResp <$> take 1 (drop (Z.to_nat k)
        (ex_whole (fp_PulseNumber pu) ++ [ex_next (fp_PulseNumber pu)])))
     ++ [RecvErr (ErrMsg "rate limit exceeded")]).
Definition ex_attempts (pu : FullPulse) : list (Z → Attempt) := replicate 3 (ex_attempt pu).
Definition ex_turn : Turn :=
  mkTurn false
    (λ n, match head (due ex_finalized n) with
          | Some p => Ok p
          | None => Err (ErrMsg "pulse not found")
          end) ex_attempts.
Definition ex_cfg : ExtractorConfig := mkExtractorConfig 100 5 2.

Lemma ex_numbered pu : well_numbered ex_whole pu.
Proof.
  unfold well_numbered, ex_whole. case_decide as Hn; [|by repeat constructor].
  split; [|done]. repeat constructor; unfold next_pulse_packet; cbn; by rewrite Hn.
Defined.

Lemma ex_serves pu : serves ex_whole pu (ex_attempt pu).
Proof.
  intros k evs [= <-]. exists (ex_next (fp_PulseNumber pu)). split.
  - split; [done|]. intros q Hq. cbn in Hq. unfold ex_whole.
    repeat case_decide; [lia|done|lia|done].
  - rewrite responses_broken_off by done.
    destruct (decide (Z.to_nat k ≤ length (ex_whole (fp_PulseNumber pu)))%nat).
    + rewrite drop_app_le by done. eexists. symmetry. apply take_drop.
    + rewrite (drop_ge (_ ++ _)) by (rewrite length_app; cbn; lia). apply prefix_nil.
Defined.

Lemma ex_productive pu : productive ex_whole pu (ex_attempt pu).
Proof.
  intros k Hk. eexists. split; [by eexists|].
  rewrite drop_app_le by lia. by destruct (drop _ _).
Defined.

Lemma ex_answers : answers ex_finalized ex_turn.
Proof.
  intros n p. cbn [ex_turn tn_GetNextFinalizedPulse]. right.
  destruct (head (due ex_finalized n)); congruence.
Defined.

Lemma ex_sorted : StronglySorted (λ p q, fp_PulseNumber p < fp_PulseNumber q) ex_finalized.
Proof. repeat constructor. Defined.

Lemma ex_harmless pu : harmless (ex_attempt pu).
Proof. intros k. right. by do 2 eexists. Defined.

Lemma ex_attempts_all (P : (Z → Attempt) → Prop) pu : P (ex_attempt pu) → Forall P (ex_attempts pu).
Proof. intros Hp. by repeat constructor. Defined.

Lemma ex_attempts_enough pu :
  (length (ex_whole (fp_PulseNumber pu)) < length (ex_attempts pu))%nat.
Proof. unfold ex_whole. case_decide; cbn; lia. Defined.

Lemma retrieveRecords_whole_witness :
  let out := retrieveRecords ex_cfg (ex_pulse 65537) false false (ex_attempts (ex_pulse 65537)) in
  emitted out.1 = [mkPlatformPulseData _ (ex_pulse 65537) [ex_rec 1 None; ex_rec 2 None]] ∧
  ∃ n, out.2 = RecordsReturn (Some n).
Proof.
  destruct (retrieveRecords_whole ex_whole ex_cfg (ex_pulse 65537) false (ex_attempts (ex_pulse 65537)))
    as (_ & Hall & _).
  - apply ex_numbered.
  - apply ex_attempts_all, ex_serves.
  - apply (Hall (ex_attempts (ex_pulse 65537))).
    + apply ex_attempts_all, ex_harmless.
    + reflexivity.
    + apply ex_attempts_all, ex_productive.
    + apply ex_attempts_enough.
Defined.

Lemma ex_harmless_turn : harmless_turn ex_cfg ex_turn.
Proof.
  split; [done|split].
  - intros n err. cbn [ex_turn tn_GetNextFinalizedPulse].
    destruct (head (due ex_finalized n)); [done|]. by intros [= <-].
  - intros pu.
    destruct (portions_complete ex_whole (halfPulse ex_cfg) pu (ex_attempts pu) (ex_attempts pu) []
      _ (ex_numbered pu) (ex_attempts_all _ _ (ex_serves pu)) (ex_attempts_all _ _ (ex_harmless pu))
      (reflexivity _) (ex_attempts_all _ _ (ex_productive pu)) eq_refl (ex_attempts_enough pu))
      as [n Hn].
    exists (Some n). rewrite <- Hn. apply retrieveRecords_portions.
Defined.

(** Both pulses of the range are visited, the second is handed over without a
    request. *)
Lemma retrievePulses_visits_witness :
  visits_in_order ex_finalized 65550 65540 (retrievePulses ex_cfg 65540 65550 (replicate 2 ex_turn)) ∧
  (retrievePulses ex_cfg 65540 65550 (replicate 2 ex_turn)).2 = TurnReturn StopUntil.
Proof.
  destruct (retrievePulses_visits ex_finalized ex_sorted ex_cfg 65540 65550 (replicate 2 ex_turn))
    as [Hv Hend]; [lia|lia|apply Forall_replicate, ex_answers|].
  split; [exact Hv|]. apply (Hend (replicate 2 ex_turn)).
  - apply Forall_replicate, ex_harmless_turn.
  - reflexivity.
  - apply Forall_replicate. intros n p Hp. cbn [ex_turn tn_GetNextFinalizedPulse]. by rewrite Hp.
  - vm_compute. repeat constructor.
  - exists (ex_pulse 65557). split; [|cbn; lia]. right. left.
Defined.

Lemma retrievePulses_exact_witness :
  hands_over ex_whole (retrievePulses ex_cfg 1 65547 (replicate 3 ex_turn)).1 ∧
  emitted (retrievePulses ex_cfg 1 65547 (replicate 3 ex_turn)).1
  = whole_pulse ex_whole <$> [ex_pulse 65537; ex_pulse 65547].
Proof.
  split; [|vm_compute; reflexivity].
  apply (retrievePulses_exact ex_whole ex_finalized).
  - apply Forall_forall. intros pu _. apply ex_numbered.
  - apply Forall_replicate, ex_answers.
  - apply Forall_replicate. intros pu _. apply ex_attempts_all, ex_serves.
Defined.

(** Three goroutines compete for two workers. *)
Lemma workers_bounded_witness :
  rtc (worker_step 2) (0, replicate 3 Outside) (3, [Holding; Over; Holding]) ∧
  count Holding [Holding; Over; Holding] ≤ 2.
Proof.
  assert (rtc (worker_step 2) (0, replicate 3 Outside) (3, [Holding; Over; Holding])) as Hr.
  { eapply rtc_l; [apply (take_succeeds 2 0 _ 0); [reflexivity|vm_compute; discriminate]|].
    eapply rtc_l; [apply (take_succeeds 2 1 _ 2); [reflexivity|vm_compute; discriminate]|].
    eapply rtc_l; [apply (take_fails 2 2 _ 1); [reflexivity|vm_compute; reflexivity]|].
    apply rtc_refl. }
  split; [exact Hr|].
  apply (workers_bounded 2 3 3 [Holding; Over; Holding]); [cbn; lia|lia|exact Hr].
Defined.
