(* ===== verification/Versions.v ===== *)
(** * The version of a client: [src/testutils/grpc.go], [src/etl/extractor]

    The platform admits a client by the metadata of its call; the test server
    repeats its checks in interceptors, and the extractor sends its type and
    version with every call.  Metadata are a map from a key to a list of values.
    A rejected unary call returns the error; a rejected stream opens, and its
    first [Recv] returns the error. *)

From S2P Require Import Prelude GoStd Platform RefPlatform Types Interfaces Controller Extractor ExtractorProofs.

(** The constants of [ledger/heavy/exporter]. *)
Class ExporterVersions := {
  KeyClientType : string;
  KeyClientVersionHeavy : string;
  Unknown_String : string;                   (* exporter.Unknown.String() *)
  ValidateHeavyVersion_String : string;      (* exporter.ValidateHeavyVersion.String() *)
  ValidateContractVersion_String : string;   (* exporter.ValidateContractVersion.String() *)
  AllowedOnHeavyVersion : Z;
}.

(** Documented of them: the keys and the client types differ, and the key of the
    version. *)
Class ExporterVersionsLaws `{ExporterVersions} := {
  keys_differ : KeyClientType ≠ KeyClientVersionHeavy;
  types_differ : NoDup [Unknown_String; ValidateHeavyVersion_String; ValidateContractVersion_String];
  version_key : KeyClientVersionHeavy = "heavy-version";
}.

(** Documented of the errors: the text of the deprecated version is none of those
    after which the extractor asks again. *)
Class ExporterMessagesLaws `{ExporterMessages} := {
  deprecated_final :
    isRateLimitError (ErrMsg ErrDeprecatedClientVersion) = false ∧
    Contains ErrDeprecatedClientVersion ErrNotFinalPulseData
    || Contains ErrDeprecatedClientVersion ErrNotFound = false;
}.

(** [metadata.MD]. *)
Abbreviation MD := (gmap string (list string)).

(** [status.Error(codes.InvalidArgument, msg)]. *)
Definition InvalidArgument (msg : string) : error :=
  ErrMsg ("rpc error: code = InvalidArgument desc = " +:+ msg).

Section versions.
Context `{ExporterVersions, ExporterMessages}.

(** ** The checks of the server *)

Definition compareAllowedVersion (nameVersion : string) (allowedVersion : Z) (md : MD)
  : option error :=
  match md !! nameVersion with
  | None | Some [] => Some (InvalidArgument ("unknown " +:+ nameVersion))
  | Some (v :: _) =>
      match ParseInt v with
      | None => Some (InvalidArgument ("incorrect format of the " +:+ nameVersion))
      | Some versionClient =>
          if decide (versionClient < 0)
          then Some (InvalidArgument ("incorrect format of the " +:+ nameVersion))
          else if decide (versionClient = 0 ∨ versionClient < allowedVersion)
          then Some (ErrMsg ErrDeprecatedClientVersion)
          else None
      end
  end.

Definition validateClientVersion (md : MD) (heavyVersion : Z) : option error :=
  match md !! KeyClientType with
  | None | Some [] => Some (InvalidArgument "unknown type client")
  | Some (typeClient :: _) =>
      if decide (typeClient = Unknown_String) then Some (InvalidArgument "unknown type client")
      else if decide (typeClient = ValidateHeavyVersion_String) then
        match compareAllowedVersion KeyClientVersionHeavy heavyVersion md with
        | Some err => Some err
        | None => None
        end
      else if decide (typeClient = ValidateContractVersion_String)
      then Some (InvalidArgument "block explorer should send client type 1")
      else Some (InvalidArgument "unknown type client")
  end.

(** [TestGRPCServerConfig]. *)
Record TestGRPCServerConfig := mkTestGRPCServerConfig {
  VersionChecker : bool;
  HeavyVersion : option Z;
}.

(** [versionCheckerUnary] and [versionCheckerStream]: [md] is what
    [metadata.FromIncomingContext] finds. *)
Definition versionChecker {A} (config : TestGRPCServerConfig) (md : option MD)
  (handler : result A) : result A :=
  match md with
  | None => Err (InvalidArgument "failed to retrieve metadata")
  | Some md =>
      let hv := match HeavyVersion config with Some hv => hv | None => AllowedOnHeavyVersion end in
      match validateClientVersion md (int64 hv) with
      | Some err => Err err
      | None => handler
      end
  end.

(** How the server [CreateTestGRPCServer] makes treats a call. *)
Definition CreateTestGRPCServer {A} (config : option TestGRPCServerConfig) (md : option MD)
  (handler : result A) : result A :=
  let config := match config with Some c => c | None => mkTestGRPCServerConfig false None end in
  if VersionChecker config then versionChecker config md handler else handler.

(** The goroutine of [Serve]: what [s.Server.Serve] answers to call [i], the
    number of pauses, and whether the test goes on. *)
Fixpoint serve_loop (turns : nat) (i : nat) (serve : nat → option error) (err : option error)
  (pauses : nat) : nat * bool :=
  match turns with
  | O => (pauses, bool_decide (err ≠ None))          (* require.Error *)
  | S turns =>
      let err := serve i in
      serve_loop turns (S i) serve err (if decide (err ≠ None) then S pauses else pauses)
  end.
Definition Serve (serve : nat → option error) : nat * bool := serve_loop 100 0 serve None 0.

(** ** What the extractor sends *)

Definition AppendToOutgoingContext (k v : string) (md : MD) : MD :=
  <[k := default [] (md !! k) ++ [v]]> md.

Definition PlatformAPIVersion : string := "2".

Definition appendPlatformVersionToCtx (md : MD) : MD :=
  let md := AppendToOutgoingContext KeyClientType ValidateHeavyVersion_String md in
  AppendToOutgoingContext KeyClientVersionHeavy PlatformAPIVersion md.

(** ** Theorems *)

Lemma Contains_app a sub b : Contains (a +:+ sub +:+ b) sub = true.
Proof.
  unfold Contains, Index. apply bool_decide_eq_true.
  enough (is_Some (String.index 0 sub (a +:+ sub +:+ b))) as [n ->] by lia.
  induction a as [|x a IH].
  - rewrite str_app_nil_l. exists 0%nat. apply index_0_Some_0, prefix_spec. by exists b.
  - rewrite str_app_cons. cbn [String.index]. destruct (String.prefix _ _); [by eexists|].
    destruct IH as [n ->]. by eexists.
Qed.

Lemma Contains_suffix a sub : Contains (a +:+ sub) sub = true.
Proof. rewrite <- (str_app_nil_r sub) at 1. apply Contains_app. Qed.

(** The values a server looks at first. *)
Definition first_value (k : string) (md : MD) : option string := md !! k ≫= head.

(** The version of an admitted client. *)
Definition admitted_version (v : string) (heavyVersion : Z) : Prop :=
  ∃ n, ParseInt v = Some n ∧ 0 < n ∧ heavyVersion ≤ n.

Lemma compareAllowedVersion_spec name allowed md :
  compareAllowedVersion name allowed md = None ↔
  ∃ v, first_value name md = Some v ∧ admitted_version v allowed.
Proof.
  unfold compareAllowedVersion, first_value, admitted_version.
  destruct (md !! name) as [[|v vs]|]; cbn; [naive_solver| |naive_solver].
  destruct (ParseInt v) as [n|] eqn:Hv; [|naive_solver].
  repeat case_decide; split; try done.
  - intros (v' & [= <-] & n' & Hn & ?). rewrite Hv in Hn. injection Hn as <-. lia.
  - intros (v' & [= <-] & n' & Hn & ?). rewrite Hv in Hn. injection Hn as <-. lia.
  - intros _. exists v. split; [done|]. exists n. split; [done|lia].
Qed.

Context `{!ExporterVersionsLaws, !ExporterMessagesLaws}.

(** Admitted is exactly a client whose first type is the validating one and whose
    first version is a positive number, not below the version of the heavy. *)
Theorem validateClientVersion_spec md heavyVersion :
  validateClientVersion md heavyVersion = None ↔
  first_value KeyClientType md = Some ValidateHeavyVersion_String ∧
  ∃ v, first_value KeyClientVersionHeavy md = Some v ∧ admitted_version v heavyVersion.
Proof.
  unfold validateClientVersion, first_value at 1.
  pose proof types_differ as (Hu & (Hh & _)%NoDup_cons)%NoDup_cons.
  rewrite !not_elem_of_cons in Hu. rewrite not_elem_of_cons in Hh.
  destruct (md !! KeyClientType) as [[|ty tys]|]; cbn; [naive_solver| |naive_solver].
  destruct (decide (ty = Unknown_String)) as [->|]; [split; [done|intros [[=] _]; by destruct Hu]|].
  destruct (decide (ty = ValidateHeavyVersion_String)) as [->|].
  - rewrite <- compareAllowedVersion_spec. destruct (compareAllowedVersion _ _ _); naive_solver.
  - destruct (decide _); naive_solver.
Qed.

(** ** The extractor meets the server *)

Ltac recognised := unfold isVersionError, InvalidArgument; rewrite !orb_true_iff;
  first [right; vm_compute; reflexivity | left; right; vm_compute; reflexivity
        | left; left; right; vm_compute; reflexivity].

Lemma deprecated_recognised : isVersionError (ErrMsg ErrDeprecatedClientVersion) = true.
Proof.
  unfold isVersionError. rewrite !orb_true_iff. do 3 left. cbn [Error].
  rewrite <- (str_app_nil_r ErrDeprecatedClientVersion) at 1. apply (Contains_app "").
Qed.

(** What the server answers to a client it does not admit is an error by which the
    extractor recognises that its version is the trouble, but for one that names
    the type of client it should have sent. *)
Theorem rejection_recognised md heavyVersion err :
  validateClientVersion md heavyVersion = Some err →
  isVersionError err = true ∨
  first_value KeyClientType md = Some ValidateContractVersion_String ∧
  err = InvalidArgument "block explorer should send client type 1".
Proof.
  unfold validateClientVersion, compareAllowedVersion, first_value. rewrite version_key.
  destruct (md !! KeyClientType) as [[|ty tys]|]; [intros [= <-]; left; recognised| |intros [= <-]; left; recognised].
  destruct (decide (ty = _)) as [->|_]; [intros [= <-]; left; recognised|].
  destruct (decide (ty = _)) as [->|_].
  - intros Herr. left.
    destruct (md !! "heavy-version") as [[|v vs]|]; [injection Herr as <-; recognised| |injection Herr as <-; recognised].
    destruct (ParseInt v) as [n|]; [|injection Herr as <-; recognised].
    destruct (decide (n < 0)); [injection Herr as <-; recognised|].
    destruct (decide _); [injection Herr as <-; apply deprecated_recognised|discriminate Herr].
  - destruct (decide (ty = _)) as [->|_]; intros [= <-]; [by right|left; recognised].
Qed.

Lemma first_value_appended md :
  md !! KeyClientType = None → md !! KeyClientVersionHeavy = None →
  first_value KeyClientType (appendPlatformVersionToCtx md) = Some ValidateHeavyVersion_String ∧
  first_value KeyClientVersionHeavy (appendPlatformVersionToCtx md) = Some PlatformAPIVersion.
Proof.
  intros Ht Hv. pose proof keys_differ. unfold first_value, appendPlatformVersionToCtx, AppendToOutgoingContext.
  rewrite lookup_insert_ne, !lookup_insert_eq, lookup_insert_ne by done. by rewrite Ht, Hv.
Qed.

(** A call of the extractor as the server sees it: its metadata are all that is
    sent. *)
Definition call_server {A} (config : option TestGRPCServerConfig) (handler : result A) : result A :=
  CreateTestGRPCServer config (Some (appendPlatformVersionToCtx ∅)) handler.

(** [NextFinalizedPulse] is a unary call: a rejection is what it returns. *)
Definition versioned_pulse (config : option TestGRPCServerConfig) (answer : Z → result FullPulse)
  (n : Z) : result FullPulse :=
  call_server config (answer n).

(** [Export] opens a stream, which succeeds whatever the server thinks of the
    client: a rejection is what the first [Recv] returns (the test
    [TestClient_GetGRPCConn_WrongVersion_Error] of [src/etl/connection] relies on
    it). *)
Definition versioned `{Platform} (config : option TestGRPCServerConfig) (handler : list RecvEvent)
  : Attempt :=
  ExportStream match call_server config (Ok handler) with
               | Ok evs => evs
               | Err err => [RecvErr err]
               end.

Lemma call_server_spec {A} hv (handler : result A) :
  in_int64 hv →
  call_server (Some (mkTestGRPCServerConfig true (Some hv))) handler =
  if decide (hv ≤ 2) then handler else Err (ErrMsg ErrDeprecatedClientVersion).
Proof.
  intros Hhv. unfold call_server, CreateTestGRPCServer, versionChecker.
  cbn [VersionChecker HeavyVersion]. rewrite (int64_small _ Hhv).
  destruct (first_value_appended ∅) as [Hty Hver]; [apply lookup_empty..|].
  pose proof types_differ as (Hu & _)%NoDup_cons. rewrite !not_elem_of_cons in Hu.
  unfold validateClientVersion, compareAllowedVersion, first_value in *.
  destruct (_ !! KeyClientType) as [[|ty tys]|]; [done| |done]. cbn in Hty. injection Hty as ->.
  rewrite decide_False by (intros Heq; by destruct Hu). rewrite decide_True by done.
  destruct (_ !! KeyClientVersionHeavy) as [[|v vs]|]; [done| |done]. cbn in Hver. injection Hver as ->.
  change (ParseInt PlatformAPIVersion) with (Some 2). cbn.
  repeat case_decide; try lia; done.
Qed.

(** C26: The handshake.  A server that checks versions serves the extractor, with
    pulses and with records, when its heavy version is at most 2.  Otherwise the
    rejection of the next call for a pulse ends the goroutine that made it: it
    asks for a shutdown, retrieves nothing and keeps its worker.  A goroutine
    that is already retrieving the records of a pulse does not recognise the
    rejection, which comes from the stream: it hands nothing over, asks for no
    shutdown, and gives the pulse up. *)
Theorem version_handshake `{Platform} e hv :
  in_int64 hv →
  let config := Some (mkTestGRPCServerConfig true (Some hv)) in
  (hv ≤ 2 → (∀ answer n, versioned_pulse config answer n = answer n) ∧
            ∀ handler, versioned config handler = ExportStream handler) ∧
  (2 < hv →
   (∀ from until t turns answer,
      tn_cancelled t = false → tn_GetNextFinalizedPulse t = versioned_pulse config answer →
      retrievePulses e from until (t :: turns) =
        ((if until <=? 0 then [] else [TakeWorker]) ++ [ShutdownBE], TurnReturn StopVersion)) ∧
   ∀ pu mainThread handler attempts,
     retrieveRecords e pu mainThread false ((λ _, versioned config handler) :: attempts)
     = (if mainThread then [] else [FreeWorker], RecordsReturn None)).
Proof.
  intros Hhv config. split; intros Hle.
  - unfold versioned_pulse, versioned, config. split; intros; rewrite call_server_spec by done;
      by rewrite decide_True.
  - split.
    + intros from until t turns answer Hc Hn. unfold retrievePulses. cbn [pulses_loop].
      unfold pulses_turn. rewrite Hc, Hn. unfold versioned_pulse, config.
      rewrite call_server_spec, decide_False by (done || lia). unfold pulse_error.
      rewrite deprecated_recognised. cbn. done.
    + intros pu mainThread handler attempts. unfold retrieveRecords. cbn [portions].
      unfold versioned, config. rewrite call_server_spec, decide_False by (done || lia).
      cbn [read_stream]. pose proof deprecated_final as [-> Hf]. cbn [Error]. rewrite Hf. done.
Qed.
End versions.

(** The server is asked a hundred times to serve, and the test fails exactly if
    the last of them ends without an error. *)
Lemma serve_loop_spec n i serve err pauses :
  (serve_loop n i serve err pauses).2 =
  bool_decide (match n with O => err | S n => serve (i + n)%nat end ≠ None).
Proof.
  revert i err pauses. induction n as [|n IH]; intros i err pauses; cbn [serve_loop]; [done|].
  rewrite IH. destruct n as [|n]; [by rewrite Nat.add_0_r|]. by rewrite Nat.add_succ_r.
Qed.
Theorem Serve_spec serve : (Serve serve).2 = true ↔ serve 99%nat ≠ None.
Proof. unfold Serve. by rewrite serve_loop_spec, bool_decide_eq_true. Qed.

(** ** The theorems at work *)

#[local] Instance ref_versions : ExporterVersions := {|
  KeyClientType := "client_type";
  KeyClientVersionHeavy := "heavy-version";
  Unknown_String := "Unknown";
  ValidateHeavyVersion_String := "ValidateHeavyVersion";
  ValidateContractVersion_String := "ValidateContractVersion";
  AllowedOnHeavyVersion := 2;
|}.
#[local] Instance ref_versions_laws : ExporterVersionsLaws.
Proof. constructor; [done|apply (bool_decide_unpack _); vm_compute; exact I|done]. Qed.
#[local] Existing Instance ref_messages.

Lemma validateClientVersion_spec_witness :
  validateClientVersion (appendPlatformVersionToCtx ∅) 2 = None.
Proof.
  apply validateClientVersion_spec. split; [reflexivity|]. exists "2". split; [reflexivity|].
  exists 2. split; [reflexivity|lia].
Defined.

Lemma rejection_recognised_witness :
  isVersionError (InvalidArgument "unknown heavy-version") = true.
Proof.
  destruct (rejection_recognised {["client_type" := ["ValidateHeavyVersion"]]} 2
    (InvalidArgument "unknown heavy-version")) as [He|[_ He]];
    [reflexivity|exact He|discriminate He].
Defined.

#[local] Instance ref_messages_laws : ExporterMessagesLaws.
Proof. constructor. split; vm_compute; reflexivity. Qed.

Lemma version_handshake_witness :
  let config hv := Some (mkTestGRPCServerConfig true (Some hv)) in
  versioned (config 2) [RecvEOF] = ExportStream [RecvEOF] ∧
  retrieveRecords ex_cfg (ex_pulse 65537) true false [λ _, versioned (config 3) [RecvEOF]]
  = ([], RecordsReturn None).
Proof.
  intros config. split.
  - apply (version_handshake ex_cfg 2); [|lia]. split; vm_compute; congruence.
  - destruct (version_handshake ex_cfg 3) as [_ Hno]; [split; vm_compute; congruence|].
    destruct Hno as [_ Hrec]; [lia|].
    apply (Hrec (ex_pulse 65537) true [RecvEOF] []).
Defined.
