(* ===== verification/MockPlatform.v ===== *)
(** * The extractor against the mock of the platform

    The set-up of the integration tests ([src/test/integration],
    [src/testutils/betestsetup]): records are imported into the mock, and the
    extractor asks its pulse client and exports the records of what it is offered,
    until the client is not ready any more. *)

From S2P Require Import Prelude GoStd Platform RefPlatform Types Interfaces Random TestData RefTestData TestDataProofs Controller Extractor ExtractorProofs Heavymock HeavymockProofs.

Section rounds.
Context `{HP : Platform, !RecordEqual, !TestPlatform, !Random G, !ExporterMessages}.
Abbreviation ImporterServer := (list savedRecord).
Abbreviation Src := (G * gset Z)%type.
Abbreviation Range := (gmap JetID JetDropContinue → list JetDropContinue).

Definition recv_event (m : Recv) : RecvEvent :=
  match m with
  | Recv_EOF => RecvEOF
  | Recv_Err err => RecvErr err
  | Recv_Record r => RecvResp r
  end.

(** A pulse from the client, and what is handed over when its records are
    retrieved; no connection fails. *)
Definition mock_round (e : ExtractorConfig) (fuel : nat) (client : TestPulseClient) (range : Range)
  (s : ImporterServer) : Gen Src (ImporterServer * list PlatformPulseData) :=
  pu ← NextFinalizedPulseFunc (SetNextFinalizedPulseFunc range client) s;
  match pu with
  | Err _ => mret (s, [])
  | Ok pu =>
      '(s, sent, err) ← Export fuel (fp_PulseNumber pu) (λ _, None) s;
      let attempt := λ _, ExportStream (recv_event <$> client_side (sent, err)) in
      mret (s, emitted (retrieveRecords e pu true false [attempt]).1)
  end.

Fixpoint mock_rounds (e : ExtractorConfig) (fuel : nat) (client : TestPulseClient)
  (ranges : list Range) (s : ImporterServer) : Gen Src (ImporterServer * list PlatformPulseData) :=
  match ranges with
  | [] => mret (s, [])
  | range :: ranges =>
      '(s, out) ← mock_round e fuel client range s;
      '(s, rest) ← mock_rounds e fuel client ranges s;
      mret (s, out ++ rest)
  end.
End rounds.

Section drained.
Context `{HP : Platform, !PlatformLaws, !RecordEqual, !RecordEqualLaws, !TestPlatform, !Random G, !RandomLaws G,
          !ExporterMessages}.
Abbreviation ImporterServer := (list savedRecord).
Abbreviation Src := (G * gset Z)%type.
Abbreviation Range := (gmap JetID JetDropContinue → list JetDropContinue).
Implicit Types (s : ImporterServer).

(** ** What is drawn *)

Lemma lasts_lowest fuel rs pulse jets : lasts fuel 0 (lowest_loop (G := G) rs pulse jets).
Proof.
  revert pulse jets. induction rs as [|r rs IH]; intros pulse jets; cbn; [auto with gen|].
  case_decide; [apply IH|]. apply lasts_free; [unfold GenerateRandBytes; auto with gen|].
  intros hash _. apply IH.
Qed.

Lemma lasts_GetLowest fuel range s : lasts fuel 0 (GetLowestUnsentPulse (G := G) range s).
Proof. apply lasts_free; [apply lasts_lowest|]. intros [] _. apply lasts_ret. Qed.

Lemma lasts_marker fuel pn : lasts fuel 1 (GenerateRecordInNextPulse (G := G) fuel pn).
Proof.
  apply (lasts_bind fuel 1 0); [apply lasts_record|]. intros r _.
  apply lasts_free; [auto with gen|]. intros id _. apply lasts_ret.
Qed.

Lemma lasts_Export fuel pn send s : lasts fuel 1 (Export (G := G) fuel pn send s).
Proof.
  apply (lasts_bind fuel 1 0); [apply lasts_marker|]. intros marker _.
  destruct (send_all _ _ _) as [sent err]. apply lasts_ret.
Qed.

Lemma lasts_round e fuel client range s : lasts fuel 1 (mock_round (G := G) e fuel client range s).
Proof.
  apply (lasts_bind fuel 0 1).
  - apply lasts_free; [apply lasts_GetLowest|]. intros [] _. apply lasts_ret.
  - intros [pu|err] _.
    + apply (lasts_bind fuel 1 0); [apply lasts_Export|]. intros [[]] _. apply lasts_ret.
    + apply (lasts_more fuel 0); [lia|apply lasts_ret].
Qed.

Lemma lasts_rounds e fuel client ranges s :
  lasts fuel (length ranges) (mock_rounds (G := G) e fuel client ranges s).
Proof.
  revert s. induction ranges as [|range ranges IH]; intros s; [apply lasts_ret|].
  apply (lasts_bind fuel 1 (length ranges)); [apply lasts_round|]. intros [s' out] _.
  rewrite <- (Nat.add_0_r (length ranges)). apply lasts_bind; [apply IH|].
  intros [] _. apply lasts_ret.
Qed.

(** ** One round *)

(** A record the tests can send through the mock: it does not skip, and its pulse
    and the one after it are time pulses. *)
Definition importable (r : ExporterRecord) : Prop :=
  er_ShouldIterateFrom r = None ∧ MinTimePulse ≤ ID_Pulse (er_ID r) < 2 ^ 30 - 10 ∧
  is_ok (AsApproximateTime (ID_Pulse (er_ID r))) = true.
#[export] Instance importable_dec r : Decision (importable r).
Proof. unfold importable. apply _. Defined.

(** The pulse [d] with the unsent records of a number, in the order they came, and
    the jets of those records. *)
Definition handed (s : ImporterServer) (d : PlatformPulseData) : Prop :=
  let p := fp_PulseNumber (ppd_Pulse d) in
  fp_PrevPulseNumber (ppd_Pulse d) = p - 10 ∧ fp_NextPulseNumber (ppd_Pulse d) = p + 10 ∧
  ppd_Records d = unsent_of p s ∧ ppd_Records d ≠ [] ∧
  NoDup (jdc_JetID <$> fp_Jets (ppd_Pulse d)) ∧
  ∀ id, id ∈ jdc_JetID <$> fp_Jets (ppd_Pulse d) ↔ id ∈ er_JetID <$> ppd_Records d.

Lemma lowest_elem q rs :
  rs ≠ [] → Forall (λ r, ID_Pulse (er_ID r) < q) rs →
  (∃ r, r ∈ rs ∧ ID_Pulse (er_ID r) = lowest q rs) ∧ Forall (λ r, lowest q rs ≤ ID_Pulse (er_ID r)) rs.
Proof.
  intros Hne Hlt.
  assert (∀ q, (lowest q rs = q ∨ ∃ r, r ∈ rs ∧ ID_Pulse (er_ID r) = lowest q rs) ∧
    Forall (λ r, lowest q rs ≤ ID_Pulse (er_ID r)) rs) as Hgen.
  { clear. induction rs as [|r rs IH]; intros q; [by split; [left|]|]. rewrite lowest_cons.
    destruct (IH (Z.min q (ID_Pulse (er_ID r)))) as [Hex Hall].
    pose proof (lowest_le (Z.min q (ID_Pulse (er_ID r))) rs). split.
    - destruct Hex as [Heq|(r' & Hr' & Heq)]; [|right; exists r'; split; [by right|done]].
      destruct (Z.min_spec q (ID_Pulse (er_ID r))) as [[_ Hm]|[_ Hm]]; [left; congruence|].
      right. exists r. split; [by left|congruence].
    - constructor; [lia|done]. }
  destruct (Hgen q) as [[Heq|Hex] Hall]; split; try done.
  destruct rs as [|r rs]; [done|]. exists r. split; [by left|].
  apply Forall_cons in Hlt as [Hlt _]. apply Forall_cons in Hall as [Hall _]. lia.
Qed.

Lemma marker_ends pu marker fuel :
  MinTimePulse ≤ uint32 (fp_PulseNumber pu + 10) < 2 ^ 30 → 0 ≤ fp_PulseNumber pu < 2 ^ 30 →
  can_return (GenerateRecordInNextPulse (G := G) fuel (fp_PulseNumber pu)) marker →
  next_pulse_packet pu marker = true.
Proof.
  intros Hrange Hp (_ & g & Hid)%marker_spec. unfold next_pulse_packet. rewrite Hid.
  rewrite IDWithPulse_pulse by done. apply orb_true_iff. right. apply negb_true_iff, Z.eqb_neq.
  unfold uint32. rewrite Z.mod_small by lia. lia.
Qed.

Lemma read_stream_whole half pu rs marker evs records :
  Forall (λ r, next_pulse_packet pu r = false) rs → next_pulse_packet pu marker = true →
  read_stream half pu ((RecvResp <$> rs) ++ RecvResp marker :: evs) records =
  ([Emit (mkPlatformPulseData _ pu (records ++ rs))], StreamWhole (records ++ rs) (iterate_from marker)).
Proof.
  intros Hall Hm. revert records. induction Hall as [|r rs Hr _ IH]; intros records; cbn.
  - by rewrite Hm, app_nil_r.
  - by rewrite Hr, IH, <- app_assoc.
Qed.

(** A whole stream of the mock is handed over when its marker comes. *)
Lemma retrieve_stream e pu rs marker :
  Forall (λ r, next_pulse_packet pu r = false) rs → next_pulse_packet pu marker = true →
  emitted (retrieveRecords e pu true false
    [λ _, ExportStream (recv_event <$> client_side (rs ++ [marker], None))]).1
  = [mkPlatformPulseData _ pu rs].
Proof.
  intros Hall Hm. unfold retrieveRecords. cbn [portions].
  assert (recv_event <$> client_side (rs ++ [marker], None)
    = (RecvResp <$> rs) ++ RecvResp marker :: [RecvEOF]) as ->.
  { unfold client_side. cbn [fst snd]. rewrite !fmap_app, <- app_assoc. f_equal.
    clear. induction rs as [|r rs IH]; [done|]. cbn. by rewrite IH. }
  by rewrite read_stream_whole.
Qed.

Lemma unsent_of_packets pu s :
  Forall importable (GetUnsentRecords s) →
  Forall (λ r, next_pulse_packet pu r = false) (unsent_of (fp_PulseNumber pu) s).
Proof.
  rewrite !Forall_forall. intros Hall r [Hp Hr]%list_elem_of_filter.
  destruct (Hall r Hr) as [Hs _]. unfold next_pulse_packet. rewrite Hs, Hp, Z.eqb_refl. done.
Qed.

(** An export that does not fail. *)
Lemma Export_whole fuel pn s g s' sent err g' :
  Export fuel pn (λ _, None) s g = Some (s', sent, err, g') →
  GetUnsentRecords s' = filter (λ r, ID_Pulse (er_ID r) ≠ pn) (GetUnsentRecords s) ∧
  ∃ marker, can_return (GenerateRecordInNextPulse fuel pn) marker ∧
    err = None ∧ sent = unsent_of pn s ++ [marker].
Proof.
  intros Hexp. pose proof (Export_spec _ _ _ _ _ _ _ _ _ Hexp) as [Hun _]. split; [exact Hun|].
  unfold Export in Hexp. apply Gen_bind_Some in Hexp as (marker & g1 & Hm & Hs).
  rewrite send_all_ok in Hs. apply Gen_ret_Some in Hs as [[= _ <- <-] _].
  exists marker. split; [by exists g, g1|done].
Qed.

(** While there are unsent records, a round hands over the lowest pulse that has
    some and takes exactly its records out of the mailbox. *)
Lemma mock_round_Ok e fuel client range s g s' out g' :
  visits_values range → Forall importable (GetUnsentRecords s) → GetUnsentRecords s ≠ [] →
  mock_round e fuel client range s g = Some ((s', out), g') →
  ∃ d, out = [d] ∧ handed s d ∧
    Forall (λ r, fp_PulseNumber (ppd_Pulse d) ≤ ID_Pulse (er_ID r)) (GetUnsentRecords s) ∧
    GetUnsentRecords s' =
      filter (λ r, ID_Pulse (er_ID r) ≠ fp_PulseNumber (ppd_Pulse d)) (GetUnsentRecords s).
Proof.
  intros Hrange Himp Hne (pu & g1 & Hpu & Hg)%Gen_bind_Some.
  apply Gen_bind_Some in Hpu as ([p jets] & g2 & Hlow & [Hpu _]%Gen_ret_Some).
  destruct (GetLowestUnsentPulse_spec _ _ _ _ _ _ Hrange Hlow) as (Hp & Hnd & Hjets).
  destruct (lowest_elem (2 ^ 32 - 1) (GetUnsentRecords s)) as [(r & Hr & Hrp) Hall]; [done| |].
  { eapply Forall_impl; [exact Himp|]. intros r (_ & Hr & _). lia. }
  rewrite <- Hp in *. rewrite Forall_forall in Himp. destruct (Himp r Hr) as (_ & Hrange' & Htime).
  rewrite MinTimePulse_value in Hrange'.
  assert (uint32 p = p) as Hu by (apply Z.mod_small; lia). rewrite Hu in Hpu.
  rewrite decide_False in Hpu by lia. unfold GetFullPulse in Hpu. rewrite Hrp in Htime.
  destruct (AsApproximateTime p) as [t|]; [|done]. cbn [mbind result_bind] in Hpu. subst pu.
  apply Gen_bind_Some in Hg as ([[s1 sent] err] & g3 & Hexp & [[= <- <-] _]%Gen_ret_Some).
  cbn [fp_PulseNumber] in *. apply Export_whole in Hexp as (Hun & marker & Hm & -> & ->).
  set (pu := mkFullPulse _ _ _ _ _) in *.
  assert (next_pulse_packet pu marker = true) as Hend.
  { eapply (marker_ends pu); [| |exact Hm]; subst pu; cbn [fp_PulseNumber]; [|lia].
    rewrite MinTimePulse_value. unfold uint32. rewrite Z.mod_small; lia. }
  exists (mkPlatformPulseData _ pu (unsent_of p s)).
  split; [exact (retrieve_stream e pu _ _ (unsent_of_packets pu s ltac:(by apply Forall_forall)) Hend)|].
  split_and!; [|exact Hall|exact Hun]. unfold handed. subst pu. cbn -[uint32 unsent_of].
  split_and!; [apply Z.mod_small; lia..|done| |done|].
  - intros Hnil. assert (r ∈ unsent_of p s) as Hin by by apply list_elem_of_filter.
    rewrite Hnil in Hin. by apply elem_of_nil in Hin.
  - intros id. rewrite Hjets, list_elem_of_fmap. split; intros (r' & ? & ?); by exists r'.
Qed.

(** Without any, the client is not ready and nothing happens. *)
Lemma mock_round_empty e fuel client range s g s' out g' :
  GetUnsentRecords s = [] →
  mock_round e fuel client range s g = Some ((s', out), g') → s' = s ∧ out = [].
Proof.
  intros Hs (pu & g1 & Hpu & Hg)%Gen_bind_Some.
  apply Gen_bind_Some in Hpu as ([p jets] & g2 & Hlow & [Hpu _]%Gen_ret_Some).
  unfold GetLowestUnsentPulse in Hlow. rewrite Hs in Hlow.
  apply Gen_bind_Some in Hlow as ([p' js] & g3 & [[= <- <-] _]%Gen_ret_Some & [[= <- <-] _]%Gen_ret_Some).
  rewrite decide_True in Hpu by done. subst pu. by apply Gen_ret_Some in Hg as [[= <- <-] _].
Qed.

(** ** All rounds *)

Abbreviation pulses_of rs := (list_to_set ((λ r, ID_Pulse (er_ID r)) <$> rs) : gset Z).

Lemma pulses_of_rest p rs :
  pulses_of (filter (λ r, ID_Pulse (er_ID r) ≠ p) rs) = pulses_of rs ∖ {[p]}.
Proof.
  apply set_eq. intros q. rewrite elem_of_difference, !elem_of_list_to_set, !list_elem_of_fmap.
  setoid_rewrite list_elem_of_filter. rewrite not_elem_of_singleton. split.
  - intros (r & -> & Hne & Hr). split; [by exists r|done].
  - intros [(r & -> & Hr) Hne]. by exists r.
Qed.

Lemma size_rest p s d :
  handed s d → p = fp_PulseNumber (ppd_Pulse d) →
  (size (pulses_of (GetUnsentRecords s) ∖ {[p]}) < size (pulses_of (GetUnsentRecords s)))%nat.
Proof.
  intros (_ & _ & Hrecs & Hne & _) ->. apply subset_size.
  destruct (ppd_Records d) as [|r rs] eqn:Hd; [done|].
  assert (r ∈ unsent_of (fp_PulseNumber (ppd_Pulse d)) s) as Hr by (rewrite <- Hrecs; left).
  apply list_elem_of_filter in Hr as [Hrp Hr].
  assert (fp_PulseNumber (ppd_Pulse d) ∈ pulses_of (GetUnsentRecords s)) as Hin.
  { apply elem_of_list_to_set, list_elem_of_fmap. by exists r. }
  set_solver.
Qed.

Lemma handed_rest p s s' d :
  GetUnsentRecords s' = filter (λ r, ID_Pulse (er_ID r) ≠ p) (GetUnsentRecords s) →
  handed s' d →
  handed s d ∧ fp_PulseNumber (ppd_Pulse d) ≠ p ∧
  ∃ r, r ∈ GetUnsentRecords s ∧ ID_Pulse (er_ID r) = fp_PulseNumber (ppd_Pulse d).
Proof.
  intros Hs' (Hprev & Hnext & Hrecs & Hne & Hnd & Hjets).
  destruct (ppd_Records d) as [|r rs] eqn:Hd; [done|].
  assert (r ∈ unsent_of (fp_PulseNumber (ppd_Pulse d)) s') as Hr by (rewrite <- Hrecs; left).
  unfold unsent_of in Hr, Hrecs. rewrite Hs' in Hr, Hrecs.
  apply list_elem_of_filter in Hr as [Hrp [Hp Hr]%list_elem_of_filter].
  split_and!; [|congruence|by exists r]. unfold handed. rewrite Hd.
  split_and!; [done|done| |done..]. rewrite Hrecs, list_filter_filter.
  apply list_filter_iff. intros x. split; [by intros []|]. intros Hx. split; congruence.
Qed.

Lemma split_pulse p rs :
  filter (λ r, ID_Pulse (er_ID r) = p) rs ++ filter (λ r, ID_Pulse (er_ID r) ≠ p) rs ≡ₚ rs.
Proof.
  induction rs as [|r rs IH]; [done|]. destruct (decide (ID_Pulse (er_ID r) = p)) as [Hr|Hr].
  - rewrite filter_cons_True, (filter_cons_False _ r) by naive_solver. cbn. by rewrite IH.
  - rewrite filter_cons_False, (filter_cons_True _ r) by done.
    by rewrite <- Permutation_middle, IH.
Qed.

(** C13: What was imported comes out of the extractor.  Whatever imported records are
    unsent, one round for each of their pulses empties the mailbox: every record
    is handed over once, the pulses in increasing order, each with its records in
    the order they were imported and with exactly their jets. *)
Theorem mock_drained e fuel client ranges s g :
  Forall visits_values ranges → Forall importable (GetUnsentRecords s) →
  (size (pulses_of (GetUnsentRecords s)) ≤ length ranges)%nat → supply fuel (length ranges) g →
  ∃ s' out g', mock_rounds e fuel client ranges s g = Some ((s', out), g') ∧
    GetUnsentRecords s' = [] ∧ (out ≫= ppd_Records) ≡ₚ GetUnsentRecords s ∧
    StronglySorted (λ d d', fp_PulseNumber (ppd_Pulse d) < fp_PulseNumber (ppd_Pulse d')) out ∧
    Forall (handed s) out.
Proof.
  intros Hranges Himp Hsize Hsup.
  destruct (lasts_rounds e fuel client ranges s 0%nat g) as ([s' out] & g' & Hrun & _); [by rewrite Nat.add_0_r|].
  exists s', out, g'. split; [done|]. clear Hsup.
  revert s g s' out g' Himp Hsize Hrun.
  induction Hranges as [|range ranges Hrange _ IH]; intros s g s' out g' Himp Hsize Hrun.
  - apply Gen_ret_Some in Hrun as [[= <- <-] _].
    assert (GetUnsentRecords s = []) as ->; [|by split_and!; [| |constructor|constructor]].
    destruct (GetUnsentRecords s) as [|r rs]; [done|]. cbn in Hsize.
    assert (size ({[ID_Pulse (er_ID r)]} : gset Z) = 1%nat) as Hone by apply size_singleton.
    pose proof (subseteq_size {[ID_Pulse (er_ID r)]}
      ({[ID_Pulse (er_ID r)]} ∪ pulses_of rs) ltac:(set_solver)). lia.
  - apply Gen_bind_Some in Hrun as ([s1 o1] & g1 & Hround & Hrun).
    apply Gen_bind_Some in Hrun as ([s2 o2] & g2 & Hrest & [[= <- <-] _]%Gen_ret_Some).
    destruct (decide (GetUnsentRecords s = [])) as [Hs|Hs].
    { destruct (mock_round_empty _ _ _ _ _ _ _ _ _ Hs Hround) as [-> ->].
      eapply IH; [exact Himp| |exact Hrest]. rewrite Hs. cbn. rewrite size_empty. lia. }
    eapply mock_round_Ok in Hround as (d & -> & Hd & Hlow & Hs1); [|done..].
    destruct (IH s1 g1 s2 o2 g2) as (Hempty & Hperm & Hsorted & Hall); [| |exact Hrest|].
    { rewrite Hs1. rewrite Forall_forall in Himp |- *. intros r [_ Hr]%list_elem_of_filter. by apply Himp. }
    { rewrite Hs1, pulses_of_rest. pose proof (size_rest _ _ _ Hd eq_refl). cbn in Hsize. lia. }
    rewrite Hs1 in Hperm.
    assert (Forall (λ d', handed s d' ∧ fp_PulseNumber (ppd_Pulse d) < fp_PulseNumber (ppd_Pulse d')) o2)
      as Hall'.
    { eapply Forall_impl; [exact Hall|]. intros d' Hd'.
      destruct (handed_rest _ _ _ _ Hs1 Hd') as (Hh & Hp & r & Hr & Hrp). split; [done|].
      rewrite Forall_forall in Hlow. specialize (Hlow r Hr). lia. }
    split_and!; [exact Hempty| | |].
    + cbn. rewrite Hperm. destruct Hd as (_ & _ & -> & _). apply split_pulse.
    + constructor; [exact Hsorted|]. eapply Forall_impl; [exact Hall'|]. by intros d' [_ ?].
    + constructor; [exact Hd|]. eapply Forall_impl; [exact Hall'|]. by intros d' [? _].
Qed.
End drained.

(** ** The theorem at work *)

#[local] Existing Instance ref_messages.

Definition mock_client : TestPulseClient (G := N * N) := GetTestPulseClient 0 None.

Lemma mock_drained_witness :
  ∃ s' out g', mock_rounds ex_cfg 1 mock_client [map_values; map_values] mock_filled ex_source
                 = Some ((s', out), g') ∧
    GetUnsentRecords s' = [] ∧ (fp_PulseNumber ∘ ppd_Pulse <$> out) = [65537; 65547] ∧
    (out ≫= ppd_Records) ≡ₚ mock_records.
Proof.
  destruct (mock_drained ex_cfg 1 mock_client [map_values; map_values] mock_filled ex_source)
    as (s' & out & g' & Hrun & Hempty & Hperm & _ & _).
  - repeat (constructor; [apply map_values_visits|]). constructor.
  - apply (bool_decide_unpack _). vm_compute. exact I.
  - apply (bool_decide_unpack _). vm_compute. exact I.
  - apply ex_supply. cbn. lia.
  - exists s', out, g'. split; [exact Hrun|]. split; [exact Hempty|]. split; [|exact Hperm].
    assert (match mock_rounds ex_cfg 1 mock_client [map_values; map_values] mock_filled ex_source with
            | Some ((_, out), _) => bool_decide ((fp_PulseNumber ∘ ppd_Pulse <$> out) = [65537; 65547])
            | None => false end = true) as Hout by (vm_compute; reflexivity).
    rewrite Hrun in Hout. apply bool_decide_eq_true in Hout. exact Hout.
Defined.
