(* ===== verification/Pipeline.v ===== *)
(** * From the platform to the database

    The composition of the extractor, the transformer, the processor, the storage
    and the controller: a pulse that the extractor hands over is split into jet
    drops, which the workers of the processor store in some order and report to
    the controller.  The theorems follow a record of the platform to the row the
    API reads, and a pulse to the moment it is complete. *)

From S2P Require Import Prelude GoStd Platform RefPlatform Types Models Converter Gorm RefDb Interfaces Storage StorageWrite WellFormed StorageRead StorageInstance MissedData Controller Completeness ControllerProofs Processor Transformer TransformerProofs Extractor ExtractorProofs.

(** ** Storing the drops of a pulse *)

Section store.
Context `{Platform, StorageLaws DB}.
Implicit Types (c : Controller) (db : DB) (t : Tables) (K : TPulse).

(** The calls of [process] the workers make, one after the other in an order of
    their own: a drop whose call failed goes back to the channel and may come
    again.  The drops whose call succeeded, in order, and the state; [None] is a
    panic. *)
Fixpoint process_all (calls : list TJetDrop) (st : DB * Controller)
  : option (list TJetDrop * (DB * Controller)) :=
  match calls with
  | [] => Some ([], st)
  | jd :: calls =>
      '(st, err) ← process jd st;
      '(ds, st) ← process_all calls st;
      Some (match err with None => jd :: ds | Some _ => ds end, st)
  end.

Lemma process_all_cons jd calls st ds st' :
  process_all (jd :: calls) st = Some (ds, st') →
  ∃ st1 err ds1, process jd st = Some (st1, err) ∧ process_all calls st1 = Some (ds1, st') ∧
    ds = match err with None => jd :: ds1 | Some _ => ds1 end.
Proof.
  cbn [process_all]. destruct (process jd st) as [[st1 err]|]; cbn; [|done].
  destruct (process_all calls st1) as [[ds1 st2]|] eqn:Hall; cbn; [|done]. intros [= <- <-].
  by exists st1, err, ds1.
Qed.

Definition rows_of (jd : TJetDrop) (mrs : list MRecord) : Prop :=
  model_records (model_jet_drop jd) 0 (ms_Records (tjd_MainSection jd)) = Some mrs.

(** The drops of one pulse [K]. *)
Definition of_pulse K (ds : list TJetDrop) : Prop := Forall (λ jd, pulse_data jd = K) ds.

Definition register_jet K c (jd : TJetDrop) : Controller := SetJetDropData K (jet_prefix jd) c.

Lemma process_all_tables K calls ds db c st :
  tp_PulseNo K ≠ 0 → of_pulse K calls → process_all calls (db, c) = Some (ds, st) →
  of_pulse K ds ∧ st.2 = foldl (register_jet K) c ds ∧
  ∃ rows, Forall2 rows_of ds rows ∧
    t_jet_drops (st_tables st.1) =
      fill (λ jd, (tp_PulseNo K, jet_prefix jd)) model_jet_drop ds (t_jet_drops (st_tables db)) ∧
    t_records (st_tables st.1) = put_records (concat rows) (t_records (st_tables db)).
Proof.
  intros Hn Hcalls. revert ds db c. induction Hcalls as [|jd calls HK _ IH]; intros ds db c Hp.
  { cbn in Hp. simplify_eq. split; [constructor|]. split; [done|]. exists []. split_and!; done. }
  apply process_all_cons in Hp as ([db1 c1] & err & ds1 & Hjd & Hp & ->).
  apply IH in Hp as (Hof & -> & rows & Hrows & -> & ->). destruct err as [err|].
  - apply process_failed_tables in Hjd as Ht. apply process_failed in Hjd. cbn in Hjd, Ht. subst c1.
    split_and!; [done|done|]. exists rows.
    destruct Ht as [-> | ->]; split_and!; done.
  - apply process_done in Hjd as (Hc & mrs & a & b & Hmrs & Ht); [|by rewrite HK].
    cbn in Hc, Ht. rewrite Ht, Hc, HK. split_and!; [by constructor|done|].
    exists (mrs :: rows). split_and!; [by constructor| |].
    + unfold processed. cbn. by rewrite HK.
    + cbn. unfold put_records. by rewrite foldl_app.
Qed.

(** The jets of the drops. *)
Definition jets_of (ds : list TJetDrop) : gset string := list_to_set (jet_prefix <$> ds).

Lemma register_all K ds c :
  ds ≠ [] →
  let c' := foldl (register_jet K) c ds in
  c_jetDropRegister c' =
    <[K := jets_of ds ∪ default ∅ (c_jetDropRegister c !! K)]> (c_jetDropRegister c) ∧
  c_platformVersion c' = c_platformVersion c ∧ c_sequentialPulse c' = c_sequentialPulse c.
Proof.
  induction ds as [|jd ds IH] using rev_ind; intros Hne; [done|]. rewrite foldl_app. cbn.
  assert (∀ (m : option (gset string)), match m with Some d => d | None => ∅ end = default ∅ m)
    as Hdef by by intros [].
  destruct (decide (ds = [])) as [->|Hds].
  - cbn. split; [|done]. f_equal. rewrite Hdef. set_solver.
  - destruct (IH Hds) as (-> & Hpv & Hseq). split_and!; [|done|done].
    rewrite lookup_insert_eq, insert_insert_eq. f_equal. unfold jets_of.
    rewrite fmap_app, list_to_set_app_L. set_solver.
Qed.
End store.

(** ** The rows of the drops *)

Section rows.
Context `{Platform}.

Definition recs (d : TJetDrop) : list TRecord := ms_Records (tjd_MainSection d).

(** The row of a record of a jet of the pulse [pd]. *)
Definition record_row (pd : TPulse) (jet : string) (r : TRecord) (mr : MRecord) : Prop :=
  ∃ type order, RecordTypeFromTypes (tr_Type r) = Some type ∧
    mr = mkMRecord (tr_Ref r) type (tr_ObjectReference r) (tr_PrototypeReference r)
           (tr_RecordPayload r) (tr_PrevRecordReference r) (tr_Hash r) (tr_RawData r)
           jet (tp_PulseNo pd) order (tp_PulseTimestamp pd).

Lemma model_record_row d i r mr :
  model_record (model_jet_drop d) i r = Some mr → record_row (pulse_data d) (jet_prefix d) r mr.
Proof.
  unfold model_record. destruct (RecordTypeFromTypes (tr_Type r)) as [type|] eqn:Htype; cbn; [|done].
  intros [= <-]. by exists type, (Z.of_nat i).
Qed.

Lemma model_records_refs mjd i rs mrs :
  model_records mjd i rs = Some mrs → r_Reference <$> mrs = tr_Ref <$> rs.
Proof.
  revert i mrs. induction rs as [|r rs IH]; intros i mrs Hm; cbn in Hm; [by simplify_eq|].
  destruct (model_record mjd i r) as [mr|] eqn:Hr; cbn in Hm; [|done].
  destruct (model_records mjd (S i) rs) as [mrs'|] eqn:Hrs; cbn in Hm; [|done]. simplify_eq.
  cbn. f_equal; [|by eapply IH]. unfold model_record in Hr.
  destruct (RecordTypeFromTypes _); cbn in Hr; by simplify_eq.
Qed.

Lemma rows_refs ds rows :
  Forall2 rows_of ds rows → r_Reference <$> concat rows = tr_Ref <$> concat (recs <$> ds).
Proof.
  induction 1 as [|d mrs ds rows Hd _ IH]; cbn; [done|].
  rewrite !fmap_app. f_equal; [by eapply model_records_refs|exact IH].
Qed.

Lemma rows_elem ds rows d r :
  Forall2 rows_of ds rows → d ∈ ds → r ∈ recs d →
  ∃ mr, mr ∈ concat rows ∧ r_Reference mr = tr_Ref r ∧ record_row (pulse_data d) (jet_prefix d) r mr.
Proof.
  intros Hrows Hd Hr. apply list_elem_of_lookup in Hd as [i Hi].
  destruct (Forall2_lookup_l _ _ _ _ _ Hrows Hi) as (mrs & Hmi & Hmrs).
  apply model_records_lookup in Hmrs as [_ Hall]. apply list_elem_of_lookup in Hr as [k Hk].
  destruct (Hall k r Hk) as (mr & Hmk & Hmr). exists mr. apply model_record_row in Hmr. split_and!.
  - apply list_elem_of_In, in_concat. exists mrs.
    split; apply list_elem_of_In; by eapply list_elem_of_lookup_2.
  - by destruct Hmr as (type & order & _ & ->).
  - exact Hmr.
Qed.
End rows.

(** ** A pulse of the platform *)

Section pulse.
Context `{Platform, !PlatformLaws}.

Definition sent (jd : PlatformPulseData) (jet : JetDropContinue) : list TRecord :=
  records_of (jdc_JetID jet) (ppd_Records jd).

(** What the platform guarantees of a pulse: a number, records that marshal, jets
    with different texts, and records with different references -- and orders in
    which the runtime may range over the maps of the transformer. *)
Record sound_pulse (ord : Orders) (jd : PlatformPulseData) : Prop := {
  sp_number : fp_PulseNumber (ppd_Pulse jd) ≠ 0;
  sp_marshal : ∃ m, Transformer.getRecords jd = Ok m;
  sp_jets : NoDup ((λ jet, jet_text (jdc_JetID jet)) <$> fp_Jets (ppd_Pulse jd));
  sp_refs : NoDup (tr_Ref <$> concat (sent jd <$> fp_Jets (ppd_Pulse jd)));
  sp_states : ∀ jet, jet ∈ fp_Jets (ppd_Pulse jd) →
    ∀ x, NoDup (ref_id <$> states x (sent jd jet));
  sp_orders : ∀ jet, jet ∈ fp_Jets (ppd_Pulse jd) →
    orders_ok (sent jd jet) (o_objects ord (jdc_JetID jet)) (o_prevs ord (jdc_JetID jet));
}.

Definition unsortable (ord : Orders) (jd : PlatformPulseData) (jet : JetDropContinue) : Prop :=
  ∃ e, sortRecords (o_objects ord (jdc_JetID jet)) (o_prevs ord (jdc_JetID jet)) (sent jd jet) = Err e.

(** The records of the jet can be sorted; chains of states always can. *)
Definition sortable (ord : Orders) (jd : PlatformPulseData) (jet : JetDropContinue) : Prop :=
  (∃ sorted,
     sortRecords (o_objects ord (jdc_JetID jet)) (o_prevs ord (jdc_JetID jet)) (sent jd jet)
     = Ok sorted) ∨
  ∃ chain_of, in_chains (sent jd jet) chain_of.

Lemma sortable_sorts ord jd jet :
  orders_ok (sent jd jet) (o_objects ord (jdc_JetID jet)) (o_prevs ord (jdc_JetID jet)) →
  sortable ord jd jet → ¬ unsortable ord jd jet.
Proof.
  intros Hord Hs [e He]. destruct Hs as [[sorted Hs]|[chain_of Hch]]; [congruence|].
  by rewrite (sort_chains _ _ _ _ Hord Hch) in He.
Qed.

(** The drops of the jets whose records could be sorted. *)
Lemma drops_of_jets ord jd jets dso :
  Forall2 (drop_of ord jd) jets dso →
  of_pulse (getPulseData (ppd_Pulse jd)) (omap id dso) ∧
  (Some <$> (jet_prefix <$> omap id dso)) `sublist_of` ((λ jet, jet_text (jdc_JetID jet)) <$> jets) ∧
  (tr_Ref <$> concat (recs <$> omap id dso)) ⊆+ (tr_Ref <$> concat (sent jd <$> jets)) ∧
  ∀ jet, jet ∈ jets → unsortable ord jd jet ∨ ∃ d, d ∈ omap id dso ∧ drop_of ord jd jet (Some d).
Proof.
  induction 1 as [|jet [d|] jets dso Hd _ (Hk & Hp & Hr & Hj)]; cbn [omap list_omap id fmap list_fmap].
  - split_and!; [constructor|constructor|done|]. by intros jet ?%elem_of_nil.
  - pose proof Hd as (HK & Htext & _ & _ & _ & Hperm & _). split_and!.
    + by constructor.
    + rewrite Htext. by apply sublist_skip.
    + cbn. rewrite !fmap_app. apply submseteq_app; [|exact Hr].
      change (recs d) with (ms_Records (tjd_MainSection d)). by rewrite Hperm.
    + intros jet' [->|Hin]%elem_of_cons; [right; exists d; split; [left|done]|].
      destruct (Hj _ Hin) as [?|(d' & ? & ?)]; [by left|right]. exists d'. split; [by right|done].
  - split_and!.
    + done.
    + by apply sublist_cons.
    + cbn. rewrite fmap_app. by apply submseteq_inserts_l.
    + intros jet' [->|Hin]%elem_of_cons; [by left|].
      destruct (Hj _ Hin) as [?|(d' & ? & ?)]; [by left|right]. by exists d'.
Qed.

Lemma Transform_drops ord jd drops :
  sound_pulse ord jd → Transform ord jd = Some (Ok drops) →
  ∃ dso, drops = omap id dso ∧ Forall2 (drop_of ord jd) (fp_Jets (ppd_Pulse jd)) dso.
Proof.
  intros [Hn [m Hm] Hjets Hrefs Hst Hord] Ht.
  destruct (Transform_jet_drops ord jd m Hm) as (m' & Hm' & Heq).
  destruct (jet_drops_spec ord jd _ _ Hm' (λ jet Hjet, conj (Hst jet Hjet) (Hord jet Hjet)))
    as (dso & Hd & Hdso).
  rewrite Hd, Ht in Heq. cbn in Heq. simplify_eq. by exists dso.
Qed.
End pulse.

(** ** A pulse in the database *)

Section stored.
Context `{Platform, !PlatformLaws, StorageLaws DB}.
Implicit Types (c : Controller) (db : DB).

(** The jet drop and the records of a jet, and the jet in the register. *)
Definition jet_stored (jd : PlatformPulseData) (jet : JetDropContinue) (text : string) (t : Tables)
  (c : Controller) : Prop :=
  let pd := getPulseData (ppd_Pulse jd) in
  (∃ row, t_jet_drops t !! (tp_PulseNo pd, text) = Some row ∧ jd_Hash row = jdc_Hash jet ∧
     jd_RecordAmount row = Z.of_nat (length (sent jd jet))) ∧
  (∀ r, r ∈ sent jd jet → ∃ mr, t_records t !! tr_Ref r = Some mr ∧ record_row pd text r mr) ∧
  text ∈ default ∅ (c_jetDropRegister c !! pd).

Lemma omap_id_fmap_Some {A} (l : list A) : omap id (Some <$> l) = l.
Proof. induction l as [|x l IH]; cbn; by rewrite ?IH. Qed.

Lemma drops_prefixes_NoDup ord jd dso :
  sound_pulse ord jd → Forall2 (drop_of ord jd) (fp_Jets (ppd_Pulse jd)) dso →
  NoDup (jet_prefix <$> omap id dso).
Proof.
  intros Hs (_ & Hsub & _)%drops_of_jets. apply (NoDup_fmap_1 Some).
  eapply sublist_NoDup; [apply (sp_jets _ _ Hs)|exact Hsub].
Qed.

Lemma drops_refs_NoDup ord jd dso :
  sound_pulse ord jd → Forall2 (drop_of ord jd) (fp_Jets (ppd_Pulse jd)) dso →
  NoDup (tr_Ref <$> concat (recs <$> omap id dso)).
Proof.
  intros Hs (_ & _ & Hsub & _)%drops_of_jets.
  apply submseteq_Permutation in Hsub as [k Hk]. pose proof (sp_refs _ _ Hs) as Hnd.
  rewrite Hk in Hnd. by apply NoDup_app in Hnd as [Hnd _].
Qed.

Lemma drop_stored ord jd jet d ds rows db c st :
  drop_of ord jd jet (Some d) → d ∈ ds → ds ≠ [] →
  NoDup (jet_prefix <$> ds) → NoDup (tr_Ref <$> concat (recs <$> ds)) → Forall2 rows_of ds rows →
  t_jet_drops (st_tables st.1) =
    fill (λ jd', (tp_PulseNo (getPulseData (ppd_Pulse jd)), jet_prefix jd')) model_jet_drop ds
      (t_jet_drops (st_tables db)) →
  t_records (st_tables st.1) = put_records (concat rows) (t_records (st_tables db)) →
  st.2 = foldl (register_jet (getPulseData (ppd_Pulse jd))) c ds →
  jet_stored jd jet (jet_prefix d) (st_tables (DB := DB) st.1) st.2.
Proof.
  intros (HK & Htext & _ & _ & Hhash & Hperm & _) Hd Hne Hnd1 Hnd2 Hrows Hj Hr ->.
  fold (pulse_data d) in HK. split_and!.
  - exists (model_jet_drop d). split_and!.
    + rewrite Hj. apply (fill_lookup (λ jd', (_, jet_prefix jd')) model_jet_drop); [|done].
      apply (NoDup_fmap_1 snd). by rewrite <- list_fmap_compose.
    + exact Hhash.
    + cbn. f_equal. by apply Permutation_length.
  - intros r Hin. rewrite <- Hperm in Hin. destruct (rows_elem _ _ _ _ Hrows Hd Hin) as (mr & Hmr & Href & Hrow).
    exists mr. rewrite HK in Hrow. split; [|exact Hrow]. rewrite Hr, <- Href.
    apply (fill_lookup r_Reference id); [|done]. by rewrite (rows_refs _ _ Hrows).
  - destruct (register_all (getPulseData (ppd_Pulse jd)) ds c Hne) as [-> _].
    rewrite lookup_insert_eq. cbn. apply elem_of_union_l, elem_of_list_to_set, list_elem_of_fmap.
    by exists d.
Qed.

Lemma pulse_stored ord jd drops calls ds db c st :
  sound_pulse ord jd → Transform ord jd = Some (Ok drops) →
  of_pulse (getPulseData (ppd_Pulse jd)) calls → process_all calls (db, c) = Some (ds, st) →
  ds ≡ₚ drops → ∀ jet, jet ∈ fp_Jets (ppd_Pulse jd) →
    unsortable ord jd jet ∨
    ∃ text, jet_text (jdc_JetID jet) = Some text ∧ jet_stored jd jet text (st_tables st.1) st.2.
Proof.
  intros Hs Ht HK Hp Hperm jet Hjet. destruct (Transform_drops _ _ _ Hs Ht) as (dso & -> & Hdso).
  destruct (drops_of_jets _ _ _ _ Hdso) as (_ & _ & _ & Hcov).
  destruct (Hcov jet Hjet) as [?|(d & Hd & Hdrop)]; [by left|right].
  pose proof Hdrop as (_ & Htext & _). exists (jet_prefix d). split; [exact Htext|].
  apply process_all_tables with (K := getPulseData (ppd_Pulse jd)) in Hp
    as (_ & Hc & rows & Hrows & Hj & Hr); [|apply Hs|exact HK].
  rewrite <- Hperm in Hd. eapply drop_stored; try done.
  - by intros ->; apply elem_of_nil in Hd.
  - rewrite Hperm. by eapply drops_prefixes_NoDup.
  - rewrite Hperm. by eapply drops_refs_NoDup.
Qed.
End stored.

(** ** From the platform to the API *)

Section delivered.
Context `{Platform, !PlatformLaws, GormLaws DB, ExporterMessages}.
Context (whole : Z → list ExporterRecord).
Implicit Types (c : Controller) (db : DB).

Lemma process_extends jd db c st err :
  tp_PulseNo (pulse_data jd) ≠ 0 → process jd (db, c) = Some (st, err) →
  extends (tables db) (tables st.1).
Proof.
  intros Hn. unfold process. fold (pulse_data jd).
  destruct (st_SavePulse _ db) as [db1|] eqn:Hsp; [|by intros [= <- _]].
  destruct (model_records _ _ _) as [mrs|]; cbn [mbind option_bind]; [|done].
  pose proof (SavePulse_extends _ _ _ Hsp) as Hext.
  destruct (st_SaveJetDropData _ _ _ db1) as [db2|] eqn:Hsd; intros [= <- _]; [|exact Hext].
  transitivity (tables db1); [exact Hext|]. exact (SaveJetDropData_extends _ _ _ _ _ Hn Hsd).
Qed.

Lemma process_all_extends K calls ds db c st :
  tp_PulseNo K ≠ 0 → of_pulse K calls → process_all calls (db, c) = Some (ds, st) →
  extends (tables db) (tables st.1).
Proof.
  intros Hn Hcalls. revert ds db c. induction Hcalls as [|jd calls HK _ IH]; intros ds db c Hp.
  { cbn in Hp. by simplify_eq. }
  apply process_all_cons in Hp as ([db1 c1] & err & ds1 & Hjd & Hp & _).
  etrans; [eapply process_extends in Hjd; [exact Hjd|by rewrite HK]|by eapply IH].
Qed.

(** A stored record is what [GetRecord] answers, unless the database fails. *)
Lemma GetRecord_stored ref mr db :
  well_formed (tables db) → t_records (tables db) !! ref = Some mr →
  GetRecord ref db = Ok mr ∨ ∃ e, GetRecord ref db = Err e ∧ e ≠ ErrRecordNotFound.
Proof.
  intros Hwf Hmr. pose proof (proj2 (proj2 (wf_keyed _ Hwf))) as Hkeyed.
  assert (means (Where (cond "reference" CEq (VBytes ref)) new_query)
            (λ r : MRecord, bool_decide (r_Reference r = ref))) as Hq.
  { eapply means_ext; [|query_means]. intros r. sat_simpl. cbn [sat_cmp andb].
    by rewrite bool_decide_val_bytes. }
  apply means_selects in Hq.
  destruct (GetRecord ref db) as [mr'|e] eqn:Hg.
  - left. f_equal. apply First_Ok in Hg as [Hsel _].
    apply (selects_selected _ _ _ _ Hq) in Hsel as [Href%bool_decide_eq_true Hin].
    apply elem_of_rows_map in Hin as [k Hk].
    pose proof (Hkeyed _ _ Hk) as Hkk. cbn in Hkk. congruence.
  - right. exists e. split; [done|]. intros ->.
    apply (First_not_found MRecord _ _ Hg mr). apply (selects_selected _ _ _ _ Hq).
    split; [apply bool_decide_eq_true; symmetry; by apply (Hkeyed ref)|].
    apply elem_of_rows_map. by exists ref.
Qed.

(** C4: What the platform holds is what the API serves.  Follow a pulse from the
    extractor, whose streams may break off any number of times, through the
    transformer and the workers of the processor, who take its drops in any order
    and any number of times until a call for each has succeeded, to a database
    whose tables are well formed.  Every jet of the pulse whose records can be
    sorted -- those whose states form one chain per object can; the transformer
    drops any other with a message -- has its drop stored with its hash and the
    number of its records, is known to the controller, and each supported record
    the platform holds for it is stored with its content and answered by
    [GetRecord], unless the database fails then. *)
Theorem pulse_delivered e pu mainThread attempts ord jd drops calls ds db c st :
  well_numbered whole pu → Forall (serves whole pu) attempts →
  jd ∈ emitted (retrieveRecords e pu mainThread false attempts).1 →
  sound_pulse ord jd → Transform ord jd = Some (Ok drops) →
  well_formed (tables db) → of_pulse (getPulseData pu) calls →
  process_all calls (db, c) = Some (ds, st) → ds ≡ₚ drops →
  ∀ jet, jet ∈ fp_Jets pu → sortable ord jd jet →
    ∃ text, jet_text (jdc_JetID jet) = Some text ∧
      jet_stored jd jet text (tables st.1) st.2 ∧
      ∀ r rec, r ∈ whole (fp_PulseNumber pu) → er_JetID r = jdc_JetID jet →
        transferToCanonicalRecord r = Ok rec →
        ∃ mr, record_row (getPulseData pu) text rec mr ∧
          (GetRecord (tr_Ref rec) st.1 = Ok mr ∨
           ∃ err, GetRecord (tr_Ref rec) st.1 = Err err ∧ err ≠ ErrRecordNotFound).
Proof.
  intros Hwell Hserves Hin Hs Ht Hwf HK Hp Hperm jet Hjet Hsort.
  assert (jd = whole_pulse whole pu) as ->.
  { pose proof (retrieveRecords_handed_over whole e pu mainThread attempts Hwell Hserves) as Hho.
    unfold handed_over in Hho. destruct (_.2) as [r|[n|]];
      [rewrite Hho in Hin; by apply elem_of_nil in Hin
      |destruct Hho as [Hho _]; rewrite Hho in Hin; by apply list_elem_of_singleton in Hin
      |rewrite Hho in Hin; by apply elem_of_nil in Hin]. }
  apply sortable_sorts in Hsort; [|by apply (sp_orders _ _ Hs)].
  destruct (pulse_stored _ _ _ _ _ _ _ _ Hs Ht HK Hp Hperm jet Hjet) as [?|(text & Htext & Hst)]; [done|].
  exists text. split_and!; [done|done|]. intros r rec Hr Hid Hrec.
  destruct Hst as (_ & Hrecs & _). destruct (Hrecs rec) as (mr & Hmr & Hrow).
  { apply list_elem_of_omap. exists r. split; [done|]. unfold canonical.
    by rewrite decide_True, Hrec by done. }
  exists mr. split; [exact Hrow|]. apply GetRecord_stored; [|done].
  exact (proj1 (process_all_extends (getPulseData pu) _ _ _ _ _ (sp_number _ _ Hs) HK Hp Hwf)).
Qed.
End delivered.

(** ** From the drops to a complete pulse *)

Lemma count_incomplete_frame c :
  c_jetDropRegister (count_incomplete c) ⊆ c_jetDropRegister c ∧
  (c_platformVersion c ≠ 1 → count_incomplete c = c).
Proof.
  unfold count_incomplete. repeat case_decide; cbn; split_and!; try done.
  apply map_filter_subseteq.
Qed.

Section completed.
Context `{Platform, !PlatformLaws, StorageLaws DB, JetDropsExtractor EX}.
#[local] Abbreviation W := (World DB EX).
Implicit Types (c : Controller) (db : DB) (w : W).

(** A database that answers: it completes every stored pulse. *)
Context (answers : DB → Prop).
Context (answers_complete : ∀ db n, answers db → n ≠ 0 →
  is_Some (t_pulses (st_tables db) !! n) → is_ok (st_CompletePulse n db) = true).
Context (answers_kept : ∀ db n db', answers db → st_CompletePulse n db = Ok db' → answers db').

Lemma visit_pulse_answers v d w w' :
  visit_pulse v d w = Some w' → answers (w_db w) → answers (w_db w').
Proof.
  intros [(_ & [(e & _ & ->)|(db & Hst & ->)])|(_ & ->)]%visit_pulse_cases Ha; [done| |].
  - cbn. by eapply answers_kept.
  - case_decide; [|done].
    destruct (reloadData_frame (v_now v) (tp_PrevPulseNumber (v_pulse v)) (tp_PulseNo (v_pulse v)) w)
      as (-> & _). done.
Qed.

Lemma visit_all_answers copy visits w w' :
  visit_all copy visits w = Some w' → answers (w_db w) → answers (w_db w').
Proof.
  revert w. induction visits as [|v visits IH]; intros w Hv Ha; cbn [visit_all] in Hv.
  { by simplify_eq. }
  destruct (copy !! v_pulse v) as [d|]; [|done]. cbn in Hv.
  destruct (visit_pulse v d w) as [w1|] eqn:Hv1; [|done]. cbn in Hv.
  eapply IH; [exact Hv|]. by eapply visit_pulse_answers.
Qed.

(** A database that answers refuses no stored pulse during a pass. *)
Lemma never_refused copy visits w k :
  NoDup (v_pulse <$> visits) → Forall (schedulable copy) visits → tp_PulseNo k ≠ 0 →
  answers (w_db w) → is_Some (t_pulses (st_tables (w_db w)) !! tp_PulseNo k) →
  ¬ refused copy visits w k.
Proof.
  intros Hnd Hall Hn Ha Hk (pre & v & post & w1 & e & -> & _ & Hpre & He).
  rewrite fmap_app in Hnd. apply NoDup_app in Hnd as (Hnd & _). apply Forall_app in Hall as [Hall _].
  destruct (visit_all_spec copy pre w Hnd Hall) as (w1' & Hw1 & _ & (_ & (_ & _ & Hm) & _) & _).
  rewrite Hpre in Hw1. simplify_eq.
  assert (is_ok (st_CompletePulse (tp_PulseNo k) (w_db w1')) = true) as Hok.
  { apply answers_complete; [by eapply visit_all_answers|done|].
    destruct (Hm (tp_PulseNo k)) as [->|(p & ? & ? & _ & -> & _)]; [done|by eexists]. }
  by rewrite He in Hok.
Qed.

(** The pulse of a stored drop is stored. *)
Lemma process_stores jd db c st err :
  tp_PulseNo (pulse_data jd) ≠ 0 → process jd (db, c) = Some (st, err) →
  err = None ∨ is_Some (t_pulses (st_tables db) !! tp_PulseNo (pulse_data jd)) →
  is_Some (t_pulses (st_tables st.1) !! tp_PulseNo (pulse_data jd)).
Proof.
  intros Hn Hjd Hor. destruct err as [err|].
  - destruct Hor as [?|Hdb]; [done|].
    apply process_failed_tables in Hjd as [-> | ->]; [done|]. cbn. by rewrite lookup_insert_eq.
  - apply process_done in Hjd as (_ & mrs & a & b & _ & ->); [|done].
    cbn. by rewrite lookup_insert_eq.
Qed.

Lemma process_all_stores K calls ds db c st :
  tp_PulseNo K ≠ 0 → of_pulse K calls → process_all calls (db, c) = Some (ds, st) →
  ds ≠ [] ∨ is_Some (t_pulses (st_tables db) !! tp_PulseNo K) →
  is_Some (t_pulses (st_tables st.1) !! tp_PulseNo K).
Proof.
  intros Hn Hcalls. revert ds db c. induction Hcalls as [|jd calls HK _ IH]; intros ds db c Hp Hor.
  { cbn in Hp. simplify_eq. by destruct Hor. }
  apply process_all_cons in Hp as ([db1 c1] & err & ds1 & Hjd & Hp & Hds).
  pose proof (process_stores jd db c (db1, c1) err) as Hst. rewrite HK in Hst.
  specialize (Hst Hn Hjd). apply (IH _ _ _ Hp). destruct err as [err|].
  - destruct Hor as [Hne|Hdb]; [left; congruence|right; apply Hst; by right].
  - right. apply Hst. by left.
Qed.

(** C6: A pulse whose jets have all come is completed by the next pass.  The workers
    have stored the drops of a pulse that was not registered, in any order and
    with any failed calls between; the database answers, that is, it refuses to
    complete no stored pulse.  Then a pass of the maintainer over the register, in
    any order, does not panic, and if the jets of the drops cover the jet tree
    the pulse is complete in the database and has left the register; if they do
    not cover it, the pulse stays with its jets and, unless the platform is
    version 1, its range is requested again. *)
Theorem pulse_completed K calls ds db c db' c' ex visits :
  tp_PulseNo K ≠ 0 → of_pulse K calls → ds ≠ [] →
  c_jetDropRegister c !! K = None → process_all calls (db, c) = Some (ds, (db', c')) →
  answers db' →
  NoDup (v_pulse <$> visits) → Forall (schedulable (c_jetDropRegister c')) visits →
  K ∈ v_pulse <$> visits →
  ∃ w, eraseJetDropRegister visits (mkWorld c' db' ex) = Some w ∧
    (covers_tree (jets_of ds) →
       complete_in (st_tables (w_db w)) (tp_PulseNo K) ∧ c_jetDropRegister (w_c w) !! K = None) ∧
    (¬ covers_tree (jets_of ds) → c_platformVersion c ≠ 1 →
       c_jetDropRegister (w_c w) !! K = Some (jets_of ds) ∧
       requested (tp_PrevPulseNumber K) (tp_PulseNo K) w).
Proof.
  intros Hn HK Hne Hnone Hp Ha Hnd Hsch Hin.
  pose proof (process_all_stores K _ _ _ _ _ Hn HK Hp (or_introl Hne)) as Hstored.
  apply process_all_tables with (K := K) in Hp as (_ & Hc & _); [|done|done]. cbn in Hc.
  destruct (register_all K ds c Hne) as (Hreg & Hpv & _). rewrite <- Hc in Hreg, Hpv.
  rewrite Hnone in Hreg. cbn in Hreg. rewrite (right_id_L ∅ (∪)) in Hreg.
  assert (c_jetDropRegister c' !! K = Some (jets_of ds)) as HregK
    by (rewrite Hreg; apply lookup_insert_eq).
  pose proof (never_refused (c_jetDropRegister c') visits (mkWorld c' db' ex) K Hnd Hsch Hn Ha Hstored)
    as Hno.
  unfold eraseJetDropRegister.
  destruct (visit_all_spec (c_jetDropRegister c') visits (mkWorld c' db' ex) Hnd Hsch)
    as (w' & Hv & Hle & _ & _ & Hout). cbn [w_c] in *. rewrite Hv. cbn [mbind option_bind].
  eexists. split; [reflexivity|]. specialize (Hout K _ Hin HregK).
  destruct (count_incomplete_frame (w_c w')) as (Hsub & Hsame). cbn [w_db w_c with_c].
  destruct Hle as (_ & Hpv' & _). cbn [w_c] in Hpv'. unfold outcome in Hout. cbn [w_c] in Hout.
  split.
  - intros Hcov. destruct Hout as [[? _]|[(_ & Hr & Hcomp)|(_ & _ & Hbad)]]; [done| |done].
    split; [exact Hcomp|]. by eapply lookup_weaken_None.
  - intros Hncov Hv1. destruct Hout as [(_ & Hr & Hreq)|[[? _]|[? _]]]; [|done|done].
    rewrite Hsame, Hr by congruence. split; [exact HregK|].
    apply Hreq. congruence.
Qed.
End completed.

(** ** The theorems at work *)

#[local] Existing Instance ref_messages.

(** A pulse with two jets and an activation in each, and the packet after it. *)
Definition two_jets : FullPulse :=
  mkFullPulse 65537 0 65547 5000000000
    [mkJetDropContinue (toy_jet 1 [Byte.x00]) [Byte.x07] [[Byte.x06]];
     mkJetDropContinue (toy_jet 1 [Byte.x80]) [Byte.x08] [[Byte.x06]]].
Definition activation (n : Z) (ref obj jet : Byte.byte) : ExporterRecord :=
  mkExporterRecord n [ref] [obj] (toy_jet 1 [jet]) (Virtual_Activate [Byte.x70] [Byte.x71] [ref])
    None (Ok [ref]).
Definition two_records : list ExporterRecord :=
  [activation 1 Byte.x61 Byte.x6f Byte.x00; activation 2 Byte.x62 Byte.x6e Byte.x80].
Definition two_whole (n : Z) : list ExporterRecord := if decide (n = 65537) then two_records else [].
Definition two_next : ExporterRecord := ex_rec 3 (Some 65557).
Definition two_attempt (k : Z) : Attempt :=
  ExportStream ((RecvResp <$> take 5 (drop (Z.to_nat k) (two_records ++ [two_next])))
                ++ [RecvErr (ErrMsg "rate limit exceeded")]).
Definition two_pulse : PlatformPulseData := whole_pulse two_whole two_jets.
Definition two_orders : Orders :=
  mkOrders (λ id, std_os (records_of id two_records)) (λ id, std_o (records_of id two_records)).
Definition two_drops : list TJetDrop :=
  match Transform two_orders two_pulse with Some (Ok ds) => ds | _ => [] end.
Definition fresh_controller : Controller := NewController cfg0 2.
Definition two_state : RefDB * Controller :=
  default (up no_rows, fresh_controller)
    (snd <$> process_all (reverse two_drops) (up no_rows, fresh_controller)).
Definition two_key : TPulse := getPulseData two_jets.

Lemma two_numbered : well_numbered two_whole two_jets.
Proof. split; [repeat constructor|done]. Defined.

Lemma two_serves : serves two_whole two_jets two_attempt.
Proof.
  intros k evs [= <-]. exists two_next. split.
  - split; [done|]. intros q Hq. cbn in Hq. unfold two_whole. case_decide; [lia|done].
  - rewrite responses_broken_off by done. change (two_whole _) with two_records.
    change ([_; _; two_next]) with (two_records ++ [two_next]).
    destruct (decide (Z.to_nat k ≤ 2)%nat).
    + rewrite drop_app_le by done. rewrite take_ge; [done|]. rewrite length_app, length_drop. cbn. lia.
    + rewrite (drop_ge (_ ++ _)) by (cbn; lia). apply prefix_nil.
Defined.

Lemma two_sound : sound_pulse two_orders two_pulse.
Proof.
  constructor.
  - done.
  - eexists. reflexivity.
  - apply (bool_decide_unpack _). vm_compute. exact I.
  - apply (bool_decide_unpack _). vm_compute. exact I.
  - intros jet Hjet x. apply NoDup_states. unfold two_pulse in Hjet. cbn in Hjet.
    apply elem_of_cons in Hjet as [->|Hjet]; [|apply list_elem_of_singleton in Hjet as ->];
      apply (bool_decide_unpack _); vm_compute; exact I.
  - intros jet _. apply std_orders_ok.
Defined.

Lemma two_transform : Transform two_orders two_pulse = Some (Ok two_drops).
Proof. vm_compute. reflexivity. Defined.

Lemma two_process :
  process_all (reverse two_drops) (up no_rows, fresh_controller) = Some (reverse two_drops, two_state).
Proof. vm_compute. reflexivity. Defined.

Lemma two_of_pulse : of_pulse two_key (reverse two_drops).
Proof. vm_compute. repeat constructor. Defined.

Lemma two_emitted :
  emitted (retrieveRecords ex_cfg two_jets false false [two_attempt]).1 = [two_pulse].
Proof. reflexivity. Defined.

Lemma pulse_delivered_witness :
  ∃ mr, r_JetID mr = "1" ∧ GetRecord [Byte.x62] two_state.1 = Ok mr.
Proof.
  destruct (pulse_delivered two_whole ex_cfg two_jets false [two_attempt] two_orders two_pulse
    two_drops (reverse two_drops) (reverse two_drops) (up no_rows) fresh_controller two_state)
    with (jet := mkJetDropContinue (toy_jet 1 [Byte.x80]) [Byte.x08] [[Byte.x06]])
    as (text & Htext & _ & Hall).
  - exact two_numbered.
  - repeat constructor. exact two_serves.
  - rewrite two_emitted. left.
  - exact two_sound.
  - exact two_transform.
  - exact no_rows_well_formed.
  - exact two_of_pulse.
  - exact two_process.
  - apply reverse_Permutation.
  - right. left.
  - left. eexists. vm_compute. reflexivity.
  - assert (text = "1") as -> by (vm_compute in Htext; injection Htext as <-; reflexivity).
    destruct (Hall (activation 2 Byte.x62 Byte.x6e Byte.x80)
      (mkTRecord STATE [Byte.x62] [Byte.x6e] [Byte.x70] [] [Byte.x62] [Byte.x62] [Byte.x62] 2))
      as (mr & (type & order & _ & ->) & [Hg|(err & Hg & _)]).
    + right. left.
    + reflexivity.
    + vm_compute. reflexivity.
    + eexists. split; [|exact Hg]. reflexivity.
    + exfalso. vm_compute in Hg. discriminate Hg.
Defined.

Definition two_visit : Visit :=
  mkVisit two_key 0 (elements ({["0"; "1"]} : gset string)) (elements ({["0"; "1"]} : gset string)).

Definition two_world : World RefDB (list (Z * Z)) := mkWorld two_state.2 two_state.1 [].
Definition two_done : World RefDB (list (Z * Z)) :=
  default two_world (eraseJetDropRegister [two_visit] two_world).

Lemma two_erase : eraseJetDropRegister [two_visit] two_world = Some two_done.
Proof. vm_compute. reflexivity. Defined.

(** The reference database answers while it is up. *)
Definition ref_up (db : RefDB) : Prop := ref_down db = false.

Lemma ref_complete (db : RefDB) n :
  ref_up db → n ≠ 0 → is_Some (t_pulses (st_tables db) !! n) →
  is_ok (st_CompletePulse n db) = true.
Proof.
  intros Hup Hn [p Hp]. destruct db as [t down]. unfold ref_up in Hup. cbn in Hup. subst down.
  cbn in Hp. cbn [st_CompletePulse Storage_setter]. unfold CompletePulse.
  cbn [Transaction ref_gorm Update_Pulse guard_up ref_down ref_tables].
  unfold guard_up. cbn [ref_down ref_tables].
  rewrite (decide_False (P := n = 0)) by done. by rewrite Hp.
Defined.

Lemma ref_complete_up (db : RefDB) n db' :
  ref_up db → st_CompletePulse n db = Ok db' → ref_up db'.
Proof.
  intros Hup. destruct db as [t down]. unfold ref_up in Hup. cbn in Hup. subst down.
  cbn [st_CompletePulse Storage_setter]. unfold CompletePulse.
  cbn [Transaction ref_gorm Update_Pulse guard_up ref_down ref_tables].
  unfold guard_up. cbn [ref_down ref_tables].
  destruct (decide (n = 0)); [done|].
  destruct (t_pulses t !! n); [|done]. cbn. by intros [= <-].
Defined.

Lemma pulse_completed_witness :
  eraseJetDropRegister [two_visit] two_world = Some two_done ∧
  complete_in (st_tables (w_db two_done)) 65537.
Proof.
  destruct (pulse_completed ref_up ref_complete ref_complete_up two_key (reverse two_drops)
    (reverse two_drops) (up no_rows) fresh_controller two_state.1
    two_state.2 ([] : list (Z * Z)) [two_visit]) as (w & Hw & Hcov & _).
  - done.
  - exact two_of_pulse.
  - vm_compute. discriminate.
  - reflexivity.
  - vm_compute. reflexivity.
  - vm_compute. reflexivity.
  - apply NoDup_singleton.
  - constructor; [|constructor]. exists {["0"; "1"]}.
    split_and!; [vm_compute; reflexivity|by split|apply jets01_ok|apply jets01_ok|done].
  - left.
  - assert (two_done = w) as Hdone by (vm_compute in Hw |- *; injection Hw as <-; reflexivity).
    split; [exact two_erase|]. rewrite Hdone. apply Hcov.
    assert (jets_of (reverse two_drops) = {["0"; "1"]}) as -> by (vm_compute; reflexivity).
    apply (complete_covers (v_o1 two_visit) (v_o2 two_visit));
      [reflexivity|reflexivity|apply jets01_ok|vm_compute; reflexivity].
Defined.
