(* ===== verification/Integration.v ===== *)
(** * The set-up of the integration tests: [src/test/integration/helper.go], [src/testutils/{betestsetup,connectionmanager}]

    A mock of the platform behind a gRPC server, a database in a container, the
    parts of the Block Explorer between them, and the helpers that import records
    and wait until they have arrived. *)

From S2P Require Import Prelude GoStd Platform RefPlatform Types Models Converter Gorm RefDb Interfaces Random TestData RefTestData TestDataProofs JetTreeProofs TestRecords Controller Extractor ExtractorProofs Heavymock HeavymockProofs MockPlatform.

(** ** The parts and their order: [betestsetup.go] *)

(** The parts of [BlockExplorerTestSetUp] that are started or built. *)
Inductive part := Extr | Trsf | Cont | Proc.
#[export] Instance part_eq_dec : EqDecision part.
Proof. solve_decision. Defined.

(** The errors of [extr.Start], [trsf.Start], [NewController] and [proc.Start], and
    those of the three stops. *)
Record BEAnswers := mkBEAnswers { be_start : part → option error; be_stop : part → option error }.

(** The pointers that are set, and the parts that run, the latest first. *)
Record BlockExplorerTestSetUp := mkBE { be_set : list part; be_running : list part }.

(** [NewController] only builds the controller, and nobody starts it. *)
Definition runs (p : part) : bool := negb (bool_decide (p = Cont)).

Fixpoint start_parts (ps : list part) (answer : part → option error) (b : BlockExplorerTestSetUp)
  : BlockExplorerTestSetUp * option error :=
  match ps with
  | [] => (b, None)
  | p :: ps =>
      let b := mkBE (p :: be_set b) (be_running b) in
      match answer p with
      | Some err => (b, Some err)
      | None =>
          start_parts ps answer (mkBE (be_set b) (if runs p then p :: be_running b else be_running b))
      end
  end.
Definition BE_Start (a : BEAnswers) (b : BlockExplorerTestSetUp) : BlockExplorerTestSetUp * option error :=
  start_parts [Extr; Trsf; Cont; Proc] (be_start a) b.

(** [None]: a nil pointer. *)
Fixpoint stop_parts (ps : list part) (answer : part → option error) (b : BlockExplorerTestSetUp)
  : option (BlockExplorerTestSetUp * option error) :=
  match ps with
  | [] => Some (b, None)
  | p :: ps =>
      if decide (p ∈ be_set b) then
        match answer p with
        | Some err => Some (b, Some err)
        | None => stop_parts ps answer (mkBE (be_set b) (filter (.≠ p) (be_running b)))
        end
      else None
  end.
Definition BE_Stop (a : BEAnswers) (b : BlockExplorerTestSetUp)
  : option (BlockExplorerTestSetUp * option error) :=
  stop_parts [Extr; Trsf; Proc] (be_stop a) b.

(** ** The connections: [connectionmanager.go] *)

(** What is open; a pool cleaner and an echo server may not be there. *)
Record ConnectionManager := mkConnectionManager {
  cm_grpcServer : bool;
  cm_grpcClientConn : bool;
  cm_DB : bool;
  cm_dbPoolCleaner : bool;
  cm_echo : bool;
}.
Definition new_manager : ConnectionManager := mkConnectionManager false false false false false.

(** A failed [require] or [t.Fatal] ends the test: [None]. *)
Definition CM_Start (listen client : option error) (c : ConnectionManager) : option ConnectionManager :=
  match listen, client with
  | None, None => Some (mkConnectionManager true true (cm_DB c) (cm_dbPoolCleaner c) (cm_echo c))
  | _, _ => None
  end.
Definition StartDB (setup : option error) (c : ConnectionManager) : option ConnectionManager :=
  match setup with
  | None => Some (mkConnectionManager (cm_grpcServer c) (cm_grpcClientConn c) true true (cm_echo c))
  | Some _ => None
  end.
Definition StartAPIServer (listen : option error) (c : ConnectionManager) : option ConnectionManager :=
  if negb (cm_DB c) then None
  else match listen with
       | None => Some (mkConnectionManager (cm_grpcServer c) (cm_grpcClientConn c) (cm_DB c)
                         (cm_dbPoolCleaner c) true)
       | Some _ => None
       end.

Inductive cm_action := StopServer | CloseClientConn | CleanPool | ShutdownEcho.
(** [Stop]; [None] is a nil pointer. *)
Definition CM_Stop (c : ConnectionManager) : option (list cm_action) :=
  if cm_grpcServer c && cm_grpcClientConn c then
    Some ([StopServer; CloseClientConn] ++ (if cm_dbPoolCleaner c then [CleanPool] else [])
          ++ (if cm_echo c then [ShutdownEcho] else []))
  else None.

(** ** The suite: [helper.go] *)

(** [NewBlockExplorer]: nothing is built yet. *)
Definition NewBlockExplorer : BlockExplorerTestSetUp := mkBE [] [].

(** [su_pulses]: the pulse client asks the importer ([SetNextFinalizedPulseFunc]). *)
Record BlockExplorerTestSuite := mkSuite {
  su_ConMngr : ConnectionManager;
  su_BE : BlockExplorerTestSetUp;
  su_pulses : bool;
}.

Definition NewBlockExplorerTestSetup (listen client setup : option error) : option BlockExplorerTestSuite :=
  c ← CM_Start listen client new_manager;
  c ← StartDB setup c;
  let be := NewBlockExplorer in
  Some (mkSuite c be true).

Definition Suite_StartBE (a : BEAnswers) (s : BlockExplorerTestSuite) : option BlockExplorerTestSuite :=
  match BE_Start a (su_BE s) with
  | (be, None) => Some (mkSuite (su_ConMngr s) be (su_pulses s))
  | (_, Some _) => None
  end.

(** [Start] makes new connections over those there are, and a new Block Explorer
    whose pulse client is not told about the importer. *)
Definition Suite_Start (listen client setup : option error) (a : BEAnswers) (s : BlockExplorerTestSuite)
  : option BlockExplorerTestSuite :=
  c ← CM_Start listen client (su_ConMngr s);
  c ← StartDB setup c;
  Suite_StartBE a (mkSuite c NewBlockExplorer false).

Definition Suite_StopBE (a : BEAnswers) (s : BlockExplorerTestSuite) : option BlockExplorerTestSuite :=
  '(be, err) ← BE_Stop a (su_BE s);
  match err with
  | None => Some (mkSuite (su_ConMngr s) be (su_pulses s))
  | Some _ => None
  end.

Definition WithHTTPServer (listen : option error) (s : BlockExplorerTestSuite)
  : option BlockExplorerTestSuite :=
  c ← StartAPIServer listen (su_ConMngr s);
  Some (mkSuite c (su_BE s) (su_pulses s)).

Definition Suite_Stop (s : BlockExplorerTestSuite) : option (list cm_action) := CM_Stop (su_ConMngr s).

(** ** Waiting: [helper.go] *)

Definition interval : Z := 100.
Definition polls (timeoutMs : Z) : nat := Z.to_nat (Z.quot timeoutMs interval).

(** The loop of [WaitRecordsCount]; poll [i] finds [answer i] rows, or leaves the
    counter as it is when the query fails.  The pauses, and the last count. *)
Fixpoint wait_count (n i : nat) (expCount : Z) (answer : nat → option Z) (c : Z) (pauses : nat) : Z * nat :=
  match n with
  | O => (c, pauses)
  | S n =>
      let c := default c (answer i) in
      if expCount <=? c then (c, pauses) else wait_count n (S i) expCount answer c (S pauses)
  end.
(** Whether the test goes on. *)
Definition WaitRecordsCount (expCount timeoutMs : Z) (answer : nat → option Z) : bool :=
  bool_decide ((wait_count (polls timeoutMs) 0 expCount answer 0 0).1 = expCount).

(** The loop of [WaitJetDropHash]: a jet drop that is not found leaves the hash. *)
Fixpoint wait_hash (n i : nat) (expectedHash : bytes) (answer : nat → option bytes) (hash : bytes) : bytes :=
  match n with
  | O => hash
  | S n =>
      let hash := default hash (answer i) in
      if decide (expectedHash = hash) then hash else wait_hash n (S i) expectedHash answer hash
  end.
Definition WaitJetDropHash (expectedHash : bytes) (timeoutMs : Z) (answer : nat → option bytes) : bool :=
  bool_decide (expectedHash = wait_hash (polls timeoutMs) 0 expectedHash answer []).

Fixpoint check_unchanged (n i : nat) (expCount : Z) (answer : nat → option Z) (c : Z) : bool :=
  match n with
  | O => true
  | S n =>
      let c := default c (answer i) in
      if decide (expCount = c) then check_unchanged n (S i) expCount answer c else false
  end.
Definition CheckForRecordsNotChanged (expCount timeoutMs : Z) (answer : nat → option Z) : bool :=
  check_unchanged (polls timeoutMs) 0 expCount answer 0.

(** ** Importing *)

Section import.
Context `{HP : Platform, !RecordEqual, !TestPlatform, !Random G}.
Abbreviation ImporterServer := (list savedRecord).
Abbreviation Src := (G * gset Z)%type.

(** The two loops of [ImportRecordsMultipleJetDrops]. *)
Fixpoint multiple_jets (fuel jetDrops : nat) (records : Z) : Gen Src (list ExporterRecord) :=
  match jetDrops with
  | O => mret []
  | S n =>
      recs ← GenerateRecordsFromOneJetSilence fuel 1 records;
      rest ← multiple_jets fuel n records;
      mret (recs ++ rest)
  end.
Definition set_ID (id : ID) (r : ExporterRecord) : ExporterRecord :=
  new_record (er_RecordNumber r) id (er_ObjectID r) (er_JetID r) (er_Virtual r) (er_ShouldIterateFrom r).
Fixpoint set_pulse (pulse : Z) (d : list ExporterRecord) : Gen Src (list ExporterRecord) :=
  match d with
  | [] => mret []
  | r :: d =>
      id ← draw (gen_IDWithPulse pulse);
      rest ← set_pulse pulse d;
      mret (set_ID id r :: rest)
  end.

(** Over a connection that holds; the server answers [Ok]. *)
Definition ImportRecordsMultipleJetDrops (fuel jetDrops : nat) (records pulse : Z) (s : ImporterServer)
  : Gen Src ImporterServer :=
  d ← multiple_jets fuel jetDrops records;
  d ← set_pulse pulse d;
  let i := ImportRecords None (λ _, Send_Ok) (Ok true) (Some <$> d) in
  match im_err i with
  | Some _ => must None     (* require.NoError *)
  | None => '(s, _) ← must (Import (server_side i) None s); mret s
  end.
End import.

(** ** Theorems: starting and stopping *)

(** A start that succeeds leaves all parts running but the controller, and a stop
    without errors then leaves none. *)
Theorem BE_Start_Stop a :
  let b := mkBE [] [] in
  (∀ p, be_start a p = None) → (∀ p, be_stop a p = None) →
  ∃ b', BE_Start a b = (b', None) ∧ be_running b' = [Proc; Trsf; Extr] ∧
    ∃ b'', BE_Stop a b' = Some (b'', None) ∧ be_running b'' = [].
Proof.
  intros b Hstart Hstop. unfold BE_Start, BE_Stop, b. cbn [start_parts be_set be_running].
  rewrite !Hstart. eexists. split; [done|]. split; [done|].
  cbn [stop_parts be_set be_running]. rewrite !Hstop. cbn. by eexists.
Qed.

(** A start that fails leaves the parts before the failing one running, and the
    stop after it runs into a nil pointer unless the processor failed. *)
Theorem BE_Start_fails a p err :
  be_start a p = Some err → (∀ q, q ≠ p → be_start a q = None) → (∀ q, be_stop a q = None) →
  ∃ b, BE_Start a (mkBE [] []) = (b, Some err) ∧ (p ∉ be_running b) ∧
    (p ≠ Extr → Extr ∈ be_running b) ∧
    (BE_Stop a b = None ↔ p ≠ Proc).
Proof.
  intros Hp Hq Hstop. unfold BE_Start, BE_Stop.
  destruct p; cbn [start_parts be_set be_running];
    repeat (rewrite (Hq _) by done); rewrite Hp;
    (eexists; split; [done|]; split; [apply (bool_decide_unpack _); vm_compute; exact I|]);
    cbn [stop_parts be_set be_running]; rewrite !Hstop; split; try done; try (by intros _; set_solver).
Qed.

(** A manager whose servers run can be stopped: the pool cleaner and the echo
    server are only stopped when they are there. *)
Theorem CM_Start_Stop listen client setup c c' :
  CM_Start listen client new_manager = Some c →
  StartDB setup c = Some c' →
  CM_Stop c' = Some [StopServer; CloseClientConn; CleanPool] ∧
  CM_Stop c = Some [StopServer; CloseClientConn] ∧
  StartAPIServer None c = None ∧
  ∀ c'', StartAPIServer None c' = Some c'' →
         CM_Stop c'' = Some [StopServer; CloseClientConn; CleanPool; ShutdownEcho].
Proof.
  unfold CM_Start, StartDB. destruct listen, client, setup; try done.
  intros [= <-] [= <-]. cbn. by split_and!; try done; intros c'' [= <-].
Qed.

(** The life of a test: everything that was opened is closed, and every part that
    was started is stopped. *)
Theorem suite_life a :
  (∀ p, be_start a p = None) → (∀ p, be_stop a p = None) →
  ∃ s0 s1 s2 s3,
    NewBlockExplorerTestSetup None None None = Some s0 ∧
    WithHTTPServer None s0 = Some s1 ∧ Suite_StartBE a s1 = Some s2 ∧ Suite_StopBE a s2 = Some s3 ∧
    su_pulses s3 = true ∧ be_running (su_BE s2) = [Proc; Trsf; Extr] ∧
    be_running (su_BE s3) = [] ∧
    Suite_Stop s3 = Some [StopServer; CloseClientConn; CleanPool; ShutdownEcho].
Proof.
  intros Hstart Hstop. do 4 eexists. split; [reflexivity|]. split; [reflexivity|].
  unfold Suite_StartBE, BE_Start. cbn [start_parts su_BE be_set be_running NewBlockExplorer].
  rewrite !Hstart. split; [reflexivity|].
  unfold Suite_StopBE, BE_Stop. cbn [stop_parts su_BE be_set be_running]. rewrite !Hstop.
  split; [reflexivity|]. by split_and!.
Qed.

(** A suite that is started by [Start] never asks the importer for pulses. *)
Theorem Suite_Start_pulses listen client setup a s s' :
  Suite_Start listen client setup a s = Some s' → su_pulses s' = false.
Proof.
  intros (c & _ & (c' & _ & Hs)%bind_Some)%bind_Some. unfold Suite_StartBE in Hs.
  destruct (BE_Start _ _) as [be [err|]]; [done|]. by injection Hs as <-.
Qed.

(** ** Theorems: waiting *)

(** The counts the polls see: a failed query leaves the last one. *)
Fixpoint seen (answer : nat → option Z) (i : nat) : Z :=
  match i with
  | O => default 0 (answer 0%nat)
  | S j => default (seen answer j) (answer i)
  end.

(** The count before poll [i]. *)
Definition before (answer : nat → option Z) (i : nat) : Z :=
  match i with O => 0 | S j => seen answer j end.

Lemma seen_before answer i : seen answer i = default (before answer i) (answer i).
Proof. by destruct i. Qed.

Lemma wait_count_spec n i expCount answer pauses c p :
  wait_count n i expCount answer (before answer i) pauses = (c, p) →
  (∃ k, (k < n)%nat ∧ expCount ≤ seen answer (i + k) ∧ c = seen answer (i + k) ∧ p = (pauses + k)%nat ∧
        ∀ k', (k' < k)%nat → seen answer (i + k') < expCount) ∨
  (c = before answer (i + n) ∧ p = (pauses + n)%nat ∧
   ∀ k, (k < n)%nat → seen answer (i + k) < expCount).
Proof.
  revert i pauses. induction n as [|n IH]; intros i pauses; cbn [wait_count].
  { intros [= <- <-]. right. rewrite !Nat.add_0_r. split_and!; [done..|lia]. }
  rewrite <- seen_before. destruct (Z.leb_spec expCount (seen answer i)) as [Hc|Hc].
  { intros [= <- <-]. left. exists 0%nat. rewrite !Nat.add_0_r. split_and!; [lia|done..|lia]. }
  intros Hw. change (seen answer i) with (before answer (S i)) in Hw.
  apply IH in Hw as [(k & Hk & Hle & -> & -> & Hlt)|(-> & -> & Hlt)].
  - left. exists (S k). replace (i + S k)%nat with (S i + k)%nat by lia. split_and!; [lia|done|done|lia|].
    intros [|k'] Hk'; [by rewrite Nat.add_0_r|].
    replace (i + S k')%nat with (S i + k')%nat by lia. apply Hlt. lia.
  - right. replace (i + S n)%nat with (S i + n)%nat by lia. split_and!; [done|lia|].
    intros [|k'] Hk'; [by rewrite Nat.add_0_r|].
    replace (i + S k')%nat with (S i + k')%nat by lia. apply Hlt. lia.
Qed.

(** [WaitRecordsCount] passes when the first poll that sees enough rows sees
    exactly the expected number: it does not wait longer for the count to settle,
    and more rows than expected fail the test.  A timeout below the interval means
    no poll at all: only zero rows can then be expected. *)
Theorem WaitRecordsCount_spec expCount timeoutMs answer :
  0 < expCount →
  WaitRecordsCount expCount timeoutMs answer = true ↔
  ∃ k, (k < polls timeoutMs)%nat ∧ seen answer k = expCount ∧
       ∀ k', (k' < k)%nat → seen answer k' < expCount.
Proof.
  intros Hpos. unfold WaitRecordsCount. rewrite bool_decide_eq_true.
  destruct (wait_count _ _ _ _ _ _) as [c p] eqn:Hw.
  apply (wait_count_spec _ 0%nat) in Hw as [(k & Hk & Hle & -> & _ & Hlt)|(-> & _ & Hlt)]; cbn [fst Nat.add] in *.
  - split; [intros Heq; by exists k|]. intros (k' & Hk' & Heq & Hlt').
    destruct (Nat.lt_trichotomy k k') as [Hkk|[->|Hkk]]; [|done|]; [specialize (Hlt' k Hkk)|specialize (Hlt k' Hkk)]; lia.
  - split.
    + intros Heq. destruct (polls timeoutMs) as [|n]; cbn in Heq; [lia|].
      specialize (Hlt n ltac:(lia)). lia.
    + intros (k & Hk & Heq & _). specialize (Hlt k Hk). lia.
Qed.

(** The wait for a hash ends well when some poll within the time sees it. *)
Fixpoint seen_hash (answer : nat → option bytes) (hash : bytes) (i n : nat) : list bytes :=
  match n with
  | O => []
  | S n => let hash := default hash (answer i) in hash :: seen_hash answer hash (S i) n
  end.

Theorem WaitJetDropHash_spec expectedHash timeoutMs answer :
  expectedHash ≠ [] →
  WaitJetDropHash expectedHash timeoutMs answer = true ↔
  expectedHash ∈ seen_hash answer [] 0 (polls timeoutMs).
Proof.
  intros Hne. unfold WaitJetDropHash. rewrite bool_decide_eq_true.
  enough (∀ n i hash, expectedHash ≠ hash →
    expectedHash = wait_hash n i expectedHash answer hash ↔ expectedHash ∈ seen_hash answer hash i n)
    as Hgen by by apply Hgen.
  induction n as [|n IH]; intros i hash Hh; cbn; [by rewrite elem_of_nil|].
  rewrite elem_of_cons. case_decide as Hd; [naive_solver|]. rewrite IH by done. naive_solver.
Qed.

(** The count stays as expected when every poll sees it; with no poll it does. *)
Theorem CheckForRecordsNotChanged_spec expCount timeoutMs answer :
  CheckForRecordsNotChanged expCount timeoutMs answer = true ↔
  ∀ k, (k < polls timeoutMs)%nat → seen answer k = expCount.
Proof.
  unfold CheckForRecordsNotChanged.
  enough (∀ n i, check_unchanged n i expCount answer (before answer i) = true ↔
    ∀ k, (k < n)%nat → seen answer (i + k) = expCount) as Hgen by apply (Hgen _ 0%nat).
  induction n as [|n IH]; intros i; cbn [check_unchanged]; [by split; [lia|]|].
  rewrite <- seen_before. change (seen answer i) with (before answer (S i)) at 2. case_decide as Hd.
  - rewrite IH. split.
    + intros Hall [|k] Hk; [by rewrite Nat.add_0_r|].
      replace (i + S k)%nat with (S i + k)%nat by lia. apply Hall. lia.
    + intros Hall k Hk. replace (S i + k)%nat with (i + S k)%nat by lia. apply Hall. lia.
  - split; [done|]. intros Hall. specialize (Hall 0%nat ltac:(lia)). rewrite Nat.add_0_r in Hall. congruence.
Qed.

(** ** Theorems: importing several jet drops *)

Section grows.
Context `{HP : Platform, !PlatformLaws, !TestPlatform, !TestPlatformLaws, !Random G, !RandomLaws G}.
Abbreviation Src := (G * gset Z)%type.

(** No identifier is handed back. *)
Definition grows {A} (m : Gen Src A) : Prop := ∀ s a s', m s = Some (a, s') → s.2 ⊆ s'.2.

Lemma grows_ret {A} (a : A) : grows (mret a).
Proof. by intros s b s' [_ <-]%Gen_ret_Some. Qed.
Lemma grows_must {A} (o : option A) : grows (must o).
Proof. by intros s b s' [_ <-]%must_Some. Qed.
Lemma grows_bind {A B} (m : Gen Src A) (f : A → Gen Src B) :
  grows m → (∀ a, grows (f a)) → grows (m ≫= f).
Proof.
  intros Hm Hf s b s' (a & s1 & Ha & Hb)%Gen_bind_Some.
  etrans; [eapply Hm; exact Ha|eapply Hf; exact Hb].
Qed.
Lemma grows_draw {A} (f : Src → A * Src) : (∀ s, other_draw s (f s).2) → grows (draw f).
Proof.
  intros Hf s b s' Hs%draw_Some. specialize (Hf s). rewrite Hs in Hf. cbn in Hf.
  destruct Hf; cbn; unfold with_global; match goal with |- context [let '(_, _) := ?x in _] => by destruct x end.
Qed.
Lemma grows_Int63n n : grows (Int63n (G := Src) n).
Proof. unfold Int63n. case_decide; [apply grows_draw, od_Int63n|apply grows_must]. Qed.
Lemma grows_jet fuel : grows (GenerateUniqueJetID (G := G) fuel).
Proof.
  intros [g u] id [g' u'] Hs. apply GenerateUniqueJetID_fresh in Hs as (n & _ & _ & _ & ->).
  cbn. set_solver.
Qed.
End grows.

Ltac grows_steps :=
  repeat first
    [ apply grows_ret | apply grows_must | apply grows_Int63n | apply grows_jet
    | apply grows_draw; constructor | apply grows_bind; [|intros] ].

Section several.
Context `{HP : Platform, !PlatformLaws, !RecordEqual, !RecordEqualLaws, !TestPlatform, !TestPlatformLaws,
          !Random G, !RandomLaws G, !ExporterMessages}.
Abbreviation Src := (G * gset Z)%type.

Lemma grows_call fuel batchSize c : grows (generateRecords_call (G := G) fuel batchSize c).
Proof.
  apply grows_bind; [repeat case_match; grows_steps|].
  intros [|]; unfold RandNumberOverRange; grows_steps.
Qed.

Lemma grows_silence fuel turns batchSize count c res :
  grows (silence_loop (G := G) fuel turns batchSize count c res).
Proof.
  revert turns c res. induction count as [|count IHc]; intros turns c res.
  { destruct turns; apply grows_ret. }
  revert c res. induction turns as [|turns IH]; intros c res; cbn [silence_loop]; [apply grows_must|].
  apply grows_bind; [apply grows_call|]. intros [[r|err] c']; [apply IHc|apply IH].
Qed.

Lemma grows_any_record fuel : grows (any_record (G := G) fuel).
Proof.
  unfold any_record, GenerateRecordsSilence. rewrite decide_False by lia.
  apply grows_bind; [|intros; apply grows_must].
  apply grows_bind; [unfold GenerateRecords; grows_steps|]. intros c. apply grows_silence.
Qed.

Lemma grows_differencePulses fuel size n : grows (GenerateRecordsWithDifferencePulsesSilence (G := G) fuel size n).
Proof.
  apply grows_bind; [apply grows_bind; [apply grows_any_record|intros; apply grows_ret]|].
  intros c. revert c. induction (Z.to_nat (size * n)) as [|m IH]; intros c; [apply grows_ret|].
  cbn [differencePulses_loop]. apply grows_bind.
  - unfold differencePulses_call. case_decide; [|apply grows_ret].
    apply grows_bind; [apply grows_any_record|]. intros r. case_decide; grows_steps.
  - intros [r c']. apply grows_bind; [apply IH|]. intros; apply grows_ret.
Qed.

(** The number under which a jet is remembered. *)
Definition jet_number (id : JetID) : Z := default 0 (BigEndian_Uint64 (Prefix id)).

(** The records of one jet drop have a jet that was not there before. *)
Lemma FromOneJet_fresh fuel n (s s' : Src) rs :
  GenerateRecordsFromOneJetSilence fuel 1 n s = Some (rs, s') → 0 < n →
  s.2 ⊆ s'.2 ∧ Forall (λ r, er_ShouldIterateFrom r = None) rs ∧
  ∃ jet, (er_JetID <$> rs = replicate (Z.to_nat n) jet) ∧ (jet_number jet ∉ s.2) ∧ jet_number jet ∈ s'.2.
Proof.
  intros Hs Hn. pose proof Hs as Hjet.
  apply Gen_bind_Some in Hjet as (rs0 & [g1 u1] & Hrs & Hjet).
  apply Gen_bind_Some in Hjet as (jet & [g2 u2] & Hjet & [Heq <-]%Gen_ret_Some).
  apply grows_differencePulses in Hrs. cbn in Hrs.
  apply GenerateUniqueJetID_fresh in Hjet as (k & Hk & _ & Hnew & ->). cbn [snd].
  destruct s as [g u]. apply FromOneJet_Ok in Hs as (Hlen & _ & Hall & _); [|lia..].
  rewrite Z.mul_1_l in Hlen. cbn in Hrs.
  split; [set_solver|]. split; [done|]. exists jet. unfold jet_number. rewrite Hk. cbn.
  split; [|set_solver]. subst rs. rewrite length_fmap in Hlen. rewrite <- Hlen. clear.
  induction rs0 as [|r rs0 IH]; [done|]. cbn. by rewrite <- IH.
Qed.

Lemma multiple_jets_Ok fuel k n (s s' : Src) rs :
  multiple_jets fuel k n s = Some (rs, s') → 0 < n →
  Forall (λ r, er_ShouldIterateFrom r = None) rs ∧
  ∃ jets, length jets = k ∧ NoDup jets ∧ Forall (λ j, jet_number j ∉ s.2) jets ∧
    er_JetID <$> rs = jets ≫= replicate (Z.to_nat n).
Proof.
  intros Hs Hn. revert s rs Hs. induction k as [|k IH]; intros s rs; cbn [multiple_jets].
  { intros [<- _]%Gen_ret_Some. split; [done|]. exists []. split_and!; [done|constructor|constructor|done]. }
  intros (recs & s1 & Hrecs & Hs)%Gen_bind_Some.
  apply Gen_bind_Some in Hs as (rest & s2 & Hrest & [<- ->]%Gen_ret_Some).
  apply FromOneJet_fresh in Hrecs as (Hgrow & Hall & jet & Hjet & Hnew & Hin); [|done].
  apply IH in Hrest as (Hall' & jets & Hlen & Hnd & Hfresh & Hjets).
  split; [by apply Forall_app|]. exists (jet :: jets). split_and!.
  - cbn. by rewrite Hlen.
  - constructor; [|done]. intros Hj. rewrite Forall_forall in Hfresh. by apply (Hfresh jet Hj).
  - constructor; [done|]. eapply Forall_impl; [exact Hfresh|]. set_solver.
  - rewrite fmap_app, Hjet, Hjets. done.
Qed.

Lemma set_pulse_Ok pulse d (s s' : Src) rs :
  65536 ≤ pulse < 2 ^ 30 → set_pulse pulse d s = Some (rs, s') →
  er_JetID <$> rs = er_JetID <$> d ∧
  (λ r, ID_Pulse (er_ID r)) <$> rs = replicate (length d) pulse ∧
  er_ShouldIterateFrom <$> rs = er_ShouldIterateFrom <$> d.
Proof.
  intros Hp. revert s rs. induction d as [|r d IH]; intros s rs; cbn [set_pulse].
  { by intros [<- _]%Gen_ret_Some. }
  intros (id & s1 & Hid%IDWithPulse_Some & Hs)%Gen_bind_Some; [|done].
  apply Gen_bind_Some in Hs as (rest & s2 & Hrest & [<- ->]%Gen_ret_Some).
  apply IH in Hrest as (Hjet & Hpulse & Hfrom). cbn. by rewrite Hjet, Hpulse, Hfrom, Hid.
Qed.

(** The generator returns when there are jets enough. *)
Lemma lasts_multiple fuel k n :
  lasts fuel (k * (2 + Z.to_nat n)) (multiple_jets (G := G) fuel k n).
Proof.
  induction k as [|k IH]; [apply lasts_ret|]. cbn [multiple_jets Nat.mul].
  apply lasts_bind.
  - replace n with (1 * n) at 1 by lia. apply lasts_FromOneJet.
  - intros recs _. rewrite <- (Nat.add_0_r (k * _)). apply lasts_bind; [apply IH|].
    intros rest _. apply lasts_ret.
Qed.

Lemma lasts_set_pulse fuel pulse d : lasts fuel 0 (set_pulse (G := G) pulse d).
Proof.
  induction d as [|r d IH]; [apply lasts_ret|].
  apply lasts_free; [auto with gen|]. intros id _. apply lasts_free; [apply IH|]. intros rest _. apply lasts_ret.
Qed.

Lemma lasts_import fuel k n pulse s :
  lasts fuel (k * (2 + Z.to_nat n)) (ImportRecordsMultipleJetDrops (G := G) fuel k n pulse s).
Proof.
  rewrite <- (Nat.add_0_r (k * _)). apply lasts_bind; [apply lasts_multiple|]. intros d _.
  apply lasts_free; [apply lasts_set_pulse|]. intros d' _.
  destruct (ImportRecords_Import s d' true None) as (Herr & s' & Him & _). cbn zeta. rewrite Herr, Him.
  apply (lasts_ret fuel s').
Qed.

Lemma ImportRecordsMultipleJetDrops_Ok fuel k n pulse s (g g' : Src) s' :
  65536 ≤ pulse < 2 ^ 30 → 0 < n →
  ImportRecordsMultipleJetDrops fuel k n pulse s g = Some (s', g') →
  ∃ rs jets, GetUnsentRecords s' = GetUnsentRecords s ++ rs ∧
    length jets = k ∧ NoDup jets ∧ er_JetID <$> rs = jets ≫= replicate (Z.to_nat n) ∧
    Forall (λ r, ID_Pulse (er_ID r) = pulse ∧ er_ShouldIterateFrom r = None) rs.
Proof.
  intros Hp Hn (d & g1 & Hd & Hg)%Gen_bind_Some. apply Gen_bind_Some in Hg as (rs & g2 & Hrs & Hg).
  apply multiple_jets_Ok in Hd as (Hfrom & jets & Hlen & Hnd & _ & Hjets); [|done].
  apply set_pulse_Ok in Hrs as (Hjet & Hpulse & Hit); [|done].
  destruct (ImportRecords_Import s rs true None) as (Herr & s1 & Him & Hun).
  cbn zeta in Hg. rewrite Herr, Him in Hg.
  apply Gen_ret_Some in Hg as [<- _]. exists rs, jets. split_and!; try done; [congruence|].
  clear -Hpulse Hit Hfrom. revert rs Hpulse Hit. induction Hfrom as [|r d Hr _ IH]; intros [|x rs]; try done.
  cbn. intros [= Hx Hpulse] [= Hx' Hit]. constructor; [by rewrite Hx'|]. by apply IH.
Qed.

(** The records of one pulse are numbered from 0 on, and the extractor would read
    each of them as the end of a pulse. *)
Theorem GetRecordsByPulse_spec pulse count pu (s s' : Src) rs :
  65536 ≤ pulse < 2 ^ 30 → GetRecordsByPulse pulse count s = Some (rs, s') →
  er_RecordNumber <$> rs = uint32 <$> seqZ 0 count ∧
  Forall (λ r, ID_Pulse (er_ID r) = pulse ∧ next_pulse_packet pu r = true) rs.
Proof.
  intros Hp. unfold GetRecordsByPulse. generalize (seqZ 0 count). intros numbers. revert s rs.
  induction numbers as [|i numbers IH]; intros s rs; cbn [records_by_pulse].
  { intros [<- _]%Gen_ret_Some. by split. }
  intros (id & s1 & Hid%IDWithPulse_Some & Hs)%Gen_bind_Some; [|done].
  apply Gen_bind_Some in Hs as (rest & s2 & Hrest & [<- ->]%Gen_ret_Some).
  apply IH in Hrest as [Hn Hall]. cbn [fmap list_fmap er_RecordNumber new_record]. rewrite Hn.
  split; [done|]. constructor; [|done]. split; [exact Hid|done].
Qed.

(** ** Theorem: what is imported for several jets arrives as one pulse *)

Lemma jets_of_records (jets : list JetID) n (id : JetID) :
  (0 < n)%nat → id ∈ jets ≫= replicate n ↔ id ∈ jets.
Proof.
  intros Hn. rewrite list_elem_of_bind. split; [by intros (j & [-> _]%elem_of_replicate & Hj)|].
  intros Hid. exists id. split; [|done]. apply elem_of_replicate. split; [done|lia].
Qed.

Lemma length_bind_replicate {A} (l : list A) n : length (l ≫= replicate n) = (length l * n)%nat.
Proof. induction l as [|x l IH]; [done|]. cbn. by rewrite length_app, length_replicate, IH. Qed.

(** C15: What the tests import for several jet drops, into a mock that has nothing
    unsent, arrives as one pulse: [jetDrops] times [records] records and exactly
    [jetDrops] distinct jets.  The generator returns when there are jets enough. *)
Theorem ImportRecordsMultipleJetDrops_arrives e fuel client range jetDrops records pulse s g :
  visits_values range → 65536 ≤ pulse < 2 ^ 30 - 10 → is_ok (AsApproximateTime pulse) = true →
  (0 < jetDrops)%nat → 0 < records → GetUnsentRecords s = [] →
  supply fuel (jetDrops * (2 + Z.to_nat records) + 1) g →
  ∃ s1 g1 s2 d g2,
    ImportRecordsMultipleJetDrops fuel jetDrops records pulse s g = Some (s1, g1) ∧
    mock_round e fuel client range s1 g1 = Some ((s2, [d]), g2) ∧
    fp_PulseNumber (ppd_Pulse d) = pulse ∧
    length (ppd_Records d) = (jetDrops * Z.to_nat records)%nat ∧
    length (fp_Jets (ppd_Pulse d)) = jetDrops ∧ NoDup (jdc_JetID <$> fp_Jets (ppd_Pulse d)) ∧
    GetUnsentRecords s2 = [].
Proof.
  intros Hrange Hp Htime Hk Hn Hs Hsup.
  destruct (lasts_import fuel jetDrops records pulse s _ _ Hsup) as (s1 & g1 & Him & Hsup1).
  destruct (lasts_round e fuel client range s1 0%nat g1) as ([s2 out] & g2 & Hround & _); [done|].
  apply ImportRecordsMultipleJetDrops_Ok in Him as Hrs; [|lia|done].
  destruct Hrs as (rs & jets & Hun & Hlen & Hnd & Hjets & Hall). rewrite Hs in Hun. cbn in Hun.
  assert (length rs = (jetDrops * Z.to_nat records)%nat) as Hlrs.
  { rewrite <- (length_fmap er_JetID), Hjets, length_bind_replicate. by rewrite Hlen. }
  assert (Forall importable rs) as Himp.
  { eapply Forall_impl; [exact Hall|]. intros r [Hr ?]. unfold importable.
    rewrite Hr, MinTimePulse_value. by split_and!; [|lia..|]. }
  assert (rs ≠ []) as Hne by (intros ->; cbn in Hlrs; nia).
  eapply mock_round_Ok in Hround as Hd; [|done|by rewrite Hun..].
  destruct Hd as (d & -> & (_ & _ & Hrecs & Hnr & Hndj & Hin) & _ & Hs2). rewrite Hun in Hs2.
  assert (fp_PulseNumber (ppd_Pulse d) = pulse) as Hpd.
  { destruct (ppd_Records d) as [|r l]; [done|].
    assert (r ∈ unsent_of (fp_PulseNumber (ppd_Pulse d)) s1) as Hr by (rewrite <- Hrecs; left).
    apply list_elem_of_filter in Hr as [Hr Hr1]. rewrite Hun in Hr1.
    rewrite Forall_forall in Hall. destruct (Hall r Hr1). congruence. }
  rewrite Hpd in *.
  assert (ppd_Records d = rs) as Hdr.
  { rewrite Hrecs. unfold unsent_of. rewrite Hun. apply filter_all.
    rewrite Forall_forall in Hall. intros r Hr. by destruct (Hall r Hr). }
  exists s1, g1, s2, d, g2. split_and!; try done.
  - by rewrite Hdr.
  - rewrite <- (length_fmap jdc_JetID), <- Hlen. apply Permutation_length, NoDup_Permutation; [done..|].
    intros id. rewrite Hin, Hdr, Hjets. apply jets_of_records. lia.
  - rewrite Hs2. apply filter_none. rewrite Forall_forall in Hall.
    intros r Hr Hx. by destruct (Hall r Hr).
Qed.
End several.

(** ** The theorems at work *)

#[local] Existing Instance ref_messages.

Lemma ImportRecordsMultipleJetDrops_arrives_witness :
  ∃ s1 g1 s2 d g2,
    ImportRecordsMultipleJetDrops 1 3 2 65537 [] ex_source = Some (s1, g1) ∧
    mock_round ex_cfg 1 mock_client map_values s1 g1 = Some ((s2, [d]), g2) ∧
    length (ppd_Records d) = 6%nat ∧ length (fp_Jets (ppd_Pulse d)) = 3%nat.
Proof.
  destruct (ImportRecordsMultipleJetDrops_arrives ex_cfg 1 mock_client map_values 3 2 65537 [] ex_source)
    as (s1 & g1 & s2 & d & g2 & Him & Hround & _ & Hrecs & Hjets & _).
  - apply map_values_visits.
  - lia.
  - reflexivity.
  - lia.
  - lia.
  - reflexivity.
  - apply ex_supply. cbn. lia.
  - exists s1, g1, s2, d, g2. split; [exact Him|]. split; [exact Hround|]. split; [exact Hrecs|exact Hjets].
Defined.

(** Six rows are waited for: the third poll sees them. *)
Lemma WaitRecordsCount_spec_witness :
  0 < 6 ∧ WaitRecordsCount 6 500 (λ i, [Some 0; None; Some 6] !! i ≫= id) = true.
Proof.
  split; [lia|]. apply (WaitRecordsCount_spec 6 500); [lia|]. exists 2%nat.
  split; [by apply (bool_decide_unpack _)|]. split; [reflexivity|].
  intros [|[|k]] Hk; [reflexivity..|lia].
Defined.

(** Seven rows fail the test: more than expected is not what is expected. *)
Example WaitRecordsCount_overshoot :
  WaitRecordsCount 6 500 (λ i, [Some 0; Some 7] !! i ≫= id) = false.
Proof. reflexivity. Qed.
