(* ===== verification/Exporter.v ===== *)
(** * The exporter: [src/etl/exporter/{pulse_exporter_server,record_exporter_server,server}.go]

    The gRPC service that streams the complete pulses with records of given
    prototypes, over the storage interface, and the start and stop of its
    server. *)

From S2P Require Import Prelude GoStd Platform Types Models Gorm RefDb Interfaces Storage StorageRead StorageInstance.

(** ** The stream of pulses *)

Record GetNextPulseResponse := mkGetNextPulseResponse {
  gr_PulseNumber : Z;
  gr_PrevPulseNumber : Z;
  gr_RecordAmount : Z;
}.

Record GetNextPulseRequest := mkGetNextPulseRequest {
  gq_PulseNumberFrom : Z;
  gq_Prototypes : list bytes;
}.

Record PulseServer := mkPulseServer { sv_pulsePeriod : Z }.

(** What a turn of the loop does, when it does something. *)
Inductive server_event :=
  | Slept (d : Z)
  | Sent (r : GetNextPulseResponse).

Section server.
Context `{StorageExporterFetcher DB}.

(** The loop of [GetNextPulse].  A turn is the state of the repository and what
    [stream.Send] answers; the error is [None] as long as the loop goes on. *)
Fixpoint pulse_loop (s : PulseServer) (protos : list bytes) (currentPN : Z)
  (turns : list (DB * option error)) : list server_event * option error :=
  match turns with
  | [] => ([], None)
  | (repository, sendErr) :: turns =>
      match st_GetNextCompletePulseFilterByPrototypeReference currentPN protos repository with
      | Err _ => pulse_loop s protos currentPN turns
      | Ok receivedPulse =>
          if p_PulseNumber receivedPulse <=? currentPN then
            let '(evs, err) := pulse_loop s protos currentPN turns in
            (Slept (sv_pulsePeriod s) :: evs, err)
          else
            match sendErr with
            | Some err => ([], Some err)
            | None =>
                let '(evs, err) := pulse_loop s protos (p_PulseNumber receivedPulse) turns in
                (Sent (mkGetNextPulseResponse (p_PulseNumber receivedPulse)
                         (p_PrevPulseNumber receivedPulse) (p_RecordAmount receivedPulse)) :: evs,
                 err)
            end
      end
  end.

Definition GetNextPulse (s : PulseServer) (req : GetNextPulseRequest)
  (turns : list (DB * option error)) : list server_event * option error :=
  pulse_loop s (gq_Prototypes req) (gq_PulseNumberFrom req) turns.
End server.

(** [RecordServer.GetRecords] is not implemented yet: it ends every stream at
    once. *)
Definition GetRecords : option error := None.

(** ** The server *)

(** [sr_grpcServer]: whether the pointer is set; [sr_runs] counts the goroutines
    that were started, [sr_cancelled] the calls of [s.cancel]. *)
Record Server := mkServer {
  sr_listen : string;
  sr_grpcServer : bool;
  sr_hasStarted : bool;
  sr_cancel : bool;
  sr_runs : nat;
  sr_cancelled : nat;
}.

Definition NewServer (listen : string) (grpcServer : bool) : Server :=
  mkServer listen grpcServer false false 0 0.

(** [Start]; [listen] is what [net.Listen] answers. *)
Definition Server_Start (listen : option error) (s : Server) : Server * option error :=
  if negb (sr_grpcServer s) then (s, Some (ErrMsg "gRPC server is required"))
  else if sr_hasStarted s then (s, None)
  else match listen with
       | Some err => (s, Some (ErrWrap err ("failed to start gPRC server on " +:+ sr_listen s)))
       | None => (mkServer (sr_listen s) (sr_grpcServer s) (sr_hasStarted s) true (S (sr_runs s))
                    (sr_cancelled s), None)
       end.

Definition Server_Stop (s : Server) : Server * option error :=
  if negb (sr_hasStarted s) then (s, None)
  else if sr_cancel s
       then (mkServer (sr_listen s) (sr_grpcServer s) (sr_hasStarted s) true (sr_runs s)
               (S (sr_cancelled s)), None)
       else (s, None).

(** No call ever records that the server has started: [Stop] never cancels
    anything, and every [Start] listens again. *)
Inductive server_reachable : Server → Prop :=
  | sr_new listen grpcServer : server_reachable (NewServer listen grpcServer)
  | sr_start s answer : server_reachable s → server_reachable (Server_Start answer s).1
  | sr_stop s : server_reachable s → server_reachable (Server_Stop s).1.

Lemma server_never_stops s :
  server_reachable s → sr_hasStarted s = false ∧ sr_cancelled s = 0%nat.
Proof.
  induction 1 as [|s answer _ [Hs Hc]|s _ [Hs Hc]]; [done| |].
  - unfold Server_Start. rewrite Hs. by destruct (negb _), answer.
  - unfold Server_Stop. by rewrite Hs.
Qed.

(** ** What the repository answers *)

Section repository.
Context `{GormLaws DB}.

(** A stored record of one of the prototypes in a complete pulse that follows
    [prev]. *)
Definition matches (prev : Z) (protos : list bytes) (pr : Pulse * MRecord) : bool :=
  (p_PrevPulseNumber pr.1 =? prev) && p_IsComplete pr.1 &&
  bool_decide (r_PrototypeReference pr.2 ∈ protos).

Definition matching_rows (prev : Z) (protos : list bytes) (t : Tables) : list (Pulse * MRecord) :=
  filter (λ pr, matches prev protos pr = true) (joined_rows t).

(** The rows of them that gorm counts once it has found [p]: those of [p] itself,
    whose number it adds as the primary key of its model unless that is zero. *)
Definition counted (prev : Z) (protos : list bytes) (p : Pulse) (pr : Pulse * MRecord) : bool :=
  matches prev protos pr && ((p_PulseNumber p =? 0) || (p_PulseNumber pr.1 =? p_PulseNumber p)).
Definition counted_rows (prev : Z) (protos : list bytes) (p : Pulse) (t : Tables) : list (Pulse * MRecord) :=
  filter (λ pr, counted prev protos p pr = true) (joined_rows t).

Definition with_amount (n : Z) (p : Pulse) : Pulse :=
  mkPulse (p_PulseNumber p) (p_PrevPulseNumber p) (p_NextPulseNumber p) (p_IsComplete p)
    (p_IsSequential p) (p_Timestamp p) (p_JetDropAmount p) n.

Lemma elem_of_vbytes (b : bytes) (protos : list bytes) : bool_decide (VBytes b ∈ VBytes <$> protos) = bool_decide (b ∈ protos).
Proof.
  apply bool_decide_ext. rewrite list_elem_of_fmap. split; [|by eauto].
  by intros (b' & [= ->] & Hb).
Qed.

Lemma Joined_pulse_number :
  column (A := Pulse * MRecord) "pulses.pulse_number" = Some (λ pr, VInt (p_PulseNumber pr.1)).
Proof. reflexivity. Qed.
Lemma Joined_prev_pulse_number :
  column (A := Pulse * MRecord) "pulses.prev_pulse_number"
  = Some (λ pr, VInt (p_PrevPulseNumber pr.1)).
Proof. reflexivity. Qed.
Lemma Joined_is_complete :
  column (A := Pulse * MRecord) "pulses.is_complete" = Some (λ pr, VBool (p_IsComplete pr.1)).
Proof. reflexivity. Qed.
Lemma Joined_prototype :
  column (A := Pulse * MRecord) "records.prototype_reference"
  = Some (λ pr, VBytes (r_PrototypeReference pr.2)).
Proof. reflexivity. Qed.
Hint Rewrite Joined_pulse_number Joined_prev_pulse_number Joined_is_complete Joined_prototype : columns.

Definition next_complete (prev : Z) (protos : list bytes) : Query :=
  Where [TAtom (AIn "records.prototype_reference" (VBytes <$> protos))]
    (Where (cond "pulses.is_complete" CEq (VBool true))
      (Where (cond "pulses.prev_pulse_number" CEq (VInt prev)) new_query)).

Lemma next_complete_means prev protos : means (next_complete prev protos) (matches prev protos).
Proof.
  eapply means_ext; [|unfold next_complete; query_means]. intros pr. unfold matches.
  sat_simpl. cbn [sat_cmp fst snd].
  by rewrite elem_of_vbytes, bool_decide_val_bool, eqb_true.
Qed.

Lemma counted_query prev protos p :
  selects
    (if decide (p_PulseNumber p = 0) then next_complete prev protos
     else Where (cond "pulses.pulse_number" CEq (VInt (p_PulseNumber p))) (next_complete prev protos))
    (counted prev protos p).
Proof.
  apply means_selects. pose proof (next_complete_means prev protos) as Hm. unfold counted.
  case_decide as Hz; [rewrite (proj2 (Z.eqb_eq _ _) Hz)|rewrite (proj2 (Z.eqb_neq _ _) Hz)].
  - eapply means_ext; [|exact Hm]. intros pr. by rewrite andb_true_r.
  - eapply means_ext; [|apply means_cond, Hm]. intros pr. f_equal. sat_simpl. done.
Qed.

(** The answer is never an error: the zero pulse, or a complete pulse whose
    predecessor is [prev] with a record of one of the prototypes; the amount is
    the number of such records of that pulse, or what is stored when counting
    fails. *)
Lemma GetNextComplete_Ok prev protos db :
  ∃ p, GetNextCompletePulseFilterByPrototypeReference prev protos db = Ok p ∧
  (p = emptyPulse ∨
   ∃ q r, (q, r) ∈ matching_rows prev protos (tables db) ∧
          (p = q ∨ p = with_amount (Z.of_nat (length (counted_rows prev protos q (tables db)))) q)).
Proof.
  unfold GetNextCompletePulseFilterByPrototypeReference. pose proof (means_selects _ _ (next_complete_means prev protos)) as Hq.
  destruct (FindOne _ _ db) as [[q r]|e] eqn:Hf; [|by eexists; split; [|left]].
  apply FindOne_Ok in Hf.
  assert ((q, r) ∈ matching_rows prev protos (tables db)) as Hin.
  { clear - Hq Hf. destruct Hq as (P & HP & Heq). unfold next_complete in HP. destruct Hf as (P' & HP' & Hsel & Hr).
    change (where_pred (Limit (-1) ?x)) with (where_pred (A := Pulse * MRecord) x) in HP'.
    rewrite HP in HP'. injection HP' as <-. apply list_elem_of_filter. by rewrite <- Heq. }
  destruct (Count _ _ db) as [total|e] eqn:Hc.
  - eexists. split; [done|]. right. exists q, r. split; [done|]. right.
    apply Count_Ok in Hc as (P & HP & ->). destruct (counted_query prev protos q) as (P' & HP' & Heq).
    unfold next_complete in HP'. rewrite HP in HP'. injection HP' as <-. unfold counted_rows, with_amount.
    rewrite (filter_selects P (counted prev protos q)) by done. done.
  - eexists. split; [done|]. right. exists q, r. split; [done|]. by left.
Qed.
End repository.

(** ** What a client receives *)

Definition sent (evs : list server_event) : list GetNextPulseResponse :=
  omap (λ ev, match ev with Sent r => Some r | Slept _ => None end) evs.

(** Each response continues the one before it. *)
Fixpoint linked (prev : Z) (rs : list GetNextPulseResponse) : Prop :=
  match rs with
  | [] => True
  | r :: rs =>
      gr_PrevPulseNumber r = prev ∧ prev < gr_PulseNumber r ∧ linked (gr_PulseNumber r) rs
  end.

Section stream.
Context `{GormLaws DB}.

(** The response announces a pulse that the database holds complete at that
    moment, with a record of one of the prototypes. *)
Definition announces (protos : list bytes) (db : DB) (r : GetNextPulseResponse) : Prop :=
  ∃ q rec, (q, rec) ∈ matching_rows (gr_PrevPulseNumber r) protos (tables db) ∧
    gr_PulseNumber r = p_PulseNumber q ∧
    (gr_RecordAmount r
       = Z.of_nat (length (counted_rows (gr_PrevPulseNumber r) protos q (tables db))) ∨
     gr_RecordAmount r = p_RecordAmount q).

(** One turn that gets past the guards. *)
Lemma GetNextComplete_above prev protos (db : DB) p :
  GetNextCompletePulseFilterByPrototypeReference prev protos db = Ok p →
  0 ≤ prev < p_PulseNumber p →
  p_PrevPulseNumber p = prev ∧
  announces protos db (mkGetNextPulseResponse (p_PulseNumber p) (p_PrevPulseNumber p) (p_RecordAmount p)).
Proof.
  intros Hg Hp. destruct (GetNextComplete_Ok prev protos db) as (p' & Hg' & Hcase).
  rewrite Hg in Hg'. injection Hg' as <-.
  destruct Hcase as [->|(q & r & Hin & Hcase)]; [cbn in Hp; lia|].
  assert (p_PrevPulseNumber q = prev) as Hprev.
  { apply list_elem_of_filter in Hin as [Hm _]. unfold matches in Hm. cbn in Hm.
    apply andb_true_iff in Hm as [Hm _]. apply andb_true_iff in Hm as [Hm _]. by apply Z.eqb_eq. }
  destruct Hcase as [-> | ->]; (split; [done|]); exists q, r; cbn; rewrite Hprev; auto.
Qed.

Lemma pulse_loop_stream s protos prev turns evs err :
  0 ≤ prev → pulse_loop s protos prev turns = (evs, err) →
  linked prev (sent evs) ∧
  Forall (λ r, ∃ db, (db, None) ∈ turns ∧ announces protos db r) (sent evs) ∧
  (∀ e, err = Some e → ∃ db, (db, Some e) ∈ turns).
Proof.
  revert prev evs err. induction turns as [|[db sendErr] turns IH]; intros prev evs err Hprev Hl.
  { injection Hl as <- <-. split_and!; [done..|]. by intros. }
  assert (∀ evs err, pulse_loop s protos prev turns = (evs, err) →
    linked prev (sent evs) ∧
    Forall (λ r, ∃ db0, (db0, None) ∈ (db, sendErr) :: turns ∧ announces protos db0 r) (sent evs) ∧
    (∀ e, err = Some e → ∃ db0, (db0, Some e) ∈ (db, sendErr) :: turns)) as Hskip.
  { intros evs' err' Hl'. destruct (IH _ _ _ Hprev Hl') as (? & Hall & He). split_and!; [done| |].
    - eapply Forall_impl; [exact Hall|]. intros r (db0 & ? & ?). exists db0. split; [by right|done].
    - intros e Hee. destruct (He e Hee) as [db0 ?]. exists db0. by right. }
  cbn [pulse_loop] in Hl.
  destruct (st_GetNextCompletePulseFilterByPrototypeReference _ _ db) as [p|e] eqn:Hg;
    [|by apply Hskip].
  destruct (Z.leb_spec (p_PulseNumber p) prev) as [Hle|Hlt].
  { destruct (pulse_loop s protos prev turns) as [evs' err'] eqn:Hl'. injection Hl as <- <-.
    exact (Hskip evs' err' eq_refl). }
  destruct sendErr as [e|].
  { injection Hl as <- <-. split_and!; [done..|]. intros e' [= <-]. exists db. by left. }
  destruct (pulse_loop s protos (p_PulseNumber p) turns) as [evs' err'] eqn:Hl'.
  injection Hl as <- <-. destruct (GetNextComplete_above _ _ _ _ Hg) as [Hp Han]; [done|].
  destruct (IH (p_PulseNumber p) evs' err') as (Hlink & Hall & He); [lia|done|].
  split_and!.
  - cbn. split_and!; [done|lia|exact Hlink].
  - cbn. constructor; [exists db; split; [left|exact Han]|].
    eapply Forall_impl; [exact Hall|]. intros r (db0 & ? & ?). exists db0. split; [by right|done].
  - intros e Hee. destruct (He e Hee) as [db0 ?]. exists db0. by right.
Qed.

Lemma pulse_loop_stalls s protos prev turns :
  0 ≤ prev → (∀ db e, (db, e) ∈ turns → matching_rows prev protos (tables db) = []) →
  sent (pulse_loop s protos prev turns).1 = [] ∧ (pulse_loop s protos prev turns).2 = None.
Proof.
  intros Hprev. induction turns as [|[db e] turns IH]; intros Hnone; [done|]. cbn [pulse_loop].
  destruct IH as [IHs IHe]; [by intros db' e' Hin; eapply Hnone; right|].
  destruct (GetNextComplete_Ok prev protos db) as (p & Hg & Hcase).
  change (st_GetNextCompletePulseFilterByPrototypeReference prev protos db)
    with (GetNextCompletePulseFilterByPrototypeReference prev protos db). rewrite Hg.
  assert (p = emptyPulse) as ->.
  { destruct Hcase as [?|(q & r & Hin & _)]; [done|].
    rewrite (Hnone db e) in Hin by left. by apply not_elem_of_nil in Hin. }
  rewrite (proj2 (Z.leb_le _ _)) by done.
  by destruct (pulse_loop s protos prev turns).
Qed.

(** C27: What a client of [GetNextPulse] receives, whatever happens to the database
    in the meantime: a chain of pulses that starts at the number it asked for,
    each response linked to the one before it by the previous pulse number, the
    numbers strictly increasing, every pulse complete in the database with a
    record of one of the prototypes when it is sent; and the stream ends only
    with an error of [Send]. *)
Theorem GetNextPulse_stream s req turns evs err :
  0 ≤ gq_PulseNumberFrom req → GetNextPulse s req turns = (evs, err) →
  linked (gq_PulseNumberFrom req) (sent evs) ∧
  Forall (λ r, ∃ db, (db, None) ∈ turns ∧ announces (gq_Prototypes req) db r) (sent evs) ∧
  (∀ e, err = Some e → ∃ db, (db, Some e) ∈ turns).
Proof. apply pulse_loop_stream. Qed.

(** The stream never gets past a pulse without records of the prototypes: while
    the pulse after the one the client has holds none, nothing is sent, whatever
    later pulses hold. *)
Theorem GetNextPulse_stalls s req turns :
  0 ≤ gq_PulseNumberFrom req →
  (∀ db e, (db, e) ∈ turns →
     matching_rows (gq_PulseNumberFrom req) (gq_Prototypes req) (tables db) = []) →
  sent (GetNextPulse s req turns).1 = [] ∧ (GetNextPulse s req turns).2 = None.
Proof. apply pulse_loop_stalls. Qed.
End stream.

(** ** The theorems at work on a concrete database *)

Definition ex_proto_rec (n proto : Byte.byte) (pn : Z) : MRecord :=
  mkMRecord [n] "state" [Byte.x42] [proto] [] [] [] [] "" pn 0 0.
(** Three complete pulses; records of prototype 7 in the first and the last. *)
Definition ex_stream_tables : Tables :=
  mkTables
    (list_to_map ((λ p, (p_PulseNumber p, p)) <$>
       [mkPulse 10 5 20 true true 0 1 1; mkPulse 20 10 30 true false 0 1 1;
        mkPulse 30 20 40 true false 0 1 1]))
    ∅
    (list_to_map ((λ r, (r_Reference r, r)) <$>
       [ex_proto_rec Byte.x01 Byte.x07 10; ex_proto_rec Byte.x02 Byte.x08 20;
        ex_proto_rec Byte.x03 Byte.x07 30])).
Definition ex_request (from : Z) : GetNextPulseRequest := mkGetNextPulseRequest from [[Byte.x07]].
Definition ex_turns : list (RefDB * option error) :=
  [(mkRefDB ex_stream_tables true, None); (up ex_stream_tables, None);
   (up ex_stream_tables, None)].

Lemma GetNextPulse_stream_witness :
  let out := GetNextPulse (mkPulseServer 10) (ex_request 5) ex_turns in
  sent out.1 = [mkGetNextPulseResponse 10 5 1] ∧ linked 5 (sent out.1).
Proof.
  intros out. split; [vm_compute; reflexivity|].
  apply (GetNextPulse_stream (mkPulseServer 10) (ex_request 5) ex_turns out.1 out.2);
    [cbn; lia|apply surjective_pairing].
Defined.

Lemma GetNextPulse_stalls_witness :
  sent (GetNextPulse (mkPulseServer 10) (ex_request 10) ex_turns).1 = [] ∧
  matching_rows 20 [[Byte.x07]] ex_stream_tables ≠ [].
Proof.
  split; [|vm_compute; discriminate].
  apply (GetNextPulse_stalls (mkPulseServer 10) (ex_request 10) ex_turns); [cbn; lia|].
  intros db e Hin. unfold ex_turns in Hin.
  repeat (apply elem_of_cons in Hin as [[= -> ->]|Hin]; [vm_compute; reflexivity|]).
  by apply not_elem_of_nil in Hin.
Defined.
