(* ===== verification/Credentials.v ===== *)
(** * Access tokens: [src/etl/connection/credentials.go]

    The credentials of a call to the platform: a cached token, refreshed over
    HTTP some seconds before it expires.  Times are nanoseconds; a
    [time.Duration] is an [int64] of nanoseconds. *)

From S2P Require Import Prelude GoStd Controller.

Record Token := mkToken { tk_AccessToken : string; tk_ExpiresIn : Z; tk_ReceivedAt : Z }.

Record tokenCredentials := mkTokenCredentials {
  tc_authURL : string;
  tc_login : string;
  tc_pass : string;
  tc_refreshOffset : Z;
  tc_insecureTLS : bool;
  tc_token : Token;
}.

(** The zero [Token]. *)
Definition emptyToken : Token := mkToken "" 0 0.

Definition newTokenCredentials (authURL login pass : string) (refreshOffset : Z)
  (insecureTLS : bool) : tokenCredentials :=
  mkTokenCredentials authURL login pass refreshOffset insecureTLS emptyToken.

Definition set_token (t : Token) (c : tokenCredentials) : tokenCredentials :=
  mkTokenCredentials (tc_authURL c) (tc_login c) (tc_pass c) (tc_refreshOffset c)
    (tc_insecureTLS c) t.

(** What the exchange with the server comes to: it fails before a response,
    while the body is read, or with a status and what the body decodes to. *)
Inductive exchange :=
  | RequestFails (err : error)                           (* http.NewRequest *)
  | DoFails (err : error)                                (* httpClient.Do *)
  | ReadFails (err : error)                              (* ioutil.ReadAll *)
  | Responds (url : string) (statusCode : Z)             (* request.URL, response.StatusCode *)
      (body : result (string * Z)).                      (* access_token, expires_in *)

Definition StatusOK : Z := 200.

(** [needNewToken] at time [now]. *)
Definition needNewToken (now : Z) (c : tokenCredentials) : bool :=
  if decide (tk_AccessToken (tc_token c) = "") then true
  else
    let timeToRefresh :=
      tk_ReceivedAt (tc_token c)
      + int64 (int64 (tk_ExpiresIn (tc_token c) - tc_refreshOffset c) * Second) in
    timeToRefresh <? now.

(** [receiveAccessToken]; [now] is the time at which the answer has been read. *)
Definition receiveAccessToken (now : Z) (x : exchange) (c : tokenCredentials)
  : tokenCredentials * option error :=
  match x with
  | RequestFails err => (c, Some err)
  | DoFails err => (c, Some (ErrWrap err "failed to do http request"))
  | ReadFails err => (c, Some err)
  | Responds url statusCode body =>
      if decide (statusCode ≠ StatusOK) then
        (c, Some (ErrMsg ("API path='" +:+ url +:+ "' return " +:+ FormatInt statusCode
                          +:+ " status code")))
      else
        match body with
        | Err err => (c, Some (ErrMsg ("failed to parse authorization response body " +:+ Error err)))
        | Ok (accessToken, expiresIn) => (set_token (mkToken accessToken expiresIn now) c, None)
        end
  end.

(** [GetRequestMetadata] at time [now]; [later] is when an exchange is over. *)
Definition GetRequestMetadata (now later : Z) (x : exchange) (c : tokenCredentials)
  : tokenCredentials * result string :=
  let '(c, err) := if needNewToken now c then receiveAccessToken later x c else (c, None) in
  match err with
  | Some err => (c, Err (ErrWrap err "can't get access_token"))
  | None => (c, Ok ("Bearer " +:+ tk_AccessToken (tc_token c)))
  end.

Definition RequireTransportSecurity (c : tokenCredentials) : bool := negb (tc_insecureTLS c).

(** ** What a call is authorised with *)

(** The arithmetic on the lifetime of the token stays within 64 bits: about 292
    years. *)
Definition lifetime_fits (c : tokenCredentials) : Prop :=
  in_int64 (tk_ExpiresIn (tc_token c) - tc_refreshOffset c) ∧
  in_int64 ((tk_ExpiresIn (tc_token c) - tc_refreshOffset c) * Second).

(** The moment the server's promise for the cached token ends. *)
Definition expires_at (t : Token) : Z := tk_ReceivedAt t + tk_ExpiresIn t * Second.

(** C35: A call is authorised with a token that is not empty and at least
    [refreshOffset] seconds short of its end, or with the token just received;
    the cached token is replaced exactly when it is missing or comes that close
    to its end, and an exchange that fails leaves it as it was and fails the
    call. *)
Theorem GetRequestMetadata_fresh now later x c :
  lifetime_fits c →
  let fresh := tk_AccessToken (tc_token c) ≠ "" ∧
               now ≤ expires_at (tc_token c) - tc_refreshOffset c * Second in
  (fresh → GetRequestMetadata now later x c
           = (c, Ok ("Bearer " +:+ tk_AccessToken (tc_token c)))) ∧
  (¬ fresh →
   (∃ url tok n, x = Responds url StatusOK (Ok (tok, n)) ∧
      GetRequestMetadata now later x c
      = (set_token (mkToken tok n later) c, Ok ("Bearer " +:+ tok))) ∨
   (∃ err, GetRequestMetadata now later x c = (c, Err err))).
Proof.
  intros [Hs Hl] fresh.
  assert (needNewToken now c = negb (bool_decide fresh)) as Hneed.
  { unfold needNewToken, fresh, expires_at. rewrite (int64_small _ Hs), (int64_small _ Hl).
    case_decide as He; [by rewrite bool_decide_eq_false_2 by (by intros [? _])|].
    destruct (Z.ltb_spec (tk_ReceivedAt (tc_token c)
      + (tk_ExpiresIn (tc_token c) - tc_refreshOffset c) * Second) now).
    - by rewrite bool_decide_eq_false_2 by (intros [_ ?]; lia).
    - by rewrite bool_decide_eq_true_2 by (split; [done|lia]). }
  unfold GetRequestMetadata. rewrite Hneed. split; intros Hf.
  - by rewrite bool_decide_eq_true_2.
  - rewrite bool_decide_eq_false_2 by done. cbn [negb].
    destruct x as [err|err|err|url code body]; [right; by eexists..|]. cbn [receiveAccessToken].
    destruct (decide (code ≠ StatusOK)) as [Hc|Hc]; [right; by eexists|]. apply dec_stable in Hc. subst code.
    destruct body as [[tok n]|err]; [left; by exists url, tok, n|right; by eexists].
Qed.

(** ** The theorem at work *)

Definition ex_credentials : tokenCredentials :=
  set_token (mkToken "old" 300 (1000 * Second))
    (newTokenCredentials "https://auth" "login" "pass" 60 false).

(** 200 seconds into the lifetime the token is still used, after 250 it is
    replaced. *)
Lemma GetRequestMetadata_fresh_witness :
  let answer := Responds "https://auth" 200 (Ok ("new", 300)) in
  (GetRequestMetadata (1200 * Second) (1201 * Second) answer ex_credentials).2 = Ok "Bearer old" ∧
  (GetRequestMetadata (1250 * Second) (1251 * Second) answer ex_credentials).2 = Ok "Bearer new".
Proof.
  intros answer.
  assert (lifetime_fits ex_credentials) as Hfits by (split; vm_compute; split; congruence).
  split.
  - rewrite (proj1 (GetRequestMetadata_fresh (1200 * Second) (1201 * Second) answer ex_credentials Hfits));
      [reflexivity|split; vm_compute; congruence].
  - destruct (proj2 (GetRequestMetadata_fresh (1250 * Second) (1251 * Second) answer ex_credentials Hfits))
      as [(url & tok & n & Hx & Heq)|(err & Heq)].
    + intros [_ Hle]. vm_compute in Hle. by apply Hle.
    + rewrite Heq. injection Hx as Hu Ht Hn. rewrite <- Ht. reflexivity.
    + vm_compute in Heq. discriminate Heq.
Defined.
