(* ===== verification/Connection.v ===== *)
(** * Opening connections: [src/etl/connection/grpc_client.go], [src/etl/dbconn/connection.go]

    The gRPC client is dialled with options computed from the configuration; the
    gRPC library, the certificates of the system and gorm are third-party code,
    the parameters of these definitions. *)

From S2P Require Import Prelude GoStd Controller Credentials.

(** [configuration.Auth] and what else [NewGRPCClientConnection] reads of
    [configuration.Replicator]. *)
Record Auth := mkAuth {
  au_Required : bool;
  au_URL : string;
  au_Login : string;
  au_Password : string;
  au_RefreshOffset : Z;
  au_Timeout : Z;
  au_InsecureTLS : bool;
}.
Record ReplicatorClient := mkReplicatorClient {
  rc_Addr : string;
  rc_MaxTransportMsg : Z;
  rc_Auth : Auth;
}.

(** The zero [configuration.Auth]. *)
Definition emptyAuth : Auth := mkAuth false "" "" "" 0 0 false.
Definition GetClientConfiguration (addr : string) : ReplicatorClient :=
  mkReplicatorClient addr 100500 emptyAuth.

(** ** The gRPC client *)

Section grpc_client.
Context {CertPool Conn : Type}.

(** The [http.Client] of the token exchange. *)
Record HttpClient := mkHttpClient {
  hc_RootCAs : CertPool;
  hc_InsecureSkipVerify : bool;
  hc_Timeout : Z;
}.

Inductive DialOption :=
  | WithDefaultCallOptions (MaxCallRecvMsgSize MaxCallSendMsgSize : Z) (WaitForReady : bool)
  | WithInsecure
  | WithTransportCredentials (pool : CertPool)      (* credentials.NewClientTLSFromCert *)
  | WithPerRPCCredentials (client : HttpClient) (c : tokenCredentials).

(** The options of the connection: the certificates are asked for only when
    authorisation is required. *)
Definition dial_options (SystemCertPool : result CertPool) (cfg : ReplicatorClient)
  : result (list DialOption) :=
  let limits := WithDefaultCallOptions (rc_MaxTransportMsg cfg) (rc_MaxTransportMsg cfg) true in
  let auth := rc_Auth cfg in
  if au_Required auth then
    cp ← wrap_err "failed get x509 SystemCertPool" SystemCertPool;
    let httpClient := mkHttpClient cp (au_InsecureTLS auth) (au_Timeout auth) in
    let perRPCCred := WithPerRPCCredentials httpClient
      (newTokenCredentials (au_URL auth) (au_Login auth) (au_Password auth)
         (au_RefreshOffset auth) (au_InsecureTLS auth)) in
    let tlsOption := if au_InsecureTLS auth then WithInsecure else WithTransportCredentials cp in
    Ok [limits; tlsOption; perRPCCred]
  else Ok [limits; WithInsecure].

(** [NewGRPCClientConnection]; [Dial] is that of the gRPC library. *)
Definition NewGRPCClientConnection (SystemCertPool : result CertPool)
  (Dial : string → list DialOption → result Conn) (cfg : ReplicatorClient) : result Conn :=
  options ← dial_options SystemCertPool cfg;
  wrap_err "failed to grpc.Dial" (Dial (rc_Addr cfg) options).

(** ** What the options mean to the gRPC library *)

Definition insecure (options : list DialOption) : Prop := WithInsecure ∈ options.
Definition encrypted (options : list DialOption) : Prop :=
  ∃ pool, WithTransportCredentials pool ∈ options.
Definition with_token (c : tokenCredentials) (options : list DialOption) : Prop :=
  ∃ client, WithPerRPCCredentials client c ∈ options.

(** [Dial] refuses options that leave the transport open, that ask for both kinds
    of it, or that attach credentials which require security to an insecure one. *)
Definition acceptable (options : list DialOption) : Prop :=
  (insecure options ∨ encrypted options) ∧ ¬ (insecure options ∧ encrypted options) ∧
  ∀ c, insecure options → with_token c options → RequireTransportSecurity c = false.

Ltac opts := unfold acceptable, insecure, encrypted, with_token; set_unfold; naive_solver.

(** The connection to the platform is as safe as configured.  Whatever the
    configuration, the options are ones that the gRPC library accepts.  A token is
    attached exactly when authorisation is required, and it is the configured one;
    the connection is encrypted exactly when, besides, insecure TLS is not allowed
    -- so a token travels in the clear only if the configuration says so.  Opening
    fails exactly when the certificates that are needed cannot be read, or when
    dialling with these options fails. *)
Theorem NewGRPCClientConnection_secure SystemCertPool Dial cfg :
  let auth := rc_Auth cfg in
  let creds := newTokenCredentials (au_URL auth) (au_Login auth) (au_Password auth)
                 (au_RefreshOffset auth) (au_InsecureTLS auth) in
  match dial_options SystemCertPool cfg with
  | Err err =>
      NewGRPCClientConnection SystemCertPool Dial cfg = Err err ∧ au_Required auth = true ∧
      ∃ err', SystemCertPool = Err err' ∧ err = ErrWrap err' "failed get x509 SystemCertPool"
  | Ok options =>
      NewGRPCClientConnection SystemCertPool Dial cfg
        = wrap_err "failed to grpc.Dial" (Dial (rc_Addr cfg) options) ∧
      acceptable options ∧
      (∀ c, with_token c options ↔ au_Required auth = true ∧ c = creds) ∧
      (encrypted options ↔ au_Required auth = true ∧ au_InsecureTLS auth = false)
  end.
Proof.
  unfold NewGRPCClientConnection, dial_options. cbn zeta.
  destruct (au_Required (rc_Auth cfg)) eqn:Hreq.
  - destruct SystemCertPool as [cp|err]; cbn; [|by split_and!; [..|exists err]].
    split; [done|]. destruct (au_InsecureTLS (rc_Auth cfg)) eqn:Htls; split_and!; opts.
  - cbn. split; [done|]. split_and!; opts.
Qed.
End grpc_client.

(** ** The database *)

Section dbconn.
Context {SqlDB : Type}.

(** [configuration.DB], and a connection pool with its limits. *)
Record DBConfig := mkDBConfig {
  db_URL : string;
  db_MaxOpenConns : Z;
  db_MaxIdleConns : Z;
  db_ConnMaxLifetime : Z;
}.
Record Pooled := mkPooled {
  pl_db : SqlDB;
  pl_MaxOpenConns : Z;
  pl_MaxIdleConns : Z;
  pl_ConnMaxLifetime : Z;
}.

(** [Connect]; [Open] is that of gorm. *)
Definition Connect (Open : string → string → result SqlDB) (cfg : DBConfig) : result Pooled :=
  db ← wrap_err "failed to open database" (Open "postgres" (db_URL cfg));
  Ok (mkPooled db (db_MaxOpenConns cfg) (db_MaxIdleConns cfg) (db_ConnMaxLifetime cfg)).
End dbconn.
