(* ===== verification/Api.v ===== *)
(** * The HTTP API: [src/api/{handlers,mappers}.go]

    Every handler is a function from its parameters and the storage to a
    response.  The message types of the API specification
    ([spec-insolar-block-explorer-api]) are written out with the fields the
    handlers fill in; its string constants are the class [ApiSpec].  The storage
    is the interface [StorageAPIFetcher]; logging is left out. *)

From S2P Require Import Prelude GoStd Platform Models Converter Gorm Interfaces Storage.

Class ApiSpec := {
  SortByIndex_index_asc : string;
  SortByIndex_index_desc : string;
  SortByPulse_pulse_number_asc_jet_id_desc : string;
  SortByPulse_pulse_number_desc_jet_id_asc : string;
  SortByPulseNumber_pulse_number_asc : string;
  SortByPulseNumber_pulse_number_desc : string;
  EscapeError : string → string;    (* the text of url.EscapeError for this input *)
}.

(** ** Messages *)

Record NextPrevJetDrop := mkNextPrevJetDrop {
  np_JetId : string;
  np_JetDropId : string;
  np_PulseNumber : Z;
}.

#[export] Instance NextPrevJetDrop_eq_dec : EqDecision NextPrevJetDrop.
Proof. solve_decision. Defined.

Record ApiRecord := mkApiRecord {
  ar_Hash : string;
  ar_JetDropId : string;
  ar_JetId : string;
  ar_Index : string;
  ar_Payload : string;
  ar_PulseNumber : Z;
  ar_Timestamp : Z;
  ar_Type : string;
  ar_ObjectReference : option string;
  ar_PrevRecordReference : option string;
  ar_PrototypeReference : option string;
  ar_Reference : option string;
}.

Record ApiPulse := mkApiPulse {
  ap_IsComplete : bool;
  ap_JetDropAmount : Z;
  ap_PulseNumber : Z;
  ap_RecordAmount : Z;
  ap_Timestamp : Z;
  ap_PrevPulseNumber : option Z;
  ap_NextPulseNumber : option Z;
}.

Record ApiJetDrop := mkApiJetDrop {
  aj_Hash : string;
  aj_JetDropId : string;
  aj_JetId : string;
  aj_NextJetDropId : list NextPrevJetDrop;
  aj_PrevJetDropId : list NextPrevJetDrop;
  aj_PulseNumber : Z;
  aj_RecordAmount : Z;
  aj_Timestamp : Z;
}.

Record CodeValidationFailures := mkFailure { vf_FailureReason : string; vf_Property : string }.

Record CodeValidationError := mkCodeValidationError {
  ve_Code : string;
  ve_Description : option string;
  ve_Message : option string;
  ve_ValidationFailures : list CodeValidationFailures;
}.

(** [Total] and [Result] of the list responses, and the [Meta] of the search
    responses. *)
Inductive body :=
  | Empty                                           (* struct{}{} *)
  | ValidationError (e : CodeValidationError)
  | JetDropResponse (j : ApiJetDrop)
  | RecordsResponse (total : Z) (result : list ApiRecord)
  | JetDropsResponse (total : Z) (result : list ApiJetDrop)
  | PulsesResponse (total : Z) (result : list ApiPulse)
  | PulseResponse (p : ApiPulse)
  | SearchPulse (pulseNumber : Z)
  | SearchJetDrop (jetDropId : string)
  | SearchLifeline (objectReference : string)
  | SearchRecord (index objectReference : string).

(** [ctx.JSON(status, body)]. *)
Record response := JSON { rs_status : Z; rs_body : body }.

Definition StatusOK : Z := 200.
Definition StatusBadRequest : Z := 400.
Definition StatusNotFound : Z := 404.
Definition StatusInternalServerError : Z := 500.
(** [http.StatusText(http.StatusBadRequest)]. *)
Definition BadRequestText : string := "Bad Request".
Definition InvalidParamsMessage : string := "Invalid query or path parameters".

Definition internal_error : response := JSON StatusInternalServerError Empty.
Definition bad_request (code : string) (description message : option string)
  (failures : list CodeValidationFailures) : response :=
  JSON StatusBadRequest (ValidationError (mkCodeValidationError code description message failures)).
(** The answer most handlers give to [failures != nil]. *)
Definition invalid_params (failures : list CodeValidationFailures) : response :=
  bad_request BadRequestText None (Some InvalidParamsMessage) failures.

(** ** [mappers.go] *)

Section mappers.
Context `{Platform}.

Definition RecordToAPI (record : MRecord) : ApiRecord :=
  let pulseNumber := r_PulseNumber record in
  let jetDropID := NewJetDropID (r_JetID record) pulseNumber in
  mkApiRecord
    (EncodeToString (r_Hash record))
    (ToString jetDropID)
    (Models.JetIDToString jetDropID)
    (FormatInt (r_PulseNumber record) +:+ ":" +:+ FormatInt (r_Order record))
    (EncodeToString (r_Payload record))
    pulseNumber
    (r_Timestamp record)
    (r_Type record)
    (if IsEmpty (r_ObjectReference record) then None
     else (λ objectID, Ref_String (NewReference objectID))
            <$> NewIDFromBytes (r_ObjectReference record))
    (if IsEmpty (r_PrevRecordReference record) then None
     else (λ id, ID_String (Some id)) <$> NewIDFromBytes (r_PrevRecordReference record))
    (if IsEmpty (r_PrototypeReference record) then None
     else (λ id, ID_String (Some id)) <$> NewIDFromBytes (r_PrototypeReference record))
    ((λ id, ID_String (Some id)) <$> NewIDFromBytes (r_Reference record)).

Definition PulseToAPI (pulse : Pulse) : ApiPulse :=
  mkApiPulse (p_IsComplete pulse) (p_JetDropAmount pulse) (p_PulseNumber pulse)
    (p_RecordAmount pulse) (p_Timestamp pulse)
    (if decide (p_PrevPulseNumber pulse ≠ -1) then Some (p_PrevPulseNumber pulse) else None)
    (if decide (p_NextPulseNumber pulse ≠ -1) then Some (p_NextPulseNumber pulse) else None).

Definition JetDropToAPI (jetDrop : JetDrop) (prevJetDrops nextJetDrops : list NextPrevJetDrop)
  : ApiJetDrop :=
  let jetDropID := NewJetDropID (jd_JetID jetDrop) (jd_PulseNumber jetDrop) in
  mkApiJetDrop (EncodeToString (jd_Hash jetDrop)) (ToString jetDropID)
    (Models.JetIDToString jetDropID) nextJetDrops prevJetDrops (jd_PulseNumber jetDrop)
    (jd_RecordAmount jetDrop) (jd_Timestamp jetDrop).

Definition transformPrevNextResp (jetDrop : JetDrop) : NextPrevJetDrop :=
  let jd := NewJetDropID (jd_JetID jetDrop) (jd_PulseNumber jetDrop) in
  mkNextPrevJetDrop (Models.JetIDToString jd) (ToString jd) (jdi_PulseNumber jd).

(** ** Checks of parameters *)

Definition checkReference (referenceRow : string) : result Reference :=
  let referenceString := TrimSpace referenceRow in
  if decide (String.length referenceString = 0%nat) then Err (ErrMsg "empty reference")
  else match QueryUnescape referenceString with
       | None => Err (ErrMsg "error unescaping")
       | Some reference =>
           match NewReferenceFromString reference with
           | None => Err (ErrMsg "wrong format")
           | Some ref => Ok ref
           end
       end.

Definition checkLimitOffset (l o : option Z) : Z * Z * list CodeValidationFailures :=
  let limit := default 20 l in
  let failures :=
    if (limit <=? 0) || (1000 <? limit)
    then [mkFailure "should be in range [1, 1000]" "limit"] else [] in
  let offset := default 0 o in
  let failures :=
    if offset <? 0 then failures ++ [mkFailure "should not be negative" "offset"] else failures in
  (limit, offset, failures).

(** [getPulseNumberValue], applied when the parameter is given. *)
Definition getPulseNumberValue (unptr : Z) (propertyName : string)
  (failures : list CodeValidationFailures) : Z * list CodeValidationFailures :=
  (unptr,
   if negb (IsValidAsPulseNumber unptr)
   then failures ++ [mkFailure "invalid value" propertyName] else failures).

Definition opt_pulse_number (p : option Z) (propertyName : string)
  (failures : list CodeValidationFailures) : option Z * list CodeValidationFailures :=
  match p with
  | None => (None, failures)
  | Some n => let '(v, failures) := getPulseNumberValue n propertyName failures in (Some v, failures)
  end.

Definition sort_by (sortBy : option string) (pnAsc pnDesc : string)
  : bool * list CodeValidationFailures :=
  match sortBy with
  | None => (false, [])
  | Some s =>
      if decide (s ≠ pnAsc ∧ s ≠ pnDesc) then
        (false, [mkFailure ("query parameter 'sort_by' should be '" +:+ pnAsc +:+ "' or '"
                            +:+ pnDesc +:+ "'") "sort_by"])
      else (bool_decide (s = pnAsc), [])
  end.

Context `{ApiSpec}.

Definition checkSortByPulseParameter (sortBy : option string) :=
  sort_by sortBy SortByPulse_pulse_number_asc_jet_id_desc SortByPulse_pulse_number_desc_jet_id_asc.
Definition checkSortByPulseNumberParameter (sortBy : option string) :=
  sort_by sortBy SortByPulseNumber_pulse_number_asc SortByPulseNumber_pulse_number_desc.

Definition checkJetID (jetID : string) : string * list CodeValidationFailures :=
  let value := TrimSpace jetID in
  let failures :=
    if decide (String.length value = 0%nat)
    then [mkFailure "empty value of path parameter" "jet-id path parameter"] else [] in
  let '(id, failures) :=
    match QueryUnescape value with
    | Some id => (id, failures)
    | None =>
        ("", failures ++ [mkFailure ("cannot unescape path parameter jet-id: " +:+ EscapeError value)
                            "jet-id path parameter"])
    end in
  let failures :=
    if negb (jetIDRegexp_MatchString id)
    then failures ++ [mkFailure "parameter does not match with jetID valid value"
                        "jet-id path parameter"]
    else failures in
  match failures with
  | _ :: _ => ("", failures)
  | [] => if decide (id = "*") then ("", []) else (id, [])
  end.
End mappers.

(** ** Parameters *)

Record JetDropRecordsParams := mkJetDropRecordsParams {
  jr_Limit : option Z;
  jr_Offset : option Z;
  jr_FromIndex : option string;
  jr_Type : option string;
}.

Record JetDropsByJetIDParams := mkJetDropsByJetIDParams {
  jj_Limit : option Z;
  jj_SortBy : option string;
  jj_PulseNumberGt : option Z;
  jj_PulseNumberGte : option Z;
  jj_PulseNumberLt : option Z;
  jj_PulseNumberLte : option Z;
}.

Record PulsesParams := mkPulsesParams {
  pp_Limit : option Z;
  pp_Offset : option Z;
  pp_FromPulseNumber : option Z;
  pp_PulseNumberGt : option Z;
  pp_PulseNumberGte : option Z;
  pp_PulseNumberLt : option Z;
  pp_PulseNumberLte : option Z;
  pp_SortBy : option string;
  pp_TimestampLte : option Z;
  pp_TimestampGte : option Z;
}.

Record JetDropsByPulseNumberParams := mkJetDropsByPulseNumberParams {
  jn_Limit : option Z;
  jn_Offset : option Z;
  jn_FromJetDropId : option string;
}.

Record ObjectLifelineParams := mkObjectLifelineParams {
  ol_Limit : option Z;
  ol_Offset : option Z;
  ol_SortBy : option string;
  ol_FromIndex : option string;
  ol_PulseNumberGt : option Z;
  ol_PulseNumberLt : option Z;
  ol_TimestampLte : option Z;
  ol_TimestampGte : option Z;
}.

(** ** The links between jet drops *)

(** [jetDropsByHash]: the last jet drop with a hash wins. *)
Definition by_hash (jetDrops : list JetDrop) : gmap string NextPrevJetDrop :=
  foldl (λ m jetDrop, <[EncodeToString (jd_Hash jetDrop) := transformPrevNextResp jetDrop]> m)
    ∅ jetDrops.

(** The closure [add]. *)
Definition add_next (jetDrop : JetDrop) (hash : bytes) (m : gmap string (list NextPrevJetDrop))
  : gmap string (list NextPrevJetDrop) :=
  let key := EncodeToString hash in
  let apiNextPrevDrop := transformPrevNextResp jetDrop in
  match m !! key with
  | None => <[key := [apiNextPrevDrop]]> m
  | Some savedDrops =>
      if existsb (λ d, bool_decide (np_JetDropId d = np_JetDropId apiNextPrevDrop)) savedDrops
      then m
      else <[key := savedDrops ++ [apiNextPrevDrop]]> m
  end.

Definition by_prev_hash (jetDrops : list JetDrop) : gmap string (list NextPrevJetDrop) :=
  foldl (λ m jetDrop, add_next jetDrop (jd_FirstPrevHash jetDrop) m) ∅ jetDrops.

Definition createNextPrevMaps (jetDrops : list JetDrop)
  : gmap string NextPrevJetDrop * gmap string (list NextPrevJetDrop) :=
  (by_hash jetDrops, by_prev_hash jetDrops).

(** The body of the last loop of [JetDropsByJetID]. *)
Definition prev_links (jetDropsByHash : gmap string NextPrevJetDrop) (jetDrop : JetDrop)
  : list NextPrevJetDrop :=
  option_list (jetDropsByHash !! EncodeToString (jd_FirstPrevHash jetDrop))
  ++ option_list (jetDropsByHash !! EncodeToString (jd_SecondPrevHash jetDrop)).

Definition next_links (jetDropsByPrevHash : gmap string (list NextPrevJetDrop)) (jetDrop : JetDrop)
  : list NextPrevJetDrop :=
  default [] (jetDropsByPrevHash !! EncodeToString (jd_Hash jetDrop)).

Definition findEdgePNInJetDrops (jetDrops : list JetDrop) (sortByAsc : bool) : Z * Z :=
  match head jetDrops, last jetDrops with
  | Some h, Some l =>
      if sortByAsc then (jd_PulseNumber h, jd_PulseNumber l) else (jd_PulseNumber l, jd_PulseNumber h)
  | _, _ => (0, 0)
  end.

(** ** Handlers *)

Section handlers.
Context `{Platform, ApiSpec, StorageAPIFetcher DB}.

Definition JetDropByID_handler (jetDropID : string) (db : DB) : response :=
  match NewJetDropIDFromString jetDropID with
  | Err err =>
      bad_request "400" None (Some InvalidParamsMessage)
        [mkFailure (Error (ErrWrap err "invalid")) "jet drop id"]
  | Ok exporterJetDropID =>
      match api_GetJetDropByID exporterJetDropID db with
      | Err err =>
          if IsRecordNotFoundError err then JSON StatusNotFound Empty else internal_error
      | Ok (jetDrop, prevJetDrop, nextJetDrops) =>
          let prevJetDropID := transformPrevNextResp <$> prevJetDrop in
          let nextJetDropID := transformPrevNextResp <$> nextJetDrops in
          JSON StatusOK (JetDropResponse (JetDropToAPI jetDrop prevJetDropID nextJetDropID))
      end
  end.

(** The failures the parameters of [JetDropRecords] give rise to. *)
Definition check_from_index (fromIndex : option string) (failures : list CodeValidationFailures)
  : list CodeValidationFailures :=
  match fromIndex with
  | Some str => if is_ok (CheckIndex str) then failures
                else failures ++ [mkFailure "invalid" "from_index"]
  | None => failures
  end.

Definition JetDropRecords_handler (jetDropID : string) (params : JetDropRecordsParams) (db : DB)
  : response :=
  let '(limit, offset, failures) := checkLimitOffset (jr_Limit params) (jr_Offset params) in
  let jetDrop := NewJetDropIDFromString jetDropID in
  let failures :=
    if is_ok jetDrop then failures else failures ++ [mkFailure "invalid" "jet_drop_id"] in
  let failures := check_from_index (jr_FromIndex params) failures in
  let failures :=
    match jr_Type params with
    | Some str =>
        if bool_decide (str ≠ "request" ∧ str ≠ "result" ∧ str ≠ "state")
        then failures ++ [mkFailure "should be 'request', 'state' or 'result'" "type"]
        else failures
    | None => failures
    end in
  match failures, jetDrop with
  | [], Ok jetDrop =>
      match api_GetRecordsByJetDrop jetDrop (jr_FromIndex params) (jr_Type params) limit offset db with
      | Err _ => internal_error
      | Ok (records, count) => JSON StatusOK (RecordsResponse count (RecordToAPI <$> records))
      end
  | _, _ => invalid_params failures
  end.

(** [getEnrichingJetDrops]. *)
Definition getEnrichingJetDrops (oldestPulse newestPulse : Z) (db : DB) : result (list JetDrop) :=
  before ←
    match api_GetPulse oldestPulse db with
    | Ok pulse =>
        if 0 <? p_PrevPulseNumber pulse then
          wrap_err ("can't enrich jetDrops for pulse " +:+ FormatInt (p_PrevPulseNumber pulse)
                    +:+ ", from oldestPulse " +:+ FormatInt oldestPulse)
            (api_GetJetDrops (pulse_of_number (p_PrevPulseNumber pulse)) db)
        else Ok []
    | Err _ => Ok []
    end;
  after ←
    match api_GetNextSavedPulse (pulse_of_number newestPulse) false db with
    | Ok nextPulse =>
        if decide (nextPulse ≠ emptyPulse) then
          wrap_err ("can't enrich jetDrops for pulse " +:+ FormatInt (p_PulseNumber nextPulse)
                    +:+ ", from newestPulse " +:+ FormatInt newestPulse)
            (api_GetJetDrops (pulse_of_number (p_PulseNumber nextPulse)) db)
        else Ok []
    | Err _ => Ok []
    end;
  Ok (before ++ after).

(** The jet drop as it appears in the answer, among all that are looked at. *)
Definition linked_drop (all : list JetDrop) (jetDrop : JetDrop) : ApiJetDrop :=
  let '(jetDropsByHash, jetDropsByPrevHash) := createNextPrevMaps all in
  JetDropToAPI jetDrop (prev_links jetDropsByHash jetDrop) (next_links jetDropsByPrevHash jetDrop).

(** An error of [GetJetDropsByJetID] comes with no jet drops, so it takes the
    branch of the empty result. *)
Definition JetDropsByJetID_handler (jetID : string) (params : JetDropsByJetIDParams) (db : DB)
  : response :=
  let '(limit, _, failures) := checkLimitOffset (jj_Limit params) None in
  let limit := match jj_Limit params with None => 1000 | Some _ => limit end in
  let '(id, validationError) := checkJetID jetID in
  let failures := failures ++ validationError in
  let '(sortByAsc, validationError) := checkSortByPulseParameter (jj_SortBy params) in
  let failures := failures ++ validationError in
  let '(pulseNumberGt, failures) :=
    opt_pulse_number (jj_PulseNumberGt params) "pulse_number_gt" failures in
  let '(pulseNumberGte, failures) :=
    opt_pulse_number (jj_PulseNumberGte params) "pulse_number_gte" failures in
  let '(pulseNumberLt, failures) :=
    opt_pulse_number (jj_PulseNumberLt params) "pulse_number_lt" failures in
  let '(pulseNumberLte, failures) :=
    opt_pulse_number (jj_PulseNumberLte params) "pulse_number_lte" failures in
  match failures with
  | _ :: _ => invalid_params failures
  | [] =>
      match api_GetJetDropsByJetID id pulseNumberLte pulseNumberLt pulseNumberGte pulseNumberGt
              limit sortByAsc db with
      | Err _ | Ok ([], _) => JSON StatusOK (JetDropsResponse 0 [])
      | Ok (jetDrops, total) =>
          let '(firstPN, lastPN) := findEdgePNInJetDrops jetDrops sortByAsc in
          match getEnrichingJetDrops firstPN lastPN db with
          | Err _ => internal_error
          | Ok enrichedJetDrops =>
              JSON StatusOK
                (JetDropsResponse total (linked_drop (enrichedJetDrops ++ jetDrops) <$> jetDrops))
          end
      end
  end.

Definition Pulses_handler (params : PulsesParams) (db : DB) : response :=
  let '(limit, offset, failures) := checkLimitOffset (pp_Limit params) (pp_Offset params) in
  let failures :=
    match pp_FromPulseNumber params with
    | Some i => if negb (IsValidAsPulseNumber i)
                then failures ++ [mkFailure "invalid" "pulse"] else failures
    | None => failures
    end in
  let '(pulseNumberGt, failures) :=
    opt_pulse_number (pp_PulseNumberGt params) "pulse_number_gt" failures in
  let '(pulseNumberGte, failures) :=
    opt_pulse_number (pp_PulseNumberGte params) "pulse_number_gte" failures in
  let '(pulseNumberLt, failures) :=
    opt_pulse_number (pp_PulseNumberLt params) "pulse_number_lt" failures in
  let '(pulseNumberLte, failures) :=
    opt_pulse_number (pp_PulseNumberLte params) "pulse_number_lte" failures in
  let '(sortByAsc, validationFailures) := checkSortByPulseNumberParameter (pp_SortBy params) in
  let failures := failures ++ validationFailures in
  match failures with
  | _ :: _ => invalid_params failures
  | [] =>
      match api_GetPulses (pp_FromPulseNumber params) (pp_TimestampLte params)
              (pp_TimestampGte params) pulseNumberLte pulseNumberLt pulseNumberGte pulseNumberGt
              sortByAsc limit offset db with
      | Err _ => internal_error
      | Ok (pulses, count) => JSON StatusOK (PulsesResponse count (PulseToAPI <$> pulses))
      end
  end.

Definition Pulse_handler (pulseNumber : Z) (db : DB) : response :=
  match api_GetPulse pulseNumber db with
  | Err err => if IsRecordNotFoundError err then JSON StatusNotFound Empty else internal_error
  | Ok pulse => JSON StatusOK (PulseResponse (PulseToAPI pulse))
  end.

Definition JetDropsByPulseNumber_handler (pulseNumber : Z) (params : JetDropsByPulseNumberParams)
  (db : DB) : response :=
  let '(limit, offset, failures) := checkLimitOffset (jn_Limit params) (jn_Offset params) in
  let failures :=
    if negb (IsValidAsPulseNumber pulseNumber)
    then failures ++ [mkFailure "invalid" "pulse"] else failures in
  let from := NewJetDropIDFromString <$> jn_FromJetDropId params in
  let failures :=
    match from with
    | Some (Err _) => failures ++ [mkFailure "invalid" "jet drop id"]
    | _ => failures
    end in
  match failures with
  | _ :: _ => bad_request "400" None (Some InvalidParamsMessage) failures
  | [] =>
      let exporterJetDropID := match from with Some (Ok id) => Some id | _ => None end in
      match api_GetJetDropsWithParams (pulse_of_number pulseNumber) exporterJetDropID limit offset db with
      | Err _ => internal_error
      | Ok (jetDrops, total) =>
          JSON StatusOK (JetDropsResponse total ((λ jetDrop, JetDropToAPI jetDrop [] []) <$> jetDrops))
      end
  end.

Definition search_failure (reason : string) : response :=
  bad_request BadRequestText (Some InvalidParamsMessage) None [mkFailure reason "value"].

Definition searchResponsePulse (pulseNumber : Z) : response :=
  if negb (IsValidAsPulseNumber pulseNumber) then search_failure "not valid pulse number"
  else JSON StatusOK (SearchPulse pulseNumber).

(** [None] is a panic: the nil pointer [NewIDFromBytes] may return is
    dereferenced. *)
Definition searchReferencePulse (ref : Reference) (db : DB) : option response :=
  if IsObjectReference ref then Some (JSON StatusOK (SearchLifeline (Ref_String ref)))
  else
    match api_GetRecord (ID_Bytes (Ref_GetLocal ref)) db with
    | Err err =>
        Some (if IsRecordNotFoundError err then search_failure "record reference not found"
              else internal_error)
    | Ok record =>
        objectID ← NewIDFromBytes (r_ObjectReference record);
        Some (JSON StatusOK
                (SearchRecord (FormatInt (r_PulseNumber record) +:+ ":" +:+ FormatInt (r_Order record))
                   (Ref_String (NewReference objectID))))
    end.

Definition Search_handler (value : string) (db : DB) : option response :=
  match ParseInt value with
  | Some pulseNumber => Some (searchResponsePulse pulseNumber)
  | None =>
      if is_ok (NewJetDropIDFromString value) then Some (JSON StatusOK (SearchJetDrop value))
      else
        match checkReference value with
        | Ok ref => searchReferencePulse ref db
        | Err _ => Some (search_failure "is neither pulse number, jet drop id nor reference")
        end
  end.

Definition ObjectLifeline_handler (objectReference : string) (params : ObjectLifelineParams) (db : DB)
  : response :=
  let '(limit, offset, failures) := checkLimitOffset (ol_Limit params) (ol_Offset params) in
  let ref := checkReference objectReference in
  let failures :=
    match ref with
    | Err err => failures ++ [mkFailure (Error err) "object_reference"]
    | Ok _ => failures
    end in
  let sortAsc := SortByIndex_index_asc in
  let sortDesc := SortByIndex_index_desc in
  let failures :=
    match ol_SortBy params with
    | Some s =>
        if bool_decide (s ≠ sortDesc ∧ s ≠ sortAsc)
        then failures ++ [mkFailure ("should be '" +:+ sortDesc +:+ "' or '" +:+ sortAsc +:+ "'")
                            "sort_by"]
        else failures
    | None => failures
    end in
  let sortByIndexAsc := match ol_SortBy params with Some s => bool_decide (s = sortAsc) | None => false end in
  let failures := check_from_index (ol_FromIndex params) failures in
  let '(pulseNumberGt, failures) :=
    opt_pulse_number (ol_PulseNumberGt params) "pulse_number_gt" failures in
  let '(pulseNumberLt, failures) :=
    opt_pulse_number (ol_PulseNumberLt params) "pulse_number_lt" failures in
  match failures, ref with
  | [], Ok ref =>
      match api_GetLifeline (ID_Bytes (Ref_GetLocal ref)) (ol_FromIndex params) pulseNumberLt
              pulseNumberGt (ol_TimestampLte params) (ol_TimestampGte params) limit offset
              sortByIndexAsc db with
      | Err _ => internal_error
      | Ok (records, count) => JSON StatusOK (RecordsResponse count (RecordToAPI <$> records))
      end
  | _, _ => invalid_params failures
  end.
End handlers.
