(* ===== verification/ApiProofs.v ===== *)
(** * What the API guarantees

    A request with invalid parameters is refused before the storage is asked; the
    links between jet drops are exactly those their hashes give; a search
    recognises what the API prints; and a lifeline is answered, through the
    storage layer, with the page of the ledger that was asked for. *)

From S2P Require Import Prelude GoStd Platform RefPlatform Models Converter Gorm RefDb Interfaces Storage StorageRead StorageInstance Api.

(** ** Lists of failures *)

Lemma app_cond_nil {A} (b : bool) (l : list A) x :
  (if b then l ++ [x] else l) = [] ↔ b = false ∧ l = [].
Proof. destruct b; [|by naive_solver]. split; [|by intros [? _]]. by destruct l. Qed.

Lemma app_nil_iff {A} (l k : list A) : l ++ k = [] ↔ l = [] ∧ k = [].
Proof. destruct l; naive_solver. Qed.

Section checks.
Context `{Platform, ApiSpec}.

Definition limits_ok (l o : option Z) : Prop := 1 ≤ default 20 l ≤ 1000 ∧ 0 ≤ default 0 o.
Definition pulse_number_ok (p : option Z) : Prop :=
  ∀ n, p = Some n → IsValidAsPulseNumber n = true.
Definition one_of (s : option string) (allowed : list string) : Prop :=
  ∀ t, s = Some t → t ∈ allowed.
Definition index_ok (i : option string) : Prop := ∀ t, i = Some t → is_ok (CheckIndex t) = true.
Definition jet_id_ok (jetID : string) : Prop :=
  ∃ id, QueryUnescape (TrimSpace jetID) = Some id ∧ jetIDRegexp_MatchString id = true.

Lemma checkLimitOffset_spec l o :
  ∃ fs, checkLimitOffset l o = (default 20 l, default 0 o, fs) ∧ (fs = [] ↔ limits_ok l o).
Proof.
  eexists. split; [reflexivity|]. rewrite app_cond_nil. unfold limits_ok.
  destruct (_ || _) eqn:Hlim.
  - split; [by intros [_ ?]|]. intros [Hl _]. apply orb_true_iff in Hlim as [Hlim|Hlim].
    + apply Z.leb_le in Hlim. lia.
    + apply Z.ltb_lt in Hlim. lia.
  - apply orb_false_iff in Hlim as [H1 H2]. apply Z.leb_gt in H1. apply Z.ltb_ge in H2.
    rewrite Z.ltb_ge. naive_solver lia.
Qed.

Lemma opt_pulse_number_spec p name fs :
  ∃ fs', opt_pulse_number p name fs = (p, fs') ∧ (fs' = [] ↔ pulse_number_ok p ∧ fs = []).
Proof.
  unfold pulse_number_ok. destruct p as [n|]; cbn; [|exists fs; naive_solver].
  eexists. split; [reflexivity|]. rewrite app_cond_nil, negb_false_iff. naive_solver.
Qed.

Lemma sort_by_spec s a b :
  ∃ asc fs, sort_by s a b = (asc, fs) ∧ (fs = [] ↔ one_of s [a; b]) ∧
            asc = bool_decide (s = Some a).
Proof.
  unfold one_of, sort_by. destruct s as [s|].
  - case_decide as Hs; do 2 eexists; (split; [reflexivity|]).
    + split; [|by rewrite bool_decide_eq_false_2 by naive_solver].
      split; [done|]. intros Hall. specialize (Hall s eq_refl). set_solver.
    + split; [|apply bool_decide_ext; naive_solver]. split; [|done]. intros _ t [= <-].
      destruct (decide (s = a)) as [->|Ha]; [by left|].
      destruct (decide (s = b)) as [->|Hb]; [by right; left|]. by destruct Hs.
  - do 2 eexists. split; [reflexivity|]. split; [done|]. by rewrite bool_decide_eq_false_2.
Qed.

Lemma checkJetID_spec jetID :
  ∃ id fs, checkJetID jetID = (id, fs) ∧ (fs = [] ↔ jet_id_ok jetID).
Proof.
  unfold checkJetID, jet_id_ok.
  destruct (QueryUnescape (TrimSpace jetID)) as [id|] eqn:Hq.
  - destruct (jetIDRegexp_MatchString id) eqn:Hm; cbn [negb].
    + destruct (decide (String.length (TrimSpace jetID) = 0%nat)) as [He|He].
      { destruct (TrimSpace jetID); [|done]. cbn in Hq. injection Hq as <-. by vm_compute in Hm. }
      exists (if decide (id = "*") then "" else id), []. split; [by case_decide|]. naive_solver.
    + destruct ((if decide (_ = 0%nat) then _ else []) ++ [_]) as [|f fs] eqn:Hf;
        [by apply app_nil_iff in Hf as [_ ?]|].
      do 2 eexists. split; [reflexivity|]. split; [done|]. intros (? & [= <-] & ?). congruence.
  - destruct ((if decide (_ = 0%nat) then _ else []) ++ [_]) as [|f fs] eqn:Hf;
      [by apply app_nil_iff in Hf as [_ ?]|].
    destruct (negb _); do 2 eexists; (split; [reflexivity|]); (split; [done|by intros (? & ? & _)]).
Qed.

Lemma check_from_index_nil i fs : check_from_index i fs = [] ↔ index_ok i ∧ fs = [].
Proof.
  unfold check_from_index, index_ok. destruct i as [t|]; [|by split; [|intros [_ ?]]].
  destruct (is_ok (CheckIndex t)) eqn:Ht.
  - split; [|by intros [_ ?]]. intros Hfs. split; [|done]. by intros ? [= <-].
  - rewrite app_nil_iff. split; [by intros [_ ?]|]. intros [Hall _].
    rewrite (Hall t eq_refl) in Ht. done.
Qed.
End checks.

(** ** Which requests are refused *)

Section validation.
Context `{Platform, ApiSpec, StorageAPIFetcher DB}.

Definition JetDropRecords_valid (jetDropID : string) (p : JetDropRecordsParams) : Prop :=
  limits_ok (jr_Limit p) (jr_Offset p) ∧ is_ok (NewJetDropIDFromString jetDropID) = true ∧
  index_ok (jr_FromIndex p) ∧ one_of (jr_Type p) ["request"; "result"; "state"].

Definition JetDropsByJetID_valid (jetID : string) (p : JetDropsByJetIDParams) : Prop :=
  limits_ok (jj_Limit p) None ∧ jet_id_ok jetID ∧
  one_of (jj_SortBy p)
    [SortByPulse_pulse_number_asc_jet_id_desc; SortByPulse_pulse_number_desc_jet_id_asc] ∧
  pulse_number_ok (jj_PulseNumberGt p) ∧ pulse_number_ok (jj_PulseNumberGte p) ∧
  pulse_number_ok (jj_PulseNumberLt p) ∧ pulse_number_ok (jj_PulseNumberLte p).

Definition Pulses_valid (p : PulsesParams) : Prop :=
  limits_ok (pp_Limit p) (pp_Offset p) ∧ pulse_number_ok (pp_FromPulseNumber p) ∧
  pulse_number_ok (pp_PulseNumberGt p) ∧ pulse_number_ok (pp_PulseNumberGte p) ∧
  pulse_number_ok (pp_PulseNumberLt p) ∧ pulse_number_ok (pp_PulseNumberLte p) ∧
  one_of (pp_SortBy p) [SortByPulseNumber_pulse_number_asc; SortByPulseNumber_pulse_number_desc].

Definition JetDropsByPulseNumber_valid (pulseNumber : Z) (p : JetDropsByPulseNumberParams) : Prop :=
  limits_ok (jn_Limit p) (jn_Offset p) ∧ IsValidAsPulseNumber pulseNumber = true ∧
  ∀ s, jn_FromJetDropId p = Some s → is_ok (NewJetDropIDFromString s) = true.

Definition ObjectLifeline_valid (objectReference : string) (p : ObjectLifelineParams) : Prop :=
  limits_ok (ol_Limit p) (ol_Offset p) ∧ is_ok (checkReference objectReference) = true ∧
  one_of (ol_SortBy p) [SortByIndex_index_desc; SortByIndex_index_asc] ∧
  index_ok (ol_FromIndex p) ∧
  pulse_number_ok (ol_PulseNumberGt p) ∧ pulse_number_ok (ol_PulseNumberLt p).

(** A handler answers 400, and then without looking at the storage, exactly when
    its parameters are not valid. *)
Definition refuses_unless (valid : Prop) (handler : DB → response) : Prop :=
  (valid → ∀ db, rs_status (handler db) ≠ StatusBadRequest) ∧
  (¬ valid → ∃ failures, failures ≠ [] ∧ ∃ code, ∀ db,
     handler db = bad_request code None (Some InvalidParamsMessage) failures).

(** A handler that collects failures and goes on when there are none. *)
Lemma refuses_collected (valid : Prop) (failures : list CodeValidationFailures) code
  (handler go_on : DB → response) :
  (failures = [] ↔ valid) →
  (∀ db, handler db = match failures with
                      | [] => go_on db
                      | _ => bad_request code None (Some InvalidParamsMessage) failures
                      end) →
  (valid → ∀ db, rs_status (go_on db) ≠ StatusBadRequest) →
  refuses_unless valid handler.
Proof.
  intros Hiff Heq Hgo. split.
  - intros Hv db. rewrite Heq, (proj2 Hiff Hv). by apply Hgo.
  - intros Hv. destruct failures as [|f fs]; [by destruct Hv; apply Hiff|].
    exists (f :: fs). split; [done|]. exists code. intros db. apply Heq.
Qed.

Lemma record_type_nil s fs :
  match s with
  | Some str =>
      if bool_decide (str ≠ "request" ∧ str ≠ "result" ∧ str ≠ "state")
      then fs ++ [mkFailure "should be 'request', 'state' or 'result'" "type"] else fs
  | None => fs
  end = [] ↔ one_of s ["request"; "result"; "state"] ∧ fs = [].
Proof.
  unfold one_of. destruct s as [s|]; [|by split; [|intros [_ ?]]].
  case_bool_decide as Hs.
  - rewrite app_nil_iff. split; [by intros [_ ?]|]. intros [Hall _].
    specialize (Hall s eq_refl). set_solver.
  - split; [|by intros [_ ?]]. intros ->. split; [|done]. intros ? [= <-].
    destruct (decide (s = "request")) as [->|]; [by left|].
    destruct (decide (s = "result")) as [->|]; [by right; left|].
    destruct (decide (s = "state")) as [->|]; [by right; right; left|]. by destruct Hs.
Qed.

Lemma index_sort_nil s (a b : string) x fs :
  match s with
  | Some str => if bool_decide (str ≠ a ∧ str ≠ b) then fs ++ [x] else fs
  | None => fs
  end = [] ↔ one_of s [a; b] ∧ fs = ([] : list CodeValidationFailures).
Proof.
  unfold one_of. destruct s as [s|]; [|by split; [|intros [_ ?]]].
  case_bool_decide as Hs.
  - rewrite app_nil_iff. split; [by intros [_ ?]|]. intros [Hall _].
    specialize (Hall s eq_refl). set_solver.
  - split; [|by intros [_ ?]]. intros ->. split; [|done]. intros ? [= <-].
    destruct (decide (s = a)) as [->|]; [by left|].
    destruct (decide (s = b)) as [->|]; [by right; left|]. by destruct Hs.
Qed.

Lemma is_ok_nil {A} (r : result A) x (fs : list CodeValidationFailures) :
  (if is_ok r then fs else fs ++ [x]) = [] ↔ is_ok r = true ∧ fs = [].
Proof. destruct (is_ok r); rewrite ?app_nil_iff; naive_solver. Qed.

Lemma JetDropRecords_refuses jetDropID p :
  refuses_unless (JetDropRecords_valid jetDropID p) (JetDropRecords_handler jetDropID p).
Proof.
  unfold JetDropRecords_valid, JetDropRecords_handler.
  destruct (checkLimitOffset_spec (jr_Limit p) (jr_Offset p)) as (fs & -> & Hfs).
  set (jetDrop := NewJetDropIDFromString jetDropID).
  set (all := match jr_Type p with None => _ | Some _ => _ end).
  assert (all = [] ↔ limits_ok (jr_Limit p) (jr_Offset p) ∧ is_ok jetDrop = true ∧
    index_ok (jr_FromIndex p) ∧ one_of (jr_Type p) ["request"; "result"; "state"]) as Hall.
  { unfold all. rewrite record_type_nil, check_from_index_nil, is_ok_nil, Hfs. naive_solver. }
  clearbody all. destruct jetDrop as [id|e].
  - eapply (refuses_collected _ all BadRequestText _ (λ db,
      match api_GetRecordsByJetDrop id (jr_FromIndex p) (jr_Type p) _ _ db with
      | Err _ => internal_error | Ok (records, count) => _ end)); [exact Hall| |].
    + intros db. by destruct all.
    + intros _ db. by destruct (api_GetRecordsByJetDrop _ _ _ _ _ _) as [[??]|?].
  - eapply (refuses_collected _ all BadRequestText _ (λ _, invalid_params [])); [exact Hall| |].
    + intros db. by destruct all.
    + intros (_ & ? & _). done.
Qed.

(** The storage call a valid [JetDropsByJetID] makes, and what follows it. *)
Definition JetDropsByJetID_go (id : string) (p : JetDropsByJetIDParams) (db : DB) : response :=
  let asc := bool_decide (jj_SortBy p = Some SortByPulse_pulse_number_asc_jet_id_desc) in
  match api_GetJetDropsByJetID id (jj_PulseNumberLte p) (jj_PulseNumberLt p) (jj_PulseNumberGte p)
          (jj_PulseNumberGt p) (default 1000 (jj_Limit p)) asc db with
  | Err _ | Ok ([], _) => JSON StatusOK (JetDropsResponse 0 [])
  | Ok (jetDrops, total) =>
      let '(firstPN, lastPN) := findEdgePNInJetDrops jetDrops asc in
      match getEnrichingJetDrops firstPN lastPN db with
      | Err _ => internal_error
      | Ok enriched =>
          JSON StatusOK (JetDropsResponse total (linked_drop (enriched ++ jetDrops) <$> jetDrops))
      end
  end.

Lemma JetDropsByJetID_unfold jetID p :
  ∃ fs id, checkJetID jetID = (id, (checkJetID jetID).2) ∧
    (fs = [] ↔ JetDropsByJetID_valid jetID p) ∧
    ∀ db, JetDropsByJetID_handler jetID p db
          = match fs with [] => JetDropsByJetID_go id p db | _ => invalid_params fs end.
Proof.
  unfold JetDropsByJetID_valid, JetDropsByJetID_handler, JetDropsByJetID_go, checkSortByPulseParameter.
  destruct (checkLimitOffset_spec (jj_Limit p) None) as (fs & -> & Hfs).
  destruct (checkJetID_spec jetID) as (id & fs1 & -> & E1).
  destruct (sort_by_spec (jj_SortBy p) SortByPulse_pulse_number_asc_jet_id_desc
    SortByPulse_pulse_number_desc_jet_id_asc) as (asc & fs2 & -> & E2 & ->).
  destruct (opt_pulse_number_spec (jj_PulseNumberGt p) "pulse_number_gt" ((fs ++ fs1) ++ fs2))
    as (f1 & -> & G1).
  destruct (opt_pulse_number_spec (jj_PulseNumberGte p) "pulse_number_gte" f1) as (f2 & -> & G2).
  destruct (opt_pulse_number_spec (jj_PulseNumberLt p) "pulse_number_lt" f2) as (f3 & -> & G3).
  destruct (opt_pulse_number_spec (jj_PulseNumberLte p) "pulse_number_lte" f3) as (f4 & -> & G4).
  exists f4, id. split; [done|]. split.
  - rewrite G4, G3, G2, G1, !app_nil_iff, Hfs, E1, E2. clear. naive_solver.
  - intros db. destruct f4; [|done]. by destruct (jj_Limit p).
Qed.

Lemma JetDropsByJetID_go_status id p db :
  rs_status (JetDropsByJetID_go id p db) ≠ StatusBadRequest.
Proof.
  unfold JetDropsByJetID_go. destruct (api_GetJetDropsByJetID _ _ _ _ _ _ _ _) as [[[|j js] total]|e];
    try done.
  destruct (findEdgePNInJetDrops _ _). by destruct (getEnrichingJetDrops _ _ _).
Qed.

Lemma JetDropsByJetID_refuses jetID p :
  refuses_unless (JetDropsByJetID_valid jetID p) (JetDropsByJetID_handler jetID p).
Proof.
  destruct (JetDropsByJetID_unfold jetID p) as (fs & id & _ & Hiff & Heq).
  apply (refuses_collected _ fs BadRequestText _ (JetDropsByJetID_go id p)); [done|done|].
  intros _ db. apply JetDropsByJetID_go_status.
Qed.

Lemma Pulses_refuses p : refuses_unless (Pulses_valid p) (Pulses_handler p).
Proof.
  unfold Pulses_valid, Pulses_handler, checkSortByPulseNumberParameter.
  destruct (checkLimitOffset_spec (pp_Limit p) (pp_Offset p)) as (fs & -> & Hfs).
  set (fs1 := match pp_FromPulseNumber p with Some _ => _ | None => fs end).
  assert (fs1 = [] ↔ pulse_number_ok (pp_FromPulseNumber p) ∧ fs = []) as E1.
  { unfold fs1, pulse_number_ok. destruct (pp_FromPulseNumber p) as [n|];
      [|by split; [|intros [_ ?]]].
    rewrite app_cond_nil, negb_false_iff. naive_solver. }
  clearbody fs1.
  destruct (opt_pulse_number_spec (pp_PulseNumberGt p) "pulse_number_gt" fs1) as (f1 & -> & G1).
  destruct (opt_pulse_number_spec (pp_PulseNumberGte p) "pulse_number_gte" f1) as (f2 & -> & G2).
  destruct (opt_pulse_number_spec (pp_PulseNumberLt p) "pulse_number_lt" f2) as (f3 & -> & G3).
  destruct (opt_pulse_number_spec (pp_PulseNumberLte p) "pulse_number_lte" f3) as (f4 & -> & G4).
  destruct (sort_by_spec (pp_SortBy p) SortByPulseNumber_pulse_number_asc
    SortByPulseNumber_pulse_number_desc) as (asc & fs2 & -> & E2 & _).
  eapply (refuses_collected _ (f4 ++ fs2) BadRequestText _ (λ db,
    match api_GetPulses _ _ _ _ _ _ _ asc _ _ db with
    | Err _ => internal_error | Ok (pulses, count) => _ end)).
  - rewrite app_nil_iff, G4, G3, G2, G1, E1, Hfs, E2. clear. naive_solver.
  - intros db. by destruct (f4 ++ fs2).
  - intros _ db. by destruct (api_GetPulses _ _ _ _ _ _ _ _ _ _ _) as [[??]|?].
Qed.

Lemma JetDropsByPulseNumber_refuses n p :
  refuses_unless (JetDropsByPulseNumber_valid n p) (JetDropsByPulseNumber_handler n p).
Proof.
  unfold JetDropsByPulseNumber_valid, JetDropsByPulseNumber_handler.
  destruct (checkLimitOffset_spec (jn_Limit p) (jn_Offset p)) as (fs & -> & Hfs).
  set (fs1 := if negb _ then fs ++ _ else fs).
  assert (fs1 = [] ↔ IsValidAsPulseNumber n = true ∧ fs = []) as E1
    by (unfold fs1; by rewrite app_cond_nil, negb_false_iff).
  clearbody fs1.
  set (all := match NewJetDropIDFromString <$> jn_FromJetDropId p with None => fs1 | Some _ => _ end).
  assert (all = [] ↔ (∀ s, jn_FromJetDropId p = Some s → is_ok (NewJetDropIDFromString s) = true) ∧
    fs1 = []) as E2.
  { unfold all. destruct (jn_FromJetDropId p) as [s|]; cbn; [|by split; [|intros [_ ?]]].
    destruct (NewJetDropIDFromString s) eqn:Hs.
    - split; [|by intros [_ ?]]. intros ->. split; [|done]. intros ? [= <-]. by rewrite Hs.
    - rewrite app_nil_iff. split; [by intros [_ ?]|]. intros [Hall _].
      specialize (Hall s eq_refl). by rewrite Hs in Hall. }
  clearbody all.
  eapply (refuses_collected _ all "400" _ (λ db,
    match api_GetJetDropsWithParams _ _ _ _ db with
    | Err _ => internal_error | Ok (jetDrops, total) => _ end)).
  - rewrite E2, E1, Hfs. clear. naive_solver.
  - intros db. by destruct all.
  - intros _ db. by destruct (api_GetJetDropsWithParams _ _ _ _ _) as [[??]|?].
Qed.

(** The storage call a valid [ObjectLifeline] makes. *)
Definition ObjectLifeline_go (ref : Reference) (p : ObjectLifelineParams) (db : DB) : response :=
  match api_GetLifeline (ID_Bytes (Ref_GetLocal ref)) (ol_FromIndex p) (ol_PulseNumberLt p)
          (ol_PulseNumberGt p) (ol_TimestampLte p) (ol_TimestampGte p) (default 20 (ol_Limit p))
          (default 0 (ol_Offset p)) (bool_decide (ol_SortBy p = Some SortByIndex_index_asc)) db with
  | Err _ => internal_error
  | Ok (records, count) => JSON StatusOK (RecordsResponse count (RecordToAPI <$> records))
  end.

Lemma ObjectLifeline_unfold objectReference p :
  ∃ fs, (fs = [] ↔ ObjectLifeline_valid objectReference p) ∧
    ∀ db, ObjectLifeline_handler objectReference p db
          = match fs, checkReference objectReference with
            | [], Ok ref => ObjectLifeline_go ref p db
            | _, _ => invalid_params fs
            end.
Proof.
  unfold ObjectLifeline_valid, ObjectLifeline_handler, ObjectLifeline_go.
  destruct (checkLimitOffset_spec (ol_Limit p) (ol_Offset p)) as (fs & -> & Hfs).
  set (fs1 := match checkReference objectReference with Err _ => _ | Ok _ => fs end).
  assert (fs1 = [] ↔ is_ok (checkReference objectReference) = true ∧ fs = []) as E1.
  { unfold fs1. destruct (checkReference objectReference); cbn; [by split; [|intros [_ ?]]|].
    rewrite app_nil_iff. by split; [intros [_ ?]|intros [? _]]. }
  clearbody fs1.
  set (fs2 := match ol_SortBy p with Some _ => _ | None => fs1 end).
  assert (fs2 = [] ↔ one_of (ol_SortBy p) [SortByIndex_index_desc; SortByIndex_index_asc] ∧ fs1 = [])
    as E2 by apply index_sort_nil.
  clearbody fs2.
  assert (match ol_SortBy p with Some s => bool_decide (s = SortByIndex_index_asc) | None => false end
    = bool_decide (ol_SortBy p = Some SortByIndex_index_asc)) as ->.
  { destruct (ol_SortBy p); [|by rewrite bool_decide_eq_false_2].
    apply bool_decide_ext. split; congruence. }
  pose proof (check_from_index_nil (ol_FromIndex p) fs2) as E3.
  destruct (opt_pulse_number_spec (ol_PulseNumberGt p) "pulse_number_gt"
    (check_from_index (ol_FromIndex p) fs2)) as (f1 & -> & G1).
  destruct (opt_pulse_number_spec (ol_PulseNumberLt p) "pulse_number_lt" f1) as (f2 & -> & G2).
  exists f2. split; [|done]. rewrite G2, G1, E3, E2, E1, Hfs. clear. naive_solver.
Qed.

Lemma ObjectLifeline_refuses objectReference p :
  refuses_unless (ObjectLifeline_valid objectReference p) (ObjectLifeline_handler objectReference p).
Proof.
  destruct (ObjectLifeline_unfold objectReference p) as (fs & Hiff & Heq).
  destruct (checkReference objectReference) as [ref|e] eqn:Href.
  - apply (refuses_collected _ fs BadRequestText _ (ObjectLifeline_go ref p)); [done| |].
    + intros db. rewrite Heq. by destruct fs.
    + intros _ db. unfold ObjectLifeline_go.
      by destruct (api_GetLifeline _ _ _ _ _ _ _ _ _ _) as [[??]|?].
  - apply (refuses_collected _ fs BadRequestText _ (λ _, invalid_params [])); [done| |].
    + intros db. rewrite Heq. by destruct fs.
    + intros (_ & Hok & _). by rewrite Href in Hok.
Qed.

Lemma JetDropByID_refuses jetDropID :
  refuses_unless (is_ok (NewJetDropIDFromString jetDropID) = true) (JetDropByID_handler jetDropID).
Proof.
  unfold JetDropByID_handler. destruct (NewJetDropIDFromString jetDropID) as [id|e]; split.
  - intros _ db. destruct (api_GetJetDropByID id db) as [[[j prev] next]|e]; [done|].
    by destruct (IsRecordNotFoundError e).
  - done.
  - done.
  - intros _. eexists. split; [|by eexists]. done.
Qed.

(** C34: Every list endpoint and the jet drop endpoint answer 400 exactly when a
    parameter is out of its documented range (the limit, the offset, an
    identifier, an index, a pulse number, a record type, a sort order), and then
    with at least one failure listed and without looking at the storage. *)
Theorem handlers_validate id id' id'' n ref p1 p2 p3 p4 p5 :
  refuses_unless (is_ok (NewJetDropIDFromString id) = true) (JetDropByID_handler id) ∧
  refuses_unless (JetDropRecords_valid id' p1) (JetDropRecords_handler id' p1) ∧
  refuses_unless (JetDropsByJetID_valid id'' p2) (JetDropsByJetID_handler id'' p2) ∧
  refuses_unless (Pulses_valid p3) (Pulses_handler p3) ∧
  refuses_unless (JetDropsByPulseNumber_valid n p4) (JetDropsByPulseNumber_handler n p4) ∧
  refuses_unless (ObjectLifeline_valid ref p5) (ObjectLifeline_handler ref p5).
Proof.
  split_and!; [apply JetDropByID_refuses|apply JetDropRecords_refuses|apply JetDropsByJetID_refuses
    |apply Pulses_refuses|apply JetDropsByPulseNumber_refuses|apply ObjectLifeline_refuses].
Qed.

(** A failure of the database while the jet drops of a jet are listed is
    answered with an empty page and status 200; the branch for status 500 after
    [GetJetDropsByJetID] is never taken. *)
Lemma JetDropsByJetID_masks_errors jetID p db :
  JetDropsByJetID_valid jetID p →
  (∀ id lte lt gte gt limit asc, ∃ e,
     api_GetJetDropsByJetID id lte lt gte gt limit asc db = Err e) →
  JetDropsByJetID_handler jetID p db = JSON StatusOK (JetDropsResponse 0 []).
Proof.
  intros Hv Hfail. destruct (JetDropsByJetID_unfold jetID p) as (fs & id & _ & Hiff & Heq).
  rewrite Heq, (proj2 Hiff Hv). unfold JetDropsByJetID_go.
  by edestruct Hfail as [e ->].
Qed.
End validation.

(** ** The links between jet drops *)

Lemma elem_of_option_list {A} (x : A) o : x ∈ option_list o ↔ o = Some x.
Proof.
  destruct o as [y|]; cbn; [rewrite list_elem_of_singleton; naive_solver|].
  split; [by intros ?%not_elem_of_nil|done].
Qed.

Definition valid_drop (d : JetDrop) : Prop :=
  valid_JetDropID (NewJetDropID (jd_JetID d) (jd_PulseNumber d)).

(** The identifier determines what the API shows of a neighbour. *)
Lemma transformPrevNextResp_id a b :
  valid_drop a → valid_drop b →
  np_JetDropId (transformPrevNextResp a) = np_JetDropId (transformPrevNextResp b) →
  transformPrevNextResp a = transformPrevNextResp b.
Proof.
  unfold valid_drop, transformPrevNextResp. cbn [np_JetDropId].
  generalize (NewJetDropID (jd_JetID a) (jd_PulseNumber a)) as ja.
  generalize (NewJetDropID (jd_JetID b) (jd_PulseNumber b)) as jb.
  intros jb ja Ha%parse_ToString Hb%parse_ToString Heq. rewrite Heq, Hb in Ha.
  by injection Ha as ->.
Qed.

Lemma by_hash_snoc ds d :
  by_hash (ds ++ [d]) = <[EncodeToString (jd_Hash d) := transformPrevNextResp d]> (by_hash ds).
Proof. unfold by_hash. by rewrite foldl_app. Qed.

Lemma by_hash_Some ds h x :
  by_hash ds !! EncodeToString h = Some x →
  ∃ d, d ∈ ds ∧ jd_Hash d = h ∧ x = transformPrevNextResp d.
Proof.
  induction ds as [|d ds IH] using rev_ind; [done|]. rewrite by_hash_snoc.
  destruct (decide (jd_Hash d = h)) as [<-|Hne].
  - rewrite lookup_insert_eq. intros [= <-]. exists d. set_solver.
  - rewrite lookup_insert_ne by (by intros ?%(inj _)). intros (d' & ? & ? & ?)%IH.
    exists d'. set_solver.
Qed.

Lemma by_hash_is_Some ds d : d ∈ ds → is_Some (by_hash ds !! EncodeToString (jd_Hash d)).
Proof.
  induction ds as [|e ds IH] using rev_ind; [by intros ?%not_elem_of_nil|].
  rewrite by_hash_snoc. intros [Hd|Hd%list_elem_of_singleton]%elem_of_app.
  - destruct (decide (jd_Hash e = jd_Hash d)) as [->|Hne]; [by rewrite lookup_insert_eq|].
    rewrite lookup_insert_ne by (by intros ?%(inj _)). by apply IH.
  - subst. by rewrite lookup_insert_eq.
Qed.

(** What [createNextPrevMaps] has collected for a hash. *)
Definition next_of (ds : list JetDrop) (h : bytes) : list NextPrevJetDrop :=
  default [] (by_prev_hash ds !! EncodeToString h).

Lemma next_of_snoc ds d h :
  next_of (ds ++ [d]) h
  = if decide (jd_FirstPrevHash d = h ∧
               ¬ np_JetDropId (transformPrevNextResp d) ∈ np_JetDropId <$> next_of ds h)
    then next_of ds h ++ [transformPrevNextResp d] else next_of ds h.
Proof.
  unfold next_of, by_prev_hash. rewrite foldl_app. cbn [foldl].
  set (m := foldl _ ∅ ds). unfold add_next.
  assert (∀ l, existsb (λ e, bool_decide (np_JetDropId e = np_JetDropId (transformPrevNextResp d))) l = true ↔
    np_JetDropId (transformPrevNextResp d) ∈ np_JetDropId <$> l) as Hex.
  { intros l. rewrite existsb_exists, list_elem_of_fmap. setoid_rewrite <- list_elem_of_In.
    setoid_rewrite bool_decide_eq_true. naive_solver. }
  destruct (decide (jd_FirstPrevHash d = h)) as [<-|Hne].
  - destruct (m !! EncodeToString (jd_FirstPrevHash d)) as [saved|] eqn:Hm.
    + destruct (existsb _ saved) eqn:He.
      * rewrite Hm. cbn. rewrite decide_False; [done|]. intros [_ Hn]. by apply Hn, Hex.
      * rewrite lookup_insert_eq. cbn. rewrite decide_True; [done|]. split; [done|].
        intros Hin%Hex. congruence.
    + rewrite lookup_insert_eq. cbn. rewrite decide_True; [done|]. split; [done|].
      apply not_elem_of_nil.
  - rewrite decide_False by naive_solver.
    destruct (m !! EncodeToString (jd_FirstPrevHash d)) as [saved|]; [case_match; [done|]|];
      by rewrite lookup_insert_ne by (by intros ?%(inj _)).
Qed.

Lemma next_of_spec ds h :
  NoDup (np_JetDropId <$> next_of ds h) ∧
  (∀ x, x ∈ next_of ds h → ∃ d, d ∈ ds ∧ jd_FirstPrevHash d = h ∧ x = transformPrevNextResp d) ∧
  (∀ d, d ∈ ds → jd_FirstPrevHash d = h →
     np_JetDropId (transformPrevNextResp d) ∈ np_JetDropId <$> next_of ds h).
Proof.
  induction ds as [|d ds (Hnd & Hin & Hall)] using rev_ind.
  { split_and!; [constructor|by intros ? ?%not_elem_of_nil..]. }
  rewrite next_of_snoc. case_decide as Hd; split_and!.
  - rewrite fmap_app. apply NoDup_app. split_and!; [done| |apply NoDup_singleton].
    intros x Hx Hx'%list_elem_of_singleton. subst. by apply Hd.
  - intros x [Hx|Hx%list_elem_of_singleton]%elem_of_app.
    + destruct (Hin x Hx) as (e & ? & ? & ?). exists e. set_solver.
    + exists d. split; [set_solver|]. naive_solver.
  - intros e [He|He%list_elem_of_singleton]%elem_of_app Hh; rewrite fmap_app, elem_of_app.
    + left. by apply Hall.
    + right. subst. by left.
  - done.
  - intros x Hx. destruct (Hin x Hx) as (e & ? & ? & ?). exists e. set_solver.
  - intros e [He|He%list_elem_of_singleton]%elem_of_app Hh; [by apply Hall|]. subst e.
    apply dec_stable. intros Hn. by apply Hd.
Qed.

(** C19: The answer links a jet drop to exactly the jet drops among those looked at
    whose hash is its first or second previous hash, and, as the next ones, to
    exactly those whose first previous hash is its hash, each once.  (The second
    previous hash of a later jet drop gives no link forward, although it gives
    one back.)  Jet drops with one hash are taken to be one jet drop. *)
Theorem linked_drop_spec all d :
  (∀ e, e ∈ all → valid_drop e) →
  (∀ a b, a ∈ all → b ∈ all → jd_Hash a = jd_Hash b →
     transformPrevNextResp a = transformPrevNextResp b) →
  (∀ x, x ∈ aj_PrevJetDropId (linked_drop all d) ↔
     ∃ e, e ∈ all ∧ (jd_Hash e = jd_FirstPrevHash d ∨ jd_Hash e = jd_SecondPrevHash d) ∧
          x = transformPrevNextResp e) ∧
  (∀ x, x ∈ aj_NextJetDropId (linked_drop all d) ↔
     ∃ e, e ∈ all ∧ jd_FirstPrevHash e = jd_Hash d ∧ x = transformPrevNextResp e) ∧
  NoDup (np_JetDropId <$> aj_NextJetDropId (linked_drop all d)).
Proof.
  intros Hvalid Hhash. unfold linked_drop. cbn.
  destruct (next_of_spec all (jd_Hash d)) as (Hnd & Hin & Hall). split_and!; [|intros x; split|done].
  - assert (∀ h x, x ∈ option_list (by_hash all !! EncodeToString h) ↔
      ∃ e, e ∈ all ∧ jd_Hash e = h ∧ x = transformPrevNextResp e) as Hone.
    { intros h x. rewrite elem_of_option_list. split; [apply by_hash_Some|].
      intros (e & He & <- & ->). destruct (by_hash_is_Some all e He) as [y Hy].
      rewrite Hy. f_equal. destruct (by_hash_Some _ _ _ Hy) as (e' & ? & ? & ->). by apply Hhash. }
    intros x. unfold prev_links. rewrite elem_of_app, !Hone. clear. naive_solver.
  - apply Hin.
  - intros (e & He & Hh & ->). specialize (Hall e He Hh).
    apply list_elem_of_fmap in Hall as (y & Hid & Hy).
    destruct (Hin y Hy) as (e' & He' & _ & ->).
    rewrite (transformPrevNextResp_id e e'); [done|by apply Hvalid..|done].
Qed.

(** ** Search *)

Lemma digit_not_colon a n : digit_val a = Some n → not_sep ":" a = true.
Proof.
  intros Ha. unfold not_sep. apply bool_decide_eq_true. intros ->. by vm_compute in Ha.
Qed.

Lemma parse_digits_not_colon acc s n :
  parse_digits acc s = Some n → all_chars (not_sep ":") s = true.
Proof.
  revert acc. induction s as [|a s IH]; intros acc; cbn; [done|].
  destruct (digit_val a) as [d|] eqn:Hd; cbn; [|done]. intros Hs.
  by rewrite (digit_not_colon _ _ Hd), (IH _ Hs).
Qed.

Lemma split_sign_not_colon s :
  all_chars (not_sep ":") (split_sign s).2 = true → all_chars (not_sep ":") s = true.
Proof. destruct s as [|[[] [] [] [] [] [] [] []] s]; cbn; done. Qed.

(** What [ParseInt] accepts holds no colon. *)
Lemma ParseInt_not_colon s n : ParseInt s = Some n → all_chars (not_sep ":") s = true.
Proof.
  unfold ParseInt. intros Hs. apply split_sign_not_colon.
  destruct (split_sign s) as [neg body]. cbn. unfold parse_uint in Hs.
  destruct body as [|a body]; [done|].
  destruct (parse_digits 0 (String a body)) as [m|] eqn:Hb; [|done].
  by eapply parse_digits_not_colon.
Qed.

Lemma ParseInt_ToString j : ParseInt (ToString j) = None.
Proof.
  destruct (ParseInt (ToString j)) as [n|] eqn:Hp; [|done].
  apply ParseInt_not_colon in Hp. unfold ToString in Hp.
  rewrite !all_chars_app in Hp. cbn in Hp. by rewrite andb_false_r in Hp.
Qed.

Section search.
Context `{Platform, ApiSpec, StorageAPIFetcher DB}.

(** The search recognises what the API prints: a pulse number, and a jet drop
    identifier, for which it answers with the identifier it was given; a pulse
    number outside of the valid range is refused. *)
Theorem Search_recognises db :
  (∀ n, in_int64 n →
     Search_handler (FormatInt n) db
     = Some (if IsValidAsPulseNumber n then JSON StatusOK (SearchPulse n)
             else search_failure "not valid pulse number")) ∧
  (∀ j, valid_JetDropID j →
     Search_handler (ToString j) db = Some (JSON StatusOK (SearchJetDrop (ToString j)))).
Proof.
  unfold Search_handler. split.
  - intros n Hn. rewrite ParseInt_FormatInt by done. unfold searchResponsePulse.
    by destruct (IsValidAsPulseNumber n).
  - intros j Hj. by rewrite ParseInt_ToString, (parse_ToString _ Hj).
Qed.
End search.

(** ** A lifeline, from the request to the tables *)

Section lifeline.
Context `{Platform, ApiSpec, GormLaws DB}.

(** C18: Over the storage layer a valid request for a lifeline is answered either
    with an internal error, or with the page of the states of the object that
    the tables hold within the bounds of the request, in the requested
    direction, of at most [limit], hence at most 1000, records, together with
    the size of the whole selection. *)
Theorem ObjectLifeline_end_to_end objectReference p (db : DB) :
  ObjectLifeline_valid objectReference p →
  ObjectLifeline_handler objectReference p db = internal_error ∨
  ∃ ref rs total,
    checkReference objectReference = Ok ref ∧
    ObjectLifeline_handler objectReference p db
      = JSON StatusOK (RecordsResponse total (RecordToAPI <$> rs)) ∧
    is_page (reading_order (bool_decide (ol_SortBy p = Some SortByIndex_index_asc)))
      (in_lifeline (ID_Bytes (Ref_GetLocal ref)) (ol_FromIndex p) (ol_PulseNumberLt p)
         (ol_PulseNumberGt p) (ol_TimestampLte p) (ol_TimestampGte p)
         (bool_decide (ol_SortBy p = Some SortByIndex_index_asc)))
      (Some (default 20 (ol_Limit p))) (Some (default 0 (ol_Offset p))) (tables db) rs total ∧
    Z.of_nat (length rs) ≤ default 20 (ol_Limit p) ≤ 1000.
Proof.
  intros Hv. destruct (ObjectLifeline_unfold objectReference p) as (fs & Hiff & Heq).
  rewrite Heq, (proj2 Hiff Hv). destruct Hv as ([Hlim _] & Hok & _).
  destruct (checkReference objectReference) as [ref|e]; [|done].
  unfold ObjectLifeline_go.
  destruct (api_GetLifeline _ _ _ _ _ _ _ _ _ db) as [[rs total]|e] eqn:Hg; [|by left].
  right. exists ref, rs, total. apply GetLifeline_page in Hg. split_and!; [done|done|exact Hg| |lia].
  destruct Hg as (sorted & _ & _ & -> & _). apply page_length. lia.
Qed.
End lifeline.

(** ** The theorems at work on concrete requests *)

#[local] Instance ref_spec : ApiSpec := {|
  SortByIndex_index_asc := "index_asc";
  SortByIndex_index_desc := "index_desc";
  SortByPulse_pulse_number_asc_jet_id_desc := "pulse_number_asc,jet_id_desc";
  SortByPulse_pulse_number_desc_jet_id_asc := "pulse_number_desc,jet_id_asc";
  SortByPulseNumber_pulse_number_asc := "pulse_number_asc";
  SortByPulseNumber_pulse_number_desc := "pulse_number_desc";
  EscapeError s := "invalid URL escape";
|}.

Definition ex_drop (pn : Z) (jet : string) (first second hash : bytes) : JetDrop :=
  mkJetDrop pn jet first second hash [] 0 0.
(** Jet 0 and jet 1 are merged: the merged drop has two previous hashes. *)
Definition ex_merge : list JetDrop :=
  [ex_drop 10 "0" [] [] [Byte.x01]; ex_drop 10 "1" [] [] [Byte.x02];
   ex_drop 20 "" [Byte.x01] [Byte.x02] [Byte.x03]].

Lemma linked_drop_spec_witness :
  (∃ e, e ∈ ex_merge ∧ jd_FirstPrevHash e = [Byte.x01] ∧
        mkNextPrevJetDrop "*" "*:20" 20 = transformPrevNextResp e) ∧
  aj_NextJetDropId (linked_drop ex_merge (ex_drop 10 "1" [] [] [Byte.x02])) = [].
Proof.
  split; [|vm_compute; reflexivity].
  apply (linked_drop_spec ex_merge (ex_drop 10 "0" [] [] [Byte.x01])).
  - intros e He. unfold ex_merge in He.
    repeat (apply elem_of_cons in He as [->|He];
      [split; [split; [reflexivity|apply (bool_decide_unpack _); vm_compute; exact I]
              |apply (bool_decide_unpack _); vm_compute; exact I]|]).
    by apply not_elem_of_nil in He.
  - intros a b Ha Hb Hab. unfold ex_merge in Ha, Hb.
    repeat (apply elem_of_cons in Ha as [->|Ha];
      [repeat (apply elem_of_cons in Hb as [->|Hb]; [(reflexivity || discriminate Hab)|]);
       by apply not_elem_of_nil in Hb|]).
    by apply not_elem_of_nil in Ha.
  - vm_compute. left.
Defined.

Lemma Search_recognises_witness :
  Search_handler "66666" (up ex_tables) = Some (JSON StatusOK (SearchPulse 66666)) ∧
  Search_handler "010:20" (up ex_tables) = Some (JSON StatusOK (SearchJetDrop "010:20")).
Proof.
  split.
  - exact (proj1 (Search_recognises (up ex_tables)) 66666
      ltac:(apply (bool_decide_unpack _); vm_compute; exact I)).
  - apply (proj2 (Search_recognises (up ex_tables)) (mkJetDropID "010" 20)).
    split; [split; [reflexivity|apply (bool_decide_unpack _); vm_compute; exact I]
           |apply (bool_decide_unpack _); vm_compute; exact I].
Defined.

Definition ex_lifeline : ObjectLifelineParams :=
  mkObjectLifelineParams (Some 1) None (Some "index_asc") (Some "20:0") None None None None.

(** The object reference "B" is the byte 0x42. *)
Lemma ObjectLifeline_end_to_end_witness :
  ObjectLifeline_handler "B" ex_lifeline (up ex_tables)
    = JSON StatusOK (RecordsResponse 2 [RecordToAPI (ex_rec Byte.x03 "state" "010" 20 0)]) ∧
  ∃ ref, checkReference "B" = Ok ref.
Proof.
  split; [vm_compute; reflexivity|].
  destruct (ObjectLifeline_end_to_end "B" ex_lifeline (up ex_tables)) as [Herr|(ref & _ & _ & Href & _)].
  - split; [split; cbn; lia|]. split; [vm_compute; reflexivity|].
    split; [intros t [= <-]; right; left|]. split; [intros t [= <-]; vm_compute; reflexivity|].
    split; intros n Hn; discriminate Hn.
  - vm_compute in Herr. discriminate Herr.
  - exists ref. exact Href.
Defined.
