(* ===== verification/Load.v ===== *)
(** * The load tests: [src/load]

    Attackers that call the HTTP API with the rows of CSV files, and the step
    before them that fills the files from the API itself.  [loadgen] runs the
    attackers; the generated API client and the HTTP client are third-party code:
    a request is answered with a response of [Api.v] or an error of the transport,
    and [client_error] is what the generated client makes of a response. *)

From S2P Require Import Prelude GoStd Platform RefPlatform Models Converter Gorm RefDb Interfaces Storage WellFormed Random Migrations StorageRead StorageInstance Api ApiProofs.

(** ** Attackers: [attackers.go], [labels.go] *)

Inductive attack_kind :=
  | GetPulseAttack | GetPulsesAttack | GetJetDropByIDAttack | GetJetDropsByPulseNumberAttack
  | GetJetDropsByJetIDAttack | GetRecordsAttack | GetLifelineAttack | SearchAttack.

(** An attacker: whether its client is set, and its limit (where it has one). *)
Record Attack := mkAttack { at_kind : attack_kind; at_client : bool; at_limit : Z }.
Definition new (k : attack_kind) : Attack := mkAttack k false 0.

Inductive monitored := WithMonitor (a : Attack) | WithCSVMonitor (a : Attack).
Definition attacker (m : monitored) : Attack :=
  match m with WithMonitor a => a | WithCSVMonitor a => a end.

(** [None]: [log.Fatalf]. *)
Definition AttackerFromName (name : string) : option monitored :=
  if decide (name = "get_pulse") then Some (WithMonitor (new GetPulseAttack))
  else if decide (name = "get_pulses") then Some (WithMonitor (new GetPulsesAttack))
  else if decide (name = "get_jet_drop_by_id") then Some (WithMonitor (new GetJetDropByIDAttack))
  else if decide (name = "get_jet_drops_by_pulse_number")
  then Some (WithMonitor (new GetJetDropsByPulseNumberAttack))
  else if decide (name = "get_jet_drops_by_jet_id")
  then Some (WithCSVMonitor (new GetJetDropsByJetIDAttack))
  else if decide (name = "get_records") then Some (WithCSVMonitor (new GetRecordsAttack))
  else if decide (name = "get_lifeline") then Some (WithCSVMonitor (new GetLifelineAttack))
  else if decide (name = "search") then Some (WithCSVMonitor (new SearchAttack))
  else None.

(** The constants of [labels.go], as the attackers use them. *)
Definition Label (k : attack_kind) : string :=
  match k with
  | GetPulseAttack => "get_pulse"
  | GetPulsesAttack => "get_pulses"
  | GetJetDropByIDAttack => "get_jet_drop_by_id"
  | GetJetDropsByJetIDAttack => "get_jet_drops_by_jet_id"
  | GetRecordsAttack => "get_records"
  | GetLifelineAttack => "get_lifeline"
  | SearchAttack => "search"
  | GetJetDropsByPulseNumberAttack => "get_jet_drops_by_pulse_number"
  end.

(** [limit] of the metadata; [None]: [Fatal]. *)
Definition DefaultLimit (limit : option string) : option Z :=
  match limit with
  | None => Some 100
  | Some pulsesLimit => int32 <$> ParseInt pulsesLimit
  end.

(** The methods [Setup] of the attackers: the client is made, and the limit read
    where the attacker has one. *)
Definition with_client (a : Attack) : Attack := mkAttack (at_kind a) true (at_limit a).
Definition with_limit (limit : option string) (a : Attack) : option Attack :=
  let a := with_client a in
  l ← DefaultLimit limit;
  Some (mkAttack (at_kind a) (at_client a) l).

Definition GetPulseAttack_Setup (limit : option string) (a : Attack) : option Attack := Some (with_client a).
Definition GetPulsesAttack_Setup (limit : option string) (a : Attack) : option Attack := with_limit limit a.
Definition GetJetDropByIDAttack_Setup (limit : option string) (a : Attack) : option Attack := Some (with_client a).
Definition GetJetDropsByPulseNumberAttack_Setup (limit : option string) (a : Attack) : option Attack := with_limit limit a.
Definition GetJetDropsByJetIDAttack_Setup (limit : option string) (a : Attack) : option Attack := Some (with_client a).
Definition GetRecordsAttack_Setup (limit : option string) (a : Attack) : option Attack := Some (with_client a).
Definition GetLifelineAttack_Setup (limit : option string) (a : Attack) : option Attack := Some (with_client a).
Definition SearchAttack_Setup (limit : option string) (a : Attack) : option Attack := with_limit limit a.

Definition Setup (limit : option string) (a : Attack) : option Attack :=
  match at_kind a with
  | GetPulseAttack => GetPulseAttack_Setup limit a
  | GetPulsesAttack => GetPulsesAttack_Setup limit a
  | GetJetDropByIDAttack => GetJetDropByIDAttack_Setup limit a
  | GetJetDropsByPulseNumberAttack => GetJetDropsByPulseNumberAttack_Setup limit a
  | GetJetDropsByJetIDAttack => GetJetDropsByJetIDAttack_Setup limit a
  | GetRecordsAttack => GetRecordsAttack_Setup limit a
  | GetLifelineAttack => GetLifelineAttack_Setup limit a
  | SearchAttack => SearchAttack_Setup limit a
  end.

(** The methods [Clone]: a new attacker of the same kind; neither client nor limit
    are copied. *)
Definition GetPulseAttack_Clone : Attack := new GetPulseAttack.
Definition GetPulsesAttack_Clone : Attack := new GetPulsesAttack.
Definition GetJetDropByIDAttack_Clone : Attack := new GetJetDropByIDAttack.
Definition GetJetDropsByPulseNumberAttack_Clone : Attack := new GetJetDropsByPulseNumberAttack.
Definition GetJetDropsByJetIDAttack_Clone : Attack := new GetJetDropsByJetIDAttack.
Definition GetRecordsAttack_Clone : Attack := new GetRecordsAttack.
Definition GetLifelineAttack_Clone : Attack := new GetLifelineAttack.
Definition SearchAttack_Clone : Attack := new SearchAttack.
Definition Clone (a : Attack) : Attack :=
  match at_kind a with
  | GetPulseAttack => GetPulseAttack_Clone
  | GetPulsesAttack => GetPulsesAttack_Clone
  | GetJetDropByIDAttack => GetJetDropByIDAttack_Clone
  | GetJetDropsByPulseNumberAttack => GetJetDropsByPulseNumberAttack_Clone
  | GetJetDropsByJetIDAttack => GetJetDropsByJetIDAttack_Clone
  | GetRecordsAttack => GetRecordsAttack_Clone
  | GetLifelineAttack => GetLifelineAttack_Clone
  | SearchAttack => SearchAttack_Clone
  end.

(** ** Requests *)

Inductive request :=
  | GET (url : string)
  | GetPulse (pulseNumber : Z)
  | GetPulses (limit : Z)
  | GetJetDropsByPulseNumber (pulseNumber limit : Z)
  | GetJetDropsByJetID (jetID : string)
  | GetJetDropRecords (jetDropID : string) (limit : Z)
  | GetObjectLifeline (objectReference : string)
  | GetSearch (value : string).

(** [manual_request.go]. *)
Definition GetJetDropsByID_url (target id : string) : string := target +:+ "/api/v1/jet-drops/" +:+ id.
Definition GetRecordsByID_url (target id : string) : string :=
  target +:+ "/api/v1/jet-drops/" +:+ id +:+ "/records".

(** [strconv.ParseInt] with its error dropped: a syntax error leaves 0, a range
    error the nearest 64-bit integer. *)
Definition ParseInt_value (s : string) : Z :=
  match ParseInt s with
  | Some n => n
  | None =>
      let '(neg, digits) := split_sign s in
      match parse_uint digits with
      | Some _ => if neg : bool then - 2 ^ 63 else 2 ^ 63 - 1
      | None => 0
      end
  end.

(** The request an attacker makes for the row [d] of its CSV file; [None] for a row
    that is too short. *)
Definition do_request (a : Attack) (target : string) (d : list string) : option request :=
  let drop_id :=
    jetDropID ← d !! 0%nat; pulseNumber ← d !! 1%nat;
    Some (ToString (NewJetDropID jetDropID (ParseInt_value pulseNumber))) in
  match at_kind a with
  | GetPulsesAttack => Some (GetPulses (at_limit a))
  | GetPulseAttack => pulse ← d !! 0%nat; Some (GetPulse (ParseInt_value pulse))
  | GetJetDropByIDAttack => id ← drop_id; Some (GET (GetJetDropsByID_url target id))
  | GetRecordsAttack => id ← drop_id; Some (GET (GetRecordsByID_url target id))
  | GetJetDropsByPulseNumberAttack =>
      pulse ← d !! 0%nat; Some (GetJetDropsByPulseNumber (ParseInt_value pulse) (at_limit a))
  | GetJetDropsByJetIDAttack => jetID ← d !! 0%nat; Some (GetJetDropsByJetID jetID)
  | GetLifelineAttack => objectRef ← d !! 0%nat; Some (GetObjectLifeline objectRef)
  | SearchAttack => query ← d !! 0%nat; Some (GetSearch query)
  end.

(** What the generated client makes of a response. *)
Class ApiClient := client_error : response → option error.
Class ApiClientLaws `{ApiClient} := {
  client_error_spec : ∀ r, client_error r = None ↔ rs_status r < 300;
}.

Record DoResult := mkDoResult { do_Error : option error; do_RequestLabel : string }.

Section attacks.
Context `{ApiClient}.
(** What answers a request; an error of the transport includes one while the body
    is read. *)
Context (network : request → result response).

Definition client_call (r : request) : result response :=
  response ← network r;
  match client_error response with Some err => Err err | None => Ok response end.

(** The methods [Do]; [None] is a panic: a row that is too short, or a client that
    is not set. *)
Definition do_result (label : string) (err : option error) : DoResult := mkDoResult err label.
Definition error_of {A} (answer : result A) : option error :=
  match answer with Err err => Some err | Ok _ => None end.
Definition must_client (a : Attack) : option () := if at_client a then Some () else None.

Definition GetPulseAttack_Do (a : Attack) (d : list string) : option DoResult :=
  pulse ← d !! 0%nat;
  let pulseNum := ParseInt_value pulse in
  _ ← must_client a;
  Some (do_result (Label GetPulseAttack) (error_of (client_call (GetPulse pulseNum)))).

Definition GetPulsesAttack_Do (a : Attack) : option DoResult :=
  _ ← must_client a;
  Some (do_result (Label GetPulsesAttack) (error_of (client_call (GetPulses (at_limit a))))).

Definition GetJetDropsByPulseNumberAttack_Do (a : Attack) (d : list string) : option DoResult :=
  pulse ← d !! 0%nat;
  let pulseNum := ParseInt_value pulse in
  _ ← must_client a;
  Some (do_result (Label GetJetDropsByPulseNumberAttack) (error_of (client_call (GetJetDropsByPulseNumber pulseNum (at_limit a))))).

Definition GetJetDropsByJetIDAttack_Do (a : Attack) (d : list string) : option DoResult :=
  jetID ← d !! 0%nat;
  _ ← must_client a;
  Some (do_result (Label GetJetDropsByJetIDAttack) (error_of (client_call (GetJetDropsByJetID jetID)))).

Definition GetLifelineAttack_Do (a : Attack) (d : list string) : option DoResult :=
  objectRef ← d !! 0%nat;
  _ ← must_client a;
  Some (do_result (Label GetLifelineAttack) (error_of (client_call (GetObjectLifeline objectRef)))).

Definition SearchAttack_Do (a : Attack) (d : list string) : option DoResult :=
  query ← d !! 0%nat;
  _ ← must_client a;
  Some (do_result (Label SearchAttack) (error_of (client_call (GetSearch query)))).

(** [manual_request.go]: the status of the answer is not looked at. *)
Definition GetJetDropsByID (a : Attack) (target id : string) : option (option error) :=
  _ ← must_client a; Some (error_of (network (GET (GetJetDropsByID_url target id)))).
Definition GetRecordsByID (a : Attack) (target id : string) : option (option error) :=
  _ ← must_client a; Some (error_of (network (GET (GetRecordsByID_url target id)))).

Definition GetJetDropByIDAttack_Do (a : Attack) (target : string) (d : list string) : option DoResult :=
  jetDropID ← d !! 0%nat;
  pulseNumber ← d !! 1%nat;
  let pn := ParseInt_value pulseNumber in
  let id := ToString (NewJetDropID jetDropID pn) in
  err ← GetJetDropsByID a target id;
  Some (do_result (Label GetJetDropByIDAttack) err).

Definition GetRecordsAttack_Do (a : Attack) (target : string) (d : list string) : option DoResult :=
  jetDropID ← d !! 0%nat;
  pulseNumber ← d !! 1%nat;
  let pn := ParseInt_value pulseNumber in
  let id := ToString (NewJetDropID jetDropID pn) in
  err ← GetRecordsByID a target id;
  Some (do_result (Label GetRecordsAttack) err).

Definition Do (a : Attack) (target : string) (d : list string) : option DoResult :=
  match at_kind a with
  | GetPulseAttack => GetPulseAttack_Do a d
  | GetPulsesAttack => GetPulsesAttack_Do a
  | GetJetDropByIDAttack => GetJetDropByIDAttack_Do a target d
  | GetJetDropsByPulseNumberAttack => GetJetDropsByPulseNumberAttack_Do a d
  | GetJetDropsByJetIDAttack => GetJetDropsByJetIDAttack_Do a d
  | GetRecordsAttack => GetRecordsAttack_Do a target d
  | GetLifelineAttack => GetLifelineAttack_Do a d
  | SearchAttack => SearchAttack_Do a d
  end.

(** ** The step before the attacks: [cmd/load/main.go] *)

(** The three files; the rows have one or two fields. *)
Record Files := mkFiles {
  csvPulses : list (list string);
  csvJetIDS : list (list string);
  objectsIDS : list (list string);
}.

(** Writing to the files does not fail.  How it ends: with the files flushed, or by [log.Fatal], which skips the
    deferred flushes. *)
Inductive outcome :=
  | Finished (err : option error) (f : Files)
  | Exited.

(** Reading the body of a response. *)
Definition pulses_result (r : response) : list ApiPulse :=
  match rs_body r with PulsesResponse _ ps => ps | _ => [] end.
Definition jet_drops_result (r : response) : list ApiJetDrop :=
  match rs_body r with JetDropsResponse _ js => js | _ => [] end.
Definition records_result (r : response) : list ApiRecord :=
  match rs_body r with RecordsResponse _ rs => rs | _ => [] end.

Definition pulse_csv (p : ApiPulse) : list string := [FormatInt (ap_PulseNumber p)].
Definition jet_drop_csv (j : ApiJetDrop) : list string := [aj_JetId j; FormatInt (aj_PulseNumber j)].
(** A reference that is left out of the answer is the empty string. *)
Definition record_csv (r : ApiRecord) : list string := [default "" (ar_ObjectReference r)].

(** The loop over the pulses: the identifiers seen, and the rows. *)
Fixpoint jet_drops_loop (limit : Z) (pulseNumbers : list Z) (uniq : gset string)
  (rows : list (list string)) : option (gset string * list (list string)) :=
  match pulseNumbers with
  | [] => Some (uniq, rows)
  | pn :: pulseNumbers =>
      match client_call (GetJetDropsByPulseNumber pn limit) with
      | Err _ => None
      | Ok res =>
          let js := jet_drops_result res in
          jet_drops_loop limit pulseNumbers (list_to_set (aj_JetDropId <$> js) ∪ uniq)
            (rows ++ (jet_drop_csv <$> js))
      end
  end.

(** The loop over the identifiers. *)
Fixpoint objects_loop (limit : Z) (ids : list string) (rows : list (list string))
  : option (list (list string)) :=
  match ids with
  | [] => Some rows
  | id :: ids =>
      match client_call (GetJetDropRecords id limit) with
      | Err _ => None
      | Ok res => objects_loop limit ids (rows ++ (record_csv <$> records_result res))
      end
  end.

(** [beforeAll]; [values] is the order of the hash set. *)
Definition beforeAll (dbCfg : TestDB) (values : gset string → list string) : outcome :=
  let pulsesToGet := int32 (TestPulses dbCfg) in
  let jetDropsToGet := int32 (TestJetDrops dbCfg) in
  let recordsToGet := int32 (TestRecords dbCfg) in
  match client_call (GetPulses pulsesToGet) with
  | Err err => Finished (Some err) (mkFiles [] [] [])
  | Ok res =>
      match pulses_result res with
      | [] => Finished (Some (ErrMsg "empty pulses, no data")) (mkFiles [] [] [])
      | ps =>
          match jet_drops_loop jetDropsToGet (ap_PulseNumber <$> ps) ∅ [] with
          | None => Exited
          | Some (uniq, jetIDS) =>
              match objects_loop recordsToGet (values uniq) [] with
              | None => Exited
              | Some objects => Finished None (mkFiles (pulse_csv <$> ps) jetIDS objects)
              end
          end
      end
  end.
End attacks.

(** ** The API as the network *)

Section served.
Context `{Platform, ApiSpec, StorageAPIFetcher DB}.

(** The handler of a request; [route] stands for a request by its URL, and the
    search may panic. *)
Definition serve (route : string → result response) (db : DB) (r : request) : result response :=
  match r with
  | GET url => route url
  | GetPulse pn => Ok (Pulse_handler pn db)
  | GetPulses limit =>
      Ok (Pulses_handler (mkPulsesParams (Some limit) None None None None None None None None None) db)
  | GetJetDropsByPulseNumber pn limit =>
      Ok (JetDropsByPulseNumber_handler pn (mkJetDropsByPulseNumberParams (Some limit) None None) db)
  | GetJetDropsByJetID jetID =>
      Ok (JetDropsByJetID_handler jetID (mkJetDropsByJetIDParams None None None None None None) db)
  | GetJetDropRecords id limit =>
      Ok (JetDropRecords_handler id (mkJetDropRecordsParams (Some limit) None None None) db)
  | GetObjectLifeline ref =>
      Ok (ObjectLifeline_handler ref
            (mkObjectLifelineParams None None None None None None None None) db)
  | GetSearch value =>
      match Search_handler value db with
      | Some r => Ok r
      | None => Ok internal_error      (* the server recovers from the panic *)
      end
  end.
End served.

(** ** Theorems *)

Theorem AttackerFromName_spec name :
  match AttackerFromName name with
  | Some m => Label (at_kind (attacker m)) = name ∧ attacker m = new (at_kind (attacker m))
  | None => ∀ k, Label k ≠ name
  end.
Proof.
  unfold AttackerFromName. repeat (case_decide; [by subst name|]). intros []; cbn; congruence.
Qed.

Lemma ParseInt_value_FormatInt z : in_int64 z → ParseInt_value (FormatInt z) = z.
Proof. intros Hz. unfold ParseInt_value. by rewrite ParseInt_FormatInt. Qed.

Section do.
Context `{ApiClientLaws}.
Implicit Types (network : request → result response).

Definition manual (k : attack_kind) : Prop := k = GetJetDropByIDAttack ∨ k = GetRecordsAttack.

(** Every attacker makes its request once and reports its outcome. *)
Lemma Do_request network a target d r :
  at_client a = true → do_request a target d = Some r →
  Do network a target d =
    Some (mkDoResult (error_of match r with GET _ => network r | _ => client_call network r end)
            (Label (at_kind a))).
Proof.
  intros Hc. unfold do_request, Do, GetPulseAttack_Do, GetPulsesAttack_Do, GetJetDropByIDAttack_Do,
    GetJetDropsByPulseNumberAttack_Do, GetJetDropsByJetIDAttack_Do, GetRecordsAttack_Do,
    GetLifelineAttack_Do, SearchAttack_Do, GetJetDropsByID, GetRecordsByID, must_client. rewrite Hc.
  destruct (at_kind a); cbn -[ToString NewJetDropID ParseInt_value client_call];
    try (destruct (d !! 0%nat); cbn -[ToString NewJetDropID ParseInt_value client_call]; [|done]);
    try (destruct (d !! 1%nat); cbn -[ToString NewJetDropID ParseInt_value client_call]; [|done]);
    by intros [= <-].
Qed.

(** What an attack counts as an error: for the requests made by hand only a
    failure of the transport, whatever the status of the answer; for those of the
    generated client also a status of 300 and above. *)
Theorem Do_errors network a target d r :
  at_client a = true → do_request a target d = Some r →
  ∃ err, Do network a target d = Some (mkDoResult err (Label (at_kind a))) ∧
    (err = None ↔ ∃ res, network r = Ok res ∧ (manual (at_kind a) ∨ rs_status res < 300)).
Proof.
  intros Hc Hr. rewrite (Do_request _ _ _ _ _ Hc Hr).
  eexists. split; [done|].
  assert (manual (at_kind a) ↔ ∃ url, r = GET url) as Hman.
  { unfold do_request, manual in *. destruct (at_kind a); cbn in Hr;
      try (destruct (d !! 0%nat); cbn in Hr; [|discriminate Hr]);
      try (destruct (d !! 1%nat); cbn in Hr; [|discriminate Hr]); injection Hr as <-; naive_solver. }
  unfold client_call. destruct r as [url| | | | | | |]; cbn [mbind result_bind].
  { destruct (network (GET url)) as [res|]; split; try done; [|naive_solver].
    intros _. exists res. split; [done|]. left. apply Hman. by eexists. }
  all: assert (¬ manual (at_kind a)) as Hnot by (rewrite Hman; intros [? [=]]).
  all: destruct (network _) as [res|]; cbn [mbind result_bind]; [|naive_solver].
  all: destruct (client_error res) as [e|] eqn:He.
  all: split; try done.
  all: try (intros (? & [= <-] & [?|Hlt%client_error_spec]); [done|congruence]).
  all: intros _; exists res; split; [done|]; right; by apply client_error_spec.
Qed.
End do.

Section rows.
Context `{Platform, ApiSpec, StorageAPIFetcher DB, !ApiClient, !ApiClientLaws}.
Context (route : string → result response) (db : DB).

(** The two attackers on a jet drop request it by an identifier that the API reads
    as the one of the drop. *)
Lemma drop_row_hits d prev next target :
  valid_drop d →
  let id := NewJetDropID (jd_JetID d) (jd_PulseNumber d) in
  let row := jet_drop_csv (JetDropToAPI d prev next) in
  NewJetDropIDFromString (ToString id) = Ok id ∧
  do_request (new GetJetDropByIDAttack) target row = Some (GET (GetJetDropsByID_url target (ToString id))) ∧
  do_request (new GetRecordsAttack) target row = Some (GET (GetRecordsByID_url target (ToString id))).
Proof.
  intros Hv id row. split; [by apply parse_ToString|].
  assert (NewJetDropID (Models.JetIDToString id) (ParseInt_value (FormatInt (jd_PulseNumber d))) = id) as Hid.
  { rewrite ParseInt_value_FormatInt by apply Hv.
    assert (jd_PulseNumber d = jdi_PulseNumber id) as -> by done. apply NewJetDropID_JetIDToString, Hv. }
  unfold row, do_request. cbn -[NewJetDropID ToString Models.JetIDToString ParseInt_value FormatInt].
  fold id. by rewrite Hid.
Qed.

Abbreviation network := (serve route db).

Lemma client_call_Ok r res :
  client_call network r = Ok res ↔ network r = Ok res ∧ rs_status res < 300.
Proof.
  unfold client_call. destruct (network r) as [res'|]; cbn [mbind result_bind]; [|naive_solver].
  destruct (client_error res') eqn:He; split.
  - done.
  - intros [[= ->] Hlt%client_error_spec]. congruence.
  - intros [= ->]. split; [done|]. by apply client_error_spec.
  - by intros [[= ->] _].
Qed.

Lemma drops_answer pn limit res :
  client_call network (GetJetDropsByPulseNumber pn limit) = Ok res →
  1 ≤ limit ≤ 1000 ∧
  ∃ ds total, api_GetJetDropsWithParams (pulse_of_number pn) None limit 0 db = Ok (ds, total) ∧
    jet_drops_result res = (λ d, JetDropToAPI d [] []) <$> ds.
Proof.
  intros [[= <-] Hst]%client_call_Ok. revert Hst. unfold JetDropsByPulseNumber_handler.
  cbn [jn_Limit jn_Offset jn_FromJetDropId fmap option_fmap option_map].
  unfold checkLimitOffset, id. cbn [default from_option]. change (0 <? 0) with false.
  destruct (Z.leb_spec limit 0), (Z.ltb_spec 1000 limit); cbn [orb];
    destruct (negb _); cbn [app]; try (cbn; unfold StatusBadRequest; lia).
  destruct (api_GetJetDropsWithParams _ _ _ _ _) as [[ds total]|];
    [intros _|cbn; unfold StatusInternalServerError; lia]. split; [lia|]. by exists ds, total.
Qed.

(** The rows of a jet drop, and of the drops of some pulses. *)
Definition drop_row (d : JetDrop) : list string := jet_drop_csv (JetDropToAPI d [] []).

Lemma jet_drops_loop_rows limit pns uniq rows uniq' rows' :
  jet_drops_loop network limit pns uniq rows = Some (uniq', rows') →
  ∃ dss,
    Forall2 (λ pn ds, ∃ total,
      api_GetJetDropsWithParams (pulse_of_number pn) None limit 0 db = Ok (ds, total)) pns dss ∧
    rows' = rows ++ (drop_row <$> concat dss).
Proof.
  revert uniq rows. induction pns as [|pn pns IH]; intros uniq rows; cbn [jet_drops_loop].
  { intros [= _ <-]. exists []. split; [constructor|]. by rewrite app_nil_r. }
  destruct (client_call _ _) as [res|] eqn:Hres; [|done].
  apply drops_answer in Hres as (_ & ds & total & Hds & Hj). rewrite Hj.
  intros (dss & Hdss & ->)%IH. exists (ds :: dss). split; [constructor; [by exists total|done]|].
  cbn [concat]. by rewrite fmap_app, <- app_assoc, <- list_fmap_compose.
Qed.

Lemma pulses_answer limit res :
  client_call network (GetPulses limit) = Ok res →
  1 ≤ limit ≤ 1000 ∧
  (pulses_result res = [] ∨
   ∃ ps total, api_GetPulses None None None None None None None false limit 0 db = Ok (ps, total) ∧
     pulses_result res = PulseToAPI <$> ps).
Proof.
  intros [[= <-] Hst]%client_call_Ok. revert Hst.
  destruct (Pulses_refuses (mkPulsesParams (Some limit) None None None None
    None None None None None)) as [_ Hbad].
  destruct (decide (1 ≤ limit ≤ 1000)) as [Hl|Hn].
  2:{ destruct Hbad as (fs & _ & code & Hb); [by intros [[? _] _]|]. rewrite Hb.
      cbn. unfold StatusBadRequest. lia. }
  intros _. split; [done|]. unfold Pulses_handler, checkLimitOffset. cbn -[api_GetPulses].
  destruct (Z.leb_spec limit 0), (Z.ltb_spec 1000 limit); try lia. cbn -[api_GetPulses].
  destruct (api_GetPulses _ _ _ _ _ _ _ _ _ _ _) as [[ps total]|]; [right|by left].
  by exists ps, total.
Qed.
End rows.

(** *** Over the storage *)

Section stored_rows.
Context `{Platform, ApiSpec, GormLaws DB, !ApiClient, !ApiClientLaws}.
Context (route : string → result response) (db : DB).
Abbreviation network := (serve route db).

(** C37: When the files are written, the limits of the configuration were within
    what the API accepts, and the files hold the following.  The pulses are those
    the storage lists.  The rows for the attackers on jet drops are, pulse after
    pulse, the jets and numbers of the stored jet drops of that pulse, by jet, up
    to the limit; none is missing but for the limit, and none is there twice.  The
    attackers request such a drop by an identifier that the API reads as its own
    (if its jet and pulse number can be printed at all). *)
Theorem beforeAll_rows dbCfg values f target :
  beforeAll network dbCfg values = Finished None f →
  (1 ≤ int32 (TestPulses dbCfg) ≤ 1000 ∧ 1 ≤ int32 (TestJetDrops dbCfg) ≤ 1000) ∧
  ∃ ps total dss,
    Storage.GetPulses None None None None None None None false (int32 (TestPulses dbCfg)) 0 db
      = Ok (ps, total) ∧
    csvPulses f = (λ p, [FormatInt (p_PulseNumber p)]) <$> ps ∧ ps ≠ [] ∧
    Forall2 (λ p ds, ∃ n, is_page by_jet (in_pulse (p_PulseNumber p) None)
      (Some (int32 (TestJetDrops dbCfg))) (Some 0) (tables db) ds n) ps dss ∧
    csvJetIDS f =
      (λ d, [Models.JetIDToString (NewJetDropID (jd_JetID d) (jd_PulseNumber d));
             FormatInt (jd_PulseNumber d)]) <$> concat dss ∧
    ∀ d, d ∈ concat dss → stored_drop (tables db) d ∧
      (valid_drop d →
         let id := NewJetDropID (jd_JetID d) (jd_PulseNumber d) in
         NewJetDropIDFromString (ToString id) = Ok id ∧
         do_request (new GetJetDropByIDAttack) target
             [Models.JetIDToString id; FormatInt (jd_PulseNumber d)]
           = Some (GET (GetJetDropsByID_url target (ToString id)))).
Proof.
  unfold beforeAll. destruct (client_call _ (Load.GetPulses _)) as [res|] eqn:Hres; [|done].
  apply pulses_answer in Hres as [Hlim1 [Hps|(ps & total & Hg & Hps)]]; [by rewrite Hps|].
  rewrite Hps. destruct (PulseToAPI <$> ps) as [|a aps] eqn:Haps; [done|]. rewrite <- Haps.
  rewrite <- list_fmap_compose.
  destruct (jet_drops_loop _ _ _ _ _) as [[uniq rows]|] eqn:Hloop; [|done].
  destruct (objects_loop _ _ _ _) as [objects|]; [|done]. intros [= <-].
  cbn [csvPulses csvJetIDS]. rewrite <- list_fmap_compose.
  assert (ps ≠ []) as Hne by by intros ->.
  split; [split; [done|]|].
  { destruct ps as [|p ps]; [done|]. cbn [fmap list_fmap jet_drops_loop] in Hloop.
    destruct (client_call _ (GetJetDropsByPulseNumber _ _)) as [res'|] eqn:Hres'; [|done].
    by apply drops_answer in Hres' as [? _]. }
  apply jet_drops_loop_rows in Hloop as (dss & Hdss & ->).
  assert (Forall2 (λ p ds, ∃ n, is_page by_jet (in_pulse (p_PulseNumber p) None)
      (Some (int32 (TestJetDrops dbCfg))) (Some 0) (tables db) ds n) ps dss) as Hpages.
  { apply Forall2_fmap_l in Hdss. eapply Forall2_impl; [exact Hdss|].
    intros p ds [n Hn]. exists n.
    exact (GetJetDropsWithParams_spec (pulse_of_number (p_PulseNumber p)) None _ 0 ds n db Hn). }
  exists ps, total, dss. split_and!; [exact Hg|done|done|done|done|].
  intros d Hd. split; [|intros Hv; destruct (drop_row_hits d [] [] target Hv) as (? & ? & _); by split].
  apply list_elem_of_In, in_concat in Hd as (ds & Hds & Hd).
  apply list_elem_of_In in Hd, Hds. apply list_elem_of_lookup in Hds as [k Hk].
  destruct (Forall2_lookup_r _ _ _ _ _ Hpages Hk) as (p & Hp & n & Hpage).
  apply elem_of_drop_rows. exact (proj1 (is_page_elem _ _ _ _ _ _ _ d Hpage Hd)).
Qed.
End stored_rows.

(** ** The theorems at work *)

#[local] Instance ref_client : ApiClient :=
  λ r, if decide (rs_status r < 300) then None else Some (ErrMsg (FormatInt (rs_status r))).
#[local] Instance ref_client_laws : ApiClientLaws.
Proof. constructor. intros r. unfold client_error, ref_client. case_decide; split; done || lia. Qed.

(** A jet drop that does not exist: the attack made by hand does not notice. *)
Lemma Do_errors_witness :
  let network r := Ok (JSON StatusNotFound Empty) : result response in
  let a := mkAttack GetJetDropByIDAttack true 0 in
  Do network a "http://localhost" ["01"; "65537"] = Some (mkDoResult None "get_jet_drop_by_id").
Proof.
  intros network a.
  destruct (Do_errors network a "http://localhost" ["01"; "65537"]
    (GET "http://localhost/api/v1/jet-drops/01:65537")) as (err & Hdo & Herr).
  - reflexivity.
  - vm_compute. reflexivity.
  - rewrite Hdo. do 2 f_equal. apply Herr. eexists. split; [reflexivity|]. left. left. reflexivity.
Defined.

#[local] Instance load_spec : ApiSpec := {|
  SortByIndex_index_asc := "index_asc";
  SortByIndex_index_desc := "index_desc";
  SortByPulse_pulse_number_asc_jet_id_desc := "pulse_number_asc,jet_id_desc";
  SortByPulse_pulse_number_desc_jet_id_asc := "pulse_number_desc,jet_id_asc";
  SortByPulseNumber_pulse_number_asc := "pulse_number_asc";
  SortByPulseNumber_pulse_number_desc := "pulse_number_desc";
  EscapeError s := "invalid URL escape";
|}.

Definition load_drop : JetDrop := mkJetDrop 65537 "01" [] [] [Byte.x03] [] 0 1.
Definition load_tables : Tables :=
  mkTables {[65537 := mkPulse 65537 (-1) (-1) true true 0 1 1]} {[jd_key load_drop := load_drop]} ∅.
Definition load_network : request → result response := serve (λ _, Err (ErrMsg "no route")) (up load_tables).
Definition load_cfg : TestDB := mkTestDB 100 1000 1000.
Definition load_files : Files :=
  match beforeAll load_network load_cfg elements with Finished _ f => f | Exited => mkFiles [] [] [] end.

Lemma load_files_rows : csvPulses load_files = [["65537"]] ∧ csvJetIDS load_files = [["01"; "65537"]].
Proof. split; vm_compute; reflexivity. Defined.

Lemma beforeAll_rows_witness :
  csvJetIDS load_files = [["01"; "65537"]] ∧ stored_drop load_tables load_drop.
Proof.
  destruct (beforeAll_rows (λ _, Err (ErrMsg "no route")) (up load_tables) load_cfg elements load_files "t")
    as (_ & ps & total & dss & _ & _ & _ & _ & Hrows & Hall); [vm_compute; reflexivity|].
  destruct load_files_rows as [_ Hjets]. split; [exact Hjets|]. rewrite Hjets in Hrows.
  destruct (concat dss) as [|d [|d' ds]] eqn:Hds; [discriminate Hrows| |discriminate Hrows].
  destruct (Hall d) as [Hd _]; [left|].
  assert (d = load_drop) as <-; [|exact Hd].
  destruct Hd as [k Hd]. cbn in Hd. by apply lookup_singleton_Some in Hd as [_ Hd].
Defined.
