(* ===== verification/Lifecycle.v ===== *)
(** * Starting and stopping: [src/cmd], [src/etl/dbconn/plugins], [src/etl/connection]

    A command starts its components one after the other, defers their stops, and
    waits for a signal or for a request on the unbuffered [stopChannel].  Requests
    come from the database plugin, which runs inside every failing statement, from
    the watcher of the gRPC connection and from the extractor.  A start that fails
    may end the process by [logger.Fatal], which skips the deferred stops. *)

From S2P Require Import Prelude GoStd Platform RefPlatform Types Models Extractor Processor.

(** ** The database plugin: [plugins/shutdown.go] *)

(** An error in [db.GetErrors()]: [driver.ErrBadConn] itself or another one. *)
Inductive DbError :=
  | ErrBadConn
  | OtherDbError (err : error).

Definition DbError_Error (err : DbError) : string :=
  match err with ErrBadConn => "driver: bad connection" | OtherDbError err => Error err end.

Definition HasSuffix (s suffix : string) : bool :=
  bool_decide (String.length suffix ≤ String.length s)%nat &&
  String.eqb (String.substring (String.length s - String.length suffix) (String.length suffix) s) suffix.

(** [badConnectRegexp.MatchString]: [(connection refused|invalid connection)$]. *)
Definition badConnectRegexp_MatchString (s : string) : bool :=
  HasSuffix s "connection refused" || HasSuffix s "invalid connection".

Fixpoint defaultConnectionChecker (errors : list DbError) : bool :=
  match errors with
  | [] => false
  | err :: errors =>
      if match err with ErrBadConn => true | _ => false end
         || badConnectRegexp_MatchString (DbError_Error err)
      then true
      else defaultConnectionChecker errors
  end.

(** A statement of gorm: the errors it ended with, and whether a ping would find
    the database. *)
Record Statement := mkStatement { sm_errors : list DbError; sm_ping : bool }.

(** [shutdownCallback]: whether it sends on [stopChannel]. *)
Definition shutdownCallback (badConnChecker : list DbError → bool) (scope : Statement) : bool :=
  if decide (sm_errors scope ≠ []) then
    if badConnChecker (sm_errors scope) then negb (sm_ping scope) else false
  else false.

(** [Apply] registers the callback for the five kinds of statements. *)
Inductive StatementKind := Create | Update | Delete | Query | RowQuery.
#[export] Instance StatementKind_eq_dec : EqDecision StatementKind.
Proof. solve_decision. Defined.
Definition Apply (callbacks : list StatementKind) : list StatementKind :=
  callbacks ++ [Create; Update; Delete; Query; RowQuery].

(** ** The watcher of the connection: [grpc_client.go] *)

(** What a turn of the loop finds: whether the connection is in a transient
    failure, and whether its state changes in time. *)
Record ConnTurn := mkConnTurn { ct_TransientFailure : bool; ct_WaitForStateChange : bool }.

Inductive watcher_action :=
  | WithTimeout (d : Z)        (* context.WithTimeout *)
  | SendStop                   (* stopChannel <- struct{}{} *)
  | CancelAll (n : nat)        (* the deferred cancels run *)
  | WatcherSleep (d : Z).      (* time.Sleep *)

(** The goroutine of [NotifyShutdown]; [n] cancels are deferred.  It goes on for
    ever unless it returns. *)
Fixpoint NotifyShutdown (waitForStateChange : Z) (n : nat) (turns : list ConnTurn)
  : list watcher_action :=
  match turns with
  | [] => []
  | t :: turns =>
      if ct_TransientFailure t then
        WithTimeout waitForStateChange ::
        if negb (ct_WaitForStateChange t) then [SendStop; CancelAll (S n)]
        else WatcherSleep (10 * 1000000000) :: NotifyShutdown waitForStateChange (S n) turns
      else WatcherSleep (10 * 1000000000) :: NotifyShutdown waitForStateChange n turns
  end.

(** ** The commands *)

Inductive component :=
  | Profefe | PprofRouter | GRPCClient | PlatformExtractor_ | MainNetTransformer_ | Database
  | Controller_ | Processor_ | MetricsServer | ExporterServer | ApiServer.
#[export] Instance component_eq_dec : EqDecision component.
Proof. solve_decision. Defined.

(** What [main] does with the error of a start or of a deferred stop. *)
Inductive on_error := Ignore | LogError | Fatal.
#[export] Instance on_error_eq_dec : EqDecision on_error.
Proof. solve_decision. Defined.

Record stage := mkStage {
  sg_component : component;
  sg_start : on_error;
  sg_stop : option on_error;     (* None: nothing is deferred *)
}.

(** The stages of [cmd/block-explorer/main.go]. *)
Definition block_explorer : list stage := [
  mkStage Profefe Fatal (Some LogError);
  mkStage PprofRouter Ignore (Some Fatal);
  mkStage GRPCClient Fatal (Some Ignore);
  mkStage PlatformExtractor_ Fatal (Some Fatal);
  mkStage MainNetTransformer_ Fatal (Some Fatal);
  mkStage Database Fatal (Some LogError);
  mkStage Controller_ Fatal (Some Fatal);
  mkStage Processor_ Fatal (Some Fatal);
  mkStage MetricsServer Ignore None].

(** The stages of [cmd/exporter-api/main.go]. *)
Definition exporter_api : list stage := [
  mkStage Profefe Fatal (Some LogError);
  mkStage Database Fatal None;
  mkStage MetricsServer Ignore None;
  mkStage ExporterServer Fatal (Some LogError)].

(** The stages of [cmd/api/main.go]; [e.StartServer] returns only when the server
    has ended, and always with an error. *)
Definition api_server : list stage := [
  mkStage Profefe Fatal (Some LogError);
  mkStage PprofRouter Fatal None;
  mkStage Database Fatal None;
  mkStage MetricsServer Ignore None;
  mkStage ApiServer Fatal None].

(** What a component is built from and uses. *)
Definition needs (c : component) : list component :=
  match c with
  | PlatformExtractor_ => [GRPCClient]
  | MainNetTransformer_ => [PlatformExtractor_]
  | Controller_ => [PlatformExtractor_; Database]
  | Processor_ => [MainNetTransformer_; Database; Controller_]
  | MetricsServer => [Database]
  | ExporterServer => [Database]
  | ApiServer => [Database]
  | _ => []
  end.

(** What happens outside: the statements [main] itself makes while it starts a
    component and whether the start fails; whether a stop fails; whether a signal
    or a request arrives at last. *)
Record Env := mkEnv {
  ev_statements : component → list Statement;
  ev_start_fails : component → bool;
  ev_stop_fails : component → bool;
  ev_asked_to_stop : bool;
}.

Inductive event := EStart (c : component) | EStop (c : component).
#[export] Instance event_eq_dec : EqDecision event.
Proof. solve_decision. Defined.

Inductive ending :=
  | Returned                  (* main returned *)
  | Exited (c : component)    (* logger.Fatal *)
  | Hung (c : component)      (* main sends on stopChannel, which only main receives from *)
  | Serving.                  (* in graceful *)

(** The deferred stops, the latest first. *)
Fixpoint run_deferred (env : Env) (deferred : list stage) : list event * ending :=
  match deferred with
  | [] => ([], Returned)
  | sg :: deferred =>
      match sg_stop sg with
      | None => run_deferred env deferred
      | Some policy =>
          if ev_stop_fails env (sg_component sg) && bool_decide (policy = Fatal)
          then ([EStop (sg_component sg)], Exited (sg_component sg))
          else let '(tr, e) := run_deferred env deferred in (EStop (sg_component sg) :: tr, e)
      end
  end.

(** [main]: the statements of a component go through the plugin once the database
    is there; [graceful] is reached when every stage has run. *)
Fixpoint run_main (env : Env) (plugin : bool) (stages deferred : list stage) : list event * ending :=
  match stages with
  | [] => if ev_asked_to_stop env then run_deferred env deferred else ([], Serving)
  | sg :: stages =>
      let c := sg_component sg in
      let '(tr, e) :=
        if plugin && existsb (shutdownCallback defaultConnectionChecker) (ev_statements env c)
        then ([], Hung c)
        else if ev_start_fails env c && bool_decide (sg_start sg = Fatal)
        then ([], Exited c)
        else run_main env (plugin || bool_decide (c = Database)) stages (sg :: deferred) in
      (EStart c :: tr, e)
  end.

Definition main_block_explorer (env : Env) : list event * ending :=
  run_main env false block_explorer [].

(** The other commands do not apply the plugin; [main] of the API waits for no
    signal. *)
Definition without_plugin (asked_to_stop : bool) (env : Env) : Env :=
  mkEnv (λ _, []) (ev_start_fails env) (ev_stop_fails env) asked_to_stop.
Definition main_exporter_api (env : Env) : list event * ending :=
  run_main (without_plugin (ev_asked_to_stop env) env) false exporter_api [].
Definition main_api (env : Env) : list event * ending :=
  run_main (without_plugin false env) false api_server [].

(** The components that run after a trace. *)
Fixpoint running (tr : list event) (s : list component) : list component :=
  match tr with
  | [] => s
  | EStart c :: tr => running tr (c :: s)
  | EStop c :: tr => running tr (filter (λ c', c' ≠ c) s)
  end.

(** ** Lemmas: the plugin *)

Lemma HasSuffix_spec s suffix : HasSuffix s suffix = true ↔ ∃ t, s = t +:+ suffix.
Proof.
  unfold HasSuffix. rewrite andb_true_iff, bool_decide_eq_true, String.eqb_eq. split.
  - intros [Hlen Hs]. exists (String.substring 0 (String.length s - String.length suffix) s).
    pose proof (substring_split (String.length s - String.length suffix) s) as Hsplit.
    replace (String.length s - (String.length s - String.length suffix))%nat
      with (String.length suffix) in Hsplit by lia.
    rewrite Hs in Hsplit. rewrite Hsplit; [done|lia].
  - intros [t ->]. rewrite str_length_app. split; [lia|].
    replace (String.length t + String.length suffix - String.length suffix)%nat
      with (String.length t) by lia. apply substring_app_r.
Qed.

(** The errors that ask for a shutdown. *)
Definition connection_lost (err : DbError) : Prop :=
  err = ErrBadConn ∨
  (∃ t, DbError_Error err = t +:+ "connection refused") ∨
  ∃ t, DbError_Error err = t +:+ "invalid connection".

Lemma defaultConnectionChecker_spec errors :
  defaultConnectionChecker errors = true ↔ Exists connection_lost errors.
Proof.
  induction errors as [|err errors IH]; cbn; [by rewrite Exists_nil|].
  rewrite Exists_cons, <- IH. unfold connection_lost. rewrite <- !HasSuffix_spec.
  unfold badConnectRegexp_MatchString.
  destruct err as [|err]; cbn; [naive_solver|].
  destruct (HasSuffix _ _), (HasSuffix _ _); cbn; naive_solver.
Qed.

(** ** Lemmas: starting and stopping *)

Definition comps (sgs : list stage) : list component := sg_component <$> sgs.

(** Every component needs only what comes after it in the list. *)
Fixpoint chained (sgs : list stage) : bool :=
  match sgs with
  | [] => true
  | sg :: sgs =>
      bool_decide ((sg_component sg ∉ comps sgs) ∧ Forall (.∈ comps sgs) (needs (sg_component sg)))
      && chained sgs
  end.

(** A trace in which a component starts when all it needs is running and stops
    when it is running itself and all it needs still is; [s] runs at first. *)
Fixpoint orderly (s : list component) (tr : list event) : Prop :=
  match tr with
  | [] => True
  | EStart c :: tr => Forall (.∈ s) (needs c) ∧ orderly (c :: s) tr
  | EStop c :: tr => c ∈ s ∧ Forall (.∈ s) (needs c) ∧ orderly (filter (.≠ c) s) tr
  end.

Lemma Forall_elem_sub (l s s' : list component) :
  Forall (.∈ s) l → s ⊆ s' → Forall (.∈ s') l.
Proof. rewrite !Forall_forall. set_solver. Qed.

Lemma run_deferred_orderly env deferred s :
  chained deferred = true → comps deferred ⊆ s → orderly s (run_deferred env deferred).1.
Proof.
  revert s. induction deferred as [|sg deferred IH]; intros s Hch Hsub; cbn; [done|].
  cbn in Hch. apply andb_true_iff in Hch as [[Hnin Hneed]%bool_decide_eq_true Hch].
  assert (comps deferred ⊆ s) as Hsub' by (intros c Hc; apply Hsub; by right).
  destruct (sg_stop sg) as [policy|]; [|by apply IH].
  assert (sg_component sg ∈ s) as Hin by (apply Hsub; left).
  destruct (_ && _); cbn; [by split_and!; [|eapply Forall_elem_sub|]|].
  destruct (run_deferred env deferred) as [tr e]. cbn.
  split_and!; [done|by eapply Forall_elem_sub|].
  apply (IH (filter _ s)); [done|].
  intros c Hc. apply list_elem_of_filter. split; [by intros ->|by apply Hsub'].
Qed.

Lemma run_main_orderly env plugin stages deferred s :
  chained (reverse stages ++ deferred) = true → comps deferred ⊆ s →
  orderly s (run_main env plugin stages deferred).1.
Proof.
  revert plugin deferred s. induction stages as [|sg stages IH]; intros plugin deferred s Hch Hsub; cbn.
  { destruct (ev_asked_to_stop env); [by apply run_deferred_orderly|done]. }
  rewrite reverse_cons, <- app_assoc in Hch. cbn in Hch.
  assert (Forall (.∈ s) (needs (sg_component sg))) as Hneed.
  { eapply Forall_elem_sub; [|exact Hsub]. clear -Hch.
    induction (reverse stages) as [|sg' l IH]; cbn in Hch; apply andb_true_iff in Hch as [Hh Ht].
    - by apply bool_decide_eq_true in Hh as [_ ?].
    - by apply IH. }
  destruct (plugin && _); [by split|]. destruct (ev_start_fails _ _ && _); [by split|].
  specialize (IH (plugin || bool_decide (sg_component sg = Database)) (sg :: deferred)
    (sg_component sg :: s) Hch).
  destruct (run_main _ _ stages _) as [tr e]. cbn. split; [exact Hneed|]. apply IH.
  intros c [->|Hc]%elem_of_cons; [left|right; by apply Hsub].
Qed.

(** A stage that starts well. *)
Definition starts_well (env : Env) (sg : stage) : Prop :=
  Forall (λ st, shutdownCallback defaultConnectionChecker st = false)
    (ev_statements env (sg_component sg)) ∧
  (ev_start_fails env (sg_component sg) = false ∨ sg_start sg ≠ Fatal).

Lemma existsb_callback l :
  existsb (shutdownCallback defaultConnectionChecker) l = false ↔
  Forall (λ st, shutdownCallback defaultConnectionChecker st = false) l.
Proof.
  induction l as [|st l IH]; cbn; [done|]. by rewrite orb_false_iff, Forall_cons, IH.
Qed.

Lemma run_main_app env plugin pre post deferred :
  Forall (starts_well env) pre →
  run_main env plugin (pre ++ post) deferred =
  let '(tr, e) := run_main env (plugin || existsb (λ c, bool_decide (c = Database)) (comps pre))
                    post (reverse pre ++ deferred) in
  ((EStart <$> comps pre) ++ tr, e).
Proof.
  revert plugin deferred. induction pre as [|sg pre IH]; intros plugin deferred Hpre; cbn -[reverse].
  { rewrite orb_false_r. by destruct (run_main _ _ _ _). }
  apply Forall_cons in Hpre as [[Hst Herr] Hpre]. apply existsb_callback in Hst.
  rewrite Hst, andb_false_r. rewrite (IH _ (sg :: deferred)) by done.
  assert (ev_start_fails env (sg_component sg) && bool_decide (sg_start sg = Fatal) = false) as ->.
  { destruct Herr as [->|Hp]; [done|]. rewrite bool_decide_eq_false_2 by done. apply andb_false_r. }
  rewrite reverse_cons, <- app_assoc, orb_assoc. cbn -[reverse].
  by destruct (run_main _ _ _ _).
Qed.

Definition stoppable (sgs : list stage) : list component :=
  comps (filter (λ sg, sg_stop sg ≠ None) sgs).

Lemma run_deferred_all env deferred :
  Forall (λ sg, ev_stop_fails env (sg_component sg) = false ∨ sg_stop sg ≠ Some Fatal) deferred →
  run_deferred env deferred = (EStop <$> stoppable deferred, Returned).
Proof.
  induction 1 as [|sg deferred Hs _ IH]; cbn [run_deferred]; [done|].
  unfold stoppable in *. rewrite filter_cons.
  destruct (sg_stop sg) as [policy|] eqn:Hp.
  - rewrite decide_True by done. rewrite IH.
    assert (ev_stop_fails env (sg_component sg) && bool_decide (policy = Fatal) = false) as ->; [|done].
    destruct Hs as [->|Hne]; [done|]. rewrite bool_decide_eq_false_2 by congruence. apply andb_false_r.
  - rewrite decide_False by tauto. exact IH.
Qed.

(** ** The commands: properties *)

(** C33: Components are built up and torn down in order.  Whatever starts or stops
    fail, whatever the database does and whether or not a stop is ever asked for,
    both commands start a component only when everything it uses is running, and
    stop it only when it runs itself and everything it uses still is. *)
Theorem teardown_order env :
  orderly [] (main_block_explorer env).1 ∧ orderly [] (main_exporter_api env).1 ∧
  orderly [] (main_api env).1.
Proof.
  split_and!; (apply run_main_orderly; [vm_compute; reflexivity|intros c Hc; by apply elem_of_nil in Hc]).
Qed.

(** How the explorer ends.  When every stage starts well, a stop is asked for and
    no deferred stop is fatal, every component is stopped, in the reverse order of
    the starts; a start that fails with [logger.Fatal] ends the process at once
    and leaves the components before it running, because the deferred stops are
    skipped. *)
Theorem main_block_explorer_spec env :
  (Forall (starts_well env) block_explorer → ev_asked_to_stop env = true →
   Forall (λ sg, ev_stop_fails env (sg_component sg) = false ∨ sg_stop sg ≠ Some Fatal) block_explorer →
   main_block_explorer env =
     ((EStart <$> comps block_explorer) ++ (EStop <$> reverse (stoppable block_explorer)), Returned)) ∧
  (∀ pre sg post, block_explorer = pre ++ sg :: post → Forall (starts_well env) pre →
   Forall (λ st, shutdownCallback defaultConnectionChecker st = false)
     (ev_statements env (sg_component sg)) →
   ev_start_fails env (sg_component sg) = true → sg_start sg = Fatal →
   main_block_explorer env = ((EStart <$> comps (pre ++ [sg])), Exited (sg_component sg))).
Proof.
  unfold main_block_explorer. split.
  - intros Hall Hasked Hstop.
    rewrite <- (app_nil_r block_explorer) at 1. rewrite run_main_app by done. cbn [run_main].
    rewrite Hasked, app_nil_r, run_deferred_all by (by apply Forall_reverse). reflexivity.
  - intros pre sg post -> Hpre Hst Hfail Hfatal. rewrite run_main_app by done. cbn [run_main].
    apply existsb_callback in Hst. rewrite Hst, andb_false_r, Hfail, Hfatal. cbn.
    unfold comps. by rewrite !fmap_app.
Qed.

(** [main] of the API never runs its deferred stop: it ends in [e.Logger.Fatal]. *)
Lemma main_api_never_stops env c : EStop c ∉ (main_api env).1.
Proof.
  assert (∀ asked stages plugin deferred, asked = false →
    EStop c ∉ (run_main (without_plugin asked env) plugin stages deferred).1) as Hgen;
    [|by apply Hgen].
  induction stages as [|sg stages IH]; intros plugin deferred ->; cbn; [apply not_elem_of_nil|].
  rewrite andb_false_r. destruct (_ && _); cbn; [by intros [?|?%elem_of_nil]%elem_of_cons|].
  specialize (IH (plugin || bool_decide (sg_component sg = Database)) (sg :: deferred) eq_refl).
  destruct (run_main _ _ _ _). cbn in *. by intros [?|?]%elem_of_cons.
Qed.

(** C32: A lost database hangs the start.  If a statement that [main] itself makes
    once the plugin is there -- [Controller.Start] and the first round of metrics
    make some -- ends because the connection is lost, the plugin sends on
    [stopChannel] from the only goroutine that will ever receive from it: [main]
    neither reports the failed start nor stops anything, whatever is asked. *)
Theorem start_up_hangs env pre sg post st err :
  block_explorer = pre ++ sg :: post → Database ∈ comps pre → Forall (starts_well env) pre →
  st ∈ ev_statements env (sg_component sg) → err ∈ sm_errors st → connection_lost err →
  sm_ping st = false →
  main_block_explorer env = (EStart <$> comps (pre ++ [sg]), Hung (sg_component sg)).
Proof.
  unfold main_block_explorer. intros -> Hdb Hpre Hst Herr Hlost Hping.
  rewrite run_main_app by done. cbn [run_main].
  assert (existsb (λ c, bool_decide (c = Database)) (comps pre) = true) as ->.
  { apply existsb_exists. exists Database. split; [by apply list_elem_of_In|]. by rewrite bool_decide_eq_true. }
  assert (existsb (shutdownCallback defaultConnectionChecker) (ev_statements env (sg_component sg))
    = true) as ->.
  { apply existsb_exists. exists st. split; [by apply list_elem_of_In|]. unfold shutdownCallback.
    rewrite decide_True by (intros Hnil; rewrite Hnil in Herr; by apply elem_of_nil in Herr).
    assert (defaultConnectionChecker (sm_errors st) = true) as ->
      by (apply defaultConnectionChecker_spec, Exists_exists; by exists err).
    by rewrite Hping. }
  cbn. unfold comps. by rewrite !fmap_app.
Qed.

(** The watcher asks for one shutdown, exactly when a failure is not repaired in
    time: it looks at no turn after that one, and until then it never asks. *)
Theorem NotifyShutdown_once wait turns :
  (Forall (λ t, ct_TransientFailure t = false ∨ ct_WaitForStateChange t = true) turns →
   SendStop ∉ NotifyShutdown wait 0 turns) ∧
  ∀ pre t post, turns = pre ++ t :: post →
    Forall (λ t, ct_TransientFailure t = false ∨ ct_WaitForStateChange t = true) pre →
    ct_TransientFailure t = true → ct_WaitForStateChange t = false →
    ∃ acts, NotifyShutdown wait 0 turns = acts ++
        [WithTimeout wait; SendStop;
         CancelAll (S (length (filter (λ t, ct_TransientFailure t = true) pre)))] ∧
      SendStop ∉ acts.
Proof.
  split.
  - generalize 0%nat. intros n Hall. revert n.
    induction Hall as [|t turns Ht _ IH]; intros n; cbn; [apply not_elem_of_nil|].
    destruct (ct_TransientFailure t); [destruct Ht as [?| ->]; [done|]|]; cbn;
      rewrite ?not_elem_of_cons; split_and!; auto.
  - intros pre t post -> Hpre Htf Hwait.
    assert (∀ n, ∃ acts, NotifyShutdown wait n (pre ++ t :: post) = acts ++
      [WithTimeout wait; SendStop;
       CancelAll (S (length (filter (λ t, ct_TransientFailure t = true) pre) + n))] ∧
      SendStop ∉ acts) as Hgen.
    { induction Hpre as [|t' pre Ht' _ IH]; intros n; cbn [NotifyShutdown app].
      - exists []. rewrite Htf, Hwait. split; [done|apply not_elem_of_nil].
      - rewrite filter_cons. destruct (ct_TransientFailure t') eqn:Htf'.
        + destruct Ht' as [?| ->]; [done|]. rewrite decide_True by done. cbn.
          destruct (IH (S n)) as (acts & -> & Hacts).
          exists (WithTimeout wait :: WatcherSleep 10000000000 :: acts).
          rewrite !not_elem_of_cons. cbn. split_and!; [|done..]. by rewrite Nat.add_succ_r.
        + rewrite decide_False by done. destruct (IH n) as (acts & -> & Hacts).
          exists (WatcherSleep 10000000000 :: acts). by rewrite not_elem_of_cons. }
    destruct (Hgen 0%nat) as (acts & Hacts & Hin). rewrite Nat.add_0_r in Hacts. by exists acts.
Qed.

(** ** The theorems at work *)

Definition quiet_env : Env := mkEnv (λ _, []) (λ _, false) (λ _, false) true.
(** The database refuses connections when the controller starts. *)
Definition refused : Statement :=
  mkStatement [OtherDbError (ErrMsg "dial tcp 127.0.0.1:5432: connect: connection refused")] false.
Definition refused_env : Env :=
  mkEnv (λ c, if decide (c = Controller_) then [refused] else []) (λ _, false) (λ _, false) true.

Lemma starts_well_all env sgs :
  (∀ c, c ∈ comps sgs → ev_statements env c = [] ∧ ev_start_fails env c = false) →
  Forall (starts_well env) sgs.
Proof.
  intros Henv. apply Forall_forall. intros sg Hsg. destruct (Henv (sg_component sg)) as [Hst Hf].
  { by apply list_elem_of_fmap_2. }
  split; [by rewrite Hst|by left].
Defined.

Lemma main_block_explorer_spec_witness :
  (main_block_explorer quiet_env).2 = Returned ∧
  last (main_block_explorer quiet_env).1 = Some (EStop Profefe).
Proof.
  destruct (main_block_explorer_spec quiet_env) as [Hall _]. rewrite Hall.
  - split; vm_compute; reflexivity.
  - apply starts_well_all. by split.
  - reflexivity.
  - apply Forall_forall. by left.
Defined.

Definition before_controller : list stage := take 6 block_explorer.

Lemma start_up_hangs_witness :
  main_block_explorer refused_env =
    (EStart <$> [Profefe; PprofRouter; GRPCClient; PlatformExtractor_; MainNetTransformer_; Database;
                 Controller_], Hung Controller_).
Proof.
  apply (start_up_hangs refused_env before_controller (mkStage Controller_ Fatal (Some Fatal))
    (drop 7 block_explorer) refused
    (OtherDbError (ErrMsg "dial tcp 127.0.0.1:5432: connect: connection refused"))).
  - reflexivity.
  - apply (bool_decide_unpack _). vm_compute. exact I.
  - apply starts_well_all. intros c Hc. cbn in Hc. cbn.
    rewrite decide_False; [by split|]. intros ->. revert Hc.
    apply (bool_decide_unpack (Controller_ ∉ _)). vm_compute. exact I.
  - left.
  - left.
  - right. left. by exists "dial tcp 127.0.0.1:5432: connect: ".
  - reflexivity.
Defined.

Lemma NotifyShutdown_once_witness :
  let recovered := mkConnTurn true true in let lost := mkConnTurn true false in
  SendStop ∈ NotifyShutdown 30 0 [recovered; mkConnTurn false false; lost; lost].
Proof.
  intros recovered lost.
  destruct (NotifyShutdown_once 30 [recovered; mkConnTurn false false; lost; lost]) as [_ Hsend].
  destruct (Hsend [recovered; mkConnTurn false false] lost [lost]) as (acts & Hacts & _).
  - reflexivity.
  - constructor; [by right|]. constructor; [by left|constructor].
  - reflexivity.
  - reflexivity.
  - rewrite Hacts. apply elem_of_app. right. right. left.
Defined.
