(* ===== verification/Shutdown.v ===== *)
(** * The graceful stop against the pool of the processor

    When the connection to the database is lost, the workers of the processor
    find out inside their statements and ask for a shutdown on [stopChannel];
    [main] receives one request and runs the deferred stops, the processor's
    first, which needs the lock the dispatcher of the pool holds while it sends.
    This file puts [main], the pool of [Processor.v] and the requests together. *)

From S2P Require Import Prelude GoStd Platform RefPlatform Types Models Gorm Interfaces MissedData Controller Processor Lifecycle.

(** [main]: in [graceful], with these stops left, or returned. *)
Inductive MainState :=
  | Graceful
  | Stopping (left : list component)
  | MainReturned.

(** The workers in [pr_waiting] are inside [process], waiting to send on
    [stopChannel]. *)
Record Process := mkProcess {
  pr_main : MainState;
  pr_pool : Pool;
  pr_waiting : list nat;
}.

(** The stops in the order in which they run. *)
Definition stops : list component := reverse (stoppable block_explorer).

(** The state of [main] before the next stop. *)
Definition next_stop (left : list component) : MainState :=
  match left with [] => MainReturned | _ => Stopping left end.

(** A step of the pool itself: [ps_stop] is [main]'s, and a waiting worker waits. *)
Definition own_step (waiting : list nat) (s s' : Pool) : Prop :=
  pool_next s s' ∧ (pl_active s' = pl_active s ∨ pl_dispatcher s = Closing) ∧
  ∀ i, i ∈ waiting → pl_workers s' !! i = pl_workers s !! i.

Inductive shutdown_step : Process → Process → Prop :=
  | sd_pool m s s' waiting :
      own_step waiting s s' → shutdown_step (mkProcess m s waiting) (mkProcess m s' waiting)
  (* shutdownCallback in a statement of worker [i] *)
  | sd_lost m s i jd waiting :
      pl_workers s !! i = Some (Working jd) → i ∉ waiting →
      shutdown_step (mkProcess m s waiting) (mkProcess m s (i :: waiting))
  (* graceful receives a request of a worker, or of the watcher, the extractor or
     a signal *)
  | sd_receive s i waiting :
      i ∈ waiting →
      shutdown_step (mkProcess Graceful s waiting)
        (mkProcess (next_stop stops) s (filter (.≠ i) waiting))
  | sd_asked s waiting :
      shutdown_step (mkProcess Graceful s waiting) (mkProcess (next_stop stops) s waiting)
  (* a deferred stop; the processor's takes the lock *)
  | sd_stop_processor s left waiting :
      lock_free s →
      shutdown_step (mkProcess (Stopping (Processor_ :: left)) s waiting)
        (mkProcess (next_stop left) (set_active false s) waiting)
  | sd_stop s c left waiting :
      c ≠ Processor_ →
      shutdown_step (mkProcess (Stopping (c :: left)) s waiting)
        (mkProcess (next_stop left) s waiting).

(** ** Lemmas *)

Lemma stops_processor : ∃ left, stops = Processor_ :: left ∧ Processor_ ∉ left.
Proof.
  eexists. split; [vm_compute; reflexivity|]. apply (bool_decide_unpack _). vm_compute. exact I.
Qed.

(** Nothing moves: [main] waits for the lock, its holder for a worker, the workers
    for [main] or for each other. *)
Definition stuck (p : Process) : Prop :=
  (∃ left, pr_main p = Stopping (Processor_ :: left)) ∧
  (∃ jd, pl_dispatcher (pr_pool p) = Sending jd) ∧
  ∀ i w, pl_workers (pr_pool p) !! i = Some w →
    (∃ jd, w = Retrying jd) ∨ (i ∈ pr_waiting p ∧ ∃ jd, w = Working jd).

Lemma stuck_no_step p p' : stuck p → ¬ shutdown_step p p'.
Proof.
  intros ([left Hm] & [jd Hd] & Hws) Hstep.
  assert (∀ i, pl_workers (pr_pool p) !! i ≠ Some Idle) as Hidle.
  { intros i Hi. by destruct (Hws i Idle Hi) as [[? ?]|[_ [? ?]]]. }
  assert (∀ i jd', pl_workers (pr_pool p) !! i = Some (Working jd') → i ∈ pr_waiting p) as Hwork.
  { intros i jd' Hi. by destruct (Hws i _ Hi) as [[? ?]|[? _]]. }
  destruct Hstep as [m s s' waiting (Hs & _ & Hsame)|m s i jd' waiting Hi Hni|s i waiting Hi
                    |s waiting|s left' waiting Hl|s c left' waiting Hc]; cbn in *; simplify_eq.
  - inversion Hs as
      [jd1 input s0 Hd' Hi|jd1 s0 Hd' Ha|jd1 s0 Hd' Ha|jd1 i s0 Hd' Hw|s0 Hd' Hi Hc|s0 Hd'
      |jd1 i s0 Hw|jd1 i s0 Hw|jd1 i k s0 Ha Hik Hw Hk|jd1 i s0 Ha Hw|i s0 Ha Hw|s0 Hf]; subst;
      try congruence; try (by eapply Hidle);
      specialize (Hsame i (Hwork _ _ Hw)); cbn in Hsame;
      rewrite list_lookup_insert_eq in Hsame by (by eapply lookup_lt_Some); congruence.
  - by apply Hni, (Hwork i jd').
  - by apply (Hl jd).
Qed.

(** One drop is received and handed to an idle worker. *)
Lemma hand_out_one m jd input closed ws idle dn dr :
  rtc shutdown_step
    (mkProcess m (mkPool (jd :: input) closed Receiving (ws ++ Idle :: idle) true dn dr) [])
    (mkProcess m (mkPool input closed Receiving (ws ++ Working jd :: idle) true dn dr) []).
Proof.
  assert (∀ s s', pool_next s s' → pl_active s' = pl_active s →
    rtc shutdown_step (mkProcess m s []) (mkProcess m s' [])) as Hstep.
  { intros s s' Hs Ha. apply rtc_once, sd_pool. split_and!; [done|by left|].
    by intros i ?%elem_of_nil. }
  etrans; [apply Hstep; [by eapply ps_receive|done]|]. etrans; [apply Hstep; [by eapply ps_lock|done]|].
  etrans; [apply Hstep; [apply (ps_send jd (length ws)); [done|by apply list_lookup_middle]|done]|].
  cbn. rewrite insert_app_r_alt, Nat.sub_diag by lia. apply rtc_refl.
Qed.

Lemma hand_out m jds input closed ws dn dr :
  rtc shutdown_step
    (mkProcess m (mkPool (jds ++ input) closed Receiving (ws ++ replicate (length jds) Idle) true dn dr) [])
    (mkProcess m (mkPool input closed Receiving (ws ++ (Working <$> jds)) true dn dr) []).
Proof.
  revert ws. induction jds as [|jd jds IH]; intros ws; cbn; [apply rtc_refl|].
  etrans; [apply hand_out_one|]. specialize (IH (ws ++ [Working jd])).
  rewrite <- !app_assoc in IH. exact IH.
Qed.

(** The connection is lost under every worker. *)
Lemma all_lost m s jds n :
  pl_workers s = Working <$> jds → (n ≤ length jds)%nat →
  rtc shutdown_step (mkProcess m s []) (mkProcess m s (reverse (seq 0 n))).
Proof.
  intros Hws. induction n as [|n IH]; intros Hn; [apply rtc_refl|].
  eapply rtc_r; [apply IH; lia|]. rewrite seq_S, reverse_snoc.
  destruct (lookup_lt_is_Some_2 jds n) as [jd Hjd]; [lia|]. apply (sd_lost m s n jd).
  - by rewrite Hws, list_lookup_fmap, Hjd.
  - rewrite elem_of_reverse, elem_of_seq. lia.
Qed.

(** ** Properties *)

(** C24: Losing the database can make the graceful stop hang.  With any number of
    workers and one more drop than workers in the queue, there is a run in which
    every worker meets the lost connection, [main] receives the request of one of
    them and starts to stop -- and then nothing moves any more: the processor's
    [Stop] waits for the lock of the dispatcher, the dispatcher for an idle worker,
    the worker that asked for somebody to take its drop back, and the others for
    [main], which no longer receives; no component is ever stopped. *)
Theorem shutdown_deadlock workers jds jd input closed :
  1 ≤ workers → Z.of_nat (length jds) = workers →
  ∃ p, rtc shutdown_step (mkProcess Graceful (NewPool workers (jds ++ jd :: input) closed) []) p ∧
    pr_main p = Stopping stops ∧ ∀ p', ¬ shutdown_step p p'.
Proof.
  intros Hw Hlen. destruct jds as [|jd0 jds]; [cbn in Hlen; lia|].
  set (full := mkPool input closed (Sending jd) (Working <$> jd0 :: jds) true [] []).
  set (s := set_workers (<[0%nat := Retrying jd0]> (pl_workers full)) full).
  set (waiting := filter (.≠ 0%nat) (reverse (seq 0 (length (jd0 :: jds))))).
  exists (mkProcess (Stopping stops) s waiting).
  assert (stuck (mkProcess (Stopping stops) s waiting)) as Hstuck.
  { destruct stops_processor as (left & -> & _). split_and!; [by eexists|by eexists|].
    intros [|i] w Hi; cbn in Hi; [left; exists jd0; congruence|right].
    change ((Working <$> jds) !! i = Some w) in Hi. rewrite list_lookup_fmap in Hi.
    apply fmap_Some in Hi as (jd' & Hi & ->). split; [|by exists jd'].
    apply list_elem_of_filter. split; [done|]. rewrite elem_of_reverse, elem_of_seq.
    apply lookup_lt_Some in Hi. cbn. lia. }
  split_and!; [|done|by intros p'; apply stuck_no_step].
  transitivity (mkProcess Graceful
    (mkPool (jd :: input) closed Receiving (Working <$> jd0 :: jds) true [] []) []).
  { unfold NewPool. rewrite decide_False by lia. rewrite <- Hlen, Nat2Z.id.
    apply (hand_out Graceful (jd0 :: jds) (jd :: input) closed []). }
  assert (∀ m s s', pool_next s s' → pl_active s' = pl_active s →
    shutdown_step (mkProcess m s []) (mkProcess m s' [])) as Hstep.
  { intros m' s1 s2 Hs Ha. apply sd_pool. split_and!; [done|by left|]. by intros i ?%elem_of_nil. }
  eapply rtc_l; [apply Hstep; [by eapply ps_receive|done]|].
  eapply rtc_l; [apply Hstep; [by eapply ps_lock|done]|].
  etrans; [apply (all_lost _ full (jd0 :: jds) (length (jd0 :: jds))); done|].
  eapply rtc_l; [apply (sd_receive _ 0); rewrite elem_of_reverse, elem_of_seq; cbn; lia|].
  apply rtc_once. destruct stops_processor as (left & Hstops & _). rewrite Hstops.
  apply sd_pool. split_and!.
  - by apply (ps_failure jd0 0).
  - by left.
  - intros i [Hi _]%list_elem_of_filter. cbn. by destruct i.
Qed.

(** Otherwise the stop goes through.  Whenever the lock of the pool is free, or
    its holder finds an idle worker, a run leads from the request to the end of
    [main]. *)
Theorem shutdown_completes p :
  pr_main p = Graceful →
  lock_free (pr_pool p) ∨
  (∃ jd i, pl_dispatcher (pr_pool p) = Sending jd ∧ pl_workers (pr_pool p) !! i = Some Idle ∧
     i ∉ pr_waiting p) →
  ∃ p', rtc shutdown_step p p' ∧ pr_main p' = MainReturned ∧ pl_active (pr_pool p') = false.
Proof.
  destruct p as [m s waiting]. cbn. intros -> Hfree.
  assert (∃ s1, rtc shutdown_step (mkProcess Graceful s waiting) (mkProcess Graceful s1 waiting) ∧
    lock_free s1) as (s1 & Hrun & Hlock).
  { destruct Hfree as [?|(jd & i & Hd & Hi & Hni)]; [by exists s|].
    exists (set_dispatcher Receiving (set_workers (<[i := Working jd]> (pl_workers s)) s)).
    split; [|done]. apply rtc_once, sd_pool. split_and!; [by apply ps_send|by left|].
    intros k Hk. cbn. rewrite list_lookup_insert_ne; [done|]. by intros ->. }
  assert (∀ left s, Processor_ ∉ left →
    rtc shutdown_step (mkProcess (next_stop left) s waiting) (mkProcess MainReturned s waiting)) as Hrest.
  { induction left as [|c left IH]; intros s2 Hnin; [apply rtc_refl|].
    apply not_elem_of_cons in Hnin as [Hc Hnin].
    eapply rtc_l; [apply sd_stop; congruence|by apply IH]. }
  destruct stops_processor as (left & Hstops & Hnin).
  exists (mkProcess MainReturned (set_active false s1) waiting). split_and!; [|done|done].
  etrans; [exact Hrun|]. eapply rtc_l; [apply sd_asked|]. rewrite Hstops.
  eapply rtc_l; [by apply sd_stop_processor|]. by apply Hrest.
Qed.

(** ** The theorems at work *)

Lemma shutdown_deadlock_witness :
  ∃ p, rtc shutdown_step
      (mkProcess Graceful (NewPool 2 [ex_tdrop "00" []; ex_tdrop "01" []; ex_tdrop "1" []] false) []) p ∧
    pr_main p = Stopping stops ∧ ∀ p', ¬ shutdown_step p p'.
Proof.
  apply (shutdown_deadlock 2 [ex_tdrop "00" []; ex_tdrop "01" []] (ex_tdrop "1" []) [] false);
    [lia|reflexivity].
Defined.

Lemma shutdown_completes_witness :
  ∃ p', rtc shutdown_step
      (mkProcess Graceful (mkPool [] false (Sending (ex_tdrop "1" [])) [Idle] true [] []) []) p' ∧
    pr_main p' = MainReturned ∧ pl_active (pr_pool p') = false.
Proof.
  apply (shutdown_completes (mkProcess Graceful
    (mkPool [] false (Sending (ex_tdrop "1" [])) [Idle] true [] []) [])); [reflexivity|].
  right. exists (ex_tdrop "1" []), 0%nat. split_and!; [reflexivity|reflexivity|apply not_elem_of_nil].
Defined.
