(* ===== verification/Logging.v ===== *)
(** * Logging, profiling and metrics: [src/instrumentation]

    How the logger is configured ([belogger/log_cfg.go], [logger.go],
    [setup_zlog.go], [setup_bilog.go]), how its level is changed
    ([http_log_level.go]), and the profiling agent ([profefe/profefe.go]).  The
    logging library is the parameter [LogLib]; its levels, formats and outputs are
    small integers there. *)

From S2P Require Import Prelude GoStd.

(** ** The library *)

(** [logcommon.OutputConfig] and [logcommon.InstrumentationConfig], with the
    fields the program sets. *)
Record OutputConfig := mkOutputConfig {
  oc_Format : Z;
  oc_BufferSize : Z;
  oc_ParallelWriters : Z;
  oc_EnableRegularBuffer : bool;
}.
Record InstrumentationConfig := mkInstrumentationConfig {
  ic_MetricsMode : Z;
  ic_CallerMode : Z;
  ic_SkipFrameCountBaseline : Z;
}.

(** The factory a builder is made with. *)
Inductive Factory := ZlogFactory | BilogFactory.

Class LogLib := {
  NoLevel : Z;
  ParseLevel : string → Z * option error;
  TextFormat : Z;
  JSONFormat : Z;
  LogFormat_String : Z → string;
  StdErrOutput : Z;
  SysLogOutput : Z;
  LogOutput_String : Z → string;
  LogMetricsEventCount : Z;
  LogMetricsWriteDelayReport : Z;
  LogMetricsWriteDelayField : Z;
  LogMetricsTimestamp : Z;
  CallerField : Z;
  ZerologSkipFrameCount : Z;
  Writer : Type;
  OpenLogBareOutput : Z → string → result (option Writer);   (* a nil Writer is None *)
  LoggerBuilder : Type;
  NewBuilder : Factory → Writer → OutputConfig → InstrumentationConfig → string → Z → LoggerBuilder;
  IsZero : LoggerBuilder → bool;
  GetLogLevel : LoggerBuilder → Z;
  WithLevel : Z → LoggerBuilder → LoggerBuilder;
  Logger : Type;
  Logger_eq_dec :: EqDecision Logger;
  Build : LoggerBuilder → result Logger;
  Copy : Logger → LoggerBuilder;
  Logger_WithFields : list (string * string) → Logger → Logger;
}.

(** ** [strings.ToLower] *)

(** Two runes outside ASCII have an ASCII lower case, the dotted capital I and
    the Kelvin sign; every other one keeps a lower case outside ASCII, which is
    left as it is, since the results are compared with ASCII texts only. *)
Definition lower_ascii (a : ascii) : ascii :=
  let n := nat_of_ascii a in
  if decide (65 ≤ n ≤ 90)%nat then ascii_of_nat (n + 32) else a.

Fixpoint ToLower (s : string) : string :=
  match s with
  | EmptyString => ""
  | String a s1 =>
      match s1 with
      | String b s2 =>
          if decide (nat_of_ascii a = 196 ∧ nat_of_ascii b = 176)%nat then "i" +:+ ToLower s2
          else
            match s2 with
            | String c s3 =>
                if decide (nat_of_ascii a = 226 ∧ nat_of_ascii b = 132 ∧ nat_of_ascii c = 170)%nat
                then "k" +:+ ToLower s3 else String (lower_ascii a) (ToLower s1)
            | EmptyString => String (lower_ascii a) (ToLower s1)
            end
      | EmptyString => String (lower_ascii a) ""
      end
  end.

(** ** Configuration *)

(** [configuration.Log] and [configuration.NewLog]. *)
Record LogConfig := mkLogConfig {
  lc_Level : string;
  lc_Adapter : string;
  lc_Formatter : string;
  lc_OutputType : string;
  lc_OutputParallelLimit : string;
  lc_OutputParams : string;
  lc_BufferSize : Z;
  lc_LLBufferSize : Z;
}.

Definition configuration_NewLog : LogConfig :=
  mkLogConfig "Info" "zerolog" "json" "stderr" "" "" 0 0.

Section logging.
Context `{LogLib}.

Definition defaultLogFormat : Z := TextFormat.
Definition defaultLogOutput : Z := StdErrOutput.
Definition defaultLowLatencyBufferSize : Z := 100.

Record ParsedLogConfig := mkParsedLogConfig {
  pl_OutputType : Z;
  pl_LogLevel : Z;
  pl_OutputParam : string;
  pl_Output : OutputConfig;
  pl_Instruments : InstrumentationConfig;
  pl_SkipFrameBaselineAdjustment : Z;
}.

Definition DefaultLoggerSettings : ParsedLogConfig :=
  mkParsedLogConfig 0 0 "" (mkOutputConfig 0 0 0 false)
    (mkInstrumentationConfig
       (Z.lor (Z.lor (Z.lor LogMetricsEventCount LogMetricsWriteDelayReport)
                 LogMetricsWriteDelayField) LogMetricsTimestamp) CallerField 0) 0.

Definition ParseFormat (formatStr : string) (defValue : Z) : Z * option error :=
  let s := ToLower formatStr in
  if decide (s = "" ∨ s = "default") then (defValue, None)
  else if decide (s = LogFormat_String TextFormat) then (TextFormat, None)
  else if decide (s = LogFormat_String JSONFormat) then (JSONFormat, None)
  else (defValue, Some (ErrMsg ("unknown Format: '" +:+ formatStr +:+ "', replaced with '"
                                +:+ LogFormat_String defValue +:+ "'"))).

Definition ParseOutput (outputStr : string) (defValue : Z) : Z * option error :=
  let s := ToLower outputStr in
  if decide (s = "" ∨ s = "default") then (defValue, None)
  else if decide (s = LogOutput_String StdErrOutput) then (StdErrOutput, None)
  else if decide (s = LogOutput_String SysLogOutput) then (SysLogOutput, None)
  else (defValue, Some (ErrMsg ("unknown Output: '" +:+ outputStr +:+ "', replaced with '"
                                +:+ LogOutput_String defValue +:+ "'"))).

(** The size of the low-latency buffer: the [switch] and the [if] after it. *)
Definition buffer_size (cfg : LogConfig) : Z :=
  let size := if decide (lc_LLBufferSize cfg < 0) then lc_BufferSize cfg
              else if decide (lc_LLBufferSize cfg > 0) then lc_LLBufferSize cfg
              else defaultLowLatencyBufferSize in
  if decide (size < lc_BufferSize cfg) then lc_BufferSize cfg else size.

(** The error of [strconv.Atoi]; nothing looks at its text. *)
Definition atoi_error (s : string) : error :=
  ErrMsg ("strconv.Atoi: parsing " +:+ s +:+ ": invalid syntax").

(** The result and the error; what is filled in before an error stays. *)
Definition ParseLogConfigWithDefaults (cfg : LogConfig) (defaults : ParsedLogConfig)
  : ParsedLogConfig * option error :=
  let '(outputType, err) := ParseOutput (lc_OutputType cfg) defaultLogOutput in
  let plc := mkParsedLogConfig outputType (pl_LogLevel defaults) (pl_OutputParam defaults)
               (pl_Output defaults) (pl_Instruments defaults)
               (pl_SkipFrameBaselineAdjustment defaults) in
  match err with Some err => (plc, Some err) | None =>
  let '(format, err) := ParseFormat (lc_Formatter cfg) defaultLogFormat in
  let o := pl_Output plc in
  let plc := mkParsedLogConfig outputType (pl_LogLevel plc) (lc_OutputParams cfg)
               (mkOutputConfig format (oc_BufferSize o) (oc_ParallelWriters o) (oc_EnableRegularBuffer o))
               (pl_Instruments plc) (pl_SkipFrameBaselineAdjustment plc) in
  match err with Some err => (plc, Some err) | None =>
  let '(level, err) := ParseLevel (lc_Level cfg) in
  let with_writers n := mkParsedLogConfig outputType level (lc_OutputParams cfg)
               (mkOutputConfig format (oc_BufferSize o) n (oc_EnableRegularBuffer o))
               (pl_Instruments plc) (pl_SkipFrameBaselineAdjustment plc) in
  match err with Some err => (with_writers (oc_ParallelWriters o), Some err) | None =>
  let parallel := if decide (lc_OutputParallelLimit cfg ≠ "")
                  then match ParseInt (lc_OutputParallelLimit cfg) with
                       | Some n => Ok n
                       | None => Err (atoi_error (lc_OutputParallelLimit cfg))
                       end
                  else Ok 0 in
  match parallel with
  | Err err => (with_writers 0, Some err)
  | Ok n =>
      (mkParsedLogConfig outputType level (lc_OutputParams cfg)
         (mkOutputConfig format (buffer_size cfg) n (bool_decide (lc_BufferSize cfg > 0)))
         (pl_Instruments plc) (pl_SkipFrameBaselineAdjustment plc), None)
  end end end end.

Definition ParseLogConfig (cfg : LogConfig) : ParsedLogConfig * option error :=
  ParseLogConfigWithDefaults cfg DefaultLoggerSettings.

(** ** Building a logger *)

Definition TimestampFormat : string := "2006-01-02T15:04:05.000000000Z07:00".
Definition bePrefix : string := "github.com/insolar/block-explorer/".

Definition defaultLogConfig : LogConfig :=
  let cfg := configuration_NewLog in
  mkLogConfig (lc_Level cfg) (lc_Adapter cfg) (lc_Formatter cfg) (lc_OutputType cfg)
    (lc_OutputParallelLimit cfg) (lc_OutputParams cfg) 0 (-1).

Definition fileLineMarshaller (file : string) (line : Z) : string :=
  let idx := Index file bePrefix in
  let skip := if decide (idx ≠ -1) then (Z.to_nat idx + String.length bePrefix)%nat else 0%nat in
  String.substring skip (String.length file - skip) file +:+ ":" +:+ FormatInt line.

(** [int8] sums and the conversion to [uint8] of a number that is not negative. *)
Definition skip_frames (base adjustment : Z) : Z :=
  let sfb := wrap 8 (base + adjustment) in
  let sfb := if decide (sfb < 0) then 0 else sfb in
  sfb mod 256.

Definition new_adapter (factory : Factory) (base : Z) (pCfg : ParsedLogConfig) (timeFmt : string)
  : result LoggerBuilder :=
  match OpenLogBareOutput (pl_OutputType pCfg) (pl_OutputParam pCfg) with
  | Err err => Err err
  | Ok None => Err (ErrMsg "output is nil")
  | Ok (Some writer) =>
      let i := pl_Instruments pCfg in
      Ok (NewBuilder factory writer (pl_Output pCfg)
            (mkInstrumentationConfig (ic_MetricsMode i) (ic_CallerMode i)
               (skip_frames base (pl_SkipFrameBaselineAdjustment pCfg)))
            timeFmt (pl_LogLevel pCfg))
  end.

Definition newZerologAdapter (pCfg : ParsedLogConfig) : result LoggerBuilder :=
  new_adapter ZlogFactory ZerologSkipFrameCount pCfg TimestampFormat.
Definition newBilogAdapter (pCfg : ParsedLogConfig) : result LoggerBuilder :=
  new_adapter BilogFactory 0 pCfg TimestampFormat.

Definition newLogger (cfg : LogConfig) : result LoggerBuilder :=
  match ParseLogConfigWithDefaults cfg DefaultLoggerSettings with
  | (_, Some err) => Err err
  | (pCfg, None) =>
      let pCfg := mkParsedLogConfig (pl_OutputType pCfg) (pl_LogLevel pCfg) (pl_OutputParam pCfg)
                    (pl_Output pCfg) (pl_Instruments pCfg) 0 in
      let adapter := ToLower (lc_Adapter cfg) in
      if decide (adapter = "zerolog" ∨ adapter = "bilog") then
        logBuilder ← (if decide (adapter = "zerolog") then newZerologAdapter pCfg
                      else newBilogAdapter pCfg);
        if IsZero logBuilder then Err (ErrMsg "logger was not initialized") else Ok logBuilder
      else Err (ErrMsg "invalid logger config, unknown adapter")
  end.

Definition NewLog (cfg : LogConfig) : result Logger :=
  b ← newLogger cfg;
  Build b.

(** ** The logger in a context *)

(** A context, as far as the logger is concerned, and the global logger. *)
Definition Context := option Logger.

Definition getLogger (global : Logger) (ctx : Context) : Logger :=
  match ctx with None => global | Some l => l end.
Definition FromContext := getLogger.
Definition SetLogger (ctx : Context) (l : Logger) : Context := Some l.

(** [InitLogger]: the context and the logger, which becomes the global one; [None]
    is a panic. *)
Definition InitLogger (ctx : Context) (cfg : LogConfig) (serviceName : string)
  : option (Context * Logger) :=
  match NewLog cfg with
  | Err _ => None
  | Ok belog =>
      let fields := ("loginstance", "node")
                    :: (if decide (serviceName ≠ "") then [("service_name", serviceName)] else []) in
      let belog := Logger_WithFields fields belog in
      Some (SetLogger ctx belog, belog)
  end.

Definition UpdateLogger (global : Logger) (ctx : Context) (fn : Logger → result Logger)
  : option Context :=
  let lOrig := FromContext global ctx in
  match fn lOrig with
  | Err _ => None
  | Ok lNew => Some (if decide (lOrig = lNew) then ctx else SetLogger ctx lNew)
  end.

Definition WithLoggerLevel (global : Logger) (ctx : Context) (logLevel : Z) : Context :=
  if decide (logLevel = NoLevel) then ctx
  else
    let b := Copy (FromContext global ctx) in
    if decide (GetLogLevel b = logLevel) then ctx
    else match Build (WithLevel logLevel b) with
         | Err _ => ctx
         | Ok logCopy => SetLogger ctx logCopy
         end.

Definition GetLoggerLevel (global : Logger) (ctx : Context) : Z :=
  GetLogLevel (Copy (getLogger global ctx)).

(** ** [loglevelChangeHandler.ServeHTTP] *)

Definition newline : string := String (ascii_of_nat 10) "".

(** The values of the parameter [level] of the request, none if it is missing, and
    what [global.SetFilter] makes of a level: the filter after it, the status and
    the body. *)
Definition ServeHTTP {F} (SetFilter : Z → F → result F) (levels : list string) (filter : F)
  : F * (Z * string) :=
  let levelStr := match levels with l :: _ => l | [] => "(nil)" end in
  match ParseLevel levelStr with
  | (_, Some err) => (filter, (500, "Invalid level '" +:+ levelStr +:+ "': " +:+ Error err +:+ newline))
  | (level, None) =>
      match SetFilter level filter with
      | Ok filter => (filter, (200, "New log level: '" +:+ levelStr +:+ "'" +:+ newline))
      | Err err => (filter, (500, "Logger doesn't support global log level(s): " +:+ Error err +:+ newline))
      end
  end.
End logging.

(** ** Profiling: [profefe/profefe.go] *)

Record ProfefeConfig := mkProfefeConfig {
  pf_StartAgent : bool;
  pf_Address : string;
  pf_Labels : string;
}.

(** [Profefe]; the agent is the address it reports to. *)
Record Profefe := mkProfefe {
  pf_startAgent : bool;
  pf_address : string;
  pf_serviceName : string;
  pf_labels : list string;
  pf_hasStarted : bool;
  pf_pffAgent : option string;
}.

Fixpoint trim_left_blanks (s : string) : string :=
  match s with
  | String a s' => if decide (a = " "%char) then trim_left_blanks s' else s
  | EmptyString => ""
  end.
(** [strings.Trim(v, " ")]. *)
Definition TrimBlanks (s : string) : string :=
  String.rev (trim_left_blanks (String.rev (trim_left_blanks s))).

Definition Profefe_New (cfg : ProfefeConfig) (serviceName : string) : Profefe :=
  mkProfefe (pf_StartAgent cfg) (pf_Address cfg) serviceName
    (TrimBlanks <$> Split (pf_Labels cfg) ",") false None.

(** [Start]; [agent_Start] is the third-party [agent.Start]. *)
Definition Profefe_Start (agent_Start : string → string → list string → option error) (p : Profefe)
  : Profefe * option error :=
  if negb (pf_hasStarted p) then
    match agent_Start (pf_address p) (pf_serviceName p) (pf_labels p) with
    | Some err => (p, Some (ErrWrap err "cannot start profefe agent"))
    | None =>
        (mkProfefe (pf_startAgent p) (pf_address p) (pf_serviceName p) (pf_labels p)
           (pf_hasStarted p) (Some (pf_address p)), None)
    end
  else (p, None).

(** [Stop]; [errors.Wrap] of a nil error is nil. *)
Definition Profefe_Stop (agent_Stop : string → option error) (p : Profefe) : Profefe * option error :=
  if pf_hasStarted p then
    let err := match pf_pffAgent p with Some a => agent_Stop a | None => None end in
    (mkProfefe (pf_startAgent p) (pf_address p) (pf_serviceName p) (pf_labels p)
       (pf_hasStarted p) None,
     match err with Some err => Some (ErrWrap err "cannot stop profefe agent") | None => None end)
  else (p, None).

(** ** Properties *)

Section properties.
Context `{LogLib}.

(** What the texts of the library are documented to be. *)
Class LogNames : Prop := {
  TextFormat_text : LogFormat_String TextFormat = "text";
  JSONFormat_text : LogFormat_String JSONFormat = "json";
  StdErr_text : LogOutput_String StdErrOutput = "stderr";
  SysLog_text : LogOutput_String SysLogOutput = "syslog";
}.

Definition format_texts : list string := [""; "default"; "text"; "json"].
Definition output_texts : list string := [""; "default"; "stderr"; "syslog"].

Lemma ParseFormat_accepts `{!LogNames} s d :
  (ParseFormat s d).2 = None ↔ ToLower s ∈ format_texts.
Proof.
  unfold ParseFormat, format_texts. rewrite TextFormat_text, JSONFormat_text.
  rewrite !elem_of_cons, elem_of_nil. repeat case_decide; cbn; naive_solver.
Qed.

Lemma ParseOutput_accepts `{!LogNames} s d :
  (ParseOutput s d).2 = None ↔ ToLower s ∈ output_texts.
Proof.
  unfold ParseOutput, output_texts. rewrite StdErr_text, SysLog_text.
  rewrite !elem_of_cons, elem_of_nil. repeat case_decide; cbn; naive_solver.
Qed.

(** Which logger configurations are accepted, and the buffers they get.  A
    configuration is accepted exactly when output, format and level are known, in
    any case of letters, and the limit of parallel writers is empty or a number;
    then the buffer holds at least the regular events configured, 100 events
    unless the low-latency buffer is sized or disabled, and regular events are
    buffered exactly when their number is positive. *)
Theorem ParseLogConfig_spec `{!LogNames} cfg :
  ((ParseLogConfig cfg).2 = None ↔
     ToLower (lc_OutputType cfg) ∈ output_texts ∧ ToLower (lc_Formatter cfg) ∈ format_texts ∧
     (ParseLevel (lc_Level cfg)).2 = None ∧
     (lc_OutputParallelLimit cfg = "" ∨ is_Some (ParseInt (lc_OutputParallelLimit cfg)))) ∧
  ((ParseLogConfig cfg).2 = None →
     let o := pl_Output (ParseLogConfig cfg).1 in
     oc_EnableRegularBuffer o = bool_decide (0 < lc_BufferSize cfg) ∧
     oc_BufferSize o = Z.max (lc_BufferSize cfg)
       (if decide (lc_LLBufferSize cfg < 0) then lc_BufferSize cfg
        else if decide (lc_LLBufferSize cfg = 0) then 100 else lc_LLBufferSize cfg)).
Proof.
  rewrite <- (ParseOutput_accepts (lc_OutputType cfg) defaultLogOutput).
  rewrite <- (ParseFormat_accepts (lc_Formatter cfg) defaultLogFormat).
  unfold ParseLogConfig, ParseLogConfigWithDefaults.
  destruct (ParseOutput _ _) as [out [e1|]]; cbn; [naive_solver|].
  destruct (ParseFormat _ _) as [fmt [e2|]]; cbn; [naive_solver|].
  destruct (ParseLevel _) as [lvl [e3|]]; cbn; [naive_solver|].
  assert (bool_decide (lc_BufferSize cfg > 0) = bool_decide (0 < lc_BufferSize cfg)) as Hb
    by (apply bool_decide_ext; lia).
  assert (buffer_size cfg = Z.max (lc_BufferSize cfg)
       (if decide (lc_LLBufferSize cfg < 0) then lc_BufferSize cfg
        else if decide (lc_LLBufferSize cfg = 0) then 100 else lc_LLBufferSize cfg)) as Hs
    by (unfold buffer_size, defaultLowLatencyBufferSize; repeat case_decide; lia).
  rewrite Hb, Hs. clear Hb Hs. destruct (decide (lc_OutputParallelLimit cfg ≠ "")) as [Hp|Hp].
  - destruct (ParseInt _) as [n|]; cbn.
    + split; [|done]. split; [|done]. intros _. split_and!; [done..|]. right. by eexists.
    + split; [|done]. split; [done|]. intros (_ & _ & _ & [?|[? ?]]); done.
  - cbn. split; [|done]. split; [|done]. intros _. split_and!; [done..|]. left. by apply dec_stable.
Qed.

(** Changing the level over HTTP is all or nothing: the answer is 200 exactly
    when the level is known and the logger takes it, and then the filter is the
    new one; every other answer is 500 and leaves the filter alone. *)
Theorem ServeHTTP_spec {F} (SetFilter : Z → F → result F) levels filter :
  let levelStr := match levels with l :: _ => l | [] => "(nil)" end in
  let '(filter', (status, _)) := ServeHTTP SetFilter levels filter in
  (status = 200 ∧ ∃ level, ParseLevel levelStr = (level, None) ∧ SetFilter level filter = Ok filter') ∨
  (status = 500 ∧ filter' = filter ∧
     ((ParseLevel levelStr).2 ≠ None ∨
      ∃ level e, ParseLevel levelStr = (level, None) ∧ SetFilter level filter = Err e)).
Proof.
  cbn. unfold ServeHTTP. destruct (ParseLevel _) as [level [err|]] eqn:Hl; [by right; auto|].
  destruct (SetFilter level filter) as [f|e] eqn:Hf; [left|right].
  - split; [done|]. by exists level.
  - split_and!; [done|done|]. right. by exists level, e.
Qed.

(** The file of a log line is given from the root of the repository on. *)
Theorem fileLineMarshaller_spec pre rest line :
  Index (pre +:+ bePrefix +:+ rest) bePrefix = Z.of_nat (String.length pre) →
  fileLineMarshaller (pre +:+ bePrefix +:+ rest) line = rest +:+ ":" +:+ FormatInt line.
Proof.
  intros Hi. unfold fileLineMarshaller. rewrite Hi, decide_True by lia. rewrite Nat2Z.id.
  replace (String.length (pre +:+ bePrefix +:+ rest) - (String.length pre + String.length bePrefix))%nat
    with (String.length rest) by (rewrite !str_length_app; lia).
  rewrite <- str_length_app, (str_app_assoc pre bePrefix rest).
  by rewrite substring_app_r.
Qed.
End properties.

(** What is called on the profiling service, with the agent's answers. *)
Inductive profefe_call := CallStart (answer : option error) | CallStop (answer : option error).

#[export] Instance profefe_call_eq_dec : EqDecision profefe_call.
Proof. solve_decision. Defined.

Definition profefe_do (p : Profefe) (c : profefe_call) : Profefe :=
  match c with
  | CallStart answer => (Profefe_Start (λ _ _ _, answer) p).1
  | CallStop answer => (Profefe_Stop (λ _, answer) p).1
  end.

(** The profiling agent cannot be switched off.  [hasStarted] is never set and
    [startAgent] never read: whatever is called, in whatever order, the agent runs
    as soon as one start succeeded, even when the configuration forbids it, and no
    [Stop] ever stops it. *)
Theorem Profefe_never_stops cfg name calls :
  let p := foldl profefe_do (Profefe_New cfg name) calls in
  pf_hasStarted p = false ∧
  pf_pffAgent p = if decide (CallStart None ∈ calls) then Some (pf_Address cfg) else None.
Proof.
  cbn. set (P p := pf_hasStarted p = false ∧ pf_address p = pf_Address cfg).
  assert (P (foldl profefe_do (Profefe_New cfg name) calls) ∧
    pf_pffAgent (foldl profefe_do (Profefe_New cfg name) calls) =
      if decide (CallStart None ∈ calls) then Some (pf_Address cfg) else None) as [[? _] ?]; [|done].
  induction calls as [|c calls IH] using rev_ind; [done|].
  rewrite foldl_app. cbn. destruct IH as [[Hs Ha] Hp].
  destruct (foldl profefe_do _ calls) as [sa ad sn ls hs ag]. cbn in *. subst.
  destruct c as [[err|]|answer]; cbn; split; try done.
  - apply decide_ext. rewrite elem_of_app, list_elem_of_singleton. naive_solver.
  - rewrite decide_True; [done|]. apply elem_of_app. right. left.
  - apply decide_ext. rewrite elem_of_app, list_elem_of_singleton. naive_solver.
Qed.

(** ** The theorems at work *)

#[local] Instance ref_log : LogLib := {|
  NoLevel := 0;
  ParseLevel s := if decide (ToLower s = "info") then (2, None)
                  else if decide (ToLower s = "debug") then (1, None)
                  else (0, Some (ErrMsg "unknown Level"));
  TextFormat := 0;
  JSONFormat := 1;
  LogFormat_String f := if decide (f = 0) then "text" else "json";
  StdErrOutput := 0;
  SysLogOutput := 1;
  LogOutput_String o := if decide (o = 0) then "stderr" else "syslog";
  LogMetricsEventCount := 1;
  LogMetricsWriteDelayReport := 2;
  LogMetricsWriteDelayField := 4;
  LogMetricsTimestamp := 8;
  CallerField := 1;
  ZerologSkipFrameCount := 4;
  Writer := Z;
  OpenLogBareOutput o _ := Ok (Some o);
  LoggerBuilder := Factory * Z;
  NewBuilder f _ _ _ _ level := (f, level);
  IsZero _ := false;
  GetLogLevel b := b.2;
  WithLevel level b := (b.1, level);
  Logger := Z;
  Logger_eq_dec := _;
  Build b := Ok b.2;
  Copy l := (ZlogFactory, l);
  Logger_WithFields _ l := l;
|}.

#[local] Instance ref_log_names : LogNames.
Proof. by constructor. Qed.

Definition ex_log : LogConfig := mkLogConfig "Debug" "zerolog" "JSON" "default" "8" "" 16 0.

Lemma ParseLogConfig_spec_witness :
  (ParseLogConfig ex_log).2 = None ∧ oc_BufferSize (pl_Output (ParseLogConfig ex_log).1) = 100.
Proof.
  destruct (ParseLogConfig_spec ex_log) as [_ Hbuf].
  destruct Hbuf as [_ Hsize]; [vm_compute; reflexivity|].
  split; [vm_compute; reflexivity|exact Hsize].
Defined.

Lemma default_logger : is_ok (newLogger defaultLogConfig) = true.
Proof. vm_compute. reflexivity. Qed.

Lemma fileLineMarshaller_spec_witness :
  fileLineMarshaller "/go/src/github.com/insolar/block-explorer/api/api.go" 42 = "api/api.go:42".
Proof.
  apply (fileLineMarshaller_spec "/go/src/" "api/api.go" 42). vm_compute. reflexivity.
Defined.
