(* ===== verification/Metrics.v ===== *)
(** * Metrics: [src/instrumentation/metrics], [src/etl/storage/*_metrics.go]

    What is registered with Prometheus and what the gauges show.  A gauge is its
    name and its value; registering, listening and ticking are third-party code
    and appear as actions. *)

From S2P Require Import Prelude GoStd.

(** ** The service: [metrics/prometheus.go] *)

Definition defaultRefreshInterval : Z := 15 * 1000000000.
Definition defaultHTTPServerPort : Z := 8080.

(** A [Collector] is the names of the gauges its [Metrics] gives. *)
Record MetricsConfig := mkMetricsConfig {
  mc_DBName : string;
  mc_RefreshInterval : Z;
  mc_StartServer : bool;
  mc_HTTPServerPort : Z;
  mc_MetricsCollectors : list (list string);
}.

Record Prometheus := mkPrometheus {
  pm_Config : MetricsConfig;
  pm_refreshOnce : bool;          (* the sync.Once has run *)
  pm_Labels : gmap string string;
  pm_collectors : list string;
}.

Inductive metrics_action :=
  | Register (name : string)      (* prometheus.Register *)
  | GoRefresh (interval : Z)      (* the goroutine that refreshes *)
  | GoServe (port : Z).           (* go p.startServer() *)
#[export] Instance metrics_action_eq_dec : EqDecision metrics_action.
Proof. solve_decision. Defined.

Definition Metrics_New (config : MetricsConfig) : Prometheus :=
  let config := mkMetricsConfig (mc_DBName config)
    (if decide (mc_RefreshInterval config = 0) then defaultRefreshInterval else mc_RefreshInterval config)
    (mc_StartServer config)
    (if decide (mc_HTTPServerPort config = 0) then defaultHTTPServerPort else mc_HTTPServerPort config)
    (mc_MetricsCollectors config) in
  mkPrometheus config false ∅ [].

(** [Initialize] never fails; an error of [prometheus.Register] is logged. *)
Definition Initialize (p : Prometheus) : Prometheus * list metrics_action :=
  let cfg := pm_Config p in
  let labels := if decide (mc_DBName cfg ≠ "") then <["db_name" := mc_DBName cfg]> (pm_Labels p)
                else pm_Labels p in
  let '(collectors, acts) :=
    if pm_refreshOnce p then (pm_collectors p, [])
    else
      let collectors := pm_collectors p ++ concat (mc_MetricsCollectors cfg) in
      (collectors, (Register <$> collectors) ++ [GoRefresh (mc_RefreshInterval cfg)]) in
  (mkPrometheus cfg true labels collectors,
   acts ++ (if mc_StartServer cfg then [GoServe (mc_HTTPServerPort cfg)] else [])).

(** [startServer] listens once in the whole process; the state is that of
    [httpServerOnce], the result the port it listens on. *)
Definition startServer (httpServerOnce : bool) (p : Prometheus) : bool * option Z :=
  (true, if httpServerOnce then None else Some (mc_HTTPServerPort (pm_Config p))).

(** ** Row counts: [postgres_metrics.go] *)

Record PostgresCollector := mkPostgresCollector {
  pg_Prefix : string;
  pg_Interval : Z;
  pg_status : gmap string Z;      (* the gauges by variable, with their values *)
}.

Definition NewPostgresCollector (config : option (string * Z)) : PostgresCollector :=
  let '(prefix, interval) := default ("", 0) config in mkPostgresCollector prefix interval ∅.

Definition setStats (variableName : string) (variableValue : Z) (pg : PostgresCollector)
  : PostgresCollector :=
  mkPostgresCollector (pg_Prefix pg) (pg_Interval pg) (<[variableName := variableValue]> (pg_status pg)).

(** The rows the query answers: none if it fails, and for each row nothing if it
    cannot be scanned. *)
Definition QueryRows := option (list (option (Z * Z * Z))).

Fixpoint scan_rows (rows : list (option (Z * Z * Z))) (pg : PostgresCollector) : PostgresCollector :=
  match rows with
  | [] => pg
  | None :: rows => scan_rows rows pg
  | Some (jetdrops, pulses, records) :: rows =>
      let pg := setStats "all_jetdrop_count" jetdrops pg in
      let pg := setStats "all_pulse_count" pulses pg in
      scan_rows rows (setStats "all_record_count" records pg)
  end.

Definition collect (answer : QueryRows) (pg : PostgresCollector) : PostgresCollector :=
  match answer with None => pg | Some rows => scan_rows rows pg end.

(** [Metrics]: the names of the gauges it hands over for registration, in the
    order in which the runtime ranges over the map. *)
Definition PostgresCollector_Metrics (p : Prometheus) (answer : QueryRows) (pg : PostgresCollector)
  : PostgresCollector * list string :=
  let pg := mkPostgresCollector
    (if decide (pg_Prefix pg = "") then "gbe_gorm_status_" else pg_Prefix pg)
    (if decide (pg_Interval pg = 0) then mc_RefreshInterval (pm_Config p) else pg_Interval pg)
    (pg_status pg) in
  let pg := collect answer pg in
  (pg, (λ kv, pg_Prefix pg +:+ kv.1) <$> map_to_list (pg_status pg)).

(** ** Connection pool: [db_stats_metrics.go] *)

(** [sql.DBStats]; the duration is in nanoseconds. *)
Record SqlDBStats := mkSqlDBStats {
  sd_MaxOpenConnections : Z;
  sd_OpenConnections : Z;
  sd_InUse : Z;
  sd_Idle : Z;
  sd_WaitCount : Z;
  sd_WaitDuration : Z;
  sd_MaxIdleClosed : Z;
  sd_MaxLifetimeClosed : Z;
}.

(** A gauge: its name and value. *)
Record Gauge := mkGauge { g_Name : string; g_value : Z }.
Definition NewGauge (name : string) : Gauge := mkGauge name 0.
Definition gauge_Set (v : Z) (g : Gauge) : Gauge := mkGauge (g_Name g) v.

Record DBStats := mkDBStats {
  st_MaxOpenConnections : Gauge;
  st_OpenConnections : Gauge;
  st_InUse : Gauge;
  st_Idle : Gauge;
  st_WaitCount : Gauge;
  st_WaitDuration : Gauge;
  st_MaxIdleClosed : Gauge;
  st_MaxLifetimeClosed : Gauge;
}.

Definition NewStatsCollector : DBStats :=
  mkDBStats (NewGauge "gorm_dbstats_max_open_connections")
    (NewGauge "gorm_dbstats_open_connections")
    (NewGauge "gorm_dbstats_in_use")
    (NewGauge "gorm_dbstats_idle")
    (NewGauge "gorm_dbstats_wait_count")
    (NewGauge "gorm_dbstats_wait_duration")
    (NewGauge "gorm_dbstats_max_idle_closed")
    (NewGauge "gorm_dbstats_max_lifetime_closed").

(** [Set]; [Milliseconds] cuts off, towards zero. *)
Definition DBStats_Set (s : SqlDBStats) (stats : DBStats) : DBStats :=
  mkDBStats (gauge_Set (sd_MaxOpenConnections s) (st_MaxOpenConnections stats))
    (gauge_Set (sd_OpenConnections s) (st_OpenConnections stats))
    (gauge_Set (sd_InUse s) (st_InUse stats))
    (gauge_Set (sd_Idle s) (st_Idle stats))
    (gauge_Set (sd_WaitCount s) (st_WaitCount stats))
    (gauge_Set (Z.quot (sd_WaitDuration s) 1000000) (st_WaitDuration stats))
    (gauge_Set (sd_MaxIdleClosed s) (st_MaxIdleClosed stats))
    (gauge_Set (sd_MaxLifetimeClosed s) (st_MaxLifetimeClosed stats)).

Definition Collectors (stats : DBStats) : list Gauge :=
  [st_MaxOpenConnections stats; st_OpenConnections stats; st_InUse stats; st_Idle stats;
   st_WaitCount stats; st_WaitDuration stats; st_MaxIdleClosed stats; st_MaxLifetimeClosed stats].

(** ** Properties *)

Definition refresh_interval (config : MetricsConfig) : Z :=
  if decide (mc_RefreshInterval config = 0) then defaultRefreshInterval else mc_RefreshInterval config.
Definition server_port (config : MetricsConfig) : Z :=
  if decide (mc_HTTPServerPort config = 0) then defaultHTTPServerPort else mc_HTTPServerPort config.
Definition serve (config : MetricsConfig) : list metrics_action :=
  if mc_StartServer config then [GoServe (server_port config)] else [].

(** Collectors are registered once.  The first [Initialize] registers every gauge
    of every collector, in order, and starts the goroutine that refreshes them; any
    further one changes nothing and only asks for the server again. *)
Theorem Initialize_once config :
  let '(p, acts) := Initialize (Metrics_New config) in
  acts = (Register <$> concat (mc_MetricsCollectors config)) ++ [GoRefresh (refresh_interval config)]
         ++ serve config ∧
  Initialize p = (p, serve config).
Proof.
  destruct config as [name interval start port collectors]. unfold Initialize, Metrics_New. cbn.
  split; [by rewrite <- app_assoc|]. unfold serve, server_port. cbn. f_equal. f_equal.
  case_decide; [|done]. by rewrite insert_insert_eq.
Qed.

Lemma scan_rows_empty rows pg :
  Forall (.= None) rows → pg_status (scan_rows rows pg) = pg_status pg.
Proof. induction 1 as [|r rows -> _ IH]; done. Qed.

(** The row counts may never be exported.  When the first query fails, or none of
    its rows can be scanned, the collector hands over no gauge at all; it is asked
    only once, so the counts that later queries find are set in gauges that were
    never registered. *)
Theorem postgres_metrics_lost p answer config :
  (∀ rows, answer = Some rows → Forall (.= None) rows) →
  (PostgresCollector_Metrics p answer (NewPostgresCollector config)).2 = [] ∧
  ∀ rows, Exists (.≠ None) rows →
    is_Some (pg_status (collect (Some rows) (PostgresCollector_Metrics p answer
      (NewPostgresCollector config)).1) !! "all_record_count").
Proof.
  intros Hnone. split.
  - unfold PostgresCollector_Metrics, NewPostgresCollector. destruct (default _ config) as [pre int].
    cbn. destruct answer as [rows|]; cbn; [|done]. by rewrite scan_rows_empty by auto.
  - generalize (PostgresCollector_Metrics p answer (NewPostgresCollector config)).1.
    assert (∀ rows pg, is_Some (pg_status pg !! "all_record_count") →
      is_Some (pg_status (scan_rows rows pg) !! "all_record_count")) as Hkeep.
    { induction rows as [|[[[a b] c]|] rows IH]; intros pg Hpg; cbn; [done| |by apply IH].
      apply IH. cbn. rewrite lookup_insert_eq. by eexists. }
    intros pg rows Hrows. revert pg. cbn [collect].
    induction Hrows as [[[[a b] c]|] rows Hr|[[[a b] c]|] rows _ IH]; intros pg; cbn; try done.
    apply Hkeep. cbn. rewrite lookup_insert_eq. by eexists.
Qed.

(** What the gauges of the pool show after a refresh. *)
Theorem DBStats_shown s stats :
  g_value <$> Collectors (DBStats_Set s stats) =
  [sd_MaxOpenConnections s; sd_OpenConnections s; sd_InUse s; sd_Idle s; sd_WaitCount s;
   Z.quot (sd_WaitDuration s) 1000000; sd_MaxIdleClosed s; sd_MaxLifetimeClosed s] ∧
  g_Name <$> Collectors (DBStats_Set s stats) = g_Name <$> Collectors stats.
Proof. done. Qed.

(** ** The theorem at work *)

Lemma postgres_metrics_lost_witness :
  (PostgresCollector_Metrics (Metrics_New (mkMetricsConfig "" 10 true 0 [])) None
     (NewPostgresCollector None)).2 = [].
Proof. apply (postgres_metrics_lost _ None None). done. Defined.
