(* ===== verification/Collectors.v ===== *)
(** * The metrics of the components: [src/etl/{storage/storage_metrics,extractor/metrics,transformer/metrics,controller/metrics}.go]

    The metrics each component registers, the methods of the storage that are
    timed, and the collectors of the commands. *)

From S2P Require Import Prelude GoStd Metrics.

(** A metric of Prometheus: its name, its kind, and the labels of a vector. *)
Inductive metric_kind := Summary | GaugeKind | Counter | CounterVec (labels : list string).
Record metric := mkMetric { mt_Name : string; mt_kind : metric_kind }.

Definition NewSummary (name : string) : metric := mkMetric name Summary.
Definition gauge (name : string) : metric := mkMetric name GaugeKind.
Definition NewCounter (name : string) : metric := mkMetric name Counter.

(** ** Storage *)

Definition SaveJetDropDataDuration := NewSummary "gbe_storage_stats_SaveJetDropDataDuration".
Definition SavePulseDuration := NewSummary "gbe_storage_stats_SavePulseDuration".
Definition CompletePulseDuration := NewSummary "gbe_storage_stats_CompletePulseDuration".
Definition SequencePulseDuration := NewSummary "gbe_storage_stats_SequencePulseDuration".
Definition GetRecordDuration := NewSummary "gbe_storage_stats_GetRecordDuration".
Definition GetLifelineDuration := NewSummary "gbe_storage_stats_GetLifelineDuration".
Definition GetPulseDuration := NewSummary "gbe_storage_stats_GetPulseDuration".
Definition GetPulsesDuration := NewSummary "gbe_storage_stats_GetPulsesDuration".
Definition GetRecordsByJetDropDuration := NewSummary "gbe_storage_stats_GetRecordsByJetDropDuration".
Definition GetIncompletePulsesDuration := NewSummary "gbe_storage_stats_GetIncompletePulsesDuration".
Definition GetPulseByPrevDuration := NewSummary "gbe_storage_stats_GetPulseByPrevDuration".
Definition GetSequentialPulseDuration := NewSummary "gbe_storage_stats_GetSequentialPulseDuration".
Definition GetNextSavedPulseDuration := NewSummary "gbe_storage_stats_GetNextSavedPulseDuration".
Definition GetJetDropsDuration := NewSummary "gbe_storage_stats_GetJetDropsDuration".
Definition GetJetDropsWithParamsDuration := NewSummary "gbe_storage_stats_GetJetDropsWithParamsDuration".
Definition GetJetDropByIDDuration := NewSummary "gbe_storage_stats_GetJetDropByIDDuration".
Definition GetJetDropsByJetIDDuration := NewSummary "gbe_storage_stats_GetJetDropsByJetIDDuration".

(** [Metrics.Metrics]. *)
Definition storage_Metrics : list metric :=
  [SaveJetDropDataDuration; SavePulseDuration; CompletePulseDuration; SequencePulseDuration;
   GetRecordDuration; GetLifelineDuration; GetPulseDuration; GetPulsesDuration;
   GetRecordsByJetDropDuration; GetIncompletePulsesDuration; GetPulseByPrevDuration;
   GetSequentialPulseDuration; GetNextSavedPulseDuration; GetJetDropsDuration;
   GetJetDropsWithParamsDuration; GetJetDropByIDDuration; GetJetDropsByJetIDDuration].

(** The exported methods of the storage, and the timer each starts with
    ([prometheus.NewTimer]). *)
Inductive storage_method :=
  | SaveJetDropData | SavePulse | CompletePulse | SequencePulse | GetRecord | GetLifeline | GetPulse
  | GetPulses | GetRecordsByJetDrop | GetIncompletePulses | GetPulseByPrev | GetSequentialPulse
  | GetNextSavedPulse | GetJetDrops | GetJetDropsWithParams | GetJetDropByID | GetJetDropsByJetID
  | GetNextCompletePulseFilterByPrototypeReference.
Definition timer (m : storage_method) : option metric :=
  match m with
  | SaveJetDropData => Some SaveJetDropDataDuration
  | SavePulse => Some SavePulseDuration
  | CompletePulse => Some CompletePulseDuration
  | SequencePulse => Some SequencePulseDuration
  | GetRecord => Some GetRecordDuration
  | GetLifeline => Some GetLifelineDuration
  | GetPulse => Some GetPulseDuration
  | GetPulses => Some GetPulsesDuration
  | GetRecordsByJetDrop => Some GetRecordsByJetDropDuration
  | GetIncompletePulses => Some GetIncompletePulsesDuration
  | GetPulseByPrev => Some GetPulseByPrevDuration
  | GetSequentialPulse => Some GetSequentialPulseDuration
  | GetNextSavedPulse => Some GetNextSavedPulseDuration
  | GetJetDrops => Some GetJetDropsDuration
  | GetJetDropsWithParams => Some GetJetDropsWithParamsDuration
  | GetJetDropByID => Some GetJetDropByIDDuration
  | GetJetDropsByJetID => Some GetJetDropsByJetIDDuration
  | GetNextCompletePulseFilterByPrototypeReference => None
  end.

(** ** Extractor, transformer, controller *)

Definition LabelType : string := "type".
Definition ExtractProcessCount := gauge "gbe_extractor_process_count".
Definition FromExtractorDataQueue := gauge "gbe_extractor_data_queue".
Definition LastPulseFetched := gauge "gbe_extractor_last_pulse".
Definition extractor_Errors := mkMetric "gbe_extractor_errors" (CounterVec [LabelType]).
Definition ReceivedPulses := NewCounter "gbe_extractor_received_pulses".
Definition ReceivedRecords := NewCounter "gbe_extractor_received_records".
Definition RetrievePulsesCount := gauge "gbe_extractor_retrieve_pulses_count".
Definition RetrieveRecordsCount := gauge "gbe_extractor_retrieve_records_count".
Definition extractor_Metrics : list metric :=
  [ExtractProcessCount; FromExtractorDataQueue; LastPulseFetched; extractor_Errors; ReceivedRecords;
   ReceivedPulses; RetrievePulsesCount; RetrieveRecordsCount].

(** The [prometheus.Labels] given to [Errors.With]. *)
Definition ErrorTypeNotFound : gmap string string := {[LabelType := "not_found"]}.
Definition ErrorTypeOnRecordExport : gmap string string := {[LabelType := "record_export"]}.
Definition ErrorTypeRateLimitExceeded : gmap string string := {[LabelType := "rate_limit_exceeded"]}.

(** [CounterVec.With] panics unless it is given exactly the labels of the vector. *)
Definition With_ok (m : metric) (labels : gmap string string) : bool :=
  match mt_kind m with
  | CounterVec names => bool_decide (dom labels = list_to_set names)
  | _ => false
  end.

Definition FromTransformerDataQueue := gauge "gbe_transformer_data_queue".
Definition TransformedPulses := NewCounter "gbe_transformer_pulses".
Definition TransformedRecords := NewCounter "gbe_transformer_records".
Definition transformer_Errors := NewCounter "gbe_transformer_errors".
Definition transformer_Metrics : list metric :=
  [FromTransformerDataQueue; TransformedRecords; TransformedPulses; transformer_Errors].

Definition IncompletePulsesQueue := gauge "gbe_controller_data_queue".
Definition CurrentSeqPulse := gauge "gbe_controller_current_seq_pulse".
Definition PulseCompleteCounter := NewCounter "gbe_controller_pulse_complete_counter".
Definition PulseNotCompleteCounter := NewCounter "gbe_controller_pulse_not_complete_counter".
Definition controller_Metrics : list metric :=
  [IncompletePulsesQueue; CurrentSeqPulse; PulseNotCompleteCounter; PulseCompleteCounter].

(** ** The commands *)

Definition names (ms : list metric) : list string := mt_Name <$> ms.
Definition stats_names : list string := g_Name <$> Collectors NewStatsCollector.

(** The collectors of [cmd/block-explorer/main.go] and [cmd/api/main.go]; the
    names of the row counts, in some order, are what their collector answers. *)
Definition block_explorer_collectors (postgres : list string) : list (list string) :=
  [postgres; stats_names; names storage_Metrics; names extractor_Metrics; names transformer_Metrics;
   names controller_Metrics].
Definition api_collectors : list (list string) := [stats_names; names storage_Metrics].

(** [prometheus.Register] for one name after the other: a name that is taken is
    refused.  The names refused, and all that are registered in the end. *)
Fixpoint register_all (registered : gset string) (ns : list string) : list string * gset string :=
  match ns with
  | [] => ([], registered)
  | n :: ns =>
      let '(refused, registered') := register_all ({[n]} ∪ registered) ns in
      ((if decide (n ∈ registered) then [n] else []) ++ refused, registered')
  end.

(** ** Theorems *)

Lemma register_all_spec reg ns :
  (register_all reg ns).2 = list_to_set ns ∪ reg ∧
  (NoDup ns → (∀ n, n ∈ ns → n ∉ reg) → (register_all reg ns).1 = []).
Proof.
  revert reg. induction ns as [|n ns IH]; intros reg; cbn.
  { split; [by rewrite (left_id_L ∅ (∪))|done]. }
  destruct (IH ({[n]} ∪ reg)) as [Hreg Hnone]. destruct (register_all _ ns) as [refused reg'].
  cbn in *. split; [rewrite Hreg; set_solver|].
  intros [Hn Hnd]%NoDup_cons Hfree. rewrite decide_False by (apply Hfree; left). cbn. apply Hnone; [done|].
  intros m Hm. assert (m ∉ reg) by (apply Hfree; by right). assert (m ≠ n) by (by intros ->). set_solver.
Qed.

(** The gauges of the row counts, if the collector hands them over at all. *)
Definition postgres_names : list string :=
  (λ n, "gbe_gorm_status_" +:+ n) <$> ["all_jetdrop_count"; "all_pulse_count"; "all_record_count"].

(** No two metrics of a command share a name, so that each is registered when the
    command starts; each timed method of the storage has a summary of its own
    among them, and only the query of the exporter is not timed; and the labels
    the extractor counts errors under are those of its counter. *)
Theorem metrics_registered postgres :
  postgres ≡ₚ postgres_names ∨ postgres = [] →
  (∀ cs, cs = block_explorer_collectors postgres ∨ cs = api_collectors →
     (register_all ∅ (concat cs)).1 = []) ∧
  (∀ m t, timer m = Some t → mt_kind t = Summary ∧
     t ∈ storage_Metrics ∧ ∀ m', timer m' = Some t → m' = m) ∧
  (∀ m, timer m = None ↔ m = GetNextCompletePulseFilterByPrototypeReference) ∧
  Forall (λ l, With_ok extractor_Errors l = true)
    [ErrorTypeNotFound; ErrorTypeOnRecordExport; ErrorTypeRateLimitExceeded].
Proof.
  intros Hpg. split_and!.
  - intros cs Hcs. apply register_all_spec; [|intros n _; apply not_elem_of_empty].
    assert (NoDup (concat (block_explorer_collectors postgres_names))) as Hall
      by (apply (bool_decide_unpack _); vm_compute; exact I).
    destruct Hcs as [->| ->]; [|apply (bool_decide_unpack _); vm_compute; exact I].
    destruct Hpg as [Hpg| ->]; [|apply (bool_decide_unpack _); vm_compute; exact I].
    cbn [block_explorer_collectors concat] in *. by rewrite Hpg.
  - intros m t Ht. split; [by destruct m; try discriminate Ht; injection Ht as <-|]. split.
    + destruct m; try discriminate Ht; injection Ht as <-;
        unfold storage_Metrics; rewrite !elem_of_cons; tauto.
    + intros m' Ht'. rewrite <- Ht in Ht'. clear t Ht. destruct m, m'; done.
  - intros []; split; done.
  - repeat constructor.
Qed.

Lemma metrics_registered_witness :
  (register_all ∅ (concat (block_explorer_collectors postgres_names))).1 = [].
Proof. apply (metrics_registered postgres_names); left; reflexivity. Defined.
