(* ===== verification/Commands.v ===== *)
(** * The smaller commands: [src/cmd/{migrate,loadtest_migrate}], [src/configuration/gen], [src/api/pprof_router.go]

    Two commands that migrate a database, the generator of the configuration
    files, and the router of the profiler.  gormigrate, the database driver and
    the file system are third-party code or the outside world; a call that ends
    the process ([log.Fatal], [panic]) skips the deferred calls. *)

From S2P Require Import Prelude GoStd Platform RefPlatform Models Converter Gorm RefDb WellFormed Random Migrations.

(** ** Migrating *)

(** [gormigrate.Options], as far as the program sets them. *)
Record Options := mkOptions { UseTransaction : bool; ValidateUnknownMigrations : bool }.
(** [gormigrate.DefaultOptions], a pointer: what is set stays set. *)
Definition DefaultOptions : Options := mkOptions false false.
Definition MigrationOptions (defaults : Options) : Options :=
  let options := defaults in
  let options := mkOptions true (ValidateUnknownMigrations options) in
  mkOptions (UseTransaction options) true.

(** gormigrate: the identifiers of the migrations a database has had, recording
    one, and [Migrate].  Documented: it refuses a database with an identifier it
    does not know, if it is to validate; it runs those that have not run, in
    order, recording each; and in a transaction nothing is left of a run that
    fails. *)
Class Gormigrate (Tx : Type) := {
  applied : Tx → list string;
  InsertMigration : string → Tx → result Tx;
  gormigrate : Options → list (Migration Tx) → Tx → Tx * option error;
}.

Section run.
Context `{Gormigrate Tx}.

Fixpoint run_pending (ms : list (Migration Tx)) (tx : Tx) : result Tx :=
  match ms with
  | [] => Ok tx
  | m :: ms =>
      if decide (m_ID m ∈ applied tx) then run_pending ms tx
      else
        tx ← m_Migrate m tx;
        tx ← InsertMigration (m_ID m) tx;
        run_pending ms tx
  end.

Definition unknown (ms : list (Migration Tx)) (tx : Tx) : Prop :=
  Exists (λ id, id ∉ m_ID <$> ms) (applied tx).
End run.

Class GormigrateLaws (Tx : Type) `{Gormigrate Tx} := {
  InsertMigration_Ok : ∀ id tx tx', InsertMigration id tx = Ok tx' → applied tx' = applied tx ++ [id];
  gormigrate_refuses : ∀ o ms tx, ValidateUnknownMigrations o = true → unknown ms tx →
    ∃ err, gormigrate o ms tx = (tx, Some err);
  gormigrate_Ok : ∀ o ms tx tx', gormigrate o ms tx = (tx', None) → run_pending ms tx = Ok tx';
  gormigrate_Err : ∀ o ms tx tx' err, UseTransaction o = true →
    gormigrate o ms tx = (tx', Some err) → tx' = tx;
}.

(** What a command does that can be seen from outside. *)
Inductive cmd_action :=
  | PrintConfig                (* fmt.Println *)
  | SetLogMode                 (* db.LogMode(true), db.SetLogger *)
  | LogInfo (msg : string)
  | CloseDB.                   (* the deferred db.Close() *)
Inductive cmd_end :=
  | CmdReturned
  | CmdPanicked                (* panic(err) *)
  | CmdFatal (msg : string).   (* log.Fatalf *)
#[export] Instance cmd_end_eq_dec : EqDecision cmd_end.
Proof. solve_decision. Defined.

Section mains.
Context `{Gormigrate Tx}.

(** From the database on, with the migrations of the command. *)
Definition migrate_with (ms : list (Migration Tx)) (load : option error) (open : option error)
  (db : Tx) : list cmd_action * cmd_end * Tx :=
  match load with
  | Some err => ([], CmdPanicked, db)
  | None =>
      match open with
      | Some err =>
          ([PrintConfig], CmdFatal ("Error while connecting to database: " +:+ Error err), db)
      | None =>
          let '(db, err) := gormigrate (MigrationOptions DefaultOptions) ms db in
          match err with
          | Some err => ([PrintConfig; SetLogMode], CmdFatal ("Could not migrate: " +:+ Error err), db)
          | None => ([PrintConfig; SetLogMode; LogInfo "migrated successfully!"; CloseDB], CmdReturned, db)
          end
      end
  end.

Context `{Schemas Tx}.

(** [cmd/migrate]; [load] is the error of [insConfigurator.Load], [open] the one of
    [gorm.Open]. *)
Definition main_migrate (load open : option error) (db : Tx) : list cmd_action * cmd_end * Tx :=
  migrate_with Migrations load open db.

Context `{Random G, !Gorm Tx}.

(** A panic of a migration, as an error.  gormigrate rolls its transaction back
    when one comes through, as it does for an error. *)
Definition generator_panic : error := ErrMsg "panic: invalid argument to Intn".

(** The migration of the load test: [generateData], drawing from [g]. *)
Definition LoadTestMigrations (fuel : nat) (cfg : TestDB) (g : G) : Migration Tx :=
  mkMigration "202005180425"
    (λ tx, match LoadTestMigrate fuel cfg tx g with
           | Some (r, _) => r
           | None => Err generator_panic
           end)
    (DropTableIfExists ["records"; "jet_drops"; "pulses"]).

(** [cmd/loadtest_migrate]; the deferred [db.Close] runs when a migration panics. *)
Definition main_loadtest_migrate (fuel : nat) (cfg : TestDB) (g : G) (load open : option error) (db : Tx)
  : list cmd_action * cmd_end * Tx :=
  let '(acts, e, db) := migrate_with (Migrations ++ [LoadTestMigrations fuel cfg g]) load open db in
  if decide (e = CmdFatal ("Could not migrate: " +:+ Error generator_panic))
  then (acts ++ [CloseDB], CmdPanicked, db) else (acts, e, db).
End mains.

(** ** The configuration files: [configuration/gen/gen.go] *)

(** The files and the structs they are generated from. *)
Definition config_files : gmap string string :=
  list_to_map
    [(".artifacts/block-explorer.yaml", "BlockExplorer"); (".artifacts/migrate.yaml", "DB");
     (".artifacts/api.yaml", "API"); (".artifacts/exporter-api.yaml", "Exporter");
     ("./load/migrate_cfg/migrate.yaml", "TestDB")].

(** What the file system answers for one file: [os.Create], [TemplateTo] and
    [f.Close]. *)
Record FileAnswers := mkFileAnswers {
  fa_create : option error;
  fa_template : option error;
  fa_close : option error;
}.

(** What has become of a file: created, and perhaps with the content of its
    struct. *)
Inductive file_state := FileCreated | FileWritten (config : string).

(** The function called for one file; the deferred close follows the template. *)
Definition gen_file (filePath config : string) (a : FileAnswers) (fs : gmap string file_state)
  : gmap string file_state * cmd_end :=
  match fa_create a with
  | Some err => (fs, CmdFatal ("failed to create config file " +:+ filePath +:+ ": " +:+ Error err))
  | None =>
      match fa_template a with
      | Some err =>
          (<[filePath := FileCreated]> fs,
           CmdFatal ("failed to write config file " +:+ filePath +:+ ": " +:+ Error err))
      | None =>
          (<[filePath := FileWritten config]> fs,
           match fa_close a with
           | Some err => CmdFatal ("failed to close config file " +:+ filePath +:+ ": " +:+ Error err)
           | None => CmdReturned
           end)
      end
  end.

(** The loop of [main], over the map in some order. *)
Fixpoint gen_loop (files : list (string * string)) (answer : string → FileAnswers)
  (fs : gmap string file_state) : gmap string file_state * cmd_end :=
  match files with
  | [] => (fs, CmdReturned)
  | (filePath, config) :: files =>
      match gen_file filePath config (answer filePath) fs with
      | (fs, CmdReturned) => gen_loop files answer fs
      | (fs, e) => (fs, e)
      end
  end.
Definition main_gen (order : list (string * string)) (answer : string → FileAnswers)
  (fs : gmap string file_state) : gmap string file_state * cmd_end :=
  gen_loop order answer fs.

(** ** The router of the profiler: [api/pprof_router.go] *)

Inductive router_page := Healthcheck | PprofIndex | PprofCmdline | PprofProfile | PprofSymbol | PprofTrace.
#[export] Instance router_page_eq_dec : EqDecision router_page.
Proof. solve_decision. Defined.

(** The patterns given to [mux.HandleFunc]. *)
Definition NewRouter : list (string * router_page) :=
  [("/healthcheck", Healthcheck); ("/debug/pprof/", PprofIndex); ("/debug/pprof/cmdline", PprofCmdline);
   ("/debug/pprof/profile", PprofProfile); ("/debug/pprof/symbol", PprofSymbol);
   ("/debug/pprof/trace", PprofTrace)].

(** [http.ServeMux] on a cleaned path: a pattern that ends in a slash stands for
    all paths below it, any other for itself; the longest one wins. *)
Definition ends_in_slash (p : string) : bool :=
  bool_decide (String.get (String.length p - 1) p = Some "/"%char).
Definition pattern_matches (p path : string) : bool :=
  if ends_in_slash p then String.prefix p path else bool_decide (p = path).
Definition longer (path : string) (best : option (string * router_page)) (e : string * router_page)
  : option (string * router_page) :=
  if pattern_matches e.1 path then
    match best with
    | Some b => if decide (String.length b.1 < String.length e.1)%nat then Some e else best
    | None => Some e
    end
  else best.
Definition mux_match (mux : list (string * router_page)) (path : string) : option router_page :=
  snd <$> foldl (longer path) None mux.

(** What [Handler] does with a cleaned path. *)
Inductive routed := Serves (p : router_page) | RedirectTo (path : string) | NotFound.
Definition mux_handler (mux : list (string * router_page)) (path : string) : routed :=
  if negb (existsb (λ e, bool_decide (e.1 = path)) mux)
     && existsb (λ e, bool_decide (e.1 = path +:+ "/")) mux
  then RedirectTo (path +:+ "/")
  else match mux_match mux path with Some p => Serves p | None => NotFound end.

(** [Start] returns at once; the error of [ListenAndServe] is logged unless it is
    [http.ErrServerClosed]. *)
Inductive listen_end := ServerClosed | ListenErr (err : error).
Definition Router_Start (listenAndServe : listen_end) : option error * list error :=
  (None, match listenAndServe with
         | ServerClosed => []
         | ListenErr err => [ErrWrap err "http server ListenAndServe"]
         end).
Definition Router_Stop (shutdown : option error) : option error * list error :=
  match shutdown with
  | Some err => (Some err, [ErrWrap err "http server shutdown"])
  | None => (None, [])
  end.

(** ** Theorems: migrating *)

(** A database has its schema, its rows and the history of gormigrate.  Documented:
    a statement on the schema leaves rows and history, a row that is saved leaves
    schema and history, and gormigrate records in a table of its own. *)
Class SeparateLaws (Tx : Type) `{!Gorm Tx, !Schemas Tx, !Gormigrate Tx} := {
  CreateTable_apart : ∀ s (tx tx' : Tx), CreateTable s tx = Ok tx' →
    tables tx' = tables tx ∧ applied tx' = applied tx;
  AddIndex_apart : ∀ model name cols (tx tx' : Tx), AddIndex model name cols tx = Ok tx' →
    tables tx' = tables tx ∧ applied tx' = applied tx;
  AddForeignKey_apart : ∀ model field dest on_delete on_update (tx tx' : Tx),
    AddForeignKey model field dest on_delete on_update tx = Ok tx' →
    tables tx' = tables tx ∧ applied tx' = applied tx;
  Save_Pulse_apart : ∀ p (tx tx' : Tx), Save_Pulse p tx = Ok tx' →
    schema tx' = schema tx ∧ applied tx' = applied tx;
  Save_JetDrop_apart : ∀ j (tx tx' : Tx), Save_JetDrop j tx = Ok tx' →
    schema tx' = schema tx ∧ applied tx' = applied tx;
  Save_Record_apart : ∀ r (tx tx' : Tx), Save_Record r tx = Ok tx' →
    schema tx' = schema tx ∧ applied tx' = applied tx;
  InsertMigration_apart : ∀ id (tx tx' : Tx), InsertMigration id tx = Ok tx' →
    schema tx' = schema tx ∧ tables tx' = tables tx;
}.
Arguments SeparateLaws Tx {_ _ _}.

Section migrated.
Context `{HP : Platform, !PlatformLaws, !Random G, !RandomLaws G}.
Context `{GormigrateLaws Tx, !Schemas Tx, !SchemasLaws Tx, !Gorm Tx, !GormLaws Tx, !SeparateLaws Tx}.

Lemma migrate_with_returned ms load open db acts db' :
  migrate_with ms load open db = (acts, CmdReturned, db') →
  run_pending ms db = Ok db' ∧ ¬ unknown ms db ∧ acts = [PrintConfig; SetLogMode; LogInfo "migrated successfully!"; CloseDB].
Proof.
  unfold migrate_with. destruct load, open; try done.
  destruct (gormigrate _ _ _) as [db1 [err|]] eqn:Hg; [done|]. intros [= <- <-].
  split; [by eapply gormigrate_Ok|]. split; [|done]. intros Hu.
  destruct (gormigrate_refuses (MigrationOptions DefaultOptions) ms db eq_refl Hu) as [err Herr]. congruence.
Qed.

Lemma migrate_with_failed ms load open db acts e db' :
  migrate_with ms load open db = (acts, e, db') → e ≠ CmdReturned → db' = db.
Proof.
  unfold migrate_with. destruct load; [by intros [= _ _ <-]|]. destruct open; [by intros [= _ _ <-]|].
  destruct (gormigrate _ _ _) as [db1 [err|]] eqn:Hg; [|by intros [= _ <- _]]. intros [= _ _ <-] _.
  by apply gormigrate_Err in Hg.
Qed.

Lemma run_pending_applied ms db : Forall (λ m, m_ID m ∈ applied db) ms → run_pending ms db = Ok db.
Proof. induction 1 as [|m ms Hm _ IH]; [done|]. cbn. by rewrite decide_True. Qed.

(** A migration does not touch the table of gormigrate. *)
Definition keeps_history (migrate : Tx → result Tx) : Prop :=
  ∀ tx tx', migrate tx = Ok tx' → applied tx' = applied tx.

Lemma Migrate_apart (tx tx' : Tx) :
  Migrate tx = Ok tx' → tables tx' = tables tx ∧ applied tx' = applied tx.
Proof.
  unfold Migrate. intros Hm.
  repeat (apply result_bind_Ok in Hm as (? & ?Hs & Hm)).
  repeat match goal with
  | Hs : CreateTable _ _ = Ok _ |- _ => apply CreateTable_apart in Hs as [? ?]
  | Hs : AddIndex _ _ _ _ = Ok _ |- _ => apply AddIndex_apart in Hs as [? ?]
  | Hs : AddForeignKey _ _ _ _ _ _ = Ok _ |- _ => apply AddForeignKey_apart in Hs as [? ?]
  end.
  split; congruence.
Qed.

Lemma save_all_apart {A} (save : A → Tx → result Tx) xs (tx tx' : Tx) :
  (∀ x tx tx', save x tx = Ok tx' → schema tx' = schema tx ∧ applied tx' = applied tx) →
  save_all save xs tx = Ok tx' → schema tx' = schema tx ∧ applied tx' = applied tx.
Proof.
  intros Hs. revert tx. induction xs as [|x xs IH]; intros tx; cbn; [by intros [= ->]|].
  intros (tx1 & [<- <-]%Hs & Hx)%result_bind_Ok. by apply IH.
Qed.

Lemma generateData_apart fuel cfg (tx tx' : Tx) g g' :
  generateData fuel cfg tx g = Some (Ok tx', g') → schema tx' = schema tx ∧ applied tx' = applied tx.
Proof.
  intros (ps & js & rs & _ & _ & _ & _ & _ & tx1 & tx2 & Hp & Hj & Hr)%generateData_Ok.
  apply save_all_apart in Hp as [<- <-]; [|apply Save_Pulse_apart].
  apply save_all_apart in Hj as [<- <-]; [|apply Save_JetDrop_apart].
  by apply save_all_apart in Hr as [<- <-]; [|apply Save_Record_apart].
Qed.

(** The load test's migration that succeeds is a run of [generateData]. *)
Lemma LoadTest_Ok fuel cfg g (tx tx' : Tx) :
  m_Migrate (LoadTestMigrations fuel cfg g) tx = Ok tx' →
  ∃ g', generateData fuel cfg tx g = Some (Ok tx', g').
Proof.
  cbn [m_Migrate LoadTestMigrations].
  destruct (LoadTestMigrate fuel cfg tx g) as [[r g']|] eqn:Hg; [|done]. intros ->.
  apply Gen_bind_Some in Hg as ([tx1|err] & g1 & Hg & [Hr _]%Gen_ret_Some); [|done].
  injection Hr as ->. by exists g1.
Qed.

Lemma main_loadtest_returned fuel cfg g load open (db : Tx) acts db' :
  main_loadtest_migrate fuel cfg g load open db = (acts, CmdReturned, db') →
  migrate_with (Migrations ++ [LoadTestMigrations fuel cfg g]) load open db = (acts, CmdReturned, db').
Proof. unfold main_loadtest_migrate. destruct (migrate_with _ _ _ _) as [[a e] d]. by case_decide. Qed.

Lemma run_pending_new m ms db db' :
  keeps_history (m_Migrate m) → m_ID m ∉ applied db → run_pending (m :: ms) db = Ok db' →
  ∃ tx tx', m_Migrate m db = Ok tx ∧ InsertMigration (m_ID m) tx = Ok tx' ∧
    applied tx' = applied db ++ [m_ID m] ∧ run_pending ms tx' = Ok db'.
Proof.
  intros Hk Hm. cbn [run_pending]. rewrite decide_False by done.
  intros (tx & Htx & (tx' & Hi & Hr)%result_bind_Ok)%result_bind_Ok.
  exists tx, tx'. split_and!; try done. rewrite (InsertMigration_Ok _ _ _ Hi). by rewrite (Hk _ _ Htx).
Qed.

(** A fresh database after the plain command, and a migrated one after the load
    test's. *)
Lemma migrated_once (db db' : Tx) :
  applied db = [] → run_pending Migrations db = Ok db' →
  schema db' = with_tables (schema db) ∧ tables db' = tables db ∧ applied db' = ["202005180421"].
Proof.
  intros Hfresh Hrun1. unfold Migrations in Hrun1.
  apply run_pending_new in Hrun1 as (tx & tx' & Hm & Hi & Ha & [= ->]);
    [|by intros ? ? [_ ?]%Migrate_apart|rewrite Hfresh; apply not_elem_of_nil].
  pose proof (Migrate_apart _ _ Hm) as [Ht _]. apply Migrate_Ok in Hm as [Hs _].
  apply InsertMigration_apart in Hi as [His Hit]. rewrite Hfresh in Ha. split_and!; [congruence..|done].
Qed.

Lemma run_pending_known ms (db : Tx) :
  applied db = ["202005180421"] → run_pending (Migrations ++ ms) db = run_pending ms db.
Proof. intros Ha. unfold Migrations. cbn [app run_pending m_ID]. rewrite decide_True; [done|]. rewrite Ha. left. Qed.

Lemma load_once fuel cfg g (db db' : Tx) :
  applied db = ["202005180421"] →
  run_pending (Migrations ++ [LoadTestMigrations fuel cfg g]) db = Ok db' →
  ∃ tx g', generateData fuel cfg db g = Some (Ok tx, g') ∧ schema db' = schema db ∧
    tables db' = tables tx ∧ applied db' = ["202005180421"; "202005180425"].
Proof.
  intros Ha Hrun3. rewrite run_pending_known in Hrun3 by done.
  apply run_pending_new in Hrun3 as (tx & tx' & [g' Hg]%LoadTest_Ok & Hi & Hga & [= ->]);
    [|by intros ? ? [? [_ ?]%generateData_apart]%LoadTest_Ok|rewrite Ha; cbn; set_solver].
  apply InsertMigration_apart in Hi as [His Hit]. apply generateData_apart in Hg as Hg'. destruct Hg' as [Hs _].
  exists tx, g'. rewrite Hga, Ha. split_and!; [done|congruence|done..].
Qed.

(** C39: The life of a load test database.  An empty database gets the tables of
    the schema and no rows; running the command again changes nothing.  The command
    of the load test then adds what [generateData] makes for its configuration and
    nothing else: as many pulses as configured, in a chain, one drop less than
    configured, each of one of these pulses, and one record less, each of one of
    these drops; the schema stays and the rows are well formed.  Running it again,
    whatever is configured or drawn, adds nothing; and the plain command refuses
    the database from now on, which it leaves as it is, because it does not know
    the load test's migration. *)
Theorem migrations_compose fuel cfg g (db : Tx) acts1 db1 acts2 db2 acts3 db3 :
  applied db = [] → tables db = no_rows →
  main_migrate None None db = (acts1, CmdReturned, db1) →
  main_migrate None None db1 = (acts2, CmdReturned, db2) →
  main_loadtest_migrate fuel cfg g None None db2 = (acts3, CmdReturned, db3) →
  schema db1 = with_tables (schema db) ∧ tables db1 = no_rows ∧ db2 = db1 ∧
  (∃ pulses drops records,
    pulses_generated (TestPulses cfg) pulses ∧
    length drops = Z.to_nat (TestJetDrops cfg - 1) ∧ Forall (drop_generated pulses) drops ∧
    length records = Z.to_nat (TestRecords cfg - 1) ∧ Forall (record_generated drops) records ∧
    tables db3 = mkTables (insert_all p_PulseNumber pulses ∅) (insert_all jd_key drops ∅)
                   (insert_all r_Reference records ∅)) ∧
  schema db3 = schema db1 ∧ well_formed (tables db3) ∧
  (∀ fuel' cfg' g' acts4 db4,
    main_loadtest_migrate fuel' cfg' g' None None db3 = (acts4, CmdReturned, db4) → db4 = db3) ∧
  ∃ msg, main_migrate None None db3 = ([PrintConfig; SetLogMode], CmdFatal msg, db3).
Proof.
  intros Hfresh Hempty. unfold main_migrate.
  intros (Hrun1 & _ & _)%migrate_with_returned (Hrun2 & _ & _)%migrate_with_returned
    (Hrun3 & _ & _)%main_loadtest_returned%migrate_with_returned.
  apply migrated_once in Hrun1 as (Hs1 & Ht1 & Ha1); [|done..].
  rewrite (run_pending_known [] _ Ha1 : run_pending Migrations db1 = Ok db1) in Hrun2. injection Hrun2 as <-.
  apply load_once in Hrun3 as (tx & g' & Hg & Hs3 & Ht3 & Ha3); [|done].
  apply generateData_spec in Hg as (ps & js & rs & Hps & Lj & Fj & Lr & Fr & Ht & Hwf & _);
    [|rewrite Ht1, Hempty; apply no_rows_well_formed].
  split; [done|]. split; [congruence|]. split; [done|].
  split. { exists ps, js, rs. split_and!; [done..|]. rewrite Ht3, Ht, Ht1, Hempty. done. }
  split; [done|]. split; [by rewrite Ht3|].
  split.
  - intros fuel' cfg' g'' acts4 db4 (Hrun4 & _ & _)%main_loadtest_returned%migrate_with_returned.
    rewrite run_pending_applied in Hrun4; [by injection Hrun4|]. rewrite Ha3. repeat constructor.
  - unfold migrate_with.
    destruct (gormigrate_refuses (MigrationOptions DefaultOptions) Migrations db3 eq_refl) as [err ->];
      [|by eexists].
    unfold unknown. rewrite Ha3. apply Exists_exists. exists "202005180425".
    split; [right; left|]. cbn. set_solver.
Qed.
End migrated.

(** ** Theorems: the configuration files *)

Definition no_failure : FileAnswers := mkFileAnswers None None None.
Definition writes (a : FileAnswers) : bool :=
  match a with mkFileAnswers None None None => true | _ => false end.

Lemma gen_loop_spec files answer fs :
  (Forall (λ f, answer f.1 = no_failure) files →
   gen_loop files answer fs =
     (foldl (λ fs f, <[f.1 := FileWritten f.2]> fs) fs files, CmdReturned)) ∧
  ((gen_loop files answer fs).2 = CmdReturned → Forall (λ f, answer f.1 = no_failure) files).
Proof.
  revert fs. induction files as [|[path config] files IH]; intros fs; cbn [gen_loop foldl fst snd]; [done|].
  unfold gen_file. split.
  - intros [Ha Hall]%Forall_cons. cbn in Ha. rewrite Ha. cbn. by apply IH.
  - destruct (answer path) as [create template close] eqn:Ha; cbn.
    destruct create; [done|]. destruct template; [done|]. destruct close; [done|].
    intros Hret%IH. by constructor.
Qed.

Lemma foldl_insert_written files (fs : gmap string file_state) :
  NoDup files.*1 →
  foldl (λ fs f, <[f.1 := FileWritten f.2]> fs) fs files =
  (FileWritten <$> list_to_map files) ∪ fs.
Proof.
  revert fs. induction files as [|[path config] files IH]; intros fs; cbn.
  { by rewrite fmap_empty, (left_id_L ∅ (∪)). }
  intros [Hn Hnd]%NoDup_cons. rewrite IH, fmap_insert, <- insert_union_l by done.
  symmetry. apply insert_union_r. rewrite lookup_fmap, fmap_None. by apply not_elem_of_list_to_map.
Qed.

(** The generator returns exactly when nothing fails, and then every file has been
    written from its struct and no other file has been touched, whatever the order
    of the loop. *)
Theorem main_gen_spec order answer fs :
  order ≡ₚ map_to_list config_files →
  ((main_gen order answer fs).2 = CmdReturned ↔
   Forall (λ f, answer f.1 = no_failure) (map_to_list config_files)) ∧
  ((main_gen order answer fs).2 = CmdReturned →
   (main_gen order answer fs).1 = (FileWritten <$> config_files) ∪ fs).
Proof.
  intros Hperm. destruct (gen_loop_spec order answer fs) as [Hok Hret].
  unfold main_gen. rewrite <- Hperm. split.
  - split; [done|]. intros Hall. by rewrite (Hok Hall).
  - intros Hall%Hret. rewrite (Hok Hall). cbn [fst].
    rewrite foldl_insert_written by (rewrite Hperm; apply NoDup_fst_map_to_list). f_equal.
    f_equal. rewrite (list_to_map_proper order (map_to_list config_files)), list_to_map_to_list;
      [done| |done]. rewrite Hperm. apply NoDup_fst_map_to_list.
Qed.

(** ** Theorems: the router *)

Definition debug_path (path : string) : bool := String.prefix "/debug/pprof/" path.

Lemma ends_slash s path : s = path +:+ "/" → ends_in_slash s = true.
Proof.
  intros ->. unfold ends_in_slash. apply bool_decide_eq_true. rewrite str_length_app. cbn [String.length].
  replace (String.length path + 1 - 1)%nat with (0 + String.length path)%nat by lia.
  by rewrite <- String.append_correct2.
Qed.

Lemma snoc_inj s t c : s +:+ String c "" = t +:+ String c "" → s = t.
Proof.
  revert t. induction s as [|a s IH]; intros [|b t]; str_simpl; intros [=]; try done.
  - destruct t; done.
  - destruct s; done.
  - f_equal; [done|]. by apply IH.
Qed.

Lemma debug_slash path : "/debug/pprof/" = path +:+ "/" → path = "/debug/pprof".
Proof. intros Heq. by apply (snoc_inj _ _ "/"%char). Qed.

(** Every page has its path; any other path under [/debug/pprof/] is the index's,
    [/debug/pprof] leads there, and nothing else is served. *)
Theorem router_spec path :
  mux_handler NewRouter path =
  if decide (path = "/healthcheck") then Serves Healthcheck
  else if decide (path = "/debug/pprof/cmdline") then Serves PprofCmdline
  else if decide (path = "/debug/pprof/profile") then Serves PprofProfile
  else if decide (path = "/debug/pprof/symbol") then Serves PprofSymbol
  else if decide (path = "/debug/pprof/trace") then Serves PprofTrace
  else if debug_path path then Serves PprofIndex
  else if decide (path = "/debug/pprof") then RedirectTo "/debug/pprof/"
  else NotFound.
Proof.
  repeat (case_decide; [subst path; vm_compute; reflexivity|]).
  unfold mux_handler, mux_match, NewRouter. cbn [existsb foldl]. unfold longer, pattern_matches. cbn [fst].
  repeat match goal with
  | |- context [bool_decide (?s = path +:+ "/")] =>
      rewrite (bool_decide_eq_false_2 (s = path +:+ "/"))
        by (solve [by intros ?%ends_slash] || by intros ?%debug_slash)
  end.
  cbn [orb]. rewrite andb_false_r. change (ends_in_slash "/healthcheck") with false.
  change (ends_in_slash "/debug/pprof/cmdline") with false.
  change (ends_in_slash "/debug/pprof/profile") with false.
  change (ends_in_slash "/debug/pprof/symbol") with false.
  change (ends_in_slash "/debug/pprof/trace") with false.
  change (ends_in_slash "/debug/pprof/") with true.
  rewrite (bool_decide_eq_false_2 ("/healthcheck" = path)), (bool_decide_eq_false_2 ("/debug/pprof/cmdline" = path)),
    (bool_decide_eq_false_2 ("/debug/pprof/profile" = path)),
    (bool_decide_eq_false_2 ("/debug/pprof/symbol" = path)),
    (bool_decide_eq_false_2 ("/debug/pprof/trace" = path)) by congruence.
  unfold debug_path. by destruct (String.prefix _ _).
Qed.

(** ** The theorems at work *)

(** A database with the identifiers of its migrations. *)
Definition lift {A} (f : A → result A) (tx : A * list string) : result (A * list string) :=
  s ← f tx.1; Ok (s, tx.2).

Lemma lift_Ok {A} (f : A → result A) tx tx' : lift f tx = Ok tx' → f tx.1 = Ok tx'.1 ∧ tx'.2 = tx.2.
Proof. by intros (s & Hs & [= <-])%result_bind_Ok. Qed.

Section history.
Context `{HA : SchemasLaws A}.

#[local] Instance history_schemas : Schemas (A * list string) := {|
  schema tx := schema tx.1;
  TableName := TableName (Tx := A);
  ColumnName := ColumnName (Tx := A);
  CreateTable st := lift (CreateTable st);
  AddIndex model name cols := lift (AddIndex model name cols);
  AddForeignKey model fk dest on_delete on_update := lift (AddForeignKey model fk dest on_delete on_update);
  DropTableIfExists names := lift (DropTableIfExists names);
|}.

#[local] Instance history_schemas_laws : SchemasLaws (A * list string).
Proof.
  constructor.
  - exact (TableName_of (Tx := A)).
  - exact (ColumnName_of (Tx := A)).
  - intros st tx tx' [Hf _]%lift_Ok. by apply CreateTable_Ok in Hf.
  - intros model name cols tx tx' [Hf _]%lift_Ok. by apply AddIndex_Ok in Hf.
  - intros model fk dest od ou tx tx' [Hf _]%lift_Ok. by apply AddForeignKey_Ok in Hf.
  - intros names tx tx' [Hf _]%lift_Ok. by apply DropTableIfExists_Ok in Hf.
Qed.

Definition history_insert (id : string) (tx : A * list string) : result (A * list string) :=
  Ok (tx.1, tx.2 ++ [id]).
(** The history alone, without a runner. *)
Definition history_only : Gormigrate (A * list string) := {|
  applied := snd;
  InsertMigration := history_insert;
  gormigrate _ _ tx := (tx, None);
|}.
#[local] Instance unknown_dec ms (tx : A * list string) :
  Decision (unknown (H := history_only) ms tx).
Proof. unfold unknown. apply _. Defined.
#[local] Instance history_gormigrate : Gormigrate (A * list string) := {|
  applied := snd;
  InsertMigration := history_insert;
  gormigrate o ms tx :=
    if decide (unknown (H := history_only) ms tx) then (tx, Some (ErrMsg "unknown migration in database"))
    else match run_pending (H := history_only) ms tx with
         | Ok tx' => (tx', None)
         | Err err => (tx, Some err)
         end;
|}.

Lemma history_run ms tx : run_pending (H := history_gormigrate) ms tx = run_pending (H := history_only) ms tx.
Proof.
  revert tx. induction ms as [|m ms IH]; intros tx; [done|]. cbn [run_pending].
  cbn [applied history_gormigrate history_only InsertMigration].
  case_decide; [apply IH|]. destruct (m_Migrate m tx); cbn; [apply IH|done].
Qed.

#[local] Instance history_gormigrate_laws : GormigrateLaws (A * list string).
Proof.
  constructor.
  - by intros id tx tx' [= <-].
  - intros o ms tx _ Hu. cbn [gormigrate history_gormigrate]. rewrite decide_True by exact Hu. by eexists.
  - intros o ms tx tx'. cbn [gormigrate history_gormigrate]. rewrite history_run.
    case_decide; [done|]. destruct (run_pending _ _); [by intros [= ->]|done].
  - intros o ms tx tx' err _. cbn [gormigrate history_gormigrate].
    case_decide; [by intros [= <- _]|]. destruct (run_pending _ _); [done|by intros [= <- _]].
Qed.
End history.
#[local] Existing Instances history_schemas history_schemas_laws history_gormigrate history_gormigrate_laws.

(** Rows and a schema; the rows are those of the concrete database. *)
#[local] Instance rows_schemas : Schemas (RefDB * Schema) :=
  let lift (f : Schema → result Schema) tx := s ← f tx.2; Ok (tx.1, s) in {|
  schema tx := tx.2;
  TableName := TableName (Tx := Schema);
  ColumnName := ColumnName (Tx := Schema);
  CreateTable st := lift (CreateTable st);
  AddIndex model name cols := lift (AddIndex model name cols);
  AddForeignKey model fk dest on_delete on_update := lift (AddForeignKey model fk dest on_delete on_update);
  DropTableIfExists names := lift (DropTableIfExists names);
|}.

#[local] Instance rows_schemas_laws : SchemasLaws (RefDB * Schema).
Proof.
  constructor.
  - exact (TableName_of (Tx := Schema)).
  - exact (ColumnName_of (Tx := Schema)).
  - intros st tx tx' (s & Hf & [= <-])%result_bind_Ok. by apply (CreateTable_Ok (Tx := Schema)) in Hf.
  - intros model name cols tx tx' (s & Hf & [= <-])%result_bind_Ok. by apply (AddIndex_Ok (Tx := Schema)) in Hf.
  - intros model fk dest od ou tx tx' (s & Hf & [= <-])%result_bind_Ok.
    by apply (AddForeignKey_Ok (Tx := Schema)) in Hf.
  - intros names tx tx' (s & Hf & [= <-])%result_bind_Ok. by apply (DropTableIfExists_Ok (Tx := Schema)) in Hf.
Qed.

Abbreviation LoadDB := (RefDB * Schema * list string)%type.
Definition set_ref (tx : LoadDB) (db : RefDB) : LoadDB := (db, tx.1.2, tx.2).
Definition on_rows (f : RefDB → result RefDB) (tx : LoadDB) : result LoadDB :=
  db ← f tx.1.1; Ok (set_ref tx db).

Lemma on_rows_Ok f tx tx' :
  on_rows f tx = Ok tx' → f tx.1.1 = Ok tx'.1.1 ∧ tx'.1.2 = tx.1.2 ∧ tx'.2 = tx.2.
Proof. by intros (s & Hs & [= <-])%result_bind_Ok. Qed.

#[local] Instance load_gorm : Gorm LoadDB := {|
  tables tx := tables tx.1.1;
  Find A _ q tx := Find A q tx.1.1;
  FindOne A _ q tx := FindOne A q tx.1.1;
  First A _ q tx := First A q tx.1.1;
  Count A _ q tx := Count A q tx.1.1;
  Create_JetDrop j := on_rows (Create_JetDrop j);
  Save_JetDrop j := on_rows (Save_JetDrop j);
  Save_Record r := on_rows (Save_Record r);
  Save_Pulse p := on_rows (Save_Pulse p);
  Create_Record r := on_rows (Create_Record r);
  Create_Pulse p := on_rows (Create_Pulse p);
  Create_Pulse_on_conflict cols p := on_rows (Create_Pulse_on_conflict cols p);
  UpdateColumns_Pulse n a b := on_rows (UpdateColumns_Pulse n a b);
  Update_Pulse n u tx := r ← Update_Pulse n u tx.1.1; Ok (r.1, set_ref tx r.2);
  Transaction f tx := f tx;
|}.

#[local] Instance load_gorm_laws : GormLaws LoadDB.
Proof.
  constructor; cbn [tables Find FindOne First Count Create_JetDrop Save_JetDrop Save_Record Save_Pulse
    Create_Record Create_Pulse Create_Pulse_on_conflict UpdateColumns_Pulse Update_Pulse Transaction load_gorm].
  - intros A ? q tx. apply (Find_Ok (DB := RefDB)).
  - intros A ? q tx. apply (FindOne_Ok (DB := RefDB)).
  - intros A ? q tx. apply (FindOne_not_found (DB := RefDB)).
  - intros A ? q tx. apply (First_Ok (DB := RefDB)).
  - intros A ? q tx. apply (First_not_found (DB := RefDB)).
  - intros A ? q tx. apply (Count_Ok (DB := RefDB)).
  - intros j tx tx' [? _]%on_rows_Ok. by apply (Create_JetDrop_Ok (DB := RefDB)).
  - intros j tx tx' [? _]%on_rows_Ok. by apply (Save_JetDrop_Ok (DB := RefDB)).
  - intros r tx tx' [? _]%on_rows_Ok. by apply (Save_Record_Ok (DB := RefDB)).
  - intros p tx tx' ? [? _]%on_rows_Ok. by apply (Save_Pulse_Ok (DB := RefDB)).
  - intros r tx tx' [? _]%on_rows_Ok. by apply (Create_Record_Ok (DB := RefDB)).
  - intros p tx tx' ? [? _]%on_rows_Ok. by apply (Create_Pulse_new (DB := RefDB)).
  - intros cols p tx tx' [? _]%on_rows_Ok. by apply (Create_Pulse_Ok (DB := RefDB)).
  - intros n a b tx tx' ? [? _]%on_rows_Ok. by apply (UpdateColumns_Pulse_Ok (DB := RefDB)).
  - intros n u tx k tx' ? ([k' db] & Hu & [= <- <-])%result_bind_Ok. by apply (Update_Pulse_Ok (DB := RefDB)).
  - intros f tx tx' Hf. by exists tx'.
  - done.
Qed.

#[local] Instance load_separate : SeparateLaws LoadDB.
Proof.
  constructor.
  - intros s tx tx' [(s' & _ & [= Heq])%result_bind_Ok ?]%lift_Ok. cbn. by rewrite <- Heq.
  - intros model name cols tx tx' [(s' & _ & [= Heq])%result_bind_Ok ?]%lift_Ok. cbn. by rewrite <- Heq.
  - intros model fk dest od ou tx tx' [(s' & _ & [= Heq])%result_bind_Ok ?]%lift_Ok. cbn. by rewrite <- Heq.
  - intros p tx tx' (_ & ? & ?)%on_rows_Ok. done.
  - intros j tx tx' (_ & ? & ?)%on_rows_Ok. done.
  - intros r tx tx' (_ & ? & ?)%on_rows_Ok. done.
  - by intros id tx tx' [= <-].
Qed.

(** An empty database, and what a command leaves of one. *)
Definition fresh_db : LoadDB := (up no_rows, ∅, []).
Definition migrated_db : LoadDB := (up no_rows, with_tables ∅, ["202005180421"]).
Definition loaded_db : LoadDB :=
  (main_loadtest_migrate (Tx := LoadDB) 1 ex_cfg (0, 0)%N None None migrated_db).2.
Definition command_done : list cmd_action := [PrintConfig; SetLogMode; LogInfo "migrated successfully!"; CloseDB].

Lemma migrations_compose_witness :
  main_migrate (Tx := LoadDB) None None fresh_db = (command_done, CmdReturned, migrated_db) ∧
  main_loadtest_migrate (Tx := LoadDB) 1 ex_cfg (0, 0)%N None None migrated_db =
    (command_done, CmdReturned, loaded_db) ∧
  well_formed (tables loaded_db) ∧ size (t_pulses (tables loaded_db)) = 2%nat ∧
  ∃ msg, main_migrate (Tx := LoadDB) None None loaded_db = ([PrintConfig; SetLogMode], CmdFatal msg, loaded_db).
Proof.
  assert (main_migrate (Tx := LoadDB) None None fresh_db = (command_done, CmdReturned, migrated_db)) as H1
    by (vm_compute; reflexivity).
  assert (main_migrate (Tx := LoadDB) None None migrated_db = (command_done, CmdReturned, migrated_db)) as H2
    by (vm_compute; reflexivity).
  assert (main_loadtest_migrate (Tx := LoadDB) 1 ex_cfg (0, 0)%N None None migrated_db =
    (command_done, CmdReturned, loaded_db)) as H3 by (vm_compute; reflexivity).
  pose proof (migrations_compose (Tx := LoadDB) 1 ex_cfg (0, 0)%N fresh_db command_done migrated_db
    command_done migrated_db command_done loaded_db) as Hlife.
  destruct (Hlife eq_refl eq_refl H1 H2 H3) as (_ & _ & _ & _ & _ & Hwf & _ & Hrefused).
  split; [exact H1|]. split; [exact H3|]. split; [exact Hwf|]. split; [vm_compute; reflexivity|exact Hrefused].
Defined.

(** Drops to make and no pulse to choose from: the generator panics, and nothing of the
    run is left. *)
Example load_panics :
  main_loadtest_migrate (Tx := LoadDB) 1 (mkTestDB 0 3 3) (0, 0)%N None None fresh_db =
    ([PrintConfig; SetLogMode; CloseDB], CmdPanicked, fresh_db).
Proof. vm_compute. reflexivity. Qed.


Lemma main_gen_spec_witness :
  (main_gen (map_to_list config_files) (λ _, no_failure) ∅).1 !! ".artifacts/api.yaml" = Some (FileWritten "API").
Proof.
  destruct (main_gen_spec (map_to_list config_files) (λ _, no_failure) ∅) as [Hiff Hfs]; [reflexivity|].
  rewrite Hfs; [vm_compute; reflexivity|]. apply Hiff. apply Forall_forall. reflexivity.
Defined.
