(* ===== verification/TestDb.v ===== *)
(** * The database of the tests: [src/testutils/db.go]

    A container with a database, the connections to it and the migrations.  Docker,
    the database driver and gormigrate are third-party code; what they answer are
    arguments. *)

From S2P Require Import Prelude GoStd Platform RefPlatform Models Converter Gorm RefDb WellFormed Random Migrations Commands.

(** [pool.Retry]: the operation runs until it does not fail, [n] times more at
    most. *)
Fixpoint pool_Retry {S} (n : nat) (op : S → S * option error) (s : S) : S * option error :=
  match op s with
  | (s, None) => (s, None)
  | (s, Some err) => match n with O => (s, Some err) | Datatypes.S n => pool_Retry n op s end
  end.

(** What is left open outside of the process. *)
Record Resources := mkResources { containers : nat; connections : nat }.

(** How a set-up ends: [log.Fatalf], [log.Panicf], or a return. *)
Inductive setup_end (A : Type) :=
  | SetupFatal (msg : string)
  | SetupPanic (msg : string)
  | SetupReturned (a : A).
Arguments SetupFatal {A}. Arguments SetupPanic {A}. Arguments SetupReturned {A}.

Definition setup_bind {A B} (e : setup_end A) (f : A → Resources * setup_end B) (r : Resources)
  : Resources * setup_end B :=
  match e with
  | SetupFatal msg => (r, SetupFatal msg)
  | SetupPanic msg => (r, SetupPanic msg)
  | SetupReturned a => f a
  end.

Definition createPool (newPool : option error) : setup_end () :=
  match newPool with
  | Some err => SetupFatal ("Could not connect to docker: " +:+ Error err)
  | None => SetupReturned ()
  end.

(** The function [createPoolCleaner] returns; a failure is only logged. *)
Definition poolCleaner (purge : option error) (r : Resources) : Resources :=
  match purge with
  | Some _ => r
  | None => mkResources (pred (containers r)) (connections r)
  end.

Definition RunDBInDocker (newPool run : option error) (r : Resources) : Resources * setup_end () :=
  setup_bind (createPool newPool) (λ _,
    match run with
    | Some err => (r, SetupPanic ("Could not start resource: " +:+ Error err))
    | None => (mkResources (S (containers r)) (connections r), SetupReturned ())
    end) r.

(** [run] is what docker answers for a port; an attempt that fails leaves no
    container. *)
Definition RunDBInDockerWithPortBindings (n : nat) (newPool : option error) (run : Z → option error)
  (r : Resources) : Resources * setup_end Z :=
  setup_bind (createPool newPool) (λ _,
    let '(hostPort, err) := pool_Retry n (λ hostPort, (hostPort + 1, run (hostPort + 1))) 10000 in
    match err with
    | Some err => (r, SetupPanic ("Could not start resource: " +:+ Error err))
    | None => (mkResources (S (containers r)) (connections r), SetupReturned hostPort)
    end) r.

Section setup.
Context `{Gormigrate Tx, !Schemas Tx}.

(** The answers: [dockertest.NewPool], [pool.Run], and for each attempt to connect
    [gorm.Open] and the first statement; the purge of a container and the closing
    of the connection. *)
Record SetupAnswers := mkSetupAnswers {
  sa_newPool : option error;
  sa_run : option error;
  sa_retries : nat;
  sa_open : nat → option error;
  sa_select : nat → option error;
  sa_purge : option error;
  sa_close : option error;
}.

(** One attempt: a connection that was opened is not closed when the statement on
    it fails. *)
Definition connect_attempt (a : SetupAnswers) (s : nat * nat) : (nat * nat) * option error :=
  let '(i, connections) := s in
  match sa_open a i with
  | Some err => ((S i, connections), Some err)
  | None => ((S i, S connections), sa_select a i)
  end.

Definition SetupDB (a : SetupAnswers) (db : Tx) (r : Resources)
  : Resources * Tx * setup_end (result Tx) :=
  let '(r, started) := RunDBInDocker (sa_newPool a) (sa_run a) r in
  match started with
  | SetupFatal msg => (r, db, SetupFatal msg)
  | SetupPanic msg => (r, db, SetupPanic msg)
  | SetupReturned _ =>
      let '((_, connections), err) := pool_Retry (sa_retries a) (connect_attempt a) (0%nat, connections r) in
      let r := mkResources (containers r) connections in
      match err with
      | Some err =>
          (poolCleaner (sa_purge a) r, db, SetupReturned (Err (ErrWrap err "Could not start postgres:")))
      | None =>
          let '(db, err) := gormigrate (MigrationOptions DefaultOptions) Migrations db in
          match err with
          | Some err => (r, db, SetupReturned (Err (ErrWrap err "Could not migrate:")))
          | None => (r, db, SetupReturned (Ok db))
          end
      end
  end.

(** The function it returns beside the database. *)
Definition cleaner (a : SetupAnswers) (r : Resources) : Resources :=
  let r := match sa_close a with
           | Some _ => r
           | None => mkResources (containers r) (pred (connections r))
           end in
  poolCleaner (sa_purge a) r.

(** [delete] is [db.Delete] of a model; [None]: [require.NoError] fails. *)
Fixpoint TruncateTables {M} (delete : M → Tx → result Tx) (models : list M) (db : Tx) : option Tx :=
  match models with
  | [] => Some db
  | m :: models =>
      match delete m db with
      | Err _ => None
      | Ok db => TruncateTables delete models db
      end
  end.
End setup.

(** ** Theorems *)

Lemma retry_port n run p p' err :
  pool_Retry n (λ hostPort, (hostPort + 1, run (hostPort + 1))) p = (p', err) →
  p < p' ≤ p + 1 + Z.of_nat n ∧ run p' = err ∧ (∀ q, p < q < p' → run q ≠ None).
Proof.
  revert p. induction n as [|n IH]; intros p; cbn [pool_Retry].
  { destruct (run (p + 1)) eqn:Hr; intros [= <- <-]; split_and!; [lia|lia|done|lia|lia|lia|done|lia]. }
  destruct (run (p + 1)) eqn:Hr; [|intros [= <- <-]; split_and!; [lia|lia|done|lia]].
  intros (Hp & Hrun & Hq)%IH. split_and!; [lia|lia|done|]. intros q Hq'.
  destruct (decide (q = p + 1)) as [->|]; [by rewrite Hr|]. apply Hq. lia.
Qed.

(** The container gets the first free port above 10000, if one is among those
    that are tried. *)
Theorem RunDBInDockerWithPortBindings_spec n run r r' p :
  RunDBInDockerWithPortBindings n None run r = (r', SetupReturned p) →
  10000 < p ≤ 10001 + Z.of_nat n ∧ run p = None ∧ (∀ q, 10000 < q < p → run q ≠ None) ∧
  containers r' = S (containers r).
Proof.
  unfold RunDBInDockerWithPortBindings. cbn [createPool setup_bind].
  destruct (pool_Retry _ _ _) as [p' [err|]] eqn:Hr; [done|]. intros [= <- <-].
  apply retry_port in Hr as (? & ? & ?). by split_and!; [lia|lia|..].
Qed.

(** Connections that were opened in vain. *)
Lemma retry_connect n a i c i' c' err :
  pool_Retry n (connect_attempt a) (i, c) = ((i', c'), err) →
  (i < i')%nat ∧
  c' = (c + length (filter (λ j, sa_open a j = None) (seq i (i' - i))))%nat ∧
  (err = None → sa_open a (pred i') = None ∧ sa_select a (pred i') = None).
Proof.
  assert (∀ i c s err, connect_attempt a (i, c) = (s, err) →
    s = (S i, (c + length (filter (λ j, sa_open a j = None) [i]))%nat) ∧
    (err = None → sa_open a i = None ∧ sa_select a i = None)) as Hone.
  { clear. intros i c s err. unfold connect_attempt. rewrite filter_cons, filter_nil.
    destruct (sa_open a i) eqn:Ho; intros [= <- <-].
    - split; [|done]. rewrite decide_False by congruence. cbn. by rewrite Nat.add_0_r.
    - split; [|done]. rewrite decide_True by done. cbn. by rewrite Nat.add_1_r. }
  revert i c. induction n as [|n IH]; intros i c; cbn [pool_Retry];
    destruct (connect_attempt a (i, c)) as [s1 e1] eqn:H1; apply Hone in H1 as [-> H1].
  - destruct e1; intros [= <- <- <-]; (split; [lia|]); replace (S i - i)%nat with 1%nat by lia;
      (split; [done|]); [done|]; intros _; by apply H1.
  - destruct e1 as [e1|].
    + intros (Hi & -> & Hok)%IH. split; [lia|]. split; [|done].
      replace (i' - i)%nat with (1 + (i' - S i))%nat by lia.
      rewrite seq_app, filter_app, length_app. cbn [seq]. rewrite Nat.add_1_r. lia.
    + intros [= <- <- <-]. split; [lia|]. replace (S i - i)%nat with 1%nat by lia.
      split; [done|]. intros _. by apply H1.
Qed.

Section spec.
Context `{GormigrateLaws Tx, !Schemas Tx, !SchemasLaws Tx}.

(** A set-up that succeeds hands over a migrated database in a new container, and
    its cleaner removes the container and the connection it uses, but not those
    whose first statement failed.  One that fails before the migration removes the
    container itself; one whose migration fails leaves the database as it was, and
    returns neither the database nor a cleaner: its container and its connection
    stay. *)
Theorem SetupDB_spec a db r r' db' res :
  sa_purge a = None → sa_close a = None →
  SetupDB a db r = (r', db', SetupReturned res) →
  match res with
  | Ok db1 =>
      db1 = db' ∧ run_pending Migrations db = Ok db' ∧ ¬ unknown Migrations db ∧
      containers r' = S (containers r) ∧ containers (cleaner a r') = containers r ∧
      (connections r ≤ connections (cleaner a r'))%nat ∧
      (sa_open a 0%nat = None → sa_select a 0%nat = None → connections (cleaner a r') = connections r)
  | Err err =>
      db' = db ∧
      ((∃ e, err = ErrWrap e "Could not start postgres:") ∧ containers r' = containers r ∨
       (∃ e, err = ErrWrap e "Could not migrate:") ∧ containers r' = S (containers r) ∧
         (connections r < connections r')%nat)
  end.
Proof.
  intros Hpurge Hclose. unfold SetupDB, RunDBInDocker.
  destruct (createPool _); cbn [setup_bind]; try done. destruct (sa_run a); [done|].
  cbn [connections containers].
  destruct (pool_Retry _ _ _) as [[i c] err] eqn:Hr.
  apply retry_connect in Hr as Hspec. destruct Hspec as (Hi & Hc & Hok).
  destruct err as [e|].
  { intros [= <- <- <-]. split; [done|]. left. split; [by eexists|]. unfold poolCleaner. by rewrite Hpurge. }
  destruct Hok as [Hopen Hsel]; [done|].
  assert (connections r < c)%nat as Hlt.
  { rewrite Hc, Nat.sub_0_r. destruct i as [|i]; [lia|]. rewrite seq_S, filter_app, length_app.
    cbn [pred] in Hopen. cbn [Nat.add]. rewrite filter_cons_True by done. cbn. lia. }
  destruct (gormigrate _ _ _) as [db1 [err|]] eqn:Hm; intros [= <- <- <-].
  - split; [exact (gormigrate_Err (MigrationOptions DefaultOptions) _ _ _ _ eq_refl Hm)|]. right. split; [by eexists|done].
  - split; [done|]. split; [exact (gormigrate_Ok _ _ _ _ Hm)|]. split.
    { intros Hu. destruct (gormigrate_refuses (MigrationOptions DefaultOptions) Migrations db eq_refl Hu)
        as [err Herr]. congruence. }
    unfold cleaner, poolCleaner. rewrite Hpurge, Hclose. cbn [containers connections].
    split_and!; [done|done|lia|]. intros Ho Hs.
    assert (pool_Retry (sa_retries a) (connect_attempt a) (0%nat, connections r) = ((1%nat, S (connections r)), None)) as Hone.
    { destruct (sa_retries a); cbn [pool_Retry connect_attempt]; by rewrite Ho, Hs. }
    rewrite Hone in Hr. injection Hr as _ <-. done.
Qed.
End spec.

(** ** The theorem at work *)

(** The second attempt to connect succeeds; the statement on the first failed. *)
Definition setup_answers : SetupAnswers :=
  mkSetupAnswers None None 3 (λ _, None)
    (λ i, if decide (i = 0%nat) then Some (ErrMsg "the database system is starting up") else None)
    None None.
#[local] Existing Instances history_schemas history_schemas_laws history_gormigrate history_gormigrate_laws.

Lemma SetupDB_spec_witness :
  let fresh := (∅ : Schema, [] : list string) in
  let migrated := (with_tables ∅, ["202005180421"]) in
  SetupDB setup_answers fresh (mkResources 0 0) =
    (mkResources 1 2, migrated, SetupReturned (Ok migrated)) ∧
  run_pending Migrations fresh = Ok migrated ∧
  containers (cleaner setup_answers (mkResources 1 2)) = 0%nat ∧
  connections (cleaner setup_answers (mkResources 1 2)) = 1%nat.
Proof.
  intros fresh migrated.
  assert (SetupDB setup_answers fresh (mkResources 0 0) =
    (mkResources 1 2, migrated, SetupReturned (Ok migrated))) as Hrun by (vm_compute; reflexivity).
  split; [exact Hrun|].
  destruct (SetupDB_spec setup_answers fresh (mkResources 0 0) (mkResources 1 2) migrated (Ok migrated)
    eq_refl eq_refl Hrun) as (_ & Hpending & _ & _ & Hcont & _ & _).
  split; [exact Hpending|]. split; [exact Hcont|]. reflexivity.
Defined.

(** A database that knows a migration the program does not: the container stays. *)
Example SetupDB_leaves_container :
  SetupDB setup_answers (∅ : Schema, ["202005180425"]) (mkResources 0 0) =
    (mkResources 1 2, (∅, ["202005180425"]),
     SetupReturned (Err (ErrWrap (ErrMsg "unknown migration in database") "Could not migrate:"))).
Proof. vm_compute. reflexivity. Qed.
